(* ===== verification/_CoqProject ===== *)
-Q . S2P
Prelude.v
Errors.v
RustStd.v
Capnp.v
Format.v
Digest.v
InodeTable.v
Wire.v
Compression.v
Oci.v
Layout.v
Reader.v
ReaderSafe.v
Walk.v
Fuse.v
Extractor.v
Target.v
ExtractTree.v
ExtractImage.v
ExtractStale.v
FsStream.v
Chunks.v
Verity.v
Builder.v
BuildFacts.v
BuildEnd.v
BuildType.v
Delta.v
BuildTree.v
Reproducible.v
BuildImage.v
Partial.v
History.v
ImageTree.v
FuseTree.v
BuildExtract.v
DeltaImage.v
DeltaExtract.v
DeltaBase.v
Main.v
Commands.v
UnitTests.v
Mount.v
MountFacts.v
MountLive.v
MountForeground.v
Concrete.v
Witnesses.v
BuildWitnesses.v
DeltaWitnesses.v
ExtractWitnesses.v
TreeWitnesses.v
ReproducibleWitnesses.v
PartialWitnesses.v
MountWitnesses.v
