(* ===== verification/Prelude.v ===== *)
(** PuzzleFS: a verification library.

    PuzzleFS is a container file system.  An image is an OCI directory: blobs filed under the
    SHA-256 of their content, and an index of tagged manifests.  A manifest lists the chunk blobs
    (pieces of the concatenation of all files, cut by a content-defined chunker) and one metadata
    blob, a Cap'n Proto message with a stack of layers of inodes and the fs-verity digests of the
    chunks.  [builder.rs] turns a directory tree into a first layer or a delta; [reader/] opens an
    image, finds inodes by number and path and reads file data, for the FUSE server, for the walk
    of the tree and for [extractor.rs], which unpacks an image; [exe/src/main.rs] is the command
    line.  Paths below are relative to [src/puzzlefs-lib/src/].

    * Files and what they model

    - [Prelude]: outcomes of Rust code ([Ok], [Err], panic, divergence) as a monad, unsigned
      arithmetic at its width with the two behaviours of a debug and a release build ([Profile]),
      slices of buffers, the order of byte strings, tactics and the hint database [pfs].
    - [Errors]: [format/error.rs].  [RustStd]: [str::split] and Unix paths as lists of components.
    - [Capnp]: the schema [format/metadata.capnp]; a message is a tree whose pointers may be null
      or malformed.  [Format]: the types of [format/types.rs], the [from_capnp] and [fill_capnp]
      functions, constructors and accessors of [Inode].  [Digest]: [struct Digest] and its texts.
    - [InodeTable]: [InodeVector] and [RootfsReader] of [format/types.rs], and the specification
      of a stack of layers as a finite map ([overlay], [visible]).  [Wire]: a concrete encoding.
    - [Compression]: [compression.rs] as a class with laws, [noop.rs] and
      [zstd_seekable_wrapper.rs] as its instances.
    - [Oci]: [oci.rs], [oci/media_types.rs], [fsverity_helpers.rs].  The store is a map from names
      to files; a file has data and, once sealed, a measurement.  [Layout]: the image directory on
      the disk ([Image::new], [Image::open]).
    - [Reader]: [reader/puzzlefs.rs]; [ReaderSafe] treats it on arbitrary images.  [Walk]:
      [reader/walk.rs].  [Fuse]: the requests of [reader/fuse.rs], one constructor of [Request] and
      one handler [fs_*] per method, [handle] the dispatch.
    - [Extractor]: [extractor.rs] in a state monad over an abstract target, with a log of all
      operations performed.  [Target] specifies a target as a tree of files with their links, and
      what each operation does to it; [ExtractTree] (one entry) and [ExtractImage] (an image) show
      what an extraction leaves there, [ExtractStale] that it fails on entries that name nothing.
    - [FsStream]: [builder/filesystem.rs].  [Chunks]: [process_chunks].  [Builder]: the rest of
      [builder.rs]; its theorems are in [BuildFacts] (numbers), [BuildEnd] (contents, publishing,
      stacking), [BuildType] (well-formedness), [Delta] (whiteouts, hard links), [BuildTree] (what a
      scan records of a tree, for a first layer or a delta), [BuildImage] (the image of a tree),
      [ImageTree] (its directories and paths), [FuseTree] (the server over it),
      [DeltaImage] (the image after a delta), [DeltaExtract] (deltas in which names were removed),
      [DeltaBase] (base images without hard links), [BuildExtract] (the round trip through an image)
      and [Reproducible] (two builds of one tree on two hosts).
    - [Verity]: [enable_fs_verity].  [Partial]: the operations of [oci.rs] and [builder.rs] that write
      to the store once more, as [*_kept], with the store they leave when they fail; blobs are written
      in place and a write may stop half way.  [History]: sequences of builds and sealings on one
      store, however they end.
    - [Main]: [parse_oci_dir], the build, extract and enable-fs-verity commands, mount options.
      [Commands]: the build and extract commands one after the other, and builds that fail.
      [UnitTests]: the unit tests of the sources that need no data files.
    - [Mount]: the mount and umount commands, [mount] and [spawn_mount] of [reader.rs] and the life
      of the server ([new], [init], [drop]).  The code of a thread is a tree of system calls
      ([proc]); [tstep] is one call of one thread, [bstep] the background command with its daemon
      and their pipe, [fstep] the foreground command with its threads and their channel.
      [MountFacts], [MountLive] and [MountForeground] hold the theorems.
    - [Concrete], [Witnesses], [BuildWitnesses], [DeltaWitnesses], [ExtractWitnesses],
      [TreeWitnesses], [ReproducibleWitnesses], [PartialWitnesses], [MountWitnesses]: executable
      instances of every interface, small images and host trees, and the application of each
      theorem to them.

    * Interfaces

    Code that is not in the repository is a class whose operations are arguments of the
    definitions, with its documented behaviour as a second class of laws: [Hex], [CapnpWire],
    [ZstdSeekable], [Sha256], [FsVerity], [OciDigest], [OciDir], [OFlags], [ReplyDirectory],
    [StreamCDC], [WalkDir], [HashOrder], [NixStat], and the operating system ([OsRead], [HostFs],
    [TargetFs], [OciStore], [BlobWrite], [OciDirFail]).  [TargetFsOk] states that the target behaves as the tree of [Target], with
    the effects of chown(2) on modes and capabilities.  [Compression] is the program's own interface:
    [Oci] is proved against its laws, and [Noop_ok] and [Zstd_ok] discharge them.

    * What the theorems show

    - Trees: the image built from a directory tree opens, and looking up any path in it gives what
      the host has there, hard links included ([build_open_tree], against the specification
      [host_lookup]), and so do the replies of the server ([build_mount_tree]);
      extracting an image makes the files its lookups find ([extract_rootfs_tree]);
      so building and extracting copies the tree ([build_extract_roundtrip], and
      [build_extract_commands] for the command line).  The image after a delta is the tree as it is
      now ([delta_open_tree]) provided that the layer is not one the base image already has and that
      the numbers taken over from the base image do not collide, which they cannot if the base image
      has no hard links ([delta_over_unlinked_base]).  Steps on the way are [build_delta_contents],
      [process_chunks_correct], [FilesystemStream_concatenates], [put_blob_fill_from_chunk] and
      [file_read_correct].
    - Reproducibility: trees with the same contents make the same image, blob for blob, whatever the
      host's inode numbers, paths, orders of directory listings and hashing orders
      ([build_reproducible], and [delta_reproducible] for deltas); proved by relating the states of
      the two scans ([twins]).  The extended attributes of a file must be listed in the same order,
      in which they are recorded ([get_xattrs_order_matters]).
    - Histories: no later build or sealing changes the data of a published image
      ([published_images_stay]), and a build command that fails, in the middle of a write too, leaves
      the data of every image of its directory as it was ([build_command_keeps_images]).  Seals are
      not part of this: [ocidir] may replace a sealed manifest by a file with the same data that is
      not sealed, and its laws ([OciDirOk], [OciDirFailOk]) are about data only.  Failing writes change nothing else about the command
      ([build_command_agrees]).
    - Metadata: the codec is a round trip ([Rootfs_roundtrip]); layers are written fit for binary
      search ([build_delta_initial_sorted]) and well formed ([build_delta_well_formed]);
      the search through the layers is a map lookup
      ([RootfsReader_find_inode_refines]); deltas stack ([add_rootfs_delta_stacks])
      and their whiteouts are exact ([add_whiteouts_exact]).
    - Integrity: verified opening and reading fail closed ([PuzzleFS_open_verified],
      [fill_from_chunk_verified]), and sealing an image makes it pass ([enable_fs_verity_opens]).
    - Safety: an extraction stays inside its directory for any image ([extract_rootfs_confined]),
      a mount is read-only ([Fuse_read_only]); on arbitrary images opening never panics
      ([PuzzleFS_open_returns]) and reads stay in their buffer ([file_read_in_bounds]).
    - Mounting, over all answers of the system and all interleavings: the background command
      reports success only for a mounted file system ([mount_background_truthful]) and always
      reports while both processes live and no session ends before INIT without an error
      ([mount_background_reports], by well-founded recursion on the calls left); a daemon that goes
      without a word leaves it waiting for ever ([mount_background_hangs]), because the command has a
      writing end of the pipe open, an invariant ([holds]) that the other two rest on; the foreground command ends when, and only when, it should
      ([mount_foreground_ends]); unmounting respects the order ([main_umount_order]).
    - Views: the walk, FUSE lookup and path lookup agree; paging through a directory is complete;
      extended attributes follow the size protocol.
    - Behaviour that is probably not intended is stated as theorems too: an empty layer panics, a
      read opens chunks it does not need, a directory that has lost a name since the base image can be
      neither listed nor extracted, a blob that was written half way blocks its name for ever, the
      reproducibility test compares nothing, a layer equal to
      an older one is dropped, removing one hard link loses the others, a daemon that is killed, or
      whose file system is unmounted before INIT, hangs the command, a writable mount succeeds without its overlay, the announced fs-verity digest of
      an incompressible chunk is wrong, and extraction as root changes owners through links and
      loses set-user-ID bits and capabilities.

    * Fuel and bounds

    Loops that are not structural take fuel.  Where the definition fixes it, it is the obvious
    bound: the length of the vector plus one for the binary search, the length of the buffer for
    [write_all], the number of files left plus two for one chunk, the length of the file plus one
    for a copy; the theorems prove [Ok], hence that it suffices.  The walk of a malformed image
    may be infinite; there the fuel is an argument, theorems of safety hold for any fuel and those
    of functional behaviour name one that is enough.  Bounds of the form [2^63] and [2^64] are
    those of file offsets and of [u64]/[usize]; [wf_rootfs] states the 32-bit list lengths.

    * What is not modelled

    The files of an image directory are known through [OciStore] only; index.json belongs to
    [OciDir].  The parsing of arguments and of mountinfo, the dispatch on the subcommand and what is
    logged are left out.  Of
    the pipe between the mount command and its daemon the reading ends are not tracked: a write may
    fail at any time.  The second fork of the [daemonize] crate is not a step of its own.  Times in [FileAttr] are constants.  Temporary files of [ocidir] and the part of a
    file written by a copy that fails are not tracked.  The host does not change during a build.  Of
    the tests inside the sources, those that build the picture under [builder/test] or that set up
    directories of the host are left out, as are the integration tests.  What remains of the sources
    are declarations, trait headers and tests. *)

From Stdlib Require Export NArith ZArith Lia Strings.Byte.
From stdpp Require Export base gmap list strings sorting.

(** * Outcomes

    A Rust function that returns [Result<T, E>] has four observable outcomes: it returns
    [Ok], it returns [Err], it panics, or it does not return.  The last one only arises in
    the model as the exhaustion of a loop's fuel; every functional theorem of the library
    proves an [Ok] or [Err] outcome, hence that the fuel is enough. *)

Inductive outcome (E A : Type) : Type :=
| Ok (a : A)
| Err (e : E)
| Panic
| Diverged.

Arguments Ok {E A} a.
Arguments Err {E A} e.
Arguments Panic {E A}.
Arguments Diverged {E A}.

#[export] Instance outcome_ret E : MRet (outcome E) := fun A a => Ok a.

#[export] Instance outcome_bind E : MBind (outcome E) := fun A B k c =>
  match c with
  | Ok a => k a
  | Err e => Err e
  | Panic => Panic
  | Diverged => Diverged
  end.

#[export] Instance outcome_fmap E : FMap (outcome E) := fun A B f c =>
  match c with
  | Ok a => Ok (f a)
  | Err e => Err e
  | Panic => Panic
  | Diverged => Diverged
  end.

(** [Result::map_err], and the conversion the [?] operator inserts. *)
Definition map_err {E F A} (f : E -> F) (c : outcome E A) : outcome F A :=
  match c with
  | Ok a => Ok a
  | Err e => Err (f e)
  | Panic => Panic
  | Diverged => Diverged
  end.

(** [Option::ok_or]. *)
Definition ok_or {E A} (o : option A) (e : E) : outcome E A :=
  match o with Some a => Ok a | None => Err e end.

(** [Option::unwrap]. *)
Definition unwrap {E A} (o : option A) : outcome E A :=
  match o with Some a => Ok a | None => Panic end.

(** [Option::transpose] on [Option<Result<T>>]. *)
Definition transpose {E A} (o : option (outcome E A)) : outcome E (option A) :=
  match o with
  | None => Ok None
  | Some c => Some <$> c
  end.

(** The call returns: it neither panics nor diverges. *)
Definition returns {E A} (r : outcome E A) : Prop :=
  match r with Ok _ | Err _ => True | _ => False end.

(** [assert!]. *)
Definition assert_ {E} (b : bool) : outcome E () := if b then Ok () else Panic.

(** * Build profiles and fixed-width arithmetic

    Unsigned integers are [N]; their width is written out where it matters.  Rust checks
    overflow in a debug build (the arithmetic panics) and wraps in a release build.  The
    library is parametric in that choice. *)

Class Profile := overflow_checks : bool.

Definition u16_bits : N := 16.
Definition u32_bits : N := 32.
Definition u64_bits : N := 64.
(** PuzzleFS is built for 64-bit Linux. *)
Definition usize_bits : N := 64.

Section arith.
Context {P : Profile} {E : Type}.

Definition add_w (w a b : N) : outcome E N :=
  if (a + b <? 2 ^ w)%N then Ok (a + b)%N
  else if overflow_checks then Panic else Ok ((a + b) mod 2 ^ w)%N.

Definition sub_w (w a b : N) : outcome E N :=
  if (b <=? a)%N then Ok (a - b)%N
  else if overflow_checks then Panic else Ok (a + 2 ^ w - b)%N.

(** [Iterator::sum] on unsigned integers. *)
Fixpoint sum_from (w acc : N) (l : list N) : outcome E N :=
  match l with
  | [] => Ok acc
  | x :: l => acc' ← add_w w acc x; sum_from w acc' l
  end.

Definition sum_w (w : N) (l : list N) : outcome E N := sum_from w 0 l.

End arith.

(** [usize::saturating_sub]: truncated subtraction on [N]. *)
Definition saturating_sub (a b : N) : N := (a - b)%N.

(** [x as u32] and friends. *)
Definition cast_w (w x : N) : N := (x mod 2 ^ w)%N.

(** The length of a [Vec] or slice. *)
Definition len {A} (l : list A) : N := N.of_nat (length l).

Abbreviation bytes := (list byte).

(** A byte-string literal [b"..."]. *)
Definition bstr (s : string) : bytes := String.list_byte_of_string s.

#[export] Instance byte_eq_dec : EqDecision byte := Byte.byte_eq_dec.

#[export] Instance byte_countable : Countable byte :=
  inj_countable Byte.to_N Byte.of_N Byte.of_to_N.

#[export] Instance outcome_eq_dec E A `{!EqDecision E, !EqDecision A} : EqDecision (outcome E A).
Proof. solve_decision. Defined.

(** [take]/[drop] indexed by machine integers. *)
Definition slice {A} (off n : N) (l : list A) : list A :=
  take (N.to_nat n) (drop (N.to_nat off) l).

(** The first [n] bytes of a buffer overwritten from position [at]: what a read into
    [&mut data[at..]] leaves behind. *)
Definition splice {A} (pos : N) (src dst : list A) : list A :=
  take (N.to_nat pos) dst ++ src ++ drop (N.to_nat pos + length src) dst.

(** The order of byte strings ([Ord] of [[u8]], [OsStr]): lexicographic. *)
Fixpoint bytes_leb (a b : bytes) : bool :=
  match a, b with
  | [], _ => true
  | _ :: _, [] => false
  | x :: a, y :: b =>
      if (Byte.to_N x <? Byte.to_N y)%N then true
      else if (Byte.to_N y <? Byte.to_N x)%N then false
      else bytes_leb a b
  end.

Definition bytes_le (a b : bytes) : Prop := bytes_leb a b = true.

#[export] Instance bytes_le_dec : RelDecision bytes_le.
Proof. intros a b. unfold bytes_le. apply _. Defined.

(** * Automation *)

Create HintDb pfs.
Create Rewrite HintDb pfs.

Lemma returns_bind {E A B} (r : outcome E A) (f : A -> outcome E B) :
  returns r -> (forall a, r = Ok a -> returns (f a)) -> returns (r ≫= f).
Proof. destruct r; cbn; intros Hr Hf; try done. by apply Hf. Qed.

Lemma returns_map_err {E F A} (f : E -> F) (r : outcome E A) : returns r -> returns (map_err f r).
Proof. by destruct r. Qed.

Lemma returns_fmap {E A B} (f : A -> B) (r : outcome E A) : returns r -> returns (f <$> r).
Proof. by destruct r. Qed.

Lemma returns_ok_or {E A} (o : option A) (e : E) : returns (ok_or o e).
Proof. by destruct o. Qed.

Create HintDb returns.
#[export] Hint Resolve returns_map_err returns_fmap returns_ok_or : returns.

(** Case analysis on the first [outcome] matched on in a hypothesis. *)
Ltac outcome_inv :=
  repeat match goal with
  | H : (_ ≫= _) = _ |- _ => unfold mbind, outcome_bind in H
  | H : mret _ = _ |- _ => unfold mret, outcome_ret in H
  | H : (_ <$> _) = _ |- _ => unfold fmap, outcome_fmap in H
  | H : match ?c with Ok _ => _ | Err _ => _ | Panic => _ | Diverged => _ end = _ |- _ =>
      let Hc := fresh "Hc" in destruct c eqn:Hc; simplify_eq
  end.

(** Run a bind whose first computation is already an outcome, and nothing else. *)
Ltac bsimpl := cbn [mbind outcome_bind mret outcome_ret fmap outcome_fmap].

(** Discharge a side condition about machine integers. *)
Ltac word_lia := unfold len, cast_w, u16_bits, u32_bits, u64_bits, usize_bits in *; lia.

(** * Lemmas on outcomes *)

Lemma bind_ok {E A B} (c : outcome E A) (k : A -> outcome E B) (a : A) :
  c = Ok a -> (c ≫= k) = k a.
Proof. by intros ->. Qed.

Lemma bind_ok_inv {E A B} (c : outcome E A) (k : A -> outcome E B) (b : B) :
  (c ≫= k) = Ok b -> exists a, c = Ok a /\ k a = Ok b.
Proof. destruct c; simpl; [eauto | done..]. Qed.

Lemma bind_assoc {E A B C} (c : outcome E A) (k : A -> outcome E B) (h : B -> outcome E C) :
  ((c ≫= k) ≫= h) = (c ≫= fun a => k a ≫= h).
Proof. by destruct c. Qed.

Lemma map_err_ok_inv {E F A} (f : E -> F) (c : outcome E A) a :
  map_err f c = Ok a -> c = Ok a.
Proof. destruct c; naive_solver. Qed.

Lemma mapM_ok {E A B} (f : A -> outcome E B) (l : list A) (k : list B) :
  Forall2 (fun x y => f x = Ok y) l k -> mapM f l = Ok k.
Proof. induction 1 as [|x y l k Hxy _ IH]; simpl; [done|]. rewrite Hxy. simpl. by rewrite IH. Qed.

Lemma mapM_ok_inv {E A B} (f : A -> outcome E B) (l : list A) (k : list B) :
  mapM f l = Ok k -> Forall2 (fun x y => f x = Ok y) l k.
Proof.
  revert k; induction l as [|x l IH]; simpl; intros k H.
  - injection H as <-. constructor.
  - apply bind_ok_inv in H as (y & Hy & H). apply bind_ok_inv in H as (k' & Hk & H).
    injection H as <-. constructor; eauto.
Qed.

Lemma mapM_elem {E A B} (f : A -> outcome E B) l k x : mapM f l = Ok k -> x ∈ l -> exists y, f x = Ok y /\ y ∈ k.
Proof.
  intros Hm%mapM_ok_inv (i & Hi)%list_elem_of_lookup. destruct (Forall2_lookup_l _ _ _ _ _ Hm Hi) as (y & Hy & Hxy).
  eauto using list_elem_of_lookup_2.
Qed.

Lemma mapM_ok_map {E A B} (f : A -> outcome E B) (g : A -> B) (l : list A) :
  (forall x, x ∈ l -> f x = Ok (g x)) -> mapM f l = Ok (g <$> l).
Proof.
  intros H. apply mapM_ok. induction l as [|x l IH]; simpl; constructor.
  - apply H. left.
  - apply IH. intros y Hy. apply H. by right.
Qed.

Lemma mapM_cons_ok {E A B} (f : A -> outcome E B) x l y k :
  f x = Ok y -> mapM f l = Ok k -> mapM f (x :: l) = Ok (y :: k).
Proof. intros Hx Hl. simpl. rewrite Hx. simpl. by rewrite Hl. Qed.

Lemma mapM_exists {E A B} (f : A -> outcome E B) l :
  (forall x, x ∈ l -> exists y, f x = Ok y) -> exists k, mapM f l = Ok k.
Proof.
  induction l as [|x l IH]; intros Hall; [by exists []|].
  destruct (Hall x) as (y & Hy); [by left|]. destruct IH as (k & Hk); [intros z Hz; apply Hall; by right|].
  exists (y :: k). by apply mapM_cons_ok.
Qed.

(** * Lemmas on machine arithmetic *)

Section arith_lemmas.
Context {P : Profile} {E : Type}.

Lemma add_w_ok w a b : (a + b < 2 ^ w)%N -> add_w (E := E) w a b = Ok (a + b)%N.
Proof. unfold add_w. intros H. by rewrite (proj2 (N.ltb_lt _ _) H). Qed.

Lemma sub_w_ok w a b : (b <= a)%N -> sub_w (E := E) w a b = Ok (a - b)%N.
Proof. unfold sub_w. intros H. by rewrite (proj2 (N.leb_le _ _) H). Qed.

Lemma sum_from_ok w acc l :
  (acc + foldr N.add 0 l < 2 ^ w)%N ->
  sum_from (E := E) w acc l = Ok (acc + foldr N.add 0 l)%N.
Proof.
  revert acc; induction l as [|x l IH]; intros acc H; cbn [sum_from foldr] in *.
  - by rewrite N.add_0_r.
  - rewrite add_w_ok by lia. cbn. rewrite IH by lia. f_equal. lia.
Qed.

Lemma sum_w_ok w l :
  (foldr N.add 0 l < 2 ^ w)%N -> sum_w (E := E) w l = Ok (foldr N.add 0 l)%N.
Proof. intros H. unfold sum_w. by rewrite sum_from_ok. Qed.

End arith_lemmas.

Lemma cast_w_small w x : (x < 2 ^ w)%N -> cast_w w x = x.
Proof. unfold cast_w. apply N.mod_small. Qed.

#[export] Hint Rewrite @add_w_ok @sub_w_ok @sum_w_ok cast_w_small using word_lia : pfs.

(** * Lemmas on slices *)

Section slices.
Context {A : Type}.
Implicit Types l : list A.

Lemma len_app l1 l2 : len (l1 ++ l2) = (len l1 + len l2)%N.
Proof. unfold len. rewrite length_app. lia. Qed.

Lemma len_nil : len (@nil A) = 0%N.
Proof. done. Qed.

Lemma len_cons x l : len (x :: l) = (1 + len l)%N.
Proof. unfold len. simpl. lia. Qed.

Lemma len_slice off n l : len (slice off n l) = N.min n (len l - off).
Proof. unfold len, slice. rewrite length_take, length_drop. lia. Qed.

Lemma slice_0 off l : slice off 0 l = [].
Proof. unfold slice. by rewrite take_0. Qed.

Lemma slice_past off n l : (len l <= off)%N -> slice off n l = [].
Proof. unfold slice, len. intros H. rewrite drop_ge by lia. apply take_nil. Qed.

Lemma slice_all n l : (len l <= n)%N -> slice 0 n l = l.
Proof. unfold slice, len. intros H. rewrite drop_0. apply take_ge. lia. Qed.

Lemma slice_app_l off n l1 l2 :
  (off + n <= len l1)%N -> slice off n (l1 ++ l2) = slice off n l1.
Proof.
  unfold slice, len. intros H.
  rewrite drop_app_le by lia. apply take_app_le. rewrite length_drop. lia.
Qed.

Lemma slice_app_r off n l1 l2 :
  (len l1 <= off)%N -> slice off n (l1 ++ l2) = slice (off - len l1) n l2.
Proof.
  unfold slice, len. intros H. rewrite drop_app_ge by lia. do 2 f_equal. lia.
Qed.

(** A read that starts in [l1] and may run over into [l2]. *)
Lemma slice_app off n l1 l2 :
  (off <= len l1)%N ->
  slice off n (l1 ++ l2) = slice off n l1 ++ slice 0 (n - (len l1 - off)) l2.
Proof.
  unfold slice, len. intros H. rewrite drop_app_le by lia. rewrite take_app, length_drop, drop_0.
  do 2 f_equal. lia.
Qed.

(** Asking for more than there is changes nothing. *)
Lemma slice_min off n l : slice off (N.min n (len l - off)) l = slice off n l.
Proof.
  unfold slice, len. destruct (N.min_spec n (N.of_nat (length l) - off)) as [[_ ->]|[? ->]]; [done|].
  rewrite !take_ge; [done|..]; rewrite length_drop; lia.
Qed.

Lemma slice_add off n m l : slice off (n + m) l = slice off n l ++ slice (off + n) m l.
Proof.
  unfold slice. rewrite !N2Nat.inj_add, <-drop_drop. symmetry. apply take_take_drop.
Qed.

Lemma slice_slice o1 n1 o2 n2 l :
  (o2 + n2 <= n1)%N -> slice o2 n2 (slice o1 n1 l) = slice (o1 + o2) n2 l.
Proof.
  unfold slice. intros H. rewrite skipn_firstn_comm, take_take, drop_drop.
  f_equal; [lia|]. f_equal. lia.
Qed.

Lemma length_splice pos (src dst : list A) :
  (pos + len src <= len dst)%N -> length (splice pos src dst) = length dst.
Proof.
  unfold splice, len. intros H. rewrite !length_app, length_take, length_drop. lia.
Qed.

Lemma len_splice pos (src dst : list A) :
  (pos + len src <= len dst)%N -> len (splice pos src dst) = len dst.
Proof. intros H. unfold len at 1. by rewrite length_splice. Qed.

Lemma splice_nil pos (dst : list A) : splice pos [] dst = dst.
Proof. unfold splice. simpl. rewrite Nat.add_0_r. apply take_drop. Qed.

(** Two consecutive writes are one. *)
Lemma splice_splice pos (s1 s2 dst : list A) :
  (pos + len s1 + len s2 <= len dst)%N ->
  splice (pos + len s1) s2 (splice pos s1 dst) = splice pos (s1 ++ s2) dst.
Proof.
  intros H. unfold splice, len in *.
  assert (length (take (N.to_nat pos) dst ++ s1) = N.to_nat (pos + N.of_nat (length s1))) as Hl
    by (rewrite length_app, length_take; lia).
  rewrite (app_assoc (take _ dst) s1). rewrite take_app_length' by lia.
  rewrite drop_app_ge by lia. rewrite drop_drop, Hl, length_app, <-!app_assoc.
  do 4 f_equal. lia.
Qed.

Lemma slice_splice_0 (src dst : list A) :
  (len src <= len dst)%N -> slice 0 (len src) (splice 0 src dst) = src.
Proof.
  intros H. unfold slice, splice, len. simpl. rewrite drop_0, Nat2N.id.
  apply take_app_length.
Qed.

End slices.

#[export] Hint Rewrite @len_app @len_nil @len_cons @len_slice : pfs.

(** * The lexicographic order *)

#[export] Instance bytes_le_total : Total bytes_le.
Proof.
  intros a. unfold bytes_le. induction a as [|x a IH]; intros [|y b]; simpl; auto.
  destruct (N.ltb_spec (Byte.to_N x) (Byte.to_N y)); auto.
  destruct (N.ltb_spec (Byte.to_N y) (Byte.to_N x)); auto.
Qed.

#[export] Instance bytes_le_trans : Transitive bytes_le.
Proof.
  intros a. unfold bytes_le. induction a as [|x a IH]; intros [|y b] [|z c]; simpl; try done.
  repeat match goal with
  | |- context [(?m <? ?n)%N] => destruct (N.ltb_spec m n)
  end; try done; try lia; eauto.
Qed.

#[export] Instance bytes_le_antisymm : AntiSymm (=) bytes_le.
Proof.
  intros a. unfold bytes_le. induction a as [|x a IH]; intros [|y b]; simpl; try done.
  repeat match goal with
  | |- context [(?m <? ?n)%N] => destruct (N.ltb_spec m n)
  end; try done; try lia.
  intros H1 H2. f_equal; [|by apply IH].
  assert (Some x = Some y) as [=] by (rewrite <-!Byte.of_to_N; f_equal; lia). done.
Qed.
