(* ===== verification/Errors.v ===== *)
(** The error types of [format/error.rs]: [WireFormatError], its conversion to an errno, and
    the parts of [std::io::Error], [nix::errno::Errno] and [hex::FromHexError] it wraps. *)

From S2P Require Import Prelude.

(** The [nix::errno::Errno] values the sources name. *)
Inductive Errno :=
| ENOENT | EEXIST | ENOTDIR | EINVAL | ESPIPE | EROFS | ERANGE | ENOLCK | ENOSYS | ENODATA.

(** [errno as i32]: the Linux numbering. *)
Definition errno_code (e : Errno) : Z :=
  match e with
  | ENOENT => 2
  | EEXIST => 17
  | ENOTDIR => 20
  | EINVAL => 22
  | ESPIPE => 29
  | EROFS => 30
  | ERANGE => 34
  | ENOLCK => 37
  | ENOSYS => 38
  | ENODATA => 61
  end.

(** [std::io::ErrorKind], as far as the sources tell kinds apart. *)
Inductive ErrorKind := NotFound | AlreadyExists | WriteZero | OtherKind.

(** [std::io::Error]: either an OS error with its raw code or an error built from a kind. *)
Inductive io_error :=
| OsError (code : Z)
| CustomError (k : ErrorKind).

(** [io::Error::raw_os_error]. *)
Definition raw_os_error (e : io_error) : option Z :=
  match e with OsError c => Some c | CustomError _ => None end.

(** [io::Error::kind]. *)
Definition io_kind (e : io_error) : ErrorKind :=
  match e with
  | OsError c =>
      if (c =? errno_code ENOENT)%Z then NotFound
      else if (c =? errno_code EEXIST)%Z then AlreadyExists
      else OtherKind
  | CustomError k => k
  end.

(** [hex::FromHexError]. *)
Inductive FromHexError := InvalidHexCharacter | OddLength | InvalidStringLength.

(** [capnp::Error]; the sources never inspect it. *)
Inductive capnp_error := CapnpMalformed.

(** The messages carried by [InvalidFsVerityData], one constructor per format string. *)
Inductive verity_msg :=
| BadHashLength (expected : bytes)
| VerityMismatch (expected measured : bytes)
| MissingVerityData (digest : bytes)
| MissingRootfsAnnotations
| MissingRootfsVerityAnnotation.

(** [WireFormatError]; the captured backtraces are left out. *)
Inductive WireFormatError :=
| LocalRefError
| SeekOtherError
| InvalidSerializedData
| InvalidImageSchema (schema : Z)
| InvalidImageVersion (got expected : N)
| InvalidFsVerityData (msg : verity_msg)
| MissingManifest (tag : bytes)
| MissingRootfs
| IOError (e : io_error)
| CapnpError (e : capnp_error)
| FromIntError
| JSONError
| FromSliceError
| HexError (e : FromHexError)
| OciError
| OciDirError.

(** [WireFormatError::to_errno]. *)
Definition to_errno (e : WireFormatError) : Z :=
  match e with
  | LocalRefError => errno_code EINVAL
  | SeekOtherError => errno_code ESPIPE
  | InvalidSerializedData => errno_code EINVAL
  | InvalidImageSchema _ => errno_code EINVAL
  | InvalidImageVersion _ _ => errno_code EINVAL
  | InvalidFsVerityData _ => errno_code EINVAL
  | MissingManifest _ => errno_code EINVAL
  | MissingRootfs => errno_code EINVAL
  | IOError ioe => default (errno_code EINVAL) (raw_os_error ioe)
  | CapnpError _ => errno_code EINVAL
  | JSONError => errno_code EINVAL
  | HexError _ => errno_code EINVAL
  | FromIntError => errno_code EINVAL
  | FromSliceError => errno_code EINVAL
  | OciError => errno_code EINVAL
  | OciDirError => errno_code EINVAL
  end.

(** [WireFormatError::from_errno]. *)
Definition from_errno (e : Errno) : WireFormatError := IOError (OsError (errno_code e)).

(** [type Result<T> = std::result::Result<T, WireFormatError>]. *)
Abbreviation Result := (outcome WireFormatError).
(** [std::io::Result<T>]. *)
Abbreviation io_Result := (outcome io_error).

(** [usize::try_into::<u32>()] followed by [?]. *)
Definition try_into_u32 (n : N) : Result N :=
  if (n <? 2 ^ u32_bits)%N then Ok n else Err FromIntError.

#[export] Instance errno_eq_dec : EqDecision Errno.
Proof. solve_decision. Defined.
#[export] Instance error_kind_eq_dec : EqDecision ErrorKind.
Proof. solve_decision. Defined.
#[export] Instance io_error_eq_dec : EqDecision io_error.
Proof. solve_decision. Defined.
#[export] Instance hex_error_eq_dec : EqDecision FromHexError.
Proof. solve_decision. Defined.
#[export] Instance capnp_error_eq_dec : EqDecision capnp_error.
Proof. solve_decision. Defined.
#[export] Instance verity_msg_eq_dec : EqDecision verity_msg.
Proof. solve_decision. Defined.
#[export] Instance wire_error_eq_dec : EqDecision WireFormatError.
Proof. solve_decision. Defined.

(** An errno survives the trip through [WireFormatError]: what a FUSE client sees is the code
    the failing operation named. *)
Lemma to_from_errno e : to_errno (from_errno e) = errno_code e.
Proof. done. Qed.

Lemma errno_code_inj e1 e2 : errno_code e1 = errno_code e2 -> e1 = e2.
Proof. destruct e1, e2; done. Qed.

Lemma try_into_u32_ok n : (n < 2 ^ u32_bits)%N -> try_into_u32 n = Ok n.
Proof. unfold try_into_u32. intros H. by rewrite (proj2 (N.ltb_lt _ _) H). Qed.
