(* ===== verification/RustStd.v ===== *)
(** The parts of the Rust standard library on strings and paths that the sources rely on:
    [str::split], [str::split_terminator], [Path::components] on Unix, [Path::join],
    [PathBuf::push] and [PathBuf::pop].

    A path is its list of components, which is the notion of equality [std::path::Path] itself
    uses; raw bytes enter through [components]. *)

From S2P Require Import Prelude.

(** [s.split(c)] for a one-byte pattern: always at least one piece. *)
Fixpoint str_split (sep : byte) (s : bytes) : list bytes :=
  match s with
  | [] => [[]]
  | c :: s =>
      if decide (c = sep) then [] :: str_split sep s
      else match str_split sep s with
           | p :: ps => (c :: p) :: ps
           | [] => [[c]]
           end
  end.

(** [s.split_terminator(c)]: [split] without a trailing empty piece. *)
Definition str_split_terminator (sep : byte) (s : bytes) : list bytes :=
  let ps := str_split sep s in
  match last ps with
  | Some [] => removelast ps
  | _ => ps
  end.

(** [s.starts_with(p)]. *)
Definition starts_with (p s : bytes) : bool := bool_decide (take (length p) s = p).

Definition slash : byte := x2f.
Definition dot : byte := x2e.

(** [std::path::Component]. *)
Inductive Component :=
| Prefix
| RootDir
| CurDir
| ParentDir
| Normal (name : bytes).

#[export] Instance component_eq_dec : EqDecision Component.
Proof. solve_decision. Defined.

#[export] Instance component_countable : Countable Component.
Proof.
  refine (inj_countable'
    (fun c => match c with Prefix => inl 0 | RootDir => inl 1 | CurDir => inl 2
                         | ParentDir => inl 3 | Normal n => inr n end)
    (fun s => match s with inl 0 => Prefix | inl 1 => RootDir | inl 2 => CurDir
                         | inl _ => ParentDir | inr n => Normal n end) _).
  by intros [].
Defined.

Definition Path := list Component.

Definition is_absolute (s : bytes) : bool :=
  match s with c :: _ => bool_decide (c = slash) | [] => false end.

(** [parse_single_component]: empty pieces and [.] are skipped. *)
Definition single_component (p : bytes) : list Component :=
  if decide (p = []) then []
  else if decide (p = [dot]) then []
  else if decide (p = [dot; dot]) then [ParentDir]
  else [Normal p].

(** [Path::components] on Unix: a leading [.] of a relative path is kept. *)
Definition components (s : bytes) : Path :=
  let body := concat (single_component <$> str_split slash s) in
  if is_absolute s then RootDir :: body
  else match str_split slash s with
       | p :: _ => if decide (p = [dot]) then CurDir :: body else body
       | [] => body
       end.

(** [PathBuf::push] of a string: an absolute argument replaces the path. *)
Definition path_push (p : Path) (s : bytes) : Path :=
  if is_absolute s then components s
  else match p with
       | [] => components s
       | _ => p ++ concat (single_component <$> str_split slash s)
       end.

(** [Path::join]. *)
Definition path_join (p : Path) (s : bytes) : Path := path_push p s.

(** [Path::join] of a path. *)
Definition path_join_path (p q : Path) : Path :=
  match q with RootDir :: _ => q | _ => p ++ q end.

(** [PathBuf::pop]: drops the last component, never the root. *)
Definition path_pop (p : Path) : Path :=
  match last p with
  | Some RootDir | Some Prefix | None => p
  | Some _ => removelast p
  end.

(** [Path::strip_prefix]. *)
Fixpoint strip_prefix (base p : Path) : option Path :=
  match base, p with
  | [], _ => Some p
  | c :: base, d :: p => if decide (c = d) then strip_prefix base p else None
  | _ :: _, [] => None
  end.

(** [Path::file_name]. *)
Definition file_name (p : Path) : option bytes :=
  match last p with Some (Normal n) => Some n | _ => None end.

(** [Path::parent]. *)
Definition path_parent (p : Path) : option Path :=
  match last p with
  | Some RootDir | Some Prefix | None => None
  | Some _ => Some (removelast p)
  end.

(** A file name as the kernel hands it out: not empty, no slash, neither [.] nor [..]. *)
Definition valid_name (n : bytes) : Prop :=
  n ≠ [] /\ (slash ∉ n) /\ n ≠ [dot] /\ n ≠ [dot; dot].

#[export] Instance valid_name_dec n : Decision (valid_name n).
Proof. unfold valid_name. apply _. Defined.

(** ** Lemmas *)

Lemma str_split_nonempty sep s : str_split sep s ≠ [].
Proof. destruct s as [|c s]; simpl; [done|]. case_decide; [done|]. by destruct (str_split sep s). Qed.

Lemma str_split_no_sep sep s : sep ∉ s -> str_split sep s = [s].
Proof.
  induction s as [|c s IH]; simpl; [done|]. intros [Hne Hin]%not_elem_of_cons.
  rewrite decide_False by done. by rewrite IH.
Qed.

Lemma str_split_app sep a b :
  sep ∉ a -> str_split sep (a ++ sep :: b) = a :: str_split sep b.
Proof.
  induction a as [|c a IH]; simpl.
  - intros _. by rewrite decide_True.
  - intros [Hne Hin]%not_elem_of_cons. rewrite decide_False by done. by rewrite IH.
Qed.

(** [join] is the inverse of [split]. *)
Fixpoint str_join (sep : byte) (ps : list bytes) : bytes :=
  match ps with
  | [] => []
  | [p] => p
  | p :: ps => p ++ sep :: str_join sep ps
  end.

Lemma str_join_cons sep p ps : ps ≠ [] -> str_join sep (p :: ps) = p ++ sep :: str_join sep ps.
Proof. by destruct ps. Qed.

Lemma str_join_split sep s : str_join sep (str_split sep s) = s.
Proof.
  induction s as [|c s IH]; cbn [str_split]; [done|]. case_decide as Hc.
  - rewrite str_join_cons by apply str_split_nonempty. simpl. by rewrite IH, Hc.
  - pose proof (str_split_nonempty sep s) as Hne.
    destruct (str_split sep s) as [|p ps]; [done|].
    destruct ps as [|q ps].
    + simpl in *. by rewrite IH.
    + rewrite <-IH. reflexivity.
Qed.

Lemma str_split_sound sep s : Forall (fun p => sep ∉ p) (str_split sep s).
Proof.
  induction s as [|c s IH]; simpl.
  - constructor; [set_solver | constructor].
  - case_decide; [constructor; [set_solver | done]|].
    destruct (str_split sep s) as [|p ps]; [constructor; [set_solver | constructor]|].
    inversion IH; subst. constructor; set_solver.
Qed.

Lemma valid_name_not_absolute n : valid_name n -> is_absolute n = false.
Proof.
  intros (Hne & Hs & _). destruct n as [|c n]; [done|]. simpl.
  apply bool_decide_eq_false. intros ->. set_solver.
Qed.

Lemma valid_name_single n : valid_name n -> single_component n = [Normal n].
Proof.
  intros (Hne & Hs & Hd & Hdd). unfold single_component. by rewrite !decide_False by done.
Qed.

(** Joining a file name appends exactly one [Normal] component. *)
Lemma path_join_name p n : p ≠ [] -> valid_name n -> path_join p n = p ++ [Normal n].
Proof.
  intros Hp Hn. unfold path_join, path_push. rewrite valid_name_not_absolute by done.
  destruct p; [done|]. rewrite (str_split_no_sep slash n) by apply Hn.
  simpl. by rewrite valid_name_single by done.
Qed.

Lemma path_pop_snoc p n : path_pop (p ++ [Normal n]) = p.
Proof. unfold path_pop. rewrite last_snoc. apply List.removelast_last. Qed.

Lemma strip_prefix_app base p : strip_prefix base (base ++ p) = Some p.
Proof. induction base as [|c base IH]; simpl; [done|]. by rewrite decide_True. Qed.

Lemma strip_prefix_sound base p q : strip_prefix base p = Some q -> p = base ++ q.
Proof.
  revert p; induction base as [|c base IH]; intros [|d p]; simpl; intros H; simplify_eq; [done..|].
  case_decide; [|done]. subst. f_equal. by apply IH.
Qed.

#[export] Hint Resolve valid_name_not_absolute valid_name_single path_join_name : pfs.
