(* ===== verification/Capnp.v ===== *)
(** The metadata schema [format/metadata.capnp] as Rocq data: the message tree a Cap'n Proto
    reader exposes and a builder fills in.  The wire encoding itself belongs to the [capnp]
    crate and is a parameter of the reader (see [RootfsReader]). *)

From S2P Require Import Prelude Errors.

(** A pointer field of a message: unset, malformed, or pointing to a value. *)
Inductive cptr (A : Type) :=
| PNull
| PBad
| PVal (a : A).

Arguments PNull {A}.
Arguments PBad {A}.
Arguments PVal {A} a.

(** A generated getter of a pointer field: the schema default when unset, an error when the
    pointer is malformed. *)
Definition get_ptr {A} (dflt : A) (p : cptr A) : Result A :=
  match p with
  | PNull => Ok dflt
  | PBad => Err (CapnpError CapnpMalformed)
  | PVal a => Ok a
  end.

(** A generated [has_*] accessor. *)
Definition has_ptr {A} (p : cptr A) : bool :=
  match p with PNull => false | _ => true end.

Record capnp_Dev := CDev { cdev_major : N; cdev_minor : N }.

Record capnp_DirEntry := CDirEntry { cde_ino : N; cde_name : cptr bytes }.

Record capnp_Dir := CDir { cdir_entries : cptr (list capnp_DirEntry); cdir_look_below : bool }.

Record capnp_BlobRef := CBlobRef {
  cbr_digest : cptr bytes;
  cbr_offset : N;
  cbr_compressed : bool
}.

Record capnp_FileChunk := CFileChunk { cfc_blob : cptr capnp_BlobRef; cfc_len : N }.

Record capnp_Xattr := CXattr { cxa_key : cptr bytes; cxa_val : cptr bytes }.

Record capnp_InodeAdditional := CAdditional {
  cia_xattrs : cptr (list capnp_Xattr);
  cia_symlink_target : cptr bytes
}.

(** The [mode] union.  A reader of a newer message may meet a discriminant that is not in this
    schema. *)
Inductive capnp_mode :=
| CM_unknown
| CM_fifo
| CM_chr (d : cptr capnp_Dev)
| CM_dir (d : cptr capnp_Dir)
| CM_blk (d : cptr capnp_Dev)
| CM_file (chunks : cptr (list capnp_FileChunk))
| CM_lnk
| CM_sock
| CM_wht
| CM_not_in_schema (discriminant : N).

Record capnp_Inode := CInode {
  ci_ino : N;
  ci_mode : capnp_mode;
  ci_uid : N;
  ci_gid : N;
  ci_permissions : N;
  ci_additional : cptr capnp_InodeAdditional
}.

Record capnp_InodeVector := CInodeVector { civ_inodes : cptr (list capnp_Inode) }.

Record capnp_VerityData := CVerityData { cvd_digest : cptr bytes; cvd_verity : cptr bytes }.

Record capnp_Rootfs := CRootfs {
  cr_metadatas : cptr (list capnp_InodeVector);
  cr_fs_verity_data : cptr (list capnp_VerityData);
  cr_manifest_version : N
}.

(** Freshly initialised structs: zero data, null pointers, first union member. *)
Definition default_Dev : capnp_Dev := CDev 0 0.
Definition default_DirEntry : capnp_DirEntry := CDirEntry 0 PNull.
Definition default_Dir : capnp_Dir := CDir PNull false.
Definition default_BlobRef : capnp_BlobRef := CBlobRef PNull 0 false.
Definition default_FileChunk : capnp_FileChunk := CFileChunk PNull 0.
Definition default_Xattr : capnp_Xattr := CXattr PNull PNull.
Definition default_InodeAdditional : capnp_InodeAdditional := CAdditional PNull PNull.
Definition default_Inode : capnp_Inode := CInode 0 CM_unknown 0 0 0 PNull.
Definition default_InodeVector : capnp_InodeVector := CInodeVector PNull.
Definition default_VerityData : capnp_VerityData := CVerityData PNull PNull.
Definition default_Rootfs : capnp_Rootfs := CRootfs PNull PNull 0.

(** [for (i, x) in xs.iter().enumerate() { fill x (list.get(i)) }] on a list builder. *)
Fixpoint fill_from {A B} (fill : A -> B -> Result B) (i : nat) (xs : list A) (bs : list B)
  : Result (list B) :=
  match xs with
  | [] => Ok bs
  | x :: xs =>
      b ← unwrap (bs !! i);
      b' ← fill x b;
      fill_from fill (S i) xs (<[i := b']> bs)
  end.

(** [init_list(n)] on a list builder, then the loop above. *)
Definition fill_list {A B} (dflt : B) (fill : A -> B -> Result B) (n : N) (xs : list A)
  : Result (list B) :=
  fill_from fill 0 xs (replicate (N.to_nat n) dflt).

(** The loop is a [mapM] over the source vector when the list builder has its length. *)
Lemma fill_from_app {A B} (fill : A -> B -> Result B) (dflt : B) xs done_ :
  fill_from fill (length done_) xs (done_ ++ replicate (length xs) dflt)
  = (bs ← mapM (fun x => fill x dflt) xs; Ok (done_ ++ bs)).
Proof.
  revert done_; induction xs as [|x xs IH]; intros done_; simpl.
  - done.
  - rewrite lookup_app_r, Nat.sub_diag by done. simpl.
    destruct (fill x dflt) as [b| | |]; simpl; [|done..].
    rewrite insert_app_r_alt, Nat.sub_diag by done. simpl.
    rewrite (cons_middle b), app_assoc.
    replace (S (length done_)) with (length (done_ ++ [b])) by (rewrite length_app; simpl; lia).
    rewrite IH. destruct (mapM _ xs); simpl; [|done..]. by rewrite <-app_assoc.
Qed.

Lemma fill_list_mapM {A B} (fill : A -> B -> Result B) (dflt : B) xs :
  fill_list dflt fill (len xs) xs = mapM (fun x => fill x dflt) xs.
Proof.
  unfold fill_list, len. rewrite Nat2N.id.
  etransitivity; [exact (fill_from_app fill dflt xs []) | by destruct (mapM _ xs)].
Qed.
