(* ===== verification/Format.v ===== *)
(** [format/types.rs]: the in-memory metadata of an image ([Inode], [BlobRef], [DirEnt], ...),
    its conversion from and to the Cap'n Proto message tree of [Capnp], and the accessors the
    reader, the FUSE layer and the builder use. *)

From S2P Require Import Prelude Errors Capnp.

Definition DEFAULT_FILE_PERMISSIONS : N := 420. (* 0o644 *)
Definition SHA256_BLOCK_SIZE : N := 32.

(** [BTreeMap<[u8; 32], [u8; 32]>]: a finite map, iterated in key order. *)
Abbreviation VerityData := (gmap bytes bytes).

Abbreviation Ino := N (only parsing).

Record BlobRef := mkBlobRef {
  br_digest : bytes;
  br_offset : N;
  br_compressed : bool
}.

Record DirEnt := mkDirEnt { de_ino : Ino; de_name : bytes }.

Record DirList := mkDirList { dl_look_below : bool; dl_entries : list DirEnt }.

Record FileChunk := mkFileChunk { fc_blob : BlobRef; fc_len : N }.

Record FileChunkList := mkFileChunkList { fcl_chunks : list FileChunk }.

Inductive InodeMode :=
| Mode_Unknown
| Mode_Fifo
| Mode_Chr (major minor : N)
| Mode_Dir (dir_list : DirList)
| Mode_Blk (major minor : N)
| Mode_File (chunks : list FileChunk)
| Mode_Lnk
| Mode_Sock
| Mode_Wht.

Record Xattr := mkXattr { xa_key : bytes; xa_val : bytes }.

Record InodeAdditional := mkAdditional {
  ia_xattrs : list Xattr;
  ia_symlink_target : option bytes
}.

Record Inode := mkInode {
  i_ino : Ino;
  i_mode : InodeMode;
  i_uid : N;
  i_gid : N;
  i_permissions : N;
  i_additional : option InodeAdditional
}.

Record Rootfs := mkRootfs {
  rf_metadatas : list (list Inode);
  rf_fs_verity_data : VerityData;
  rf_manifest_version : N
}.

#[export] Instance blob_ref_eq_dec : EqDecision BlobRef.
Proof. solve_decision. Defined.
#[export] Instance dir_ent_eq_dec : EqDecision DirEnt.
Proof. solve_decision. Defined.
#[export] Instance dir_list_eq_dec : EqDecision DirList.
Proof. solve_decision. Defined.
#[export] Instance file_chunk_eq_dec : EqDecision FileChunk.
Proof. solve_decision. Defined.
#[export] Instance inode_mode_eq_dec : EqDecision InodeMode.
Proof. solve_decision. Defined.
#[export] Instance xattr_eq_dec : EqDecision Xattr.
Proof. solve_decision. Defined.
#[export] Instance inode_additional_eq_dec : EqDecision InodeAdditional.
Proof. solve_decision. Defined.
#[export] Instance inode_eq_dec : EqDecision Inode.
Proof. solve_decision. Defined.

(** ** Decoding: the [from_capnp] functions *)

(** [<[u8; 32]>::try_from(slice)] followed by [?]. *)
Definition try_into_digest (b : bytes) : Result bytes :=
  if decide (len b = SHA256_BLOCK_SIZE) then Ok b else Err FromSliceError.

Definition BlobRef_from_capnp (reader : capnp_BlobRef) : Result BlobRef :=
  digest ← get_ptr [] (cbr_digest reader);
  digest ← try_into_digest digest;
  Ok (mkBlobRef digest (cbr_offset reader) (cbr_compressed reader)).

Definition FileChunk_from_capnp (reader : capnp_FileChunk) : Result FileChunk :=
  blob ← get_ptr default_BlobRef (cfc_blob reader);
  blob ← BlobRef_from_capnp blob;
  Ok (mkFileChunk blob (cfc_len reader)).

Definition DirEnt_from_capnp (entry : capnp_DirEntry) : Result DirEnt :=
  name ← get_ptr [] (cde_name entry);
  Ok (mkDirEnt (cde_ino entry) name).

Definition InodeMode_from_capnp (reader : capnp_mode) : Result InodeMode :=
  match reader with
  | CM_unknown => Ok Mode_Unknown
  | CM_fifo => Ok Mode_Fifo
  | CM_lnk => Ok Mode_Lnk
  | CM_sock => Ok Mode_Sock
  | CM_wht => Ok Mode_Wht
  | CM_chr r => r ← get_ptr default_Dev r; Ok (Mode_Chr (cdev_major r) (cdev_minor r))
  | CM_blk r => r ← get_ptr default_Dev r; Ok (Mode_Blk (cdev_major r) (cdev_minor r))
  | CM_file r => r ← get_ptr [] r; chunks ← mapM FileChunk_from_capnp r; Ok (Mode_File chunks)
  | CM_dir r =>
      r ← get_ptr default_Dir r;
      entries ← get_ptr [] (cdir_entries r);
      entries ← mapM DirEnt_from_capnp entries;
      Ok (Mode_Dir (mkDirList (cdir_look_below r) entries))
  | CM_not_in_schema _ => Err InvalidSerializedData
  end.

Definition Xattr_from_capnp (reader : capnp_Xattr) : Result Xattr :=
  key ← get_ptr [] (cxa_key reader);
  val ← get_ptr [] (cxa_val reader);
  Ok (mkXattr key val).

Definition InodeAdditional_from_capnp (reader : capnp_InodeAdditional)
  : Result (option InodeAdditional) :=
  if negb (has_ptr (cia_xattrs reader) || has_ptr (cia_symlink_target reader)) then Ok None
  else
    xattrs ← (if has_ptr (cia_xattrs reader) then
                l ← get_ptr [] (cia_xattrs reader); mapM Xattr_from_capnp l
              else Ok []);
    symlink_target ← (if has_ptr (cia_symlink_target reader) then
                        Some <$> get_ptr [] (cia_symlink_target reader)
                      else Ok None);
    Ok (Some (mkAdditional xattrs symlink_target)).

Definition Inode_from_capnp (reader : capnp_Inode) : Result Inode :=
  mode ← InodeMode_from_capnp (ci_mode reader);
  additional ← get_ptr default_InodeAdditional (ci_additional reader);
  additional ← InodeAdditional_from_capnp additional;
  Ok (mkInode (ci_ino reader) mode (ci_uid reader) (ci_gid reader) (ci_permissions reader)
        additional).

Definition InodeVector_from_capnp (reader : capnp_InodeVector) : Result (list Inode) :=
  inodes ← get_ptr [] (civ_inodes reader);
  mapM Inode_from_capnp inodes.

(** The loop that fills a [VerityData] map; shared by [Rootfs::from_capnp] and
    [RootfsReader::get_verity_data]. *)
Fixpoint verity_from_capnp (acc : VerityData) (l : list capnp_VerityData) : Result VerityData :=
  match l with
  | [] => Ok acc
  | cv :: l =>
      digest ← get_ptr [] (cvd_digest cv);
      digest ← try_into_digest digest;
      verity ← get_ptr [] (cvd_verity cv);
      verity ← try_into_digest verity;
      verity_from_capnp (<[digest := verity]> acc) l
  end.

Definition Rootfs_from_capnp (reader : capnp_Rootfs) : Result Rootfs :=
  metadatas ← get_ptr [] (cr_metadatas reader);
  metadata_vec ← mapM InodeVector_from_capnp metadatas;
  capnp_verities ← get_ptr [] (cr_fs_verity_data reader);
  fs_verity_data ← verity_from_capnp ∅ capnp_verities;
  Ok (mkRootfs metadata_vec fs_verity_data (cr_manifest_version reader)).

(** ** Encoding: the [fill_capnp] functions

    A builder is the struct filled in so far; a setter returns the struct with one field
    replaced. *)

Definition BlobRef_fill_capnp (self : BlobRef) (builder : capnp_BlobRef) : capnp_BlobRef :=
  let builder := CBlobRef (PVal (br_digest self)) (cbr_offset builder) (cbr_compressed builder) in
  let builder := CBlobRef (cbr_digest builder) (br_offset self) (cbr_compressed builder) in
  CBlobRef (cbr_digest builder) (cbr_offset builder) (br_compressed self).

(** One round of the loop over [dir_list.entries]. *)
Definition fill_DirEnt (entry : DirEnt) (builder : capnp_DirEntry) : Result capnp_DirEntry :=
  let builder := CDirEntry (de_ino entry) (cde_name builder) in
  Ok (CDirEntry (cde_ino builder) (PVal (de_name entry))).

(** One round of the loop over [chunks]. *)
Definition fill_FileChunk (chunk : FileChunk) (builder : capnp_FileChunk) : Result capnp_FileChunk :=
  let builder := CFileChunk (cfc_blob builder) (fc_len chunk) in
  Ok (CFileChunk (PVal (BlobRef_fill_capnp (fc_blob chunk) default_BlobRef)) (cfc_len builder)).

Definition InodeMode_fill_capnp (self : InodeMode) : Result capnp_mode :=
  match self with
  | Mode_Unknown => Ok CM_unknown
  | Mode_Fifo => Ok CM_fifo
  | Mode_Chr major minor => Ok (CM_chr (PVal (CDev major minor)))
  | Mode_Dir dir_list =>
      entries_len ← try_into_u32 (len (dl_entries dir_list));
      entries ← fill_list default_DirEntry fill_DirEnt entries_len (dl_entries dir_list);
      Ok (CM_dir (PVal (CDir (PVal entries) (dl_look_below dir_list))))
  | Mode_Blk major minor => Ok (CM_blk (PVal (CDev major minor)))
  | Mode_File chunks =>
      chunks_len ← try_into_u32 (len chunks);
      chunks ← fill_list default_FileChunk fill_FileChunk chunks_len chunks;
      Ok (CM_file (PVal chunks))
  | Mode_Lnk => Ok CM_lnk
  | Mode_Sock => Ok CM_sock
  | Mode_Wht => Ok CM_wht
  end.

Definition Xattr_fill_capnp (self : Xattr) (builder : capnp_Xattr) : Result capnp_Xattr :=
  let builder := CXattr (cxa_key builder) (PVal (xa_val self)) in
  Ok (CXattr (PVal (xa_key self)) (cxa_val builder)).

Definition InodeAdditional_fill_capnp (self : InodeAdditional) (builder : capnp_InodeAdditional)
  : Result capnp_InodeAdditional :=
  xattrs_len ← try_into_u32 (len (ia_xattrs self));
  xattrs ← fill_list default_Xattr Xattr_fill_capnp xattrs_len (ia_xattrs self);
  let builder := CAdditional (PVal xattrs) (cia_symlink_target builder) in
  Ok (match ia_symlink_target self with
      | Some symlink_target => CAdditional (cia_xattrs builder) (PVal symlink_target)
      | None => builder
      end).

Definition Inode_fill_capnp (self : Inode) (builder : capnp_Inode) : Result capnp_Inode :=
  mode ← InodeMode_fill_capnp (i_mode self);
  let builder := CInode (i_ino self) mode (i_uid self) (i_gid self) (i_permissions self)
                   (ci_additional builder) in
  match i_additional self with
  | Some additional =>
      a ← InodeAdditional_fill_capnp additional default_InodeAdditional;
      Ok (CInode (ci_ino builder) (ci_mode builder) (ci_uid builder) (ci_gid builder)
            (ci_permissions builder) (PVal a))
  | None => Ok builder
  end.

Definition InodeVector_fill_capnp (inodes : list Inode) (builder : capnp_InodeVector)
  : Result capnp_InodeVector :=
  inodes_len ← try_into_u32 (len inodes);
  l ← fill_list default_Inode Inode_fill_capnp inodes_len inodes;
  Ok (CInodeVector (PVal l)).

(** [BTreeMap::iter]: the bindings in key order. *)
Definition key_le (x y : bytes * bytes) : Prop := bytes_le x.1 y.1.

#[export] Instance key_le_dec : RelDecision key_le := fun x y => bytes_le_dec x.1 y.1.

Definition btree_iter (m : VerityData) : list (bytes * bytes) :=
  merge_sort key_le (map_to_list m).

Definition fill_VerityData (kv : bytes * bytes) (builder : capnp_VerityData)
  : Result capnp_VerityData :=
  let builder := CVerityData (PVal kv.1) (cvd_verity builder) in
  Ok (CVerityData (cvd_digest builder) (PVal kv.2)).

Definition Rootfs_fill_capnp (self : Rootfs) (builder : capnp_Rootfs) : Result capnp_Rootfs :=
  let builder := CRootfs (cr_metadatas builder) (cr_fs_verity_data builder)
                   (rf_manifest_version self) in
  metadatas_len ← try_into_u32 (len (rf_metadatas self));
  metadatas ← fill_list default_InodeVector InodeVector_fill_capnp metadatas_len
                (rf_metadatas self);
  let builder := CRootfs (PVal metadatas) (cr_fs_verity_data builder)
                   (cr_manifest_version builder) in
  verity_data_len ← try_into_u32 (N.of_nat (size (rf_fs_verity_data self)));
  verities ← fill_list default_VerityData fill_VerityData verity_data_len
               (btree_iter (rf_fs_verity_data self));
  Ok (CRootfs (cr_metadatas builder) (PVal verities) (cr_manifest_version builder)).

(** ** Constructors from host metadata *)

(** What the sources read of [std::fs::Metadata]. *)
Record Metadata := mkMetadata {
  md_mode : N;   (* st_mode: file type and permission bits *)
  md_ino : N;
  md_uid : N;
  md_gid : N;
  md_len : N;
  md_rdev : N
}.

(** [std::fs::FileType::is]: compare the [S_IFMT] bits of [st_mode]. *)
Definition S_IFMT : N := 61440.   (* 0o170000 *)
Definition S_IFSOCK : N := 49152. (* 0o140000 *)
Definition S_IFLNK : N := 40960.  (* 0o120000 *)
Definition S_IFREG : N := 32768.  (* 0o100000 *)
Definition S_IFBLK : N := 24576.  (* 0o060000 *)
Definition S_IFDIR : N := 16384.  (* 0o040000 *)
Definition S_IFCHR : N := 8192.   (* 0o020000 *)
Definition S_IFIFO : N := 4096.   (* 0o010000 *)

Definition md_is (ty : N) (md : Metadata) : bool := (N.land (md_mode md) S_IFMT =? ty)%N.
Definition md_is_dir : Metadata -> bool := md_is S_IFDIR.
Definition md_is_file : Metadata -> bool := md_is S_IFREG.
Definition md_is_symlink : Metadata -> bool := md_is S_IFLNK.

Definition new_inode (ino : Ino) (md : Metadata) (mode : InodeMode)
    (additional : option InodeAdditional) : Inode :=
  mkInode ino mode (md_uid md) (md_gid md) (cast_w u16_bits (N.land (md_mode md) 4095)) additional.

Definition new_dir (ino : Ino) (md : Metadata) (dir_list : DirList)
    (additional : option InodeAdditional) : io_Result Inode :=
  if negb (md_is_dir md) then Err (CustomError OtherKind)
  else Ok (new_inode ino md (Mode_Dir dir_list) additional).

Definition new_file (ino : Ino) (md : Metadata) (file_chunks : list FileChunk)
    (additional : option InodeAdditional) : io_Result Inode :=
  if negb (md_is_file md) then Err (CustomError OtherKind)
  else Ok (new_inode ino md (Mode_File file_chunks) additional).

(** [nix::sys::stat::{major, minor, makedev}]. *)
Class NixStat := { stat_major : N -> N; stat_minor : N -> N; makedev : N -> N -> N }.

Definition new_other `{NixStat} (ino : Ino) (md : Metadata)
    (additional : option InodeAdditional) : io_Result Inode :=
  mode ← (if md_is S_IFIFO md then Ok Mode_Fifo
          else if md_is S_IFCHR md then
            Ok (Mode_Chr (stat_major (md_rdev md)) (stat_minor (md_rdev md)))
          else if md_is_dir md then Err (CustomError OtherKind)
          else if md_is S_IFBLK md then
            Ok (Mode_Blk (stat_major (md_rdev md)) (stat_minor (md_rdev md)))
          else if md_is_file md then Err (CustomError OtherKind)
          else if md_is_symlink md then Ok Mode_Lnk
          else if md_is S_IFSOCK md then Ok Mode_Sock
          else Ok Mode_Unknown);
  Ok (new_inode ino md mode additional).

Definition new_whiteout (ino : Ino) : Inode :=
  mkInode ino Mode_Wht 0 0 DEFAULT_FILE_PERMISSIONS None.

(** ** Accessors *)

Definition dir_entries (self : Inode) : Result (list DirEnt) :=
  match i_mode self with
  | Mode_Dir dir_list => Ok (dl_entries dir_list)
  | _ => Err (from_errno ENOTDIR)
  end.

Definition dir_lookup (self : Inode) (name : bytes) : Result N :=
  entries ← dir_entries self;
  ok_or (de_ino <$> List.find (fun dir_ent => bool_decide (de_name dir_ent = name)) entries)
    (from_errno ENOENT).

Definition file_len `{Profile} (self : Inode) : Result N :=
  chunks ← match i_mode self with
           | Mode_File chunks => Ok chunks
           | _ => Err (from_errno ENOTDIR)
           end;
  sum_w u64_bits (fc_len <$> chunks).

Definition symlink_target (self : Inode) : Result bytes :=
  ok_or (i_additional self ≫= ia_symlink_target) (from_errno ENOENT).

(** ** Well-formed metadata: what the Rust types and the 32-bit list lengths guarantee *)

Definition wf_blob (b : BlobRef) : Prop := len (br_digest b) = SHA256_BLOCK_SIZE.

Definition wf_mode (m : InodeMode) : Prop :=
  match m with
  | Mode_Dir d => (len (dl_entries d) < 2 ^ u32_bits)%N
  | Mode_File chunks =>
      (len chunks < 2 ^ u32_bits)%N /\ Forall (fun c => wf_blob (fc_blob c)) chunks
  | _ => True
  end.

Definition wf_inode (i : Inode) : Prop :=
  wf_mode (i_mode i) /\
  match i_additional i with
  | Some a => (len (ia_xattrs a) < 2 ^ u32_bits)%N
  | None => True
  end.

Definition wf_layer (l : list Inode) : Prop :=
  (len l < 2 ^ u32_bits)%N /\ Forall wf_inode l.

Definition wf_verity (m : VerityData) : Prop :=
  (N.of_nat (size m) < 2 ^ u32_bits)%N /\
  map_Forall (fun d v => len d = SHA256_BLOCK_SIZE /\ len v = SHA256_BLOCK_SIZE) m.

Definition wf_rootfs (r : Rootfs) : Prop :=
  (len (rf_metadatas r) < 2 ^ u32_bits)%N /\
  Forall wf_layer (rf_metadatas r) /\
  wf_verity (rf_fs_verity_data r).

(** ** Round trip of the metadata through the message tree *)

Lemma try_into_digest_ok b : len b = SHA256_BLOCK_SIZE -> try_into_digest b = Ok b.
Proof. intros H. unfold try_into_digest. by rewrite decide_True. Qed.

#[export] Hint Resolve try_into_digest_ok try_into_u32_ok : pfs.

Lemma BlobRef_roundtrip b builder :
  wf_blob b -> BlobRef_from_capnp (BlobRef_fill_capnp b builder) = Ok b.
Proof.
  intros H. unfold BlobRef_from_capnp. simpl. rewrite try_into_digest_ok by done. by destruct b.
Qed.

(** A list written by [fill_list] and read by [mapM] comes back when each element does. *)
Lemma fill_list_roundtrip {A B} (dflt : B) (fill : A -> B -> Result B) (read : B -> Result A)
    (wf : A -> Prop) (xs : list A) :
  (forall x, wf x -> exists b, fill x dflt = Ok b /\ read b = Ok x) ->
  Forall wf xs ->
  exists bs, fill_list dflt fill (len xs) xs = Ok bs /\ mapM read bs = Ok xs.
Proof.
  intros Hrt. rewrite fill_list_mapM. induction 1 as [|x xs Hx _ IH].
  - by exists [].
  - destruct (Hrt x Hx) as (b & Hb & Hr), IH as (bs & Hbs & Hrs).
    exists (b :: bs). split; by apply mapM_cons_ok.
Qed.

Lemma DirEnt_roundtrip e :
  exists b, fill_DirEnt e default_DirEntry = Ok b /\ DirEnt_from_capnp b = Ok e.
Proof. eexists. split; [done|]. by destruct e. Qed.

Lemma FileChunk_roundtrip c :
  wf_blob (fc_blob c) ->
  exists b, fill_FileChunk c default_FileChunk = Ok b /\ FileChunk_from_capnp b = Ok c.
Proof.
  intros H. eexists. split; [done|]. unfold FileChunk_from_capnp. cbn -[BlobRef_fill_capnp].
  rewrite BlobRef_roundtrip by done. by destruct c.
Qed.

Lemma Xattr_roundtrip x :
  exists b, Xattr_fill_capnp x default_Xattr = Ok b /\ Xattr_from_capnp b = Ok x.
Proof. eexists. split; [done|]. by destruct x. Qed.

Lemma InodeMode_roundtrip m :
  wf_mode m -> exists c, InodeMode_fill_capnp m = Ok c /\ InodeMode_from_capnp c = Ok m.
Proof.
  destruct m as [| |ma mi|[lb es]|ma mi|chunks| | |]; simpl; intros H; eauto.
  - rewrite try_into_u32_ok by done. simpl.
    destruct (fill_list_roundtrip default_DirEntry fill_DirEnt DirEnt_from_capnp (fun _ => True) es)
      as (bs & -> & Hr); [eauto using DirEnt_roundtrip | by apply Forall_true |].
    simpl. eexists. split; [done|]. simpl. by rewrite Hr.
  - destruct H as [Hlen Hwf]. rewrite try_into_u32_ok by done. simpl.
    destruct (fill_list_roundtrip default_FileChunk fill_FileChunk FileChunk_from_capnp
      (fun c => wf_blob (fc_blob c)) chunks) as (bs & -> & Hr); [eauto using FileChunk_roundtrip|done|].
    simpl. eexists. split; [done|]. simpl. by rewrite Hr.
Qed.

Lemma InodeAdditional_roundtrip a :
  (len (ia_xattrs a) < 2 ^ u32_bits)%N ->
  exists c, InodeAdditional_fill_capnp a default_InodeAdditional = Ok c /\
            InodeAdditional_from_capnp c = Ok (Some a).
Proof.
  intros H. unfold InodeAdditional_fill_capnp. rewrite try_into_u32_ok by done. simpl.
  destruct (fill_list_roundtrip default_Xattr Xattr_fill_capnp Xattr_from_capnp (fun _ => True)
    (ia_xattrs a)) as (bs & -> & Hr); [eauto using Xattr_roundtrip | by apply Forall_true |].
  simpl. eexists. split; [done|]. unfold InodeAdditional_from_capnp.
  destruct a as [xs [t|]]; simpl in *; by rewrite Hr.
Qed.

Lemma Inode_roundtrip i :
  wf_inode i -> exists c, Inode_fill_capnp i default_Inode = Ok c /\ Inode_from_capnp c = Ok i
                          /\ ci_ino c = i_ino i.
Proof.
  intros [Hm Ha]. unfold Inode_fill_capnp, Inode_from_capnp.
  destruct (InodeMode_roundtrip _ Hm) as (c & -> & Hc). simpl.
  destruct i as [ino mode uid gid perm [a|]]; simpl in *.
  - destruct (InodeAdditional_roundtrip a Ha) as (ca & -> & Hca). simpl.
    eexists. split; [done|]. simpl. rewrite Hc. simpl. by rewrite Hca.
  - eexists. split; [done|]. simpl. by rewrite Hc.
Qed.

Lemma InodeVector_roundtrip l :
  wf_layer l ->
  exists c, InodeVector_fill_capnp l default_InodeVector = Ok c /\ InodeVector_from_capnp c = Ok l.
Proof.
  intros [Hlen Hwf]. unfold InodeVector_fill_capnp. rewrite try_into_u32_ok by done. simpl.
  destruct (fill_list_roundtrip default_Inode Inode_fill_capnp Inode_from_capnp wf_inode l)
    as (bs & -> & Hr); [|done|].
  - intros x Hx. destruct (Inode_roundtrip x Hx) as (c & ? & ? & _). eauto.
  - eexists. split; [done|]. by simpl.
Qed.

Lemma btree_iter_Permutation m : btree_iter m ≡ₚ map_to_list m.
Proof. apply merge_sort_Permutation. Qed.

Lemma btree_iter_NoDup m : NoDup (btree_iter m).*1.
Proof. rewrite btree_iter_Permutation. apply NoDup_fst_map_to_list. Qed.

Lemma len_btree_iter m : len (btree_iter m) = N.of_nat (size m).
Proof. unfold len. rewrite btree_iter_Permutation. by rewrite length_map_to_list. Qed.

Lemma btree_iter_list_to_map m : list_to_map (btree_iter m) = m.
Proof.
  rewrite (list_to_map_proper _ (map_to_list m));
    [apply list_to_map_to_list | apply btree_iter_NoDup | apply btree_iter_Permutation].
Qed.

(** Decoding the verity list written from bindings with distinct keys gives the map back. *)
Lemma verity_from_capnp_fold acc l :
  Forall (fun kv => len kv.1 = SHA256_BLOCK_SIZE /\ len kv.2 = SHA256_BLOCK_SIZE) l ->
  NoDup l.*1 ->
  verity_from_capnp acc ((fun kv => CVerityData (PVal kv.1) (PVal kv.2)) <$> l)
  = Ok (list_to_map l ∪ acc).
Proof.
  revert acc; induction l as [|[d v] l IH]; intros acc Hwf Hnd; simpl.
  - by rewrite (left_id_L ∅ (∪)).
  - inversion Hwf as [|? ? [Hd Hv] Hwf']; subst. inversion Hnd as [|? ? Hnin Hnd']; subst.
    simpl in *. rewrite !try_into_digest_ok by done. simpl. rewrite IH by done.
    rewrite <-insert_union_l, insert_union_r; [done|]. by apply not_elem_of_list_to_map_1.
Qed.

Lemma verity_roundtrip m :
  wf_verity m ->
  exists l, fill_list default_VerityData fill_VerityData (N.of_nat (size m)) (btree_iter m) = Ok l
            /\ verity_from_capnp ∅ l = Ok m.
Proof.
  intros [_ Hwf]. rewrite <-len_btree_iter, fill_list_mapM.
  rewrite (mapM_ok_map _ (fun kv => CVerityData (PVal kv.1) (PVal kv.2))) by done.
  eexists. split; [done|]. rewrite verity_from_capnp_fold, btree_iter_list_to_map.
  - by rewrite (right_id_L ∅ (∪)).
  - rewrite btree_iter_Permutation. apply map_Forall_to_list in Hwf.
    eapply Forall_impl; [exact Hwf|]. by intros [].
  - apply btree_iter_NoDup.
Qed.

Lemma Rootfs_fill_from (r : Rootfs) :
  wf_rootfs r ->
  exists m, Rootfs_fill_capnp r default_Rootfs = Ok m /\ Rootfs_from_capnp m = Ok r.
Proof.
  intros (Hlen & Hlayers & Hv). unfold Rootfs_fill_capnp, Rootfs_from_capnp.
  rewrite (try_into_u32_ok (len (rf_metadatas r))) by done. simpl.
  destruct (fill_list_roundtrip default_InodeVector InodeVector_fill_capnp InodeVector_from_capnp
    wf_layer (rf_metadatas r)) as (bs & -> & Hr); [apply InodeVector_roundtrip | done |].
  simpl. rewrite try_into_u32_ok by apply Hv. simpl.
  destruct (verity_roundtrip _ Hv) as (vs & -> & Hvs). simpl.
  eexists. split; [done|]. simpl. rewrite Hr. simpl. rewrite Hvs. simpl. by destruct r.
Qed.

(** C21: a well-formed [Rootfs] written with [fill_capnp] into a fresh message and read back
    with [from_capnp] is the same [Rootfs]: every layer, inode, directory entry, chunk, xattr
    and verity digest survives, and neither direction reports an error. *)
Theorem Rootfs_roundtrip (r : Rootfs) :
  wf_rootfs r ->
  exists m, Rootfs_fill_capnp r default_Rootfs = Ok m /\ Rootfs_from_capnp m = Ok r.
Proof. exact (Rootfs_fill_from r). Qed.

(** The other direction of the length checks: a layer with too many inodes is refused with
    [FromIntError], never truncated. *)
Lemma InodeVector_fill_too_long l b :
  (2 ^ u32_bits <= len l)%N -> InodeVector_fill_capnp l b = Err FromIntError.
Proof.
  intros H. unfold InodeVector_fill_capnp, try_into_u32.
  destruct (N.ltb_spec (len l) (2 ^ u32_bits)); [lia|done].
Qed.

(** ** A small image, used by the examples of the library *)

Definition sample_digest (b : byte) : bytes := replicate 32 b.

Definition sample_file : Inode :=
  mkInode 2 (Mode_File [mkFileChunk (mkBlobRef (sample_digest x01) 0 false) 3;
                        mkFileChunk (mkBlobRef (sample_digest x02) 1 true) 4])
    1000 1000 420 (Some (mkAdditional [mkXattr (bstr "user.meshuggah") (bstr "rocks")] None)).

Definition sample_link : Inode :=
  mkInode 3 Mode_Lnk 0 0 511 (Some (mkAdditional [] (Some (bstr "foo")))).

Definition sample_root : Inode :=
  mkInode 1 (Mode_Dir (mkDirList false [mkDirEnt 3 (bstr "bar"); mkDirEnt 2 (bstr "foo")]))
    0 0 493 None.

Definition sample_rootfs : Rootfs :=
  mkRootfs [[sample_root; sample_file; sample_link]]
    {[ sample_digest x01 := sample_digest x11; sample_digest x02 := sample_digest x12 ]} 3.

Lemma sample_rootfs_wf : wf_rootfs sample_rootfs.
Proof.
  split; [done|]. split.
  - repeat constructor; done.
  - split; [done|]. by apply map_Forall_insert_2; [|apply map_Forall_singleton].
Qed.

Lemma Rootfs_roundtrip_witness :
  exists m, Rootfs_fill_capnp sample_rootfs default_Rootfs = Ok m /\ Rootfs_from_capnp m = Ok sample_rootfs.
Proof. exact (Rootfs_roundtrip sample_rootfs sample_rootfs_wf). Defined.
