(* ===== verification/Digest.v ===== *)
(** [Digest] of [format/types.rs]: SHA-256 digests, their hexadecimal and ["sha256:<hex>"]
    renderings, and the parsers that read them back.  The [hex] crate is an interface with the
    laws the sources rely on; [hex_concrete] is an executable instance. *)

From S2P Require Import Prelude Errors RustStd Capnp Format.

(** The [hex] crate. *)
Class Hex := {
  hex_encode : bytes -> bytes;
  hex_decode : bytes -> outcome FromHexError bytes;
  (** the second argument is the length of the output slice *)
  hex_decode_to_slice : bytes -> N -> outcome FromHexError bytes
}.

Definition colon : byte := x3a.

Class HexOk (H : Hex) := {
  hex_decode_encode b : hex_decode (hex_encode b) = Ok b;
  hex_to_slice_encode b : hex_decode_to_slice (hex_encode b) (len b) = Ok b;
  hex_to_slice_len s n b : hex_decode_to_slice s n = Ok b -> len b = n;
  hex_encode_no_colon b : colon ∉ hex_encode b;
  hex_encode_no_slash b : slash ∉ hex_encode b
}.

(** [struct Digest([u8; SHA256_BLOCK_SIZE])]. *)
Record Digest := mkDigest { digest_bytes : bytes }.

#[export] Instance digest_eq_dec : EqDecision Digest.
Proof. solve_decision. Defined.

Definition wf_digest (d : Digest) : Prop := len (digest_bytes d) = SHA256_BLOCK_SIZE.

(** The errors of the [Deserialize] visitor, one constructor per message. *)
Inductive serde_error :=
| BadDigest (s : bytes)
| HexDecode (e : FromHexError)
| InvalidBlockLength (n : N)
| UnknownDigestType (ty : bytes).

Section digest.
Context `{Hex}.

(** [Digest::new]. *)
Definition Digest_new (digest : bytes) : Digest := mkDigest digest.

(** [Digest::underlying]: [copy_from_slice] into a zeroed array of the same length. *)
Definition underlying (self : Digest) : bytes := digest_bytes self.

(** [Display]: what [to_string] returns, the name of a blob file. *)
Definition Digest_to_string (self : Digest) : bytes := hex_encode (digest_bytes self).

(** [Serialize]. *)
Definition Digest_serialize (self : Digest) : bytes :=
  bstr "sha256:" ++ hex_encode (digest_bytes self).

(** [TryFrom<&str>]. *)
Definition Digest_try_from_str (s : bytes) : outcome FromHexError Digest :=
  digest ← hex_decode_to_slice s SHA256_BLOCK_SIZE;
  Ok (mkDigest digest).

(** [TryFrom<BlobRef>]. *)
Definition Digest_try_from_BlobRef (v : BlobRef) : Result Digest := Ok (mkDigest (br_digest v)).

(** [Deserialize], the visitor's [visit_str]. *)
Definition Digest_visit_str (s : bytes) : outcome serde_error Digest :=
  match str_split colon s with
  | [p0; p1] =>
      if decide (p0 = bstr "sha256") then
        buf ← map_err HexDecode (hex_decode p1);
        if decide (len buf = SHA256_BLOCK_SIZE) then Ok (mkDigest buf)
        else Err (InvalidBlockLength (len buf))
      else Err (UnknownDigestType p0)
  | _ => Err (BadDigest s)
  end.

Context {HexLaws : HexOk _}.

Lemma hex_encode_inj a b : hex_encode a = hex_encode b -> a = b.
Proof.
  intros Heq. pose proof (hex_decode_encode a) as Ha. rewrite Heq, hex_decode_encode in Ha.
  congruence.
Qed.

(** Blob names are injective in the digest. *)
Lemma Digest_to_string_inj d1 d2 : Digest_to_string d1 = Digest_to_string d2 -> d1 = d2.
Proof. destruct d1, d2. intros ?%hex_encode_inj. simpl in *. congruence. Qed.

Lemma Digest_try_from_to_string d :
  wf_digest d -> Digest_try_from_str (Digest_to_string d) = Ok d.
Proof.
  unfold wf_digest, Digest_try_from_str, Digest_to_string. intros <-.
  rewrite hex_to_slice_encode. by destruct d.
Qed.

Lemma Digest_try_from_str_wf s d : Digest_try_from_str s = Ok d -> wf_digest d.
Proof.
  unfold Digest_try_from_str. intros (b & Hb & [= <-])%bind_ok_inv.
  by eapply hex_to_slice_len.
Qed.

Lemma str_split_prefixed h :
  colon ∉ h -> str_split colon (bstr "sha256:" ++ h) = [bstr "sha256"; h].
Proof.
  intros Hh. change (bstr "sha256:" ++ h) with (bstr "sha256" ++ colon :: h).
  rewrite str_split_app by (by apply (bool_decide_unpack _); vm_compute). by rewrite str_split_no_sep.
Qed.

(** The serde rendering of a digest parses back to it, and conversely everything the
    parser accepts is ["sha256:"] followed by one hexadecimal field that decodes to exactly 32
    bytes: no other algorithm name, no extra field and no short or long hash is accepted. *)
Theorem Digest_serde_correct :
  (forall d, wf_digest d -> Digest_visit_str (Digest_serialize d) = Ok d) /\
  (forall s d, Digest_visit_str s = Ok d ->
     wf_digest d /\
     exists h, s = bstr "sha256:" ++ h /\ (colon ∉ h) /\ hex_decode h = Ok (digest_bytes d)).
Proof.
  split.
  - intros d Hd. unfold Digest_visit_str, Digest_serialize.
    rewrite str_split_prefixed by apply hex_encode_no_colon.
    rewrite decide_True by done. rewrite hex_decode_encode. simpl.
    rewrite decide_True by done. by destruct d.
  - intros s d Hv. unfold Digest_visit_str in Hv.
    destruct (str_split colon s) as [|p0 [|p1 [|]]] eqn:Hs; try done.
    destruct (decide (p0 = bstr "sha256")) as [->|]; [|done].
    apply bind_ok_inv in Hv as (buf & Hbuf%map_err_ok_inv & Hv).
    destruct (decide (len buf = SHA256_BLOCK_SIZE)) as [Hlen|]; [|done]. simplify_eq.
    split; [done|]. exists p1.
    pose proof (str_join_split colon s) as Hj. rewrite Hs in Hj.
    pose proof (str_split_sound colon s) as Hf. rewrite Hs in Hf.
    split; [done|]. split; [|done]. by inversion Hf as [|? ? _ Hf']; inversion Hf'.
Qed.

End digest.

(** ** An executable instance of the [hex] interface *)

Definition hex_digit (n : N) : byte :=
  default x00 (Byte.of_N (if (n <? 10)%N then 48 + n else 87 + n)%N).

Definition hex_val (c : byte) : option N :=
  let n := Byte.to_N c in
  if ((48 <=? n) && (n <=? 57))%N then Some (n - 48)%N
  else if ((97 <=? n) && (n <=? 102))%N then Some (n - 87)%N
  else if ((65 <=? n) && (n <=? 70))%N then Some (n - 55)%N
  else None.

Fixpoint hex_encode_bytes (b : bytes) : bytes :=
  match b with
  | [] => []
  | x :: b => hex_digit (Byte.to_N x / 16) :: hex_digit (Byte.to_N x mod 16) :: hex_encode_bytes b
  end.

Definition hex_pair (c d : byte) : outcome FromHexError byte :=
  hi ← ok_or (hex_val c) InvalidHexCharacter;
  lo ← ok_or (hex_val d) InvalidHexCharacter;
  ok_or (Byte.of_N (16 * hi + lo)) InvalidHexCharacter.

Fixpoint hex_decode_pairs (s : bytes) : outcome FromHexError bytes :=
  match s with
  | [] => Ok []
  | [_] => Err OddLength
  | c :: d :: s =>
      x ← hex_pair c d;
      b ← hex_decode_pairs s;
      Ok (x :: b)
  end.

#[export] Instance hex_concrete : Hex := {|
  hex_encode := hex_encode_bytes;
  hex_decode s := if N.odd (len s) then Err OddLength else hex_decode_pairs s;
  hex_decode_to_slice s n :=
    if N.odd (len s) then Err OddLength
    else if decide (len s / 2 = n)%N then
      b ← hex_decode_pairs s; if decide (len b = n) then Ok b else Err InvalidStringLength
    else Err InvalidStringLength
|}.

Lemma hex_pair_digits x :
  hex_pair (hex_digit (Byte.to_N x / 16)) (hex_digit (Byte.to_N x mod 16)) = Ok x.
Proof. by destruct x. Qed.

Lemma len_hex_encode b : len (hex_encode_bytes b) = (2 * len b)%N.
Proof. induction b as [|x b IH]; [done|]. cbn [hex_encode_bytes]. rewrite !len_cons, IH. lia. Qed.

Lemma hex_decode_pairs_encode b : hex_decode_pairs (hex_encode_bytes b) = Ok b.
Proof.
  induction b as [|x b IH]; [done|]. cbn [hex_encode_bytes hex_decode_pairs].
  rewrite hex_pair_digits. simpl. by rewrite IH.
Qed.

Lemma hex_digit_not c n : hex_val c = None -> (n < 16)%N -> hex_digit n ≠ c.
Proof.
  intros Hc Hn Heq. rewrite <-Heq in Hc. clear Heq.
  assert (exists k, n = N.of_nat k /\ k < 16) as (k & -> & Hk) by (exists (N.to_nat n); lia).
  do 16 (destruct k as [|k]; [by vm_compute in Hc|]). lia.
Qed.

Lemma hex_encode_bytes_not c b : hex_val c = None -> c ∉ hex_encode_bytes b.
Proof.
  intros Hc. induction b as [|x b IH]; cbn [hex_encode_bytes]; [by apply not_elem_of_nil|].
  assert (Byte.to_N x < 256)%N by (by destruct x).
  rewrite !not_elem_of_cons. split_and!; [| |done]; intros Heq; symmetry in Heq; revert Heq.
  - apply hex_digit_not; [done|]. apply N.Div0.div_lt_upper_bound. lia.
  - apply hex_digit_not; [done|]. by apply N.mod_lt.
Qed.

#[export] Instance hex_concrete_ok : HexOk hex_concrete.
Proof.
  split; cbn [hex_encode hex_decode hex_decode_to_slice hex_concrete].
  - intros b. rewrite len_hex_encode, N.odd_mul. simpl. apply hex_decode_pairs_encode.
  - intros b. rewrite len_hex_encode, N.odd_mul. simpl.
    rewrite decide_True by (rewrite N.mul_comm; by rewrite N.div_mul).
    rewrite hex_decode_pairs_encode. simpl. by rewrite decide_True.
  - intros s n b Hd. destruct (N.odd (len s)); [done|]. case_decide; [|done].
    apply bind_ok_inv in Hd as (b' & _ & Hd). case_decide; by simplify_eq.
  - intros b. by apply hex_encode_bytes_not.
  - intros b. by apply hex_encode_bytes_not.
Qed.

Lemma Digest_serde_correct_witness :
  Digest_visit_str (Digest_serialize (mkDigest (sample_digest xb7))) = Ok (mkDigest (sample_digest xb7)).
Proof. exact (proj1 Digest_serde_correct (mkDigest (sample_digest xb7)) eq_refl). Defined.
