(* ===== verification/InodeTable.v ===== *)
(** [InodeVector] and [RootfsReader] of [format/types.rs]: the binary search of one metadata
    layer, and the search through the stack of layers of an image.  The specification is a
    finite map: layers are unioned with the topmost first, and whiteouts hide what is below. *)

From S2P Require Import Prelude Errors Capnp Format.

(** The [capnp] crate's message framing.  [wire_segments] is what [BufferSegments] holds. *)
Class CapnpWire := {
  wire_segments : Type;
  write_message : capnp_Rootfs -> Result bytes;
  buffer_segments_new : bytes -> Result wire_segments;
  reader_get : wire_segments -> Result capnp_Rootfs
}.

(** A message that a [Rootfs] was built into is read back as it was written. *)
Class CapnpWireOk (W : CapnpWire) :=
  wire_roundtrip r m b :
    Rootfs_fill_capnp r default_Rootfs = Ok m -> write_message m = Ok b ->
    exists s, buffer_segments_new b = Ok s /\ reader_get s = Ok m.

Section inode_table.
Context {P : Profile}.

(** [struct_list::Reader::get]: asserts that the index is in range. *)
Definition struct_list_get {A} (l : list A) (i : N) : Result A :=
  if (i <? len l)%N then unwrap (l !! N.to_nat i) else Panic.

(** The [while left <= right] loop of [InodeVector::find_inode]. *)
Fixpoint find_inode_loop (fuel : nat) (inodes : list capnp_Inode) (ino left right : N)
  : Result (option capnp_Inode) :=
  match fuel with
  | O => Diverged
  | S fuel =>
      if (left <=? right)%N then
        width ← sub_w u32_bits right left;
        mid ← add_w u32_bits left (width / 2)%N;
        i ← struct_list_get inodes mid;
        if (ci_ino i =? ino)%N then Ok (Some i)
        else if (ci_ino i <? ino)%N then
          left ← add_w u32_bits mid 1;
          find_inode_loop fuel inodes ino left right
        else if (mid =? 0)%N then Ok None
        else
          right ← sub_w u32_bits mid 1;
          find_inode_loop fuel inodes ino left right
      else Ok None
  end.

(** [InodeVector::find_inode]. *)
Definition InodeVector_find_inode (self : capnp_InodeVector) (ino : Ino)
  : Result (option capnp_Inode) :=
  inodes ← get_ptr [] (civ_inodes self);
  right ← sub_w u32_bits (len inodes) 1;
  find_inode_loop (S (length inodes)) inodes ino 0 right.

(** [InodeVector::max_ino]. *)
Definition InodeVector_max_ino (self : capnp_InodeVector) : Result (option Ino) :=
  inodes ← get_ptr [] (civ_inodes self);
  last_index ← sub_w u32_bits (len inodes) 1;
  i ← struct_list_get inodes last_index;
  Ok (Some (ci_ino i)).

Context {W : CapnpWire}.

(** [struct RootfsReader]. *)
Record RootfsReader := mkRootfsReader { rr_reader : wire_segments }.

(** [RootfsReader::open]; the argument is the content of the mapped file. *)
Definition RootfsReader_open (f : bytes) : Result RootfsReader :=
  segments ← buffer_segments_new f;
  Ok (mkRootfsReader segments).

Definition get_manifest_version (self : RootfsReader) : Result N :=
  root ← reader_get (rr_reader self);
  Ok (cr_manifest_version root).

Definition get_verity_data (self : RootfsReader) : Result VerityData :=
  root ← reader_get (rr_reader self);
  capnp_verities ← get_ptr [] (cr_fs_verity_data root);
  verity_from_capnp ∅ capnp_verities.

(** The loop over the layers in [RootfsReader::find_inode]. *)
Fixpoint find_inode_layers (layers : list capnp_InodeVector) (ino : Ino) : Result Inode :=
  match layers with
  | [] => Err (from_errno ENOENT)
  | layer :: layers =>
      found ← InodeVector_find_inode layer ino;
      match found with
      | Some inode =>
          inode ← Inode_from_capnp inode;
          match i_mode inode with
          | Mode_Wht => Err (from_errno ENOENT)
          | _ => Ok inode
          end
      | None => find_inode_layers layers ino
      end
  end.

(** [RootfsReader::find_inode]. *)
Definition RootfsReader_find_inode (self : RootfsReader) (ino : Ino) : Result Inode :=
  root ← reader_get (rr_reader self);
  layers ← get_ptr [] (cr_metadatas root);
  find_inode_layers layers ino.

(** The loop over the layers in [RootfsReader::max_inode]. *)
Fixpoint max_inode_layers (max : Ino) (layers : list capnp_InodeVector) : Result Ino :=
  match layers with
  | [] => Ok max
  | layer :: layers =>
      m ← InodeVector_max_ino layer;
      max_inode_layers (match m with Some ino => N.max ino max | None => max end) layers
  end.

(** [RootfsReader::max_inode]. *)
Definition RootfsReader_max_inode (self : RootfsReader) : Result Ino :=
  root ← reader_get (rr_reader self);
  layers ← get_ptr [] (cr_metadatas root);
  max_inode_layers 1 layers.

(** [TryFrom<RootfsReader> for Rootfs]. *)
Definition Rootfs_try_from (rootfs_reader : RootfsReader) : Result Rootfs :=
  root ← reader_get (rr_reader rootfs_reader);
  Rootfs_from_capnp root.

(** Whatever the message holds, a lookup returns only an inode of the number asked for. *)
Lemma find_inode_loop_number fuel inodes ino left right i :
  find_inode_loop fuel inodes ino left right = Ok (Some i) -> ci_ino i = ino.
Proof.
  revert left right. induction fuel as [|fuel IH]; intros left right; cbn [find_inode_loop]; [done|].
  destruct (left <=? right)%N; [|done].
  intros (width & _ & (mid & _ & (c & _ & Hr)%bind_ok_inv)%bind_ok_inv)%bind_ok_inv.
  destruct (N.eqb_spec (ci_ino c) ino); [by simplify_eq|].
  destruct (ci_ino c <? ino)%N; [|destruct (mid =? 0)%N; [done|]];
    apply bind_ok_inv in Hr as (? & _ & Hr); by eapply IH.
Qed.

Lemma find_inode_layers_number layers ino i : find_inode_layers layers ino = Ok i -> i_ino i = ino.
Proof.
  induction layers as [|layer layers IH]; cbn [find_inode_layers]; [done|].
  intros (found & Hf & Hr)%bind_ok_inv. destruct found as [c|]; [|by apply IH].
  apply bind_ok_inv in Hr as (i' & Hi & Hr). assert (i' = i) as -> by (by destruct (i_mode i'); simplify_eq).
  apply bind_ok_inv in Hf as (inodes & _ & (right & _ & Hc%find_inode_loop_number)%bind_ok_inv).
  apply bind_ok_inv in Hi as (mode & _ & (a & _ & (b & _ & Hi)%bind_ok_inv)%bind_ok_inv). by simplify_eq.
Qed.

Lemma RootfsReader_find_inode_number reader ino i : RootfsReader_find_inode reader ino = Ok i -> i_ino i = ino.
Proof. intros (root & _ & (layers & _ & Hl%find_inode_layers_number)%bind_ok_inv)%bind_ok_inv. done. Qed.

(** ** Specification: the stack of layers as a finite map *)

Definition layer_map (l : list Inode) : gmap N Inode :=
  list_to_map ((fun i => (i_ino i, i)) <$> l).

(** The topmost definition of each inode number. *)
Definition overlay (layers : list (list Inode)) : gmap N Inode :=
  foldr (fun l m => layer_map l ∪ m) ∅ layers.

(** What a lookup by number sees: a whiteout is the absence of an inode. *)
Definition visible (layers : list (list Inode)) (ino : N) : option Inode :=
  match overlay layers !! ino with
  | Some i => match i_mode i with Mode_Wht => None | _ => Some i end
  | None => None
  end.

(** A layer as the builder writes it: not empty, sorted by strictly increasing number. *)
Definition sorted_layer (l : list Inode) : Prop :=
  l ≠ [] /\ StronglySorted N.lt (i_ino <$> l).

End inode_table.

(** ** The binary search *)

(** Inode numbers never decrease along the vector. *)
Definition ino_sorted (inodes : list capnp_Inode) : Prop :=
  forall j k x y, j <= k -> inodes !! j = Some x -> inodes !! k = Some y ->
    (ci_ino x <= ci_ino y)%N.

(** Every occurrence of [ino] lies between [left] and [right]. *)
Definition within (inodes : list capnp_Inode) (ino left right : N) : Prop :=
  forall k x, inodes !! k = Some x -> ci_ino x = ino ->
    (left <= N.of_nat k <= right)%N.

Section search.
Context {P : Profile}.

Lemma struct_list_get_ok {A} (l : list A) (i : N) :
  (i < len l)%N -> exists x, l !! N.to_nat i = Some x /\ struct_list_get l i = Ok x.
Proof.
  intros Hi. destruct (lookup_lt_is_Some_2 l (N.to_nat i)) as [x Hx]; [unfold len in Hi; lia|].
  exists x. split; [done|]. unfold struct_list_get. by rewrite (proj2 (N.ltb_lt _ _) Hi), Hx.
Qed.

(** The invariant of the loop: the interval stays inside the vector and shrinks, whatever is
    returned is in the vector, and on a sorted vector a miss means the number is absent. *)
Lemma find_inode_loop_spec fuel inodes ino left right :
  (right < len inodes)%N -> (len inodes < 2 ^ u32_bits)%N ->
  (left <= right + 1 < left + N.of_nat fuel)%N ->
  exists r, find_inode_loop fuel inodes ino left right = Ok r /\
    match r with
    | Some i => i ∈ inodes /\ ci_ino i = ino
    | None => ino_sorted inodes -> within inodes ino left right ->
              forall i, i ∈ inodes -> ci_ino i ≠ ino
    end.
Proof.
  revert left right; induction fuel as [|fuel IH]; intros left right Hr Hlen Hfuel; [lia|].
  cbn [find_inode_loop]. destruct (N.leb_spec left right) as [Hle|Hgt].
  2: { exists None. split; [done|]. intros _ Hw i (k & Hk)%list_elem_of_lookup Hi.
       specialize (Hw k i Hk Hi). lia. }
  rewrite sub_w_ok by done. bsimpl.
  assert ((right - left) / 2 <= right - left)%N as Hdiv by (apply N.Div0.div_le_upper_bound; lia).
  set (half := ((right - left) / 2)%N) in *. clearbody half.
  rewrite add_w_ok by word_lia. bsimpl.
  destruct (struct_list_get_ok inodes (left + half)) as (x & Hx & ->); [lia|].
  set (mid := (left + half)%N) in *. assert (left <= mid <= right)%N as Hmid by (unfold mid; lia).
  clearbody mid. bsimpl.
  destruct (N.eqb_spec (ci_ino x) ino) as [Heq|Hne].
  { exists (Some x). split; [done|]. split; [|done]. by eapply list_elem_of_lookup_2. }
  destruct (N.ltb_spec (ci_ino x) ino) as [Hlt|Hge].
  - rewrite add_w_ok by word_lia. bsimpl.
    destruct (IH (mid + 1)%N right) as (r & -> & Hspec); [lia..|].
    exists r. split; [done|]. destruct r as [i|]; [done|]. intros Hs Hw. apply Hspec; [done|].
    intros k y Hk Hy. destruct (Hw k y Hk Hy). split; [|done].
    destruct (decide (k <= N.to_nat mid)) as [Hkm|]; [|lia].
    specialize (Hs _ _ _ _ Hkm Hk Hx). lia.
  - destruct (N.eqb_spec mid 0) as [Hm|Hm].
    + exists None. split; [done|]. intros Hs _ i (k & Hk)%list_elem_of_lookup Hi.
      specialize (Hs (N.to_nat mid) k x i ltac:(lia) Hx Hk). lia.
    + rewrite sub_w_ok by lia. bsimpl.
      destruct (IH left (mid - 1)%N) as (r & -> & Hspec); [lia..|].
      exists r. split; [done|]. destruct r as [i|]; [done|]. intros Hs Hw. apply Hspec; [done|].
      intros k y Hk Hy. destruct (Hw k y Hk Hy). split; [done|].
      destruct (decide (N.to_nat mid <= k)) as [Hkm|]; [|lia].
      specialize (Hs _ _ _ _ Hkm Hx Hk). lia.
Qed.

Lemma InodeVector_find_inode_spec (inodes : list capnp_Inode) (ino : Ino) :
  inodes ≠ [] -> (len inodes < 2 ^ u32_bits)%N ->
  exists r, InodeVector_find_inode (CInodeVector (PVal inodes)) ino = Ok r /\
    match r with
    | Some i => i ∈ inodes /\ ci_ino i = ino
    | None => ino_sorted inodes -> forall i, i ∈ inodes -> ci_ino i ≠ ino
    end.
Proof.
  intros Hne Hlen. unfold InodeVector_find_inode. cbn [civ_inodes get_ptr]. bsimpl.
  assert (0 < len inodes)%N by (destruct inodes; [done | unfold len; simpl; lia]).
  rewrite sub_w_ok by lia. bsimpl.
  destruct (find_inode_loop_spec (S (length inodes)) inodes ino 0 (len inodes - 1))
    as (r & -> & Hr); [word_lia..|].
  exists r. split; [done|]. destruct r as [i|]; [done|]. intros Hs. apply Hr; [done|].
  intros k x Hk%lookup_lt_Some _. word_lia.
Qed.

(** C32: the binary search of a non-empty layer always returns (it neither loops, nor panics,
    nor overflows its 32-bit indices, in a debug or a release build), an inode it returns is in
    the layer and has the number asked for, and on a layer sorted by number it misses only
    numbers the layer does not have. *)
Theorem InodeVector_find_inode_correct (inodes : list capnp_Inode) (ino : Ino) :
  inodes ≠ [] -> (len inodes < 2 ^ u32_bits)%N ->
  exists r, InodeVector_find_inode (CInodeVector (PVal inodes)) ino = Ok r /\
    match r with
    | Some i => i ∈ inodes /\ ci_ino i = ino
    | None => ino_sorted inodes -> forall i, i ∈ inodes -> ci_ino i ≠ ino
    end.
Proof. exact (InodeVector_find_inode_spec inodes ino). Qed.

(** On an empty layer the subtraction [len() - 1] underflows: a debug build panics on the
    overflow, a release build wraps to index [2^31 - 1] and panics on the bounds check of the
    list. An image with an empty layer crashes every lookup instead of failing with an errno,
    and so does the search for the largest inode number. *)
Theorem InodeVector_empty_panics (ino : Ino) :
  InodeVector_find_inode (CInodeVector (PVal [])) ino = Panic /\
  InodeVector_max_ino (CInodeVector (PVal [])) = Panic.
Proof.
  unfold InodeVector_find_inode, InodeVector_max_ino, sub_w.
  split; cbn [civ_inodes get_ptr]; bsimpl; simpl; by destruct overflow_checks.
Qed.

(** ** Layers written by the builder *)

Lemma StronglySorted_lookup {A} (R : relation A) (l : list A) j k x y :
  StronglySorted R l -> j < k -> l !! j = Some x -> l !! k = Some y -> R x y.
Proof.
  intros Hs Hjk Hj Hk. revert j k Hjk Hj Hk.
  induction Hs as [|a l Hs IH Hall]; intros [|j] [|k] Hjk Hj Hk; simplify_eq/=; try lia.
  - rewrite Forall_lookup in Hall. eauto.
  - eapply IH; [|done..]. lia.
Qed.

Lemma sorted_ino_sorted inodes :
  StronglySorted N.lt (ci_ino <$> inodes) -> ino_sorted inodes.
Proof.
  intros Hs j k x y Hjk Hj Hk. destruct (decide (j = k)) as [->|].
  - simplify_eq. lia.
  - apply N.lt_le_incl. eapply (StronglySorted_lookup N.lt _ j k); [done | lia |..];
      rewrite list_lookup_fmap; [by rewrite Hj | by rewrite Hk].
Qed.

(** A vector builder [cs] that holds the inodes [l]. *)
Definition holds (cs : list capnp_Inode) (l : list Inode) : Prop :=
  Forall2 (fun c i => Inode_from_capnp c = Ok i /\ ci_ino c = i_ino i) cs l.

Lemma holds_inos cs l : holds cs l -> ci_ino <$> cs = i_ino <$> l.
Proof. induction 1 as [|c i cs l [_ Hc] _ IH]; csimpl; [done|]. by rewrite Hc, IH. Qed.

Lemma layer_map_lookup l ino i :
  sorted_layer l -> layer_map l !! ino = Some i <-> i ∈ l /\ i_ino i = ino.
Proof.
  intros [_ Hs]. unfold layer_map. rewrite <-elem_of_list_to_map.
  - rewrite list_elem_of_fmap. naive_solver.
  - rewrite <-list_fmap_compose. unfold compose. simpl.
    assert (NoDup (i_ino <$> l)) as Hnd; [|done].
    apply NoDup_alt. intros j k x Hj Hk.
    destruct (decide (j = k)); [done|]. exfalso.
    destruct (decide (j < k)) as [Hlt|].
    + pose proof (StronglySorted_lookup _ _ _ _ _ _ Hs Hlt Hj Hk). lia.
    + pose proof (StronglySorted_lookup N.lt _ k j _ _ Hs ltac:(lia) Hk Hj). lia.
Qed.

(** The search of one written layer is the lookup of its finite map. *)
Lemma find_inode_layer cs l ino :
  holds cs l -> sorted_layer l -> (len l < 2 ^ u32_bits)%N ->
  exists r, InodeVector_find_inode (CInodeVector (PVal cs)) ino = Ok r /\
    match layer_map l !! ino with
    | Some i => exists c, r = Some c /\ Inode_from_capnp c = Ok i
    | None => r = None
    end.
Proof.
  intros Hh Hs Hlen. pose proof (Forall2_length _ _ _ Hh) as Hlen2.
  destruct (InodeVector_find_inode_spec cs ino) as (r & -> & Hr).
  { destruct Hs as [Hne _], cs; [|done]. by destruct l. }
  { unfold len in *. by rewrite Hlen2. }
  exists r. split; [done|]. destruct r as [c|].
  - destruct Hr as [Hin Hino]. apply list_elem_of_lookup in Hin as [k Hk].
    destruct (Forall2_lookup_l _ _ _ _ _ Hh Hk) as (i & Hi & Hci & Hcino).
    assert (layer_map l !! ino = Some i) as ->; [|eauto].
    apply layer_map_lookup; [done|]. split; [by eapply list_elem_of_lookup_2 | congruence].
  - destruct (layer_map l !! ino) as [i|] eqn:Hi; [exfalso|done].
    apply layer_map_lookup in Hi as [Hin Hino]; [|done].
    apply list_elem_of_lookup in Hin as [k Hk].
    destruct (Forall2_lookup_r _ _ _ _ _ Hh Hk) as (c & Hc & Hci & Hcino).
    apply (Hr) with c; [| by eapply list_elem_of_lookup_2 | congruence].
    apply sorted_ino_sorted. rewrite (holds_inos _ _ Hh). apply Hs.
Qed.

Lemma find_inode_layers_visible lcs layers ino :
  Forall2 holds lcs layers -> Forall sorted_layer layers ->
  Forall (fun l => len l < 2 ^ u32_bits)%N layers ->
  find_inode_layers ((fun cs => CInodeVector (PVal cs)) <$> lcs) ino
  = ok_or (visible layers ino) (from_errno ENOENT).
Proof.
  intros Hh. induction Hh as [|cs l lcs layers Hcs _ IH]; intros Hs Hl; [done|].
  inversion Hs; inversion Hl; subst. simpl.
  destruct (find_inode_layer cs l ino) as (r & -> & Hr); [done..|]. simpl.
  unfold visible in *. simpl. destruct (layer_map l !! ino) as [i|] eqn:Hi.
  - rewrite (lookup_union_Some_l _ _ _ _ Hi).
    destruct Hr as (c & -> & Hc). rewrite Hc. simpl. by destruct (i_mode i).
  - rewrite lookup_union_r by done. subst r. by apply IH.
Qed.
End search.

(** ** Images as written: from bytes to the specification *)

Section reader.
Context {P : Profile} {W : CapnpWire}.

(** [reader] reads a message that [r] was written into. *)
Definition represents (reader : RootfsReader) (r : Rootfs) : Prop :=
  exists m, Rootfs_fill_capnp r default_Rootfs = Ok m /\ reader_get (rr_reader reader) = Ok m.

(** The layers of a rootfs are fit for binary search. *)
Definition searchable (r : Rootfs) : Prop :=
  wf_rootfs r /\ Forall sorted_layer (rf_metadatas r).

Lemma mapM_holds l cs :
  Forall wf_inode l -> mapM (fun i => Inode_fill_capnp i default_Inode) l = Ok cs -> holds cs l.
Proof.
  intros Hwf Hm%mapM_ok_inv. unfold holds. revert Hwf.
  induction Hm as [|i c l cs Hi _ IH]; intros Hwf; constructor; inversion Hwf; subst; [|by apply IH].
  destruct (Inode_roundtrip i) as (c' & Hc & ?); [done|].
  assert (c' = c) as -> by congruence. done.
Qed.

Lemma InodeVector_fill_holds l :
  wf_layer l ->
  exists cs, InodeVector_fill_capnp l default_InodeVector = Ok (CInodeVector (PVal cs)) /\ holds cs l.
Proof.
  intros Hl. destruct (InodeVector_roundtrip l) as (c & Hc & _); [done|]. destruct Hl as [Hlen Hwf].
  unfold InodeVector_fill_capnp in *. rewrite try_into_u32_ok in Hc |- * by done.
  cbn [mbind outcome_bind] in Hc |- *. rewrite fill_list_mapM in Hc |- *.
  apply bind_ok_inv in Hc as (cs & Hcs & _). exists cs. rewrite Hcs.
  split; [done|]. by apply mapM_holds.
Qed.

Lemma layers_fill_holds ls ms :
  Forall wf_layer ls ->
  Forall2 (fun l c => InodeVector_fill_capnp l default_InodeVector = Ok c) ls ms ->
  exists lcs, ms = (fun cs => CInodeVector (PVal cs)) <$> lcs /\ Forall2 holds lcs ls.
Proof.
  intros Hwf Hms. induction Hms as [|l c ls ms Hl _ IH].
  - exists []. split; [done | constructor].
  - inversion Hwf as [|? ? Hwl Hwls]; subst. destruct IH as (lcs & -> & Hh); [done|].
    destruct (InodeVector_fill_holds l Hwl) as (cs & Hcs & Hhl). exists (cs :: lcs).
    split; [csimpl; congruence | by constructor].
Qed.

(** The message a rootfs is written into, field by field. *)
Lemma Rootfs_fill_shape r m :
  wf_rootfs r -> Rootfs_fill_capnp r default_Rootfs = Ok m ->
  exists lcs vs,
    m = CRootfs (PVal ((fun cs => CInodeVector (PVal cs)) <$> lcs)) (PVal vs) (rf_manifest_version r)
    /\ Forall2 holds lcs (rf_metadatas r)
    /\ verity_from_capnp ∅ vs = Ok (rf_fs_verity_data r).
Proof.
  intros (Hlen & Hlayers & Hv). unfold Rootfs_fill_capnp.
  rewrite (try_into_u32_ok (len (rf_metadatas r))) by done. bsimpl.
  rewrite fill_list_mapM. intros (ms & Hms%mapM_ok_inv & Hm)%bind_ok_inv.
  rewrite try_into_u32_ok in Hm by apply Hv. cbn [mbind outcome_bind] in Hm.
  destruct (verity_roundtrip _ Hv) as (vs & Hvs & Hvr).
  rewrite Hvs in Hm. injection Hm as <-.
  destruct (layers_fill_holds _ _ Hlayers Hms) as (lcs & -> & Hlcs).
  by exists lcs, vs.
Qed.

Lemma RootfsReader_find_inode_spec (reader : RootfsReader) (r : Rootfs) (ino : Ino) :
  represents reader r -> searchable r ->
  RootfsReader_find_inode reader ino = ok_or (visible (rf_metadatas r) ino) (from_errno ENOENT).
Proof.
  intros (m & Hm & Hget) [Hwf Hs]. unfold RootfsReader_find_inode. rewrite Hget. bsimpl.
  destruct (Rootfs_fill_shape r m Hwf Hm) as (lcs & vs & -> & Hlcs & _).
  cbn [cr_metadatas get_ptr]. bsimpl. apply find_inode_layers_visible; [done..|].
  destruct Hwf as (_ & Hl & _). eapply Forall_impl; [exact Hl|]. by intros l [].
Qed.

(** C6: refinement of the layered lookup.  For every image the builder can write (well-formed,
    each layer non-empty and sorted), the lookup of an inode number through the reader is the
    lookup in the left-biased union of the layers, the topmost first; a whiteout found first
    makes the inode absent even when a lower layer still defines it, and every absence is
    reported as [ENOENT]. *)
Theorem RootfsReader_find_inode_refines (reader : RootfsReader) (r : Rootfs) (ino : Ino) :
  represents reader r -> searchable r ->
  RootfsReader_find_inode reader ino = ok_or (visible (rf_metadatas r) ino) (from_errno ENOENT).
Proof. exact (RootfsReader_find_inode_spec reader r ino). Qed.

Lemma max_ino_layer cs l :
  holds cs l -> sorted_layer l -> (len l < 2 ^ u32_bits)%N ->
  exists m, InodeVector_max_ino (CInodeVector (PVal cs)) = Ok (Some m)
            /\ m ∈ i_ino <$> l /\ Forall (fun n => n <= m)%N (i_ino <$> l).
Proof.
  intros Hh [Hne Hs] Hlen. pose proof (Forall2_length _ _ _ Hh) as Hlen2.
  unfold InodeVector_max_ino. cbn [civ_inodes get_ptr]. bsimpl.
  assert (0 < len cs)%N by (destruct l; [done | unfold len; rewrite Hlen2; simpl; lia]).
  rewrite sub_w_ok by lia. bsimpl.
  destruct (struct_list_get_ok cs (len cs - 1)) as (c & Hc & ->); [lia|]. bsimpl.
  exists (ci_ino c). split; [done|].
  assert ((i_ino <$> l) !! N.to_nat (len cs - 1) = Some (ci_ino c)) as Hl.
  { rewrite <-(holds_inos _ _ Hh), list_lookup_fmap. by rewrite Hc. }
  split; [by eapply list_elem_of_lookup_2|]. apply Forall_lookup. intros k n Hk.
  destruct (decide (k = N.to_nat (len cs - 1))) as [->|]; [simplify_eq; lia|].
  apply N.lt_le_incl. eapply (StronglySorted_lookup N.lt); [done| |done..].
  apply lookup_lt_Some in Hk. rewrite length_fmap in Hk. unfold len in *. lia.
Qed.

Lemma max_inode_layers_spec lcs layers acc :
  Forall2 holds lcs layers -> Forall sorted_layer layers ->
  Forall (fun l => len l < 2 ^ u32_bits)%N layers ->
  exists m, max_inode_layers acc ((fun cs => CInodeVector (PVal cs)) <$> lcs) = Ok m
    /\ (acc <= m)%N /\ Forall (fun l => Forall (fun n => n <= m)%N (i_ino <$> l)) layers
    /\ (m = acc \/ exists l, l ∈ layers /\ m ∈ i_ino <$> l).
Proof.
  intros Hh. revert acc. induction Hh as [|cs l lcs layers Hcs _ IH]; intros acc Hs Hl.
  - exists acc. repeat split; [lia | constructor | by left].
  - inversion Hs; inversion Hl; subst. csimpl.
    destruct (max_ino_layer cs l) as (m & -> & Hin & Hall); [done..|]. bsimpl.
    destruct (IH (N.max m acc)) as (m' & -> & Hle & Hrest & Hor); [done..|].
    exists m'. split; [done|]. split; [lia|]. split.
    + constructor; [|done]. eapply Forall_impl; [exact Hall|]. intros; simpl in *; lia.
    + destruct Hor as [->|(l' & Hl' & Hm')].
      * destruct (N.max_spec m acc) as [[? ->]|[? ->]]; [by left|].
        right. exists l. split; [left|done].
      * right. exists l'. split; [by right|done].
Qed.

Lemma RootfsReader_max_inode_spec (reader : RootfsReader) (r : Rootfs) :
  represents reader r -> searchable r ->
  exists m, RootfsReader_max_inode reader = Ok m /\ (1 <= m)%N /\
    (forall l i, l ∈ rf_metadatas r -> i ∈ l -> (i_ino i <= m)%N) /\
    (m = 1%N \/ exists l i, l ∈ rf_metadatas r /\ i ∈ l /\ i_ino i = m).
Proof.
  intros (m & Hm & Hget) [Hwf Hs]. unfold RootfsReader_max_inode. rewrite Hget. bsimpl.
  destruct (Rootfs_fill_shape r m Hwf Hm) as (lcs & vs & -> & Hlcs & _).
  cbn [cr_metadatas get_ptr]. bsimpl.
  destruct (max_inode_layers_spec lcs (rf_metadatas r) 1) as (x & -> & H1 & Hall & Hor); [done..| |].
  { destruct Hwf as (_ & Hl & _). eapply Forall_impl; [exact Hl|]. by intros l []. }
  exists x. split; [done|]. split; [done|]. split.
  - intros l i Hl Hi. rewrite Forall_forall in Hall. specialize (Hall l Hl).
    rewrite Forall_forall in Hall. apply Hall. by apply list_elem_of_fmap_2.
  - destruct Hor as [?|(l & Hl & Hx)]; [by left|]. right.
    apply list_elem_of_fmap in Hx as (i & -> & Hi). eauto.
Qed.

(** [max_inode] is the largest inode number that occurs in any layer (whiteouts included),
    and at least 1, so that the number after it, which the builder hands out next, is used by
    no inode of the image. *)
Theorem RootfsReader_max_inode_correct (reader : RootfsReader) (r : Rootfs) :
  represents reader r -> searchable r ->
  exists m, RootfsReader_max_inode reader = Ok m /\ (1 <= m)%N /\
    (forall l i, l ∈ rf_metadatas r -> i ∈ l -> (i_ino i <= m)%N) /\
    (m = 1%N \/ exists l i, l ∈ rf_metadatas r /\ i ∈ l /\ i_ino i = m).
Proof. exact (RootfsReader_max_inode_spec reader r). Qed.

Lemma get_verity_data_represents reader r :
  represents reader r -> wf_rootfs r -> get_verity_data reader = Ok (rf_fs_verity_data r).
Proof.
  intros (m & Hm & Hget) Hwf. unfold get_verity_data. rewrite Hget. bsimpl.
  by destruct (Rootfs_fill_shape r m Hwf Hm) as (lcs & vs & -> & _ & Hvs).
Qed.

Lemma get_manifest_version_represents reader r :
  represents reader r -> wf_rootfs r -> get_manifest_version reader = Ok (rf_manifest_version r).
Proof.
  intros (m & Hm & Hget) Hwf. unfold get_manifest_version. rewrite Hget. bsimpl.
  by destruct (Rootfs_fill_shape r m Hwf Hm) as (lcs & vs & -> & _).
Qed.

Lemma Rootfs_try_from_represents reader r :
  represents reader r -> wf_rootfs r -> Rootfs_try_from reader = Ok r.
Proof.
  intros (m & Hm & Hget) Hwf. unfold Rootfs_try_from. rewrite Hget. bsimpl.
  destruct (Rootfs_fill_shape r m Hwf Hm) as (lcs & vs & Hmeq & Hlcs & Hvs).
  unfold Rootfs_from_capnp. subst m. cbn [cr_metadatas cr_fs_verity_data get_ptr]. bsimpl.
  rewrite (mapM_ok _ _ (rf_metadatas r)).
  - bsimpl. rewrite Hvs. bsimpl. by destruct r.
  - apply Forall2_fmap_l. eapply Forall2_impl; [exact Hlcs|]. intros cs l Hh.
    unfold InodeVector_from_capnp. cbn [civ_inodes get_ptr]. bsimpl.
    apply mapM_ok. eapply Forall2_impl; [exact Hh|]. by intros c i [].
Qed.

(** What [RootfsReader::open] gives on bytes produced from a rootfs. *)
Lemma RootfsReader_open_represents `{!CapnpWireOk W} r m b :
  Rootfs_fill_capnp r default_Rootfs = Ok m -> write_message m = Ok b ->
  exists reader, RootfsReader_open b = Ok reader /\ represents reader r.
Proof.
  intros Hm Hb. destruct (wire_roundtrip r m b Hm Hb) as (s & Hs & Hget).
  exists (mkRootfsReader s). unfold RootfsReader_open. rewrite Hs. split; [done|]. by exists m.
Qed.

End reader.
