(* ===== verification/Wire.v ===== *)
(** An executable instance of the [CapnpWire] interface, for concrete runs of the model: the
    message tree is countable, and its code is written out bit by bit.  The sample image of
    [Format] as the reader sees it. *)

From S2P Require Import Prelude Errors Capnp Format InodeTable.

#[export] Instance cptr_eq_dec {A} `{EqDecision A} : EqDecision (cptr A).
Proof. solve_decision. Defined.

#[export] Instance cptr_countable {A} `{Countable A} : Countable (cptr A).
Proof.
  refine (inj_countable' (fun p => match p with PNull => inl true | PBad => inl false | PVal a => inr a end)
    (fun s => match s with inl true => PNull | inl false => PBad | inr a => PVal a end) _).
  by intros [].
Defined.

#[export] Instance cdev_eq_dec : EqDecision capnp_Dev.
Proof. solve_decision. Defined.
#[export] Instance cdirentry_eq_dec : EqDecision capnp_DirEntry.
Proof. solve_decision. Defined.
#[export] Instance cdir_eq_dec : EqDecision capnp_Dir.
Proof. solve_decision. Defined.
#[export] Instance cblobref_eq_dec : EqDecision capnp_BlobRef.
Proof. solve_decision. Defined.
#[export] Instance cfilechunk_eq_dec : EqDecision capnp_FileChunk.
Proof. solve_decision. Defined.
#[export] Instance cxattr_eq_dec : EqDecision capnp_Xattr.
Proof. solve_decision. Defined.
#[export] Instance cadditional_eq_dec : EqDecision capnp_InodeAdditional.
Proof. solve_decision. Defined.
#[export] Instance cmode_eq_dec : EqDecision capnp_mode.
Proof. solve_decision. Defined.
#[export] Instance cinode_eq_dec : EqDecision capnp_Inode.
Proof. solve_decision. Defined.
#[export] Instance cinodevector_eq_dec : EqDecision capnp_InodeVector.
Proof. solve_decision. Defined.
#[export] Instance cveritydata_eq_dec : EqDecision capnp_VerityData.
Proof. solve_decision. Defined.
#[export] Instance crootfs_eq_dec : EqDecision capnp_Rootfs.
Proof. solve_decision. Defined.

#[export] Instance cdev_countable : Countable capnp_Dev.
Proof.
  refine (inj_countable' (fun x => (cdev_major x, cdev_minor x)) (fun p => CDev p.1 p.2) _).
  by intros [].
Defined.
#[export] Instance cdirentry_countable : Countable capnp_DirEntry.
Proof.
  refine (inj_countable' (fun x => (cde_ino x, cde_name x)) (fun p => CDirEntry p.1 p.2) _).
  by intros [].
Defined.
#[export] Instance cdir_countable : Countable capnp_Dir.
Proof.
  refine (inj_countable' (fun x => (cdir_entries x, cdir_look_below x)) (fun p => CDir p.1 p.2) _).
  by intros [].
Defined.
#[export] Instance cblobref_countable : Countable capnp_BlobRef.
Proof.
  refine (inj_countable' (fun x => (cbr_digest x, cbr_offset x, cbr_compressed x))
    (fun p => CBlobRef p.1.1 p.1.2 p.2) _).
  by intros [].
Defined.
#[export] Instance cfilechunk_countable : Countable capnp_FileChunk.
Proof.
  refine (inj_countable' (fun x => (cfc_blob x, cfc_len x)) (fun p => CFileChunk p.1 p.2) _).
  by intros [].
Defined.
#[export] Instance cxattr_countable : Countable capnp_Xattr.
Proof.
  refine (inj_countable' (fun x => (cxa_key x, cxa_val x)) (fun p => CXattr p.1 p.2) _).
  by intros [].
Defined.
#[export] Instance cadditional_countable : Countable capnp_InodeAdditional.
Proof.
  refine (inj_countable' (fun x => (cia_xattrs x, cia_symlink_target x)) (fun p => CAdditional p.1 p.2) _).
  by intros [].
Defined.
#[export] Instance cmode_countable : Countable capnp_mode.
Proof.
  refine (inj_countable'
    (fun m => match m with
      | CM_unknown => inl 0%N | CM_fifo => inl 1%N | CM_lnk => inl 2%N | CM_sock => inl 3%N
      | CM_wht => inl 4%N | CM_not_in_schema d => inl (5 + d)%N
      | CM_chr d => inr (inl (inl d)) | CM_blk d => inr (inl (inr d))
      | CM_dir d => inr (inr (inl d)) | CM_file c => inr (inr (inr c)) end)
    (fun s => match s with
      | inl 0%N => CM_unknown | inl 1%N => CM_fifo | inl 2%N => CM_lnk | inl 3%N => CM_sock
      | inl 4%N => CM_wht | inl d => CM_not_in_schema (d - 5)
      | inr (inl (inl d)) => CM_chr d | inr (inl (inr d)) => CM_blk d
      | inr (inr (inl d)) => CM_dir d | inr (inr (inr c)) => CM_file c end) _).
  intros []; try done. assert (discriminant = 5 + discriminant - 5)%N as Hd by lia.
  remember (5 + discriminant)%N as n. assert (5 <= n)%N by lia. rewrite Hd.
  destruct n as [|p]; [lia|]. do 3 (destruct p as [p|p|]; try lia; try done).
Defined.
#[export] Instance cinode_countable : Countable capnp_Inode.
Proof.
  refine (inj_countable' (fun x => (ci_ino x, ci_mode x, ci_uid x, ci_gid x, ci_permissions x, ci_additional x))
    (fun p => CInode p.1.1.1.1.1 p.1.1.1.1.2 p.1.1.1.2 p.1.1.2 p.1.2 p.2) _).
  by intros [].
Defined.
#[export] Instance cinodevector_countable : Countable capnp_InodeVector.
Proof. refine (inj_countable' civ_inodes CInodeVector _). by intros []. Defined.
#[export] Instance cveritydata_countable : Countable capnp_VerityData.
Proof.
  refine (inj_countable' (fun x => (cvd_digest x, cvd_verity x)) (fun p => CVerityData p.1 p.2) _).
  by intros [].
Defined.
#[export] Instance crootfs_countable : Countable capnp_Rootfs.
Proof.
  refine (inj_countable' (fun x => (cr_metadatas x, cr_fs_verity_data x, cr_manifest_version x))
    (fun p => CRootfs p.1.1 p.1.2 p.2) _).
  by intros [].
Defined.

Fixpoint pos_to_bytes (p : positive) : bytes :=
  match p with
  | xH => []
  | xO p => x00 :: pos_to_bytes p
  | xI p => x01 :: pos_to_bytes p
  end.

Fixpoint bytes_to_pos (b : bytes) : positive :=
  match b with
  | [] => xH
  | c :: b => if decide (c = x00) then xO (bytes_to_pos b) else xI (bytes_to_pos b)
  end.

Lemma bytes_to_pos_to_bytes p : bytes_to_pos (pos_to_bytes p) = p.
Proof. induction p as [p IH|p IH|]; simpl; congruence. Qed.

#[export] Instance wire_concrete : CapnpWire := {|
  wire_segments := capnp_Rootfs;
  write_message m := Ok (pos_to_bytes (encode m));
  buffer_segments_new b := ok_or (decode (bytes_to_pos b)) (CapnpError CapnpMalformed);
  reader_get s := Ok s
|}.

#[export] Instance wire_concrete_ok : CapnpWireOk wire_concrete.
Proof.
  intros r m b _ [= <-]. exists m. simpl. by rewrite bytes_to_pos_to_bytes, decode_encode.
Qed.

(** ** The sample image, and a second layer that deletes [foo] and replaces [bar] *)

#[export] Instance debug_profile : Profile | 10 := true.

Definition sample_upper : list Inode :=
  [mkInode 1 (Mode_Dir (mkDirList false [mkDirEnt 3 (bstr "bar"); mkDirEnt 2 (bstr "foo")])) 0 0 493 None;
   new_whiteout 2;
   mkInode 3 Mode_Fifo 0 0 420 None].

Definition sample_stack : Rootfs :=
  mkRootfs [sample_upper; [sample_root; sample_file; sample_link]]
    (rf_fs_verity_data sample_rootfs) 3.

Definition read_back (r : Rootfs) : RootfsReader :=
  mkRootfsReader (match Rootfs_fill_capnp r default_Rootfs with Ok m => m | _ => default_Rootfs end).

Lemma sample_stack_searchable : searchable sample_stack.
Proof.
  split.
  - split; [done|]. split; [repeat constructor; done|]. apply sample_rootfs_wf.
  - repeat constructor; done.
Qed.

Lemma sample_stack_represents : represents (read_back sample_stack) sample_stack.
Proof.
  destruct (Rootfs_fill_from sample_stack (proj1 sample_stack_searchable)) as (m & Hm & _).
  exists m. split; [exact Hm|]. unfold read_back. rewrite Hm. reflexivity.
Qed.

Lemma InodeVector_find_inode_correct_witness :
  exists r, InodeVector_find_inode (CInodeVector (PVal [default_Inode])) 7 = Ok r /\
    match r with
    | Some i => i ∈ [default_Inode] /\ ci_ino i = 7%N
    | None => ino_sorted [default_Inode] -> forall i, i ∈ [default_Inode] -> ci_ino i ≠ 7%N
    end.
Proof. exact (InodeVector_find_inode_correct [default_Inode] 7 ltac:(done) eq_refl). Defined.

Lemma RootfsReader_find_inode_refines_witness :
  RootfsReader_find_inode (read_back sample_stack) 2 = Err (from_errno ENOENT) /\
  RootfsReader_find_inode (read_back sample_stack) 3 = Ok (mkInode 3 Mode_Fifo 0 0 420 None).
Proof.
  split.
  - rewrite (RootfsReader_find_inode_refines _ _ 2 sample_stack_represents sample_stack_searchable).
    reflexivity.
  - rewrite (RootfsReader_find_inode_refines _ _ 3 sample_stack_represents sample_stack_searchable).
    reflexivity.
Defined.

Lemma RootfsReader_max_inode_correct_witness :
  exists m, RootfsReader_max_inode (read_back sample_stack) = Ok m /\ (1 <= m)%N /\
    (forall l i, l ∈ rf_metadatas sample_stack -> i ∈ l -> (i_ino i <= m)%N) /\
    (m = 1%N \/ exists l i, l ∈ rf_metadatas sample_stack /\ i ∈ l /\ i_ino i = m).
Proof.
  exact (RootfsReader_max_inode_correct _ _ sample_stack_represents sample_stack_searchable).
Defined.
