(* ===== verification/Compression.v ===== *)
(** [compression.rs], [compression/noop.rs] and [compression/zstd_seekable_wrapper.rs]: the
    [Compression] trait as a class, its laws, and the two implementations.  The [zstd-seekable]
    crate is an interface with the laws of its documentation. *)

From S2P Require Import Prelude Errors.

(** ** Host files opened for reading *)

Inductive SeekFrom :=
| SeekStart (s : N)
| SeekEnd (e : Z)
| SeekCurrent (c : Z).

(** An open [File]: its content and the file position. *)
Record OsFile := mkOsFile { of_data : bytes; of_pos : N }.

Definition file_open (data : bytes) : OsFile := mkOsFile data 0.

(** How many bytes [read(2)] delivers when [avail] bytes are left and [want] were asked for. *)
Class OsRead := os_read : N -> N -> N.

(** [read] delivers at most what is there, and something when there is something. *)
Class OsReadOk (R : OsRead) := {
  os_read_le avail want : (os_read avail want <= N.min avail want)%N;
  os_read_pos avail want : (0 < N.min avail want)%N -> (0 < os_read avail want)%N
}.

(** Reads of regular files are not cut short. *)
Class OsReadFull (R : OsRead) := os_read_full avail want : os_read avail want = N.min avail want.

#[export] Instance os_read_full_ok {R : OsRead} `{!OsReadFull R} : OsReadOk R.
Proof. split; intros; rewrite os_read_full; lia. Qed.

Definition file_read_raw `{OsRead} (f : OsFile) (want : N) : io_Result (OsFile * bytes) :=
  let avail := (len (of_data f) - of_pos f)%N in
  let out := slice (of_pos f) (os_read avail want) (of_data f) in
  Ok (mkOsFile (of_data f) (of_pos f + len out)%N, out).

(** [lseek(2)]: a negative or too large resulting offset is [EINVAL]. *)
Definition lseek_to (f : OsFile) (pos : Z) : io_Result (OsFile * N) :=
  if ((0 <=? pos) && (pos <? 2 ^ 63))%Z then
    Ok (mkOsFile (of_data f) (Z.to_N pos), Z.to_N pos)
  else Err (OsError (errno_code EINVAL)).

Definition file_seek (f : OsFile) (s : SeekFrom) : io_Result (OsFile * N) :=
  match s with
  | SeekStart s => lseek_to f (Z.of_N s)
  | SeekEnd e => lseek_to f (Z.of_N (len (of_data f)) + e)
  | SeekCurrent c => lseek_to f (Z.of_N (of_pos f) + c)
  end.

(** ** The traits

    [Compressor]: a writer into a growing destination, and [end], which returns what the
    destination holds.  [Decompressor]: a seekable reader over the bytes of a blob. *)

Class Compression := {
  comp_state : Type;
  decomp_state : Type;
  c_compress : io_Result comp_state;
  c_write : comp_state -> bytes -> io_Result (comp_state * N);
  c_end : comp_state -> io_Result bytes;
  c_decompress : bytes -> io_Result decomp_state;
  d_seek : decomp_state -> SeekFrom -> io_Result (decomp_state * N);
  d_read : decomp_state -> N -> io_Result (decomp_state * bytes);
  d_get_uncompressed_length : decomp_state -> io_Result N;
  append_extension : bytes -> bytes;
  (** [TypeId::of::<C>() == TypeId::of::<Noop>()] *)
  c_is_noop : bool
}.

Section traits.
Context {C : Compression}.

(** [Write::write_all]. *)
Fixpoint write_all_fuel (fuel : nat) (st : comp_state) (buf : bytes) : io_Result comp_state :=
  match buf with
  | [] => Ok st
  | _ =>
      match fuel with
      | O => Diverged
      | S fuel =>
          '(st, n) ← c_write st buf;
          if (n =? 0)%N then Err (CustomError WriteZero)
          else if (len buf <? n)%N then Panic
          else write_all_fuel fuel st (drop (N.to_nat n) buf)
      end
  end.

(** [io::copy] from a byte slice: one [write_all], and the number of bytes copied. *)
Definition io_copy (buf : bytes) (st : comp_state) : io_Result (comp_state * N) :=
  st ← write_all_fuel (length buf) st buf;
  Ok (st, len buf).

(** Compress a whole buffer, as [put_blob] does. *)
Definition compress_buf (buf : bytes) : io_Result (bytes * N) :=
  st ← c_compress;
  '(st, n) ← io_copy buf st;
  c ← c_end st;
  Ok (c, n).

(** [c] is an archive of [buf] that gives random access to it. *)
Definition reads_as (c buf : bytes) : Prop :=
  exists d, c_decompress c = Ok d /\
    forall off n, (off <= len buf)%N -> (off < 2 ^ 63)%N ->
      exists d1 d2, d_seek d (SeekStart off) = Ok (d1, off) /\
                    d_read d1 n = Ok (d2, slice off n buf).

End traits.

(** What the image store relies on. *)
Class CompressionOk (C : Compression) := {
  compress_reads_as buf :
    (len buf < 2 ^ 63)%N ->
    exists c, compress_buf buf = Ok (c, len buf) /\ reads_as c buf;
  noop_is_identity buf c n :
    c_is_noop = true -> compress_buf buf = Ok (c, n) -> c = buf
}.

(** ** [Noop] *)

Section noop.
Context {R : OsRead}.

Definition Noop_compress : io_Result bytes := Ok [].

(** [NoopCompressor::write] into a [Cursor<Vec<u8>>]. *)
Definition Noop_write (encoder : bytes) (buf : bytes) : io_Result (bytes * N) :=
  Ok (encoder ++ buf, len buf).

Definition Noop_end (encoder : bytes) : io_Result bytes := Ok encoder.

Definition Noop_decompress (source : bytes) : io_Result OsFile := Ok (file_open source).

Definition Noop_seek (decoder : OsFile) (offset : SeekFrom) : io_Result (OsFile * N) :=
  file_seek decoder offset.

Definition Noop_read (decoder : OsFile) (out_len : N) : io_Result (OsFile * bytes) :=
  file_read_raw decoder out_len.

(** [stream_len]. *)
Definition Noop_get_uncompressed_length (decoder : OsFile) : io_Result N :=
  Ok (len (of_data decoder)).

Definition Noop_append_extension (media_type : bytes) : bytes := media_type.

Definition Noop : Compression := {|
  comp_state := bytes;
  decomp_state := OsFile;
  c_compress := Noop_compress;
  c_write := Noop_write;
  c_end := Noop_end;
  c_decompress := Noop_decompress;
  d_seek := Noop_seek;
  d_read := Noop_read;
  d_get_uncompressed_length := Noop_get_uncompressed_length;
  append_extension := Noop_append_extension;
  c_is_noop := true
|}.

End noop.

(** ** [Zstd] *)

(** The [zstd-seekable] crate.  [flush_bound] bounds the number of [end_stream] calls that
    still return data. *)
Class ZstdSeekable := {
  cstream : Type;
  cstream_new : N -> N -> io_Result cstream;
  cstream_out_size : N;
  cs_compress : cstream -> N -> bytes -> io_Result (cstream * bytes * N);
  cs_end_stream : cstream -> N -> io_Result (cstream * bytes);
  flush_bound : cstream -> nat;
  seekable : Type;
  seekable_init : bytes -> io_Result seekable;
  get_num_frames : seekable -> nat;
  get_frame_decompressed_size : seekable -> nat -> N;
  sk_decompress : seekable -> N -> N -> io_Result bytes
}.

Definition FRAME_SIZE : N := 4096.
Definition COMPRESSION_LEVEL : N := 3.

Record ZstdCompressor `{ZstdSeekable} := mkZstdCompressor {
  zc_f : bytes;
  zc_stream : cstream;
  zc_buf_len : N
}.

Record ZstdDecompressor `{ZstdSeekable} := mkZstdDecompressor {
  zd_stream : seekable;
  zd_offset : N;
  zd_uncompressed_length : N
}.

Section zstd.
Context {P : Profile} {ZS : ZstdSeekable}.

Definition Zstd_compress : io_Result ZstdCompressor :=
  stream ← cstream_new COMPRESSION_LEVEL FRAME_SIZE;
  Ok (mkZstdCompressor _ [] stream cstream_out_size).

Definition Zstd_write (self : ZstdCompressor) (buf : bytes) : io_Result (ZstdCompressor * N) :=
  '(stream, out, in_pos) ← cs_compress (zc_stream self) (zc_buf_len self) buf;
  Ok (mkZstdCompressor _ (zc_f self ++ out) stream (zc_buf_len self), in_pos).

(** [ZstdCompressor::end]: flush until [end_stream] returns 0. *)
Fixpoint Zstd_end_loop (fuel : nat) (self : ZstdCompressor) : io_Result bytes :=
  match fuel with
  | O => Diverged
  | S fuel =>
      '(stream, out) ← cs_end_stream (zc_stream self) (zc_buf_len self);
      let self := mkZstdCompressor _ (zc_f self ++ out) stream (zc_buf_len self) in
      if (len out =? 0)%N then Ok (zc_f self) else Zstd_end_loop fuel self
  end.

Definition Zstd_end (self : ZstdCompressor) : io_Result bytes :=
  Zstd_end_loop (S (flush_bound (zc_stream self))) self.

Definition Zstd_decompress (source : bytes) : io_Result ZstdDecompressor :=
  stream ← seekable_init source;
  uncompressed_length ← sum_w u64_bits (get_frame_decompressed_size stream <$> seq 0 (get_num_frames stream));
  Ok (mkZstdDecompressor _ stream 0 uncompressed_length).

(** [-x] on [i64] followed by [u64::try_from]. *)
Definition neg_to_u64 (x : Z) : io_Result N :=
  if (x =? - 2 ^ 63)%Z then
    if overflow_checks then Panic else Err (CustomError OtherKind)
  else if (- x <? 0)%Z then Err (CustomError OtherKind)
  else Ok (Z.to_N (- x)).

Definition Zstd_seek (self : ZstdDecompressor) (offset : SeekFrom) : io_Result (ZstdDecompressor * N) :=
  off ← match offset with
        | SeekStart s => Ok s
        | SeekEnd e =>
            if (0 <? e)%Z then Err (CustomError OtherKind)
            else back ← neg_to_u64 e; sub_w u64_bits (zd_uncompressed_length self) back
        | SeekCurrent c =>
            if (0 <? c)%Z then add_w u64_bits (zd_offset self) (Z.to_N c)
            else back ← neg_to_u64 c; sub_w u64_bits (zd_offset self) back
        end;
  Ok (mkZstdDecompressor _ (zd_stream self) off (zd_uncompressed_length self), off).

Definition Zstd_read (self : ZstdDecompressor) (out_len : N) : io_Result (ZstdDecompressor * bytes) :=
  left ← sub_w u64_bits (zd_uncompressed_length self) (zd_offset self);
  let end_ := N.min out_len (cast_w usize_bits left) in
  out ← sk_decompress (zd_stream self) end_ (zd_offset self);
  off ← add_w u64_bits (zd_offset self) (len out);
  Ok (mkZstdDecompressor _ (zd_stream self) off (zd_uncompressed_length self), out).

Definition Zstd_get_uncompressed_length (self : ZstdDecompressor) : io_Result N :=
  Ok (zd_uncompressed_length self).

Definition Zstd_append_extension (media_type : bytes) : bytes := media_type ++ bstr "+zstd".

Definition Zstd : Compression := {|
  comp_state := ZstdCompressor;
  decomp_state := ZstdDecompressor;
  c_compress := Zstd_compress;
  c_write := Zstd_write;
  c_end := Zstd_end;
  c_decompress := Zstd_decompress;
  d_seek := Zstd_seek;
  d_read := Zstd_read;
  d_get_uncompressed_length := Zstd_get_uncompressed_length;
  append_extension := Zstd_append_extension;
  c_is_noop := false
|}.

End zstd.

(** ** Laws of [zstd-seekable]

    [zs_in] and [zs_out] are what a stream has consumed and produced so far. *)

Definition zstd_archive `{ZstdSeekable} (c buf : bytes) : Prop :=
  exists s, seekable_init c = Ok s /\
    foldr N.add 0%N (get_frame_decompressed_size s <$> seq 0 (get_num_frames s)) = len buf /\
    forall off n, (off + n <= len buf)%N -> sk_decompress s n off = Ok (slice off n buf).

Class ZstdSeekableOk (ZS : ZstdSeekable) := {
  zs_in : cstream -> bytes;
  zs_out : cstream -> bytes;
  zs_new : exists cs, cstream_new COMPRESSION_LEVEL FRAME_SIZE = Ok cs /\
             zs_in cs = [] /\ zs_out cs = [];
  zs_compress cs buf : buf ≠ [] ->
    exists cs' out n, cs_compress cs cstream_out_size buf = Ok (cs', out, n) /\
      (0 < n <= len buf)%N /\ zs_in cs' = zs_in cs ++ take (N.to_nat n) buf /\
      zs_out cs' = zs_out cs ++ out;
  zs_end cs :
    exists cs' out, cs_end_stream cs cstream_out_size = Ok (cs', out) /\
      zs_in cs' = zs_in cs /\ zs_out cs' = zs_out cs ++ out /\
      (out ≠ [] -> flush_bound cs' < flush_bound cs) /\
      (out = [] -> zstd_archive (zs_out cs') (zs_in cs'))
}.

(** ** [Noop] satisfies the laws *)

Lemma noop_compress_buf {R : OsRead} buf :
  compress_buf (C := Noop) buf = Ok (buf, len buf).
Proof.
  unfold compress_buf, io_copy. destruct buf as [|x buf]; [done|].
  cbn [length write_all_fuel c_compress c_write Noop].
  unfold Noop_compress. bsimpl. unfold Noop_write. bsimpl.
  rewrite (proj2 (N.eqb_neq _ _)) by (unfold len; simpl; lia).
  rewrite (proj2 (N.ltb_ge _ _)) by lia.
  unfold len. rewrite Nat2N.id, drop_all. by destruct (length buf).
Qed.

#[export] Instance Noop_ok {R : OsRead} `{!OsReadFull R} : CompressionOk Noop.
Proof.
  split.
  - intros buf Hlen. exists buf. split; [apply noop_compress_buf|].
    exists (file_open buf). split; [done|]. intros off n Hoff Hmax.
    exists (mkOsFile buf off). eexists. split.
    + unfold d_seek, Noop, Noop_seek, file_seek, lseek_to, file_open. cbn [of_data].
      rewrite N2Z.id. replace ((0 <=? Z.of_N off) && (Z.of_N off <? 2 ^ 63))%Z with true; [done|].
      symmetry. apply andb_true_iff. split; [apply Z.leb_le; lia | apply Z.ltb_lt; lia].
    + unfold d_read, Noop, Noop_read, file_read_raw. cbn [of_data of_pos]. rewrite os_read_full.
      by rewrite N.min_comm, slice_min.
  - intros buf c n _ Hc. rewrite noop_compress_buf in Hc. by simplify_eq.
Qed.

(** ** [Zstd] satisfies the laws *)

Section zstd_ok.
Context {P : Profile} {ZS : ZstdSeekable} {ZSL : ZstdSeekableOk ZS}.

(** The compressor has written to its destination what its stream produced. *)
Definition zc_inv (self : ZstdCompressor) : Prop :=
  zc_f self = zs_out (zc_stream self) /\ zc_buf_len self = cstream_out_size.

Lemma zstd_write_all fuel self buf :
  length buf <= fuel -> zc_inv self ->
  exists self', write_all_fuel (C := Zstd) fuel self buf = Ok self' /\ zc_inv self' /\
    zs_in (zc_stream self') = zs_in (zc_stream self) ++ buf.
Proof.
  revert self buf; induction fuel as [|fuel IH]; intros self buf Hlen Hinv.
  - destruct buf; [|simpl in Hlen; lia]. exists self. by rewrite app_nil_r.
  - destruct buf as [|x buf]; [exists self; by rewrite app_nil_r|].
    destruct Hinv as [Hf Hb].
    destruct (zs_compress (zc_stream self) (x :: buf)) as (cs' & out & n & Hc & Hn & Hin & Hout); [done|].
    cbn [write_all_fuel c_write Zstd]. unfold Zstd_write. rewrite Hb, Hc. bsimpl.
    rewrite (proj2 (N.eqb_neq _ _)) by lia. rewrite (proj2 (N.ltb_ge _ _)) by lia.
    edestruct (IH (mkZstdCompressor _ (zc_f self ++ out) cs' cstream_out_size)
                 (drop (N.to_nat n) (x :: buf))) as (self' & Hw & Hi & Hs).
    + rewrite length_drop. simpl in *. lia.
    + split; simpl; [by rewrite Hf, Hout | done].
    + exists self'. split; [exact Hw|]. split; [done|]. rewrite Hs. cbn [zc_stream].
      by rewrite Hin, <-app_assoc, take_drop.
Qed.

Lemma zstd_end_loop fuel self :
  flush_bound (zc_stream self) < fuel -> zc_inv self ->
  exists c, Zstd_end_loop fuel self = Ok c /\ zstd_archive c (zs_in (zc_stream self)).
Proof.
  revert self; induction fuel as [|fuel IH]; intros self Hfuel [Hf Hb]; [lia|].
  cbn [Zstd_end_loop].
  destruct (zs_end (zc_stream self)) as (cs' & out & Hc & Hin & Hout & Hdec & Harch).
  rewrite Hb, Hc. bsimpl. destruct out as [|x out].
  - simpl. eexists. split; [done|]. rewrite app_nil_r, Hf. rewrite app_nil_r in Hout.
    rewrite <-Hin, <-Hout. by apply Harch.
  - rewrite (proj2 (N.eqb_neq _ _)) by (unfold len; simpl; lia).
    destruct (IH (mkZstdCompressor _ (zc_f self ++ x :: out) cs' cstream_out_size))
      as (c & Hc' & Ha).
    + simpl. specialize (Hdec ltac:(done)). lia.
    + split; simpl; [by rewrite Hf, Hout | done].
    + exists c. split; [exact Hc'|]. cbn [zc_stream] in Ha. by rewrite <-Hin.
Qed.

Lemma zstd_archive_decompress c buf :
  zstd_archive c buf -> (len buf < 2 ^ 63)%N ->
  exists s, Zstd_decompress c = Ok (mkZstdDecompressor _ s 0 (len buf)) /\
    forall off n, (off + n <= len buf)%N -> sk_decompress s n off = Ok (slice off n buf).
Proof.
  intros (s & Hs & Hsum & Hread) Hlen. exists s. split; [|done]. unfold Zstd_decompress.
  rewrite Hs. bsimpl. rewrite sum_w_ok by (rewrite Hsum; word_lia). bsimpl. by rewrite Hsum.
Qed.

(** A decompressor positioned at [off] over an archive of [buf]. *)
Lemma zstd_read_at s off n buf :
  (off <= len buf)%N -> (len buf < 2 ^ 63)%N ->
  (forall off n, (off + n <= len buf)%N -> sk_decompress s n off = Ok (slice off n buf)) ->
  Zstd_read (mkZstdDecompressor _ s off (len buf)) n
  = Ok (mkZstdDecompressor _ s (off + len (slice off n buf)) (len buf), slice off n buf).
Proof.
  intros Hoff Hlen Hread. unfold Zstd_read. cbn [zd_uncompressed_length zd_offset zd_stream].
  rewrite sub_w_ok by done. bsimpl. rewrite cast_w_small by word_lia.
  rewrite Hread by lia. bsimpl.
  rewrite slice_min. rewrite add_w_ok; [done|]. rewrite len_slice. word_lia.
Qed.

Lemma zstd_compress_archive buf : exists c, compress_buf (C := Zstd) buf = Ok (c, len buf) /\ zstd_archive c buf.
Proof.
  destruct zs_new as (cs & Hnew & Hin & Hout).
  destruct (zstd_write_all (length buf) (mkZstdCompressor _ [] cs cstream_out_size) buf)
    as (self & Hw & Hinv & Hs); [done | by split |].
  destruct (zstd_end_loop (S (flush_bound (zc_stream self))) self) as (c & Hc & Harch); [lia|done|].
  rewrite Hs in Harch. cbn [zc_stream] in Harch. rewrite Hin in Harch. exists c. split; [|exact Harch].
  unfold compress_buf, io_copy. cbn [c_compress c_end Zstd]. unfold Zstd_compress.
  rewrite Hnew. bsimpl. rewrite Hw. bsimpl. unfold Zstd_end. by rewrite Hc.
Qed.

#[export] Instance Zstd_ok : CompressionOk Zstd.
Proof.
  split; [|done]. intros buf Hlen. destruct (zstd_compress_archive buf) as (c & Hc & Harch). exists c. split; [done|].
  destruct (zstd_archive_decompress c buf Harch Hlen) as (s & Hd & Hread).
  eexists. split; [exact Hd|]. intros off n Hoff _. eexists _, _. split; [done|].
  cbn [d_read Zstd zd_stream zd_uncompressed_length]. by apply zstd_read_at.
Qed.

End zstd_ok.

(** ** A decompressor is a cursor over the uncompressed data *)

Inductive dop := DSeek (s : SeekFrom) | DRead (n : N).

(** What one operation returns: the new position, or the bytes read. *)
Abbreviation dres := (N + bytes)%type.

(** The specification: a position inside the data, moved by seeks and reads. *)
Definition cursor_target (data : bytes) (pos : N) (s : SeekFrom) : Z :=
  match s with
  | SeekStart s => Z.of_N s
  | SeekEnd e => Z.of_N (len data) + e
  | SeekCurrent c => Z.of_N pos + c
  end.

Definition cursor_step (data : bytes) (pos : N) (op : dop) : option (N * dres) :=
  match op with
  | DSeek s =>
      let t := cursor_target data pos s in
      if decide (0 <= t <= Z.of_N (len data))%Z then Some (Z.to_N t, inl (Z.to_N t)) else None
  | DRead n => let out := slice pos n data in Some ((pos + len out)%N, inr out)
  end.

Fixpoint cursor_run (data : bytes) (pos : N) (ops : list dop) : option (list dres) :=
  match ops with
  | [] => Some []
  | op :: ops =>
      '(pos, r) ← cursor_step data pos op;
      rs ← cursor_run data pos ops;
      Some (r :: rs)
  end.

(** The same operations on a [dyn Decompressor]. *)
Definition decomp_step {C : Compression} (d : decomp_state) (op : dop) : io_Result (decomp_state * dres) :=
  match op with
  | DSeek s => '(d, off) ← d_seek d s; Ok (d, inl off)
  | DRead n => '(d, out) ← d_read d n; Ok (d, inr out)
  end.

Fixpoint decomp_run {C : Compression} (d : decomp_state) (ops : list dop) : io_Result (list dres) :=
  match ops with
  | [] => Ok []
  | op :: ops =>
      '(d, r) ← decomp_step d op;
      rs ← decomp_run d ops;
      Ok (r :: rs)
  end.

Section cursor.
Context {P : Profile} {ZS : ZstdSeekable} {ZSL : ZstdSeekableOk ZS}.

Lemma neg_to_u64_ok x : (- 2 ^ 63 < x <= 0)%Z -> neg_to_u64 x = Ok (Z.to_N (- x)).
Proof.
  intros Hx. unfold neg_to_u64. rewrite (proj2 (Z.eqb_neq _ _)) by lia.
  by rewrite (proj2 (Z.ltb_ge _ _)) by lia.
Qed.

Lemma zstd_seek_cursor s pos data sk :
  (pos <= len data)%N -> (len data < 2 ^ 63)%N ->
  (0 <= cursor_target data pos s <= Z.of_N (len data))%Z ->
  Zstd_seek (mkZstdDecompressor _ sk pos (len data)) s
  = Ok (mkZstdDecompressor _ sk (Z.to_N (cursor_target data pos s)) (len data),
        Z.to_N (cursor_target data pos s)).
Proof.
  intros Hpos Hlen. unfold Zstd_seek. cbn [zd_uncompressed_length zd_offset zd_stream].
  destruct s as [s|e|c]; cbn [cursor_target]; intros Ht.
  - bsimpl. by rewrite N2Z.id.
  - rewrite (proj2 (Z.ltb_ge _ _)) by lia. rewrite neg_to_u64_ok by lia. bsimpl.
    rewrite sub_w_ok by lia. bsimpl. by replace (len data - Z.to_N (- e))%N
      with (Z.to_N (Z.of_N (len data) + e)) by lia.
  - destruct (Z.ltb_spec 0 c).
    + rewrite add_w_ok by word_lia. bsimpl.
      by replace (pos + Z.to_N c)%N with (Z.to_N (Z.of_N pos + c)) by lia.
    + rewrite neg_to_u64_ok by lia. bsimpl. rewrite sub_w_ok by lia. bsimpl.
      by replace (pos - Z.to_N (- c))%N with (Z.to_N (Z.of_N pos + c)) by lia.
Qed.

Lemma zstd_step_cursor op pos data sk pos' r :
  (forall off n, (off + n <= len data)%N -> sk_decompress sk n off = Ok (slice off n data)) ->
  (pos <= len data)%N -> (len data < 2 ^ 63)%N ->
  cursor_step data pos op = Some (pos', r) ->
  (pos' <= len data)%N /\
  decomp_step (C := Zstd) (mkZstdDecompressor _ sk pos (len data)) op
  = Ok (mkZstdDecompressor _ sk pos' (len data), r).
Proof.
  intros Hread Hpos Hlen Hstep. destruct op as [s|n]; unfold cursor_step in Hstep.
  - cbv zeta in Hstep. destruct (decide _) as [Ht|]; [|done]. injection Hstep as <- <-.
    split; [lia|]. unfold decomp_step. cbn [d_seek Zstd].
    rewrite zstd_seek_cursor by done. reflexivity.
  - injection Hstep as <- <-. split; [rewrite len_slice; lia|].
    unfold decomp_step. cbn [d_read Zstd]. rewrite zstd_read_at by done. reflexivity.
Qed.

(** Over an archive of [data], any sequence of seeks (from the start, the end or the
    current position) and reads that stays inside the data behaves as on a plain cursor: every
    position and every byte returned agrees, nothing panics or overflows, whatever the sequence
    and in both build profiles. *)
Theorem Zstd_decompressor_is_cursor (c data : bytes) (ops : list dop) (rs : list dres) :
  zstd_archive c data -> (len data < 2 ^ 63)%N -> cursor_run data 0 ops = Some rs ->
  exists d, Zstd_decompress c = Ok d /\ decomp_run (C := Zstd) d ops = Ok rs.
Proof.
  intros Harch Hlen Hrun.
  destruct (zstd_archive_decompress c data Harch Hlen) as (sk & Hd & Hread).
  eexists. split; [exact Hd|]. assert (0 <= len data)%N as Hpos by lia. revert Hpos Hrun.
  generalize 0%N as pos. revert rs. induction ops as [|op ops IH]; intros rs pos Hpos Hrun.
  - by simplify_eq/=.
  - cbn [cursor_run] in Hrun. destruct (cursor_step data pos op) as [[pos' r]|] eqn:Hstep; [|done].
    cbn in Hrun. destruct (cursor_run data pos' ops) as [rs'|] eqn:Hrest; [|done].
    injection Hrun as <-.
    destruct (zstd_step_cursor op pos data sk pos' r) as [Hpos' Hs]; [done..|].
    cbn [decomp_run]. rewrite Hs. bsimpl. rewrite (IH rs' pos' Hpos' Hrest). reflexivity.
Qed.

(** What is compressed with [Zstd] can be read back at any offset: writing a buffer through
    [io::copy] and [end] terminates without error, consumes all of it, and the archive opened
    again gives random access to exactly the bytes written.  The loops of [write_all] and of
    [end] are shown to finish. *)
Theorem Zstd_compress_roundtrip (buf : bytes) :
  (len buf < 2 ^ 63)%N ->
  exists c, compress_buf (C := Zstd) buf = Ok (c, len buf) /\ reads_as (C := Zstd) c buf.
Proof. apply compress_reads_as. Qed.

(** A read past the end of the data: a debug build panics on the subtraction. *)
Lemma zstd_read_past_end_panics sk pos n len0 :
  overflow_checks = true -> (len0 < pos)%N ->
  Zstd_read (mkZstdDecompressor _ sk pos len0) n = Panic.
Proof.
  intros Hp Hlt. unfold Zstd_read, sub_w. cbn [zd_uncompressed_length zd_offset].
  rewrite (proj2 (N.leb_gt _ _)) by done. by rewrite Hp.
Qed.

End cursor.
