(* ===== verification/Oci.v ===== *)
(** [oci.rs], [oci/media_types.rs] and [fsverity_helpers.rs]: the content-addressed blob store
    of an image, writing blobs ([put_blob]), reading file data back ([fill_from_chunk]), finding
    the metadata blob of a tag, and the fs-verity checks on the way.

    SHA-256, the fs-verity Merkle digest and the [ocidir] crate (index.json and the manifests it
    lists) are interfaces. *)

From S2P Require Import Prelude Errors RustStd Capnp Format Digest InodeTable Compression.

(** ** Interfaces *)

(** The [sha2] crate. *)
Class Sha256 := sha256 : bytes -> bytes.
Class Sha256Ok (SH : Sha256) := sha256_len b : len (sha256 b) = SHA256_BLOCK_SIZE.

(** The [fs_verity] crate's digest, and whether the host file system supports fs-verity. *)
Class FsVerity := { fs_verity_sha256 : bytes -> bytes; verity_supported : bool }.
Class FsVerityOk (V : FsVerity) := fs_verity_len b : len (fs_verity_sha256 b) = SHA256_BLOCK_SIZE.

(** [oci_spec::image::Digest::from_str]; the result is the part [digest()] returns. *)
Class OciDigest := image_digest_from_str : bytes -> Result bytes.
Class OciDigestOk `{Hex} (D : OciDigest) :=
  image_digest_from_sha256 d :
    len d = SHA256_BLOCK_SIZE ->
    image_digest_from_str (bstr "sha256:" ++ hex_encode d) = Ok (hex_encode d).

(** ** Data *)

(** A file of [blobs/sha256]: its content, and its measurement once fs-verity is enabled. *)
Record BlobFile := mkBlobFile { bf_data : bytes; bf_verity : option bytes }.

Record Descriptor := mkDescriptor {
  d_media_type : bytes;
  d_size : N;
  d_digest : bytes;
  d_annotations : option (gmap bytes bytes)
}.

Record ImageManifest := mkManifest { im_config : Descriptor; im_layers : list Descriptor }.

(** [struct Image(OciDir)]: the blob directory and the rest of the OCI layout. *)
Record Image (index : Type) := mkImage {
  img_blobs : gmap bytes BlobFile;
  img_index : index
}.
Arguments mkImage {index} _ _.
Arguments img_blobs {index} _.
Arguments img_index {index} _.

(** The [ocidir] crate. *)
Class OciDir := {
  oci_index : Type;
  oci_new_empty_manifest : Image oci_index -> Result (Image oci_index * ImageManifest);
  oci_insert_manifest :
    Image oci_index -> ImageManifest -> option bytes -> Result (Image oci_index * Descriptor);
  oci_find_manifest_with_tag : Image oci_index -> bytes -> Result (option ImageManifest);
  oci_find_manifest_descriptor_with_tag : Image oci_index -> bytes -> Result (option Descriptor)
}.

(** [img2] has every blob of [img1], unchanged, and the same index. *)
Definition image_extends {I} (img1 img2 : Image I) : Prop :=
  img_blobs img1 ⊆ img_blobs img2 /\ img_index img1 = img_index img2.

(** [img2] has the data of every blob of [img1]; a file may have been replaced by one with the same
    data, so that nothing is said of its seal. *)
Definition data_kept {I} (img1 img2 : Image I) : Prop :=
  forall name f1, img_blobs img1 !! name = Some f1 ->
    exists f2, img_blobs img2 !! name = Some f2 /\ bf_data f2 = bf_data f1.

(** [img2] has the same index and at least the data of [img1]; fs-verity may differ. *)
Definition data_extends {I} (img1 img2 : Image I) : Prop :=
  img_index img1 = img_index img2 /\ data_kept img1 img2.

#[export] Instance data_kept_preorder {I} : PreOrder (@data_kept I).
Proof.
  split; [intros img name f; eauto|]. intros a b c Hab Hbc name f (f' & Hf' & Hd)%Hab.
  destruct (Hbc _ _ Hf') as (f'' & Hf'' & Hd'). exists f''. split; [done|congruence].
Qed.

#[export] Instance data_extends_preorder {I} : PreOrder (@data_extends I).
Proof. split; [done|]. intros a b c [H1 H2] [H3 H4]. split; [congruence|by etrans]. Qed.

Lemma subseteq_data_kept {I} (img1 img2 : Image I) : img_blobs img1 ⊆ img_blobs img2 -> data_kept img1 img2.
Proof. intros Hsub name f Hf. exists f. split; [by eapply lookup_weaken|done]. Qed.

Lemma image_extends_data {I} (img1 img2 : Image I) : image_extends img1 img2 -> data_extends img1 img2.
Proof. intros [Hsub Hi]. split; [done|by apply subseteq_data_kept]. Qed.

(** What [ocidir] promises.  It writes a blob of its own (a manifest, the empty config) to a temporary
    file that it renames to the blob's name, so that a blob of that name keeps its data, which its
    name determines, and not its seal. *)
Class OciDirOk (OD : OciDir) := {
  new_empty_manifest_ok img img' m :
    oci_new_empty_manifest img = Ok (img', m) -> im_layers m = [] /\ data_extends img img';
  insert_manifest_ok img m tag img' d :
    oci_insert_manifest img m (Some tag) = Ok (img', d) ->
    data_kept img img' /\
    oci_find_manifest_with_tag img' tag = Ok (Some m) /\
    oci_find_manifest_descriptor_with_tag img' tag = Ok (Some d) /\
    is_Some (img_blobs img' !! d_digest d);
  insert_manifest_other img m tag img' d t :
    oci_insert_manifest img m (Some tag) = Ok (img', d) -> t ≠ tag ->
    (forall m', oci_find_manifest_with_tag img t = Ok (Some m') -> oci_find_manifest_with_tag img' t = Ok (Some m')) /\
    (forall d', oci_find_manifest_descriptor_with_tag img t = Ok (Some d') ->
       oci_find_manifest_descriptor_with_tag img' t = Ok (Some d'));
  find_manifest_extends img1 img2 tag m :
    data_extends img1 img2 -> oci_find_manifest_with_tag img1 tag = Ok (Some m) ->
    oci_find_manifest_with_tag img2 tag = Ok (Some m);
  find_descriptor_extends img1 img2 tag d :
    data_extends img1 img2 -> oci_find_manifest_descriptor_with_tag img1 tag = Ok (Some d) ->
    oci_find_manifest_descriptor_with_tag img2 tag = Ok (Some d)
}.

(** ** Media types *)

Definition PUZZLEFS_ROOTFS : bytes := bstr "application/vnd.puzzlefs.image.rootfs.v1".
Definition PUZZLEFS_CHUNK_DATA : bytes := bstr "application/vnd.puzzlefs.image.filedata.v1".
Definition VERITY_ROOT_HASH_ANNOTATION : bytes :=
  bstr "io.puzzlefsoci.puzzlefs.puzzlefs_verity_root_hash".

(** [trait PuzzleFSMediaType] and its two implementations. *)
Inductive PuzzleFSMediaType := MT_Rootfs | MT_Chunk.

Definition media_type_name (m : PuzzleFSMediaType) : bytes :=
  match m with MT_Rootfs => PUZZLEFS_ROOTFS | MT_Chunk => PUZZLEFS_CHUNK_DATA end.

(** ** fs-verity *)

Section verity.
Context {V : FsVerity}.

Definition get_fs_verity_digest (data : bytes) : Result bytes := Ok (fs_verity_sha256 data).

(** [fsverity_measure(2)]: [ENODATA] when verity is not enabled on the file. *)
Definition fsverity_measure (f : BlobFile) : io_Result bytes :=
  match bf_verity f with
  | Some m => Ok m
  | None => Err (OsError (errno_code ENODATA))
  end.

Definition check_fs_verity (file : BlobFile) (expected : bytes) : Result () :=
  if negb (len expected =? SHA256_BLOCK_SIZE)%N then
    Err (InvalidFsVerityData (BadHashLength expected))
  else
    measurement ← map_err IOError (fsverity_measure file);
    if bool_decide (expected ≠ measurement) then
      Err (InvalidFsVerityData (VerityMismatch expected measurement))
    else Ok ().

(** [fsverity_enable(2)]: the kernel hashes the file and seals it; [EEXIST] when it is sealed
    already, another error when the file system does not support it. *)
Definition fsverity_enable (f : BlobFile) : BlobFile * io_Result () :=
  if negb verity_supported then (f, Err (CustomError OtherKind))
  else match bf_verity f with
       | Some _ => (f, Err (OsError (errno_code EEXIST)))
       | None => (mkBlobFile (bf_data f) (Some (fs_verity_sha256 (bf_data f))), Ok ())
       end.

End verity.

(** ** The blob store *)

Section oci.
Context {P : Profile} {R : OsRead} {ZS : ZstdSeekable}.
Context {H : Hex} {SH : Sha256} {V : FsVerity} {D : OciDigest} {OD : OciDir} {W : CapnpWire}.

Abbreviation Img := (Image oci_index).

(** [Image::put_blob::<C>]: the new store, the new manifest, and the descriptor, the fs-verity
    digest and the [compressed] flag it returns. *)
Definition put_blob (C : Compression) (self : Img) (buf : bytes) (image_manifest : ImageManifest)
    (media_type : PuzzleFSMediaType) : Result (Img * ImageManifest * (Descriptor * bytes * bool)) :=
  '(compressed_data, uncompressed_size) ← map_err IOError (compress_buf buf);
  let compressed_blob := negb c_is_noop in
  let compressed_size := len compressed_data in
  let final_size := N.min compressed_size uncompressed_size in
  let '(final_data, compressed_blob) :=
    if compressed_blob && (uncompressed_size <=? compressed_size)%N then (buf, false)
    else (compressed_data, compressed_blob) in
  let digest := sha256 final_data in
  let media_type_with_extension := append_extension (media_type_name media_type) in
  let digest_string := bstr "sha256:" ++ hex_encode digest in
  fs_verity_digest ← get_fs_verity_digest compressed_data;
  image_digest ← image_digest_from_str digest_string;
  let annotations :=
    if bool_decide (media_type_name media_type = PUZZLEFS_ROOTFS) then
      Some {[ VERITY_ROOT_HASH_ANNOTATION := hex_encode fs_verity_digest ]}
    else None in
  let descriptor := mkDescriptor media_type_with_extension final_size image_digest annotations in
  let path := d_digest descriptor in
  self ← match img_blobs self !! path with
         | Some file =>
             if bool_decide (sha256 (bf_data file) ≠ digest) then
               Err (IOError (CustomError AlreadyExists))
             else Ok self
         | None =>
             Ok (mkImage (<[path := mkBlobFile final_data None]> (img_blobs self)) (img_index self))
         end;
  let layers :=
    if bool_decide (media_type_name media_type = PUZZLEFS_ROOTFS) then
      descriptor :: im_layers image_manifest
    else im_layers image_manifest ++ [descriptor] in
  Ok (self, mkManifest (im_config image_manifest) layers,
      (descriptor, fs_verity_digest, compressed_blob)).

(** [Image::open_raw_blob]. *)
Definition open_raw_blob (self : Img) (digest : bytes) (verity : option bytes) : io_Result BlobFile :=
  file ← ok_or (img_blobs self !! digest) (OsError (errno_code ENOENT));
  match verity with
  | Some verity =>
      _ ← map_err (fun _ => CustomError OtherKind) (check_fs_verity file verity);
      Ok file
  | None => Ok file
  end.

(** [Image::open_compressed_blob::<C>]. *)
Definition open_compressed_blob (C : Compression) (self : Img) (digest : Digest)
    (verity : option bytes) : io_Result decomp_state :=
  f ← open_raw_blob self (Digest_to_string digest) verity;
  c_decompress (bf_data f).

(** The rootfs descriptor of a manifest: the first layer with the rootfs media type. *)
Definition find_rootfs_desc (manifest : ImageManifest) : Result Descriptor :=
  ok_or (List.find (fun desc => bool_decide (d_media_type desc = PUZZLEFS_ROOTFS)) (im_layers manifest))
    MissingRootfs.

Definition find_manifest (self : Img) (tag : bytes) : Result ImageManifest :=
  manifest ← oci_find_manifest_with_tag self tag;
  ok_or manifest (MissingManifest tag).

(** [Image::get_pfs_rootfs_verity]. *)
Definition get_pfs_rootfs_verity (self : Img) (tag : bytes) : Result bytes :=
  manifest ← find_manifest self tag;
  rootfs_desc ← find_rootfs_desc manifest;
  annotations ← ok_or (d_annotations rootfs_desc) (InvalidFsVerityData MissingRootfsAnnotations);
  rootfs_verity ← ok_or (annotations !! VERITY_ROOT_HASH_ANNOTATION)
                    (InvalidFsVerityData MissingRootfsVerityAnnotation);
  map_err HexError (hex_decode_to_slice rootfs_verity SHA256_BLOCK_SIZE).

(** The blob [Image::get_pfs_rootfs] opens, and the opening itself. *)
Definition pfs_rootfs_digest (self : Img) (tag : bytes) : Result bytes :=
  manifest ← find_manifest self tag;
  rootfs_desc ← find_rootfs_desc manifest;
  Ok (d_digest rootfs_desc).

Definition get_pfs_rootfs (self : Img) (tag : bytes) (verity : option bytes) : Result BlobFile :=
  digest ← pfs_rootfs_digest self tag;
  map_err IOError (open_raw_blob self digest verity).

(** The blob [Image::get_image_manifest_fd] opens, and the opening itself. *)
Definition image_manifest_digest (self : Img) (tag : bytes) : Result bytes :=
  image_manifest ← oci_find_manifest_descriptor_with_tag self tag;
  image_manifest ← ok_or image_manifest (MissingManifest tag);
  Ok (d_digest image_manifest).

Definition get_image_manifest_fd (self : Img) (tag : bytes) : Result BlobFile :=
  digest ← image_manifest_digest self tag;
  map_err IOError (open_raw_blob self digest None).

(** [Image::open_rootfs_blob]. *)
Definition open_rootfs_blob (self : Img) (tag : bytes) (verity : option bytes) : Result RootfsReader :=
  rootfs_verity ← match verity with
                  | Some verity =>
                      manifest ← get_image_manifest_fd self tag;
                      _ ← check_fs_verity manifest verity;
                      Some <$> get_pfs_rootfs_verity self tag
                  | None => Ok None
                  end;
  rootfs_file ← get_pfs_rootfs self tag rootfs_verity;
  RootfsReader_open (bf_data rootfs_file).

(** Open a blob with decompressor [C], seek and read, as the tail of [fill_from_chunk]. *)
Definition read_blob (C : Compression) (self : Img) (digest : Digest) (file_verity : option bytes)
    (pos : Result N) (buf_len : N) : Result bytes :=
  blob ← map_err IOError (open_compressed_blob C self digest file_verity);
  pos ← pos;
  '(blob, _) ← map_err IOError (d_seek blob (SeekStart pos));
  '(_, out) ← map_err IOError (d_read blob buf_len);
  Ok out.

(** [Image::fill_from_chunk]; the result is what was read into the buffer of length [buf_len]. *)
Definition fill_from_chunk (self : Img) (chunk : BlobRef) (addl_offset buf_len : N)
    (verity_data : option VerityData) : Result bytes :=
  digest ← Digest_try_from_BlobRef chunk;
  file_verity ← match verity_data with
                | Some verity =>
                    Some <$> ok_or (verity !! underlying digest)
                               (InvalidFsVerityData (MissingVerityData (underlying digest)))
                | None => Ok None
                end;
  let pos := add_w u64_bits (br_offset chunk) addl_offset in
  if br_compressed chunk then read_blob Zstd self digest file_verity pos buf_len
  else read_blob Noop self digest file_verity pos buf_len.

(** [Image::get_empty_manifest]. *)
Definition get_empty_manifest (self : Img) : Result (Img * ImageManifest) :=
  oci_new_empty_manifest self.

End oci.

(** ** What a blob holds *)

Section oci_facts.
Context {P : Profile} {R : OsRead} {ZS : ZstdSeekable}.
Context {H : Hex} {SH : Sha256} {V : FsVerity} {D : OciDigest} {OD : OciDir} {W : CapnpWire}.

Abbreviation Img := (Image oci_index).

(** What [put_blob::<C>] stores for [buf]: the compressed form only when it is smaller. *)
Definition stored_form (C : Compression) (buf : bytes) : bytes * bool :=
  match compress_buf buf with
  | Ok (c, n) =>
      if negb c_is_noop && (n <=? len c)%N then (buf, false) else (c, negb c_is_noop)
  | _ => ([], false)
  end.

(** The blob named [digest] can be read as [data] with the decompressor its flag selects. *)
Definition resolves (img : Img) (digest : bytes) (compressed : bool) (data : bytes) : Prop :=
  exists f, img_blobs img !! hex_encode digest = Some f /\
    if compressed then reads_as (C := Zstd) (bf_data f) data
    else reads_as (C := Noop) (bf_data f) data.

(** Every blob is filed under the hash of its content. *)
Definition content_addressed (img : Img) : Prop :=
  map_Forall (fun name f => name = hex_encode (sha256 (bf_data f))) (img_blobs img).

Lemma resolves_mono img1 img2 digest compressed data :
  data_kept img1 img2 -> resolves img1 digest compressed data -> resolves img2 digest compressed data.
Proof. intros Hk (f & (f' & Hf' & Hd)%Hk & Hr). exists f'. by rewrite Hd. Qed.

(** The verity data, when there is any, accepts the blob of a chunk. *)
Definition verified (img : Img) (verity_data : option VerityData) (chunk : BlobRef) : Prop :=
  match verity_data with
  | None => True
  | Some m =>
      exists f e, img_blobs img !! hex_encode (br_digest chunk) = Some f /\
        m !! br_digest chunk = Some e /\ len e = SHA256_BLOCK_SIZE /\ bf_verity f = Some e
  end.

Lemma check_fs_verity_ok f e :
  check_fs_verity f e = Ok () <-> len e = SHA256_BLOCK_SIZE /\ bf_verity f = Some e.
Proof.
  unfold check_fs_verity, fsverity_measure.
  destruct (N.eqb_spec (len e) SHA256_BLOCK_SIZE) as [Hl|Hl]; cbn [negb]; [|naive_solver].
  destruct (bf_verity f) as [m|]; cbn [map_err]; bsimpl; [|naive_solver].
  case_bool_decide; naive_solver.
Qed.

(** Reading a chunk of a blob that resolves gives the slice of the data it refers to. *)
Lemma fill_from_chunk_resolves img vd chunk addl n data :
  verified img vd chunk ->
  resolves img (br_digest chunk) (br_compressed chunk) data ->
  (br_offset chunk + addl <= len data)%N -> (len data < 2 ^ 63)%N ->
  fill_from_chunk img chunk addl n vd = Ok (slice (br_offset chunk + addl) n data).
Proof.
  intros Hv (f & Hf & Hr) Hoff Hlen. unfold fill_from_chunk, Digest_try_from_BlobRef. bsimpl.
  rewrite add_w_ok by word_lia.
  assert (forall verity, match verity with Some e => bf_verity f = Some e /\ len e = SHA256_BLOCK_SIZE
                                     | None => True end ->
    open_raw_blob img (hex_encode (br_digest chunk)) verity = Ok f) as Hopen.
  { intros verity Hve. unfold open_raw_blob. rewrite Hf. cbn [ok_or]. bsimpl.
    destruct verity as [e|]; [|done]. by rewrite (proj2 (check_fs_verity_ok f e)) by naive_solver. }
  assert (exists verity, match vd with
                         | Some verity => Some <$> ok_or (verity !! underlying (mkDigest (br_digest chunk)))
                             (InvalidFsVerityData (MissingVerityData (underlying (mkDigest (br_digest chunk)))))
                         | None => Ok None
                         end = Ok verity /\ open_raw_blob img (hex_encode (br_digest chunk)) verity = Ok f)
    as (verity & -> & Hraw).
  { destruct vd as [m|]; [|exists None; split; [done|by apply Hopen]].
    destruct Hv as (f' & e & Hf' & He & Hle & Hfe). exists (Some e). unfold underlying. cbn [digest_bytes].
    rewrite He. split; [done|]. apply Hopen. split; [congruence|done]. }
  bsimpl. destruct (br_compressed chunk);
    unfold read_blob, open_compressed_blob, Digest_to_string;
    cbn [digest_bytes]; rewrite Hraw; bsimpl;
    destruct Hr as (d & -> & Hr);
    destruct (Hr (br_offset chunk + addl)%N n) as (d1 & d2 & Hs & Hd); [lia|lia| |lia|lia|];
    cbn [map_err]; bsimpl; rewrite Hs; cbn [map_err]; bsimpl; rewrite Hd; reflexivity.
Qed.

Context {SL : Sha256Ok SH} {HL : HexOk H} {DL : OciDigestOk D}.

Lemma is_rootfs_name mt :
  bool_decide (media_type_name mt = PUZZLEFS_ROOTFS) = match mt with MT_Rootfs => true | MT_Chunk => false end.
Proof. by destruct mt; vm_compute. Qed.

(** [put_blob], case by case, for a compression that satisfies its laws. *)
Lemma put_blob_eq (C : Compression) `{!CompressionOk C} img buf man mt :
  (len buf < 2 ^ 63)%N ->
  exists c, compress_buf buf = Ok (c, len buf) /\
  let '(final, compressed) := stored_form C buf in
  let name := hex_encode (sha256 final) in
  let annotations := match mt with
                     | MT_Rootfs => Some {[ VERITY_ROOT_HASH_ANNOTATION := hex_encode (fs_verity_sha256 c) ]}
                     | MT_Chunk => None
                     end in
  let desc := mkDescriptor (append_extension (media_type_name mt)) (N.min (len c) (len buf)) name annotations in
  let man' := mkManifest (im_config man)
                match mt with MT_Rootfs => desc :: im_layers man | MT_Chunk => im_layers man ++ [desc] end in
  put_blob C img buf man mt =
    match img_blobs img !! name with
    | Some f =>
        if decide (sha256 (bf_data f) = sha256 final) then
          Ok (img, man', (desc, fs_verity_sha256 c, compressed))
        else Err (IOError (CustomError AlreadyExists))
    | None =>
        Ok (mkImage (<[name := mkBlobFile final None]> (img_blobs img)) (img_index img), man',
            (desc, fs_verity_sha256 c, compressed))
    end.
Proof.
  intros Hlen. destruct (compress_reads_as buf Hlen) as (c & Hc & _). exists c. split; [done|].
  unfold put_blob, stored_form. rewrite Hc, !is_rootfs_name. cbn [map_err]. bsimpl.
  destruct (negb c_is_noop && (len buf <=? len c)%N); cbn beta iota zeta;
    unfold get_fs_verity_digest; bsimpl;
    rewrite image_digest_from_sha256 by apply sha256_len; bsimpl; cbn [d_digest];
    (destruct (img_blobs img !! _) as [f|]; [destruct (decide _) as [Heq|Hne]|]);
    [rewrite bool_decide_eq_false_2 by (intros ?; contradiction) | rewrite bool_decide_eq_true_2 by done |
    |rewrite bool_decide_eq_false_2 by (intros ?; contradiction) | rewrite bool_decide_eq_true_2 by done |];
    bsimpl; by destruct mt.
Qed.

(** The outcome of a successful [put_blob]. *)
Lemma put_blob_ok_inv (C : Compression) `{!CompressionOk C} img buf man mt img' man' desc v compressed :
  (len buf < 2 ^ 63)%N ->
  put_blob C img buf man mt = Ok (img', man', (desc, v, compressed)) ->
  compressed = (stored_form C buf).2 /\
  d_digest desc = hex_encode (sha256 (stored_form C buf).1) /\
  img_blobs img ⊆ img_blobs img' /\ img_index img = img_index img' /\
  (exists c, compress_buf buf = Ok (c, len buf) /\ v = fs_verity_sha256 c) /\
  exists f, img_blobs img' !! d_digest desc = Some f /\
    (img_blobs img !! d_digest desc = None -> f = mkBlobFile (stored_form C buf).1 None) /\
    sha256 (bf_data f) = sha256 (stored_form C buf).1.
Proof.
  intros Hlen Hput. destruct (put_blob_eq C img buf man mt Hlen) as (c & Hc & Heq).
  destruct (stored_form C buf) as [final comp]. cbn beta iota zeta in Heq. rewrite Heq in Hput.
  clear Heq. cbn [fst snd]. destruct (img_blobs img !! hex_encode (sha256 final)) as [f|] eqn:Hf.
  - destruct (decide _) as [Hsame|]; [|done]. simplify_eq. cbn [d_digest].
    repeat (split; [done || by eauto|]). exists f. split; [done|]. split; [congruence|done].
  - simplify_eq. cbn [d_digest img_blobs img_index].
    split; [done|]. split; [done|]. split; [by apply insert_subseteq|].
    split; [done|]. split; [by eauto|].
    exists (mkBlobFile final None). by rewrite lookup_insert_eq.
Qed.

(** The stored form of [buf] can be read back as [buf] with the decompressor its flag selects,
    for the two compressions the program instantiates [put_blob] with. *)
Lemma stored_form_reads_back `{!OsReadFull R} `{!ZstdSeekableOk ZS} (C : Compression) buf :
  C = Noop \/ C = Zstd -> (len buf < 2 ^ 63)%N ->
  if (stored_form C buf).2 then reads_as (C := Zstd) (stored_form C buf).1 buf
  else reads_as (C := Noop) (stored_form C buf).1 buf.
Proof.
  assert (forall b, (len b < 2 ^ 63)%N -> reads_as (C := Noop) b b) as Hnoop.
  { intros b Hb. destruct (compress_reads_as (C := Noop) b Hb) as (c & Hc & Hr).
    rewrite noop_compress_buf in Hc. by simplify_eq. }
  intros [->| ->] Hlen; unfold stored_form.
  - rewrite noop_compress_buf. cbn. by apply Hnoop.
  - destruct (compress_reads_as (C := Zstd) buf Hlen) as (c & Hc & Hr). rewrite Hc.
    cbn [c_is_noop Zstd negb andb]. destruct (len buf <=? len c)%N; cbn; [by apply Hnoop|done].
Qed.

Lemma compression_ok_of `{!OsReadFull R} `{!ZstdSeekableOk ZS} (C : Compression) :
  C = Noop \/ C = Zstd -> CompressionOk C.
Proof. intros [->| ->]; apply _. Qed.

(** A healthy store: blobs are filed under their hash, and the hash does not collide on the set
    [U] of data that is or will be stored. *)
Record healthy (U : bytes -> Prop) (img : Img) : Prop := {
  healthy_addressed : content_addressed img;
  healthy_within : map_Forall (fun _ f => U (bf_data f)) (img_blobs img);
  healthy_injective : forall a b, U a -> U b -> sha256 a = sha256 b -> a = b
}.

(** In a healthy store [put_blob] succeeds, keeps the store healthy, and the blob resolves to
    the data under the digest and the flag it returns. *)
Lemma put_blob_healthy `{!OsReadFull R} `{!ZstdSeekableOk ZS} (C : Compression) U img buf man mt :
  C = Noop \/ C = Zstd -> (len buf < 2 ^ 63)%N -> healthy U img -> U (stored_form C buf).1 ->
  exists img' man' desc v compressed, put_blob C img buf man mt = Ok (img', man', (desc, v, compressed)) /\
    healthy U img' /\ image_extends img img' /\
    Digest_try_from_str (d_digest desc) = Ok (mkDigest (sha256 (stored_form C buf).1)) /\
    d_digest desc = hex_encode (sha256 (stored_form C buf).1) /\
    d_media_type desc = append_extension (media_type_name mt) /\
    im_layers man' = match mt with MT_Rootfs => desc :: im_layers man | MT_Chunk => im_layers man ++ [desc] end /\
    resolves img' (sha256 (stored_form C buf).1) compressed buf /\
    (exists c, compress_buf buf = Ok (c, len buf) /\ v = fs_verity_sha256 c) /\
    (exists f, img_blobs img' !! d_digest desc = Some f /\ bf_data f = (stored_form C buf).1).
Proof.
  intros HC Hlen [Hca Hin Hinj] HU. pose proof (compression_ok_of C HC) as HCok.
  pose proof (stored_form_reads_back C buf HC Hlen) as Hreads.
  destruct (put_blob_eq C img buf man mt Hlen) as (c & Hc & Heq).
  destruct (stored_form C buf) as [final comp]. cbn beta iota zeta in Heq. cbn [fst snd] in *.
  assert (Digest_try_from_str (hex_encode (sha256 final)) = Ok (mkDigest (sha256 final))) as Hdig
    by (apply (Digest_try_from_to_string (mkDigest _)), sha256_len).
  destruct (img_blobs img !! hex_encode (sha256 final)) as [f|] eqn:Hf.
  - assert (sha256 (bf_data f) = sha256 final) as Hsha
      by (symmetry; apply hex_encode_inj; by apply (Hca _ _ Hf)).
    assert (bf_data f = final) as Hdata by (apply Hinj; [by apply (Hin _ _ Hf) | done | done]).
    rewrite decide_True in Heq by done.
    eexists _, _, _, _, _. split; [exact Heq|]. cbn [d_digest d_media_type im_layers].
    split; [done|]. split; [by split|]. do 4 (split; [done|]).
    split; [exists f; by rewrite Hdata|]. split; by eauto.
  - eexists _, _, _, _, _. split; [exact Heq|]. cbn [d_digest d_media_type im_layers img_blobs].
    split; [split; [by apply map_Forall_insert_2 | by apply map_Forall_insert_2 | done]|].
    split; [split; [by apply insert_subseteq | done]|]. do 4 (split; [done|]).
    split; [exists (mkBlobFile final None); cbn [img_blobs]; by rewrite lookup_insert_eq|].
    split; [by eauto|]. exists (mkBlobFile final None). by rewrite lookup_insert_eq.
Qed.

(** No blob of [img] hides different data under the name of [data]. *)
Definition no_collision (img : Img) (data : bytes) : Prop :=
  forall f, img_blobs img !! hex_encode (sha256 data) = Some f -> bf_data f = data.

(** C9: what [put_blob] stores, [fill_from_chunk] reads back.  After a successful [put_blob] of
    [buf], compressed with [Zstd] or not, and whatever blobs are added afterwards, the digest in
    the descriptor parses, and reading any range of the blob through a [BlobRef] with that digest
    and the returned flag gives exactly that range of [buf].  The only assumption on the store is
    that it does not already hold a colliding blob. *)
Theorem put_blob_fill_from_chunk `{!OsReadFull R} `{!ZstdSeekableOk ZS} (C : Compression)
    (img img' img'' : Img) (buf : bytes) (man man' : ImageManifest) (mt : PuzzleFSMediaType)
    (desc : Descriptor) (v : bytes) (compressed : bool) :
  C = Noop \/ C = Zstd -> (len buf < 2 ^ 63)%N ->
  no_collision img (stored_form C buf).1 ->
  put_blob C img buf man mt = Ok (img', man', (desc, v, compressed)) ->
  img_blobs img' ⊆ img_blobs img'' ->
  exists digest, Digest_try_from_str (d_digest desc) = Ok (mkDigest digest) /\
    forall offset addl n, (offset + addl <= len buf)%N ->
      fill_from_chunk img'' (mkBlobRef digest offset compressed) addl n None
      = Ok (slice (offset + addl) n buf).
Proof.
  intros HC Hlen Hnc Hput Hsub. pose proof (compression_ok_of C HC) as HCok.
  destruct (put_blob_ok_inv C img buf man mt img' man' desc v compressed Hlen Hput)
    as (-> & Hd & _ & _ & _ & f & Hf & Hnew & _).
  exists (sha256 (stored_form C buf).1). split.
  { rewrite Hd. apply (Digest_try_from_to_string (mkDigest _)). apply sha256_len. }
  intros offset addl n Hoff. apply (fill_from_chunk_resolves _ None (mkBlobRef _ _ _)); [done| |done..].
  exists f. cbn [br_digest br_compressed]. rewrite <-Hd. split; [by eapply lookup_weaken|].
  assert (bf_data f = (stored_form C buf).1) as ->; [|by apply stored_form_reads_back].
  destruct (img_blobs img !! d_digest desc) as [f'|] eqn:Hf'.
  - rewrite Hd in Hf'. assert (f' = f) as ->; [|by apply Hnc].
    pose proof Hf as Hf2. rewrite Hd in Hf2.
    destruct (put_blob_ok_inv C img buf man mt img' man' desc v (stored_form C buf).2 Hlen Hput)
      as (_ & _ & Hext & _). pose proof (lookup_weaken _ _ _ _ Hf' Hext). congruence.
  - by rewrite Hnew.
Qed.

(** The store stays content-addressed and never loses or changes a blob: a successful
    [put_blob] keeps every blob (with its fs-verity state), and files a new one under the hash
    of its content. *)
Theorem put_blob_content_addressed (C : Compression) (CL : CompressionOk C)
    (img img' : Img) (buf : bytes) (man man' : ImageManifest) (mt : PuzzleFSMediaType)
    (ret : Descriptor * bytes * bool) :
  (len buf < 2 ^ 63)%N -> content_addressed img ->
  put_blob C img buf man mt = Ok (img', man', ret) ->
  content_addressed img' /\ image_extends img img'.
Proof.
  intros Hlen Hca Hput. destruct ret as [[desc v] compressed].
  destruct (put_blob_ok_inv C img buf man mt img' man' desc v compressed Hlen Hput)
    as (_ & Hd & Hsub & Hidx & _ & _).
  split; [|by split]. destruct (put_blob_eq C img buf man mt Hlen) as (c & _ & Heq).
  destruct (stored_form C buf) as [final comp]. cbn beta iota zeta in Heq. rewrite Heq in Hput.
  destruct (img_blobs img !! _); [destruct (decide _); [|done]|]; simplify_eq; [done|].
  by apply map_Forall_insert_2.
Qed.

(** Storing the same data twice is the same as storing it once: the second [put_blob]
    succeeds, leaves the store as it is and returns the same descriptor, digest and flag. *)
Theorem put_blob_idempotent (C : Compression) (CL : CompressionOk C)
    (img img' : Img) (buf : bytes) (man man' man2 : ImageManifest) (mt : PuzzleFSMediaType)
    (ret : Descriptor * bytes * bool) :
  (len buf < 2 ^ 63)%N -> put_blob C img buf man mt = Ok (img', man', ret) ->
  exists man2', put_blob C img' buf man2 mt = Ok (img', man2', ret).
Proof.
  intros Hlen Hput. destruct ret as [[desc v] compressed].
  destruct (put_blob_ok_inv C img buf man mt img' man' desc v compressed Hlen Hput)
    as (_ & Hd & _ & _ & _ & f & Hf & _ & Hsha).
  destruct (put_blob_eq C img buf man mt Hlen) as (c & Hc & Heq).
  destruct (put_blob_eq C img' buf man2 mt Hlen) as (c' & Hc' & Heq').
  rewrite Hc in Hc'. injection Hc' as <-.
  destruct (stored_form C buf) as [final comp]. cbn beta iota zeta in Heq, Heq'.
  cbn [fst] in *. rewrite Hd in Hf. rewrite Hf, decide_True in Heq' by done.
  rewrite Heq in Hput. clear Heq.
  destruct (img_blobs img !! _); [destruct (decide _); [|done]|];
    injection Hput as ? ? <- <- <-; subst; eexists; exact Heq'.
Qed.

(** A name already taken by data with another hash is refused, and nothing is written. *)
Lemma put_blob_refuses_foreign (C : Compression) (CL : CompressionOk C) img buf man mt f :
  (len buf < 2 ^ 63)%N ->
  img_blobs img !! hex_encode (sha256 (stored_form C buf).1) = Some f ->
  sha256 (bf_data f) ≠ sha256 (stored_form C buf).1 ->
  put_blob C img buf man mt = Err (IOError (CustomError AlreadyExists)).
Proof.
  intros Hlen Hf Hne. destruct (put_blob_eq C img buf man mt Hlen) as (c & _ & Heq).
  destruct (stored_form C buf) as [final comp]. cbn beta iota zeta in Heq. cbn [fst] in *.
  by rewrite Heq, Hf, decide_False.
Qed.

End oci_facts.
