(* ===== verification/Layout.v ===== *)
(** An image on the disk: [Image::new], [Image::open] and the other accessors of [oci.rs] that go
    through directories of the host.  [cap_std] and the opening functions of [ocidir] are an
    interface; the directory of an image is known only through it. *)

From S2P Require Import Prelude Errors RustStd Capnp Format Digest InodeTable Compression Oci.

(** The host's directories, as far as images are concerned: [fs::create_dir_all], [fs::canonicalize],
    [cap_std::fs::Dir::open_ambient_dir], [OciDir::ensure], [OciDir::open_with_external_blobs] and
    [OciDir::read_index].  An open image writes its files to its directory; [write_back] is the disk
    with the image as its last user leaves it. *)
Class OciStore `{OciDir} := {
  disk : Type;
  dir_handle : Type;
  disk_create_dir_all : disk -> Path -> disk * io_Result ();
  disk_canonicalize : disk -> bytes -> io_Result Path;
  open_ambient_dir : disk -> Path -> io_Result dir_handle;
  OciDir_ensure : disk -> dir_handle -> disk * Result (Image oci_index);
  OciDir_open_with_external_blobs : disk -> dir_handle -> dir_handle -> Result (Image oci_index);
  OciDir_read_index : Image oci_index -> Result oci_index;
  write_back : disk -> Path -> Image oci_index -> disk
}.

Section layout.
Context {OD : OciDir} {ST : OciStore}.

Abbreviation Img := (Image oci_index).

(** [Image::blob_path]. *)
Definition blob_path : Path := components (bstr "blobs/sha256").

(** [Image::new]: the disk afterwards, and the image. *)
Definition Image_new (d : disk) (oci_dir : Path) : disk * Result Img :=
  match disk_create_dir_all d oci_dir with
  | (d, Ok tt) =>
      match open_ambient_dir d oci_dir with
      | Ok h => OciDir_ensure d h
      | Err e => (d, Err (IOError e))
      | Panic => (d, Panic)
      | Diverged => (d, Diverged)
      end
  | (d, Err e) => (d, Err (IOError e))
  | (d, Panic) => (d, Panic)
  | (d, Diverged) => (d, Diverged)
  end.

(** [Image::open]. *)
Definition Image_open (d : disk) (oci_dir : Path) : Result Img :=
  h ← map_err IOError (open_ambient_dir d oci_dir);
  blobs_dir ← map_err IOError (open_ambient_dir d (path_join_path oci_dir blob_path));
  OciDir_open_with_external_blobs d h blobs_dir.

(** [Image::get_index]. *)
Definition get_index (self : Img) : Result oci_index := OciDir_read_index self.

End layout.

(** What the commands rely on: a directory holds one image, which [ensure] makes if there is none
    and returns, [open_with_external_blobs] reads again, and an open image writes. *)
Class OciStoreOk `{OciDir} (ST : OciStore) := {
  holds : disk -> Path -> Image oci_index -> Prop;
  ensure_holds d p h d' img : open_ambient_dir d p = Ok h -> OciDir_ensure d h = (d', Ok img) -> holds d' p img;
  write_back_holds d p img img' : holds d p img -> holds (write_back d p img') p img';
  holds_opens d p img : holds d p img ->
    exists h hb, open_ambient_dir d p = Ok h /\ open_ambient_dir d (path_join_path p blob_path) = Ok hb /\
      OciDir_open_with_external_blobs d h hb = Ok img
}.

Section layout_facts.
Context {OD : OciDir} {ST : OciStore} {STL : OciStoreOk ST}.

Lemma Image_new_holds d p d' img : Image_new d p = (d', Ok img) -> holds d' p img.
Proof.
  unfold Image_new. destruct (disk_create_dir_all d p) as [d1 [[]| | |]]; try done.
  destruct (open_ambient_dir d1 p) as [h| | |] eqn:Ho; try done. by apply ensure_holds.
Qed.

Lemma Image_open_holds d p img : holds d p img -> Image_open d p = Ok img.
Proof. intros (h & hb & Hh & Hb & Hr)%holds_opens. unfold Image_open. by rewrite Hh, Hb. Qed.

End layout_facts.
