(* ===== verification/Reader.v ===== *)
(** [reader/puzzlefs.rs]: opening an image, looking up inodes by number and by path, and reading
    file contents out of the chunks of the blob store. *)

From S2P Require Import Prelude Errors RustStd Capnp Format Digest InodeTable Compression Oci.

Definition PUZZLEFS_IMAGE_MANIFEST_VERSION : N := 3.

Section reader.
Context {P : Profile} {R : OsRead} {ZS : ZstdSeekable}.
Context {H : Hex} {SH : Sha256} {V : FsVerity} {D : OciDigest} {OD : OciDir} {W : CapnpWire}.

Abbreviation Img := (Image oci_index).

(** The loop over the chunks in [file_read]; it returns the buffer and [buf_offset]. *)
Fixpoint file_read_loop (oci : Img) (verity_data : option VerityData) (offset end_ : N)
    (chunks : list FileChunk) (file_offset buf_offset : N) (data : bytes) : Result (bytes * N) :=
  match chunks with
  | [] => Ok (data, buf_offset)
  | chunk :: chunks =>
      if (end_ <? file_offset)%N then Ok (data, buf_offset)
      else
        let chunk_len := cast_w usize_bits (fc_len chunk) in
        chunk_end ← add_w usize_bits file_offset chunk_len;
        if (chunk_end <? offset)%N then
          file_offset ← add_w usize_bits file_offset chunk_len;
          file_read_loop oci verity_data offset end_ chunks file_offset buf_offset data
        else
          let addl_offset := saturating_sub offset file_offset in
          left_in_buf ← sub_w usize_bits (len data) buf_offset;
          left_in_chunk ← sub_w usize_bits chunk_len addl_offset;
          let to_read := N.min left_in_buf left_in_chunk in
          let start := buf_offset in
          finish ← add_w usize_bits start to_read;
          file_offset ← add_w usize_bits file_offset addl_offset;
          _ ← assert_ ((start <=? finish) && (finish <=? len data))%N;
          out ← fill_from_chunk oci (fc_blob chunk) addl_offset to_read verity_data;
          file_offset ← add_w usize_bits file_offset (len out);
          buf_offset ← add_w usize_bits buf_offset (len out);
          file_read_loop oci verity_data offset end_ chunks file_offset buf_offset
            (splice start out data)
  end.

(** [file_read]: the filled buffer and the number of bytes read. *)
Definition file_read (oci : Img) (inode : Inode) (offset : N) (data : bytes)
    (verity_data : option VerityData) : Result (bytes * N) :=
  match i_mode inode with
  | Mode_File chunks =>
      end_ ← add_w usize_bits offset (len data);
      file_read_loop oci verity_data offset end_ chunks 0 0 data
  | _ => Err (from_errno ENOTDIR)
  end.

(** [struct PuzzleFS]. *)
Record PuzzleFS := mkPuzzleFS {
  pfs_oci : Img;
  pfs_rootfs : RootfsReader;
  pfs_verity_data : option VerityData;
  pfs_manifest_verity : option bytes
}.

(** [PuzzleFS::open]. *)
Definition PuzzleFS_open (oci : Img) (tag : bytes) (manifest_verity : option bytes) : Result PuzzleFS :=
  rootfs ← open_rootfs_blob oci tag manifest_verity;
  version ← get_manifest_version rootfs;
  if negb (version =? PUZZLEFS_IMAGE_MANIFEST_VERSION)%N then
    version ← get_manifest_version rootfs;
    Err (InvalidImageVersion version PUZZLEFS_IMAGE_MANIFEST_VERSION)
  else
    verity_data ← match manifest_verity with
                  | Some _ => Some <$> get_verity_data rootfs
                  | None => Ok None
                  end;
    Ok (mkPuzzleFS oci rootfs verity_data manifest_verity).

(** [PuzzleFS::find_inode]. *)
Definition PuzzleFS_find_inode (self : PuzzleFS) (ino : Ino) : Result Inode :=
  RootfsReader_find_inode (pfs_rootfs self) ino.

(** [PuzzleFS::max_inode]. *)
Definition PuzzleFS_max_inode (self : PuzzleFS) : Result Ino :=
  RootfsReader_max_inode (pfs_rootfs self).

(** The loop over the path components in [PuzzleFS::lookup], for any inode table. *)
Fixpoint lookup_from (find : Ino -> Result Inode) (cur : Inode) (comps : Path)
  : Result (option Inode) :=
  match comps with
  | [] => Ok (Some cur)
  | Normal p :: comps =>
      match i_mode cur with
      | Mode_Dir dir_list =>
          match List.find (fun dir_entry => bool_decide (de_name dir_entry = p)) (dl_entries dir_list) with
          | Some dir_ent => cur ← find (de_ino dir_ent); lookup_from find cur comps
          | None => Ok None
          end
      | _ => Ok None
      end
  | _ :: _ => Err (from_errno EINVAL)
  end.

(** [PuzzleFS::lookup]; [components[0]] panics on an empty path. *)
Definition PuzzleFS_lookup (self : PuzzleFS) (p : Path) : Result (option Inode) :=
  match p with
  | [] => Panic
  | RootDir :: comps =>
      cur ← PuzzleFS_find_inode self 1;
      lookup_from (PuzzleFS_find_inode self) cur comps
  | _ :: _ => Err (from_errno EINVAL)
  end.

(** The image path of a list of names. *)
Definition image_path (names : list bytes) : Path := RootDir :: (Normal <$> names).

(** [struct FileReader]; the image and the inode are the borrowed ones. *)
Record FileReader := mkFileReader {
  fr_oci : Img;
  fr_inode : Inode;
  fr_offset : N;
  fr_len : N
}.

(** [FileReader::new]. *)
Definition FileReader_new (oci : Img) (inode : Inode) : Result FileReader :=
  l ← file_len inode;
  Ok (mkFileReader oci inode 0 (cast_w usize_bits l)).

(** [<FileReader as io::Read>::read]: the new reader, the filled buffer and the count. *)
Definition FileReader_read (self : FileReader) (buf : bytes) : io_Result (FileReader * bytes * N) :=
  left ← sub_w usize_bits (fr_len self) (fr_offset self);
  let to_read := N.min left (len buf) in
  if (to_read =? 0)%N then Ok (self, buf, 0%N)
  else
    '(filled, read) ← map_err (fun e => OsError (to_errno e))
                        (file_read (fr_oci self) (fr_inode self) (fr_offset self)
                           (slice 0 to_read buf) None);
    offset ← add_w usize_bits (fr_offset self) read;
    Ok (mkFileReader (fr_oci self) (fr_inode self) offset (fr_len self), splice 0 filled buf, read).

(** [io::copy] out of a [FileReader]: read into a buffer of [bufsize] bytes until [Ok(0)]. *)
Fixpoint FileReader_copy (fuel : nat) (bufsize : N) (self : FileReader) (acc : bytes) : io_Result bytes :=
  match fuel with
  | O => Diverged
  | S fuel =>
      '(self, buf, n) ← FileReader_read self (replicate (N.to_nat bufsize) x00);
      if (n =? 0)%N then Ok acc
      else FileReader_copy fuel bufsize self (acc ++ slice 0 n buf)
  end.

(** ** Image paths *)

Lemma Normal_fmap_inj (names names' : list bytes) : Normal <$> names = Normal <$> names' -> names = names'.
Proof.
  revert names'. induction names as [|n names IH]; intros [|n' names'] He; try done. injection He as -> He. f_equal. by apply IH.
Qed.

Lemma image_path_inj names names' : image_path names = image_path names' -> names = names'.
Proof. intros [= He]. by apply Normal_fmap_inj. Qed.

Lemma image_path_snoc names n : image_path (names ++ [n]) = image_path names ++ [Normal n].
Proof. unfold image_path. by rewrite fmap_app. Qed.

(** The last step of a lookup. *)
Lemma lookup_snoc pfs names n inode :
  PuzzleFS_lookup pfs (image_path (names ++ [n])) = Ok (Some inode) ->
  exists d dl e, PuzzleFS_lookup pfs (image_path names) = Ok (Some d) /\ i_mode d = Mode_Dir dl /\
    e ∈ dl_entries dl /\ de_name e = n /\ PuzzleFS_find_inode pfs (de_ino e) = Ok inode.
Proof.
  unfold PuzzleFS_lookup, image_path. intros (root & Hroot & Hl)%bind_ok_inv. rewrite Hroot. bsimpl.
  clear Hroot. revert root Hl. induction names as [|n' names IH]; intros cur Hl; cbn in Hl |- *.
  - destruct (i_mode cur) as [| | |dl| | | | |] eqn:Hm; try done.
    destruct (List.find _ _) as [e|] eqn:Hf; [|done]. apply bind_ok_inv in Hl as (i & Hi & [= <-]).
    apply find_some in Hf as [He%list_elem_of_In Hn%bool_decide_eq_true]. eauto 10.
  - destruct (i_mode cur); try done. destruct (List.find _ _) as [e|]; [|done].
    apply bind_ok_inv in Hl as (i & Hi & Hl). rewrite Hi. by apply IH.
Qed.

(** ** Contents of a file *)

(** [d] is the data a chunk stands for. *)
Definition chunk_data (img : Img) (vd : option VerityData) (c : FileChunk) (d : bytes) : Prop :=
  exists blob, verified img vd (fc_blob c) /\
    resolves img (br_digest (fc_blob c)) (br_compressed (fc_blob c)) blob /\
    (br_offset (fc_blob c) + fc_len c <= len blob)%N /\ (len blob < 2 ^ 63)%N /\
    d = slice (br_offset (fc_blob c)) (fc_len c) blob.

(** [content] is what the chunks of a file hold, one after the other. *)
Definition file_content (img : Img) (vd : option VerityData) (chunks : list FileChunk)
    (content : bytes) : Prop :=
  exists ds, Forall2 (chunk_data img vd) chunks ds /\ content = concat ds.

End reader.

(** ** [file_read] returns the bytes of the file *)

Section file_read_facts.
Context {P : Profile} {R : OsRead} {ZS : ZstdSeekable}.
Context {H : Hex} {SH : Sha256} {V : FsVerity} {D : OciDigest} {OD : OciDir} {W : CapnpWire}.

Lemma chunk_data_len img vd c d : chunk_data img vd c d -> len d = fc_len c.
Proof. intros (blob & _ & _ & Hoff & _ & ->). rewrite len_slice. lia. Qed.

Lemma file_content_len img vd chunks ds :
  Forall2 (chunk_data img vd) chunks ds -> foldr N.add 0%N (fc_len <$> chunks) = len (concat ds).
Proof.
  induction 1 as [|c d chunks ds Hc _ IH]; [done|]. csimpl.
  by rewrite IH, len_app, (chunk_data_len _ _ _ _ Hc).
Qed.

(** Reading inside one chunk. *)
Lemma chunk_data_read img vd c d addl n :
  chunk_data img vd c d -> (addl + n <= len d)%N ->
  fill_from_chunk img (fc_blob c) addl n vd = Ok (slice addl n d).
Proof.
  intros Hcd Hle. pose proof (chunk_data_len _ _ _ _ Hcd) as Hl.
  destruct Hcd as (blob & Hv & Hr & Hoff & Hb & ->).
  rewrite (fill_from_chunk_resolves img vd _ addl n blob) by (done || lia).
  rewrite slice_slice by lia. done.
Qed.

(** One round of the loop that reads: [addl] bytes into the chunk, as much as fits. *)
Lemma file_read_loop_read img vd offset c d chunks file_offset buf_offset data :
  chunk_data img vd c d ->
  (file_offset <= offset + len data)%N -> (offset <= file_offset + len d)%N ->
  (buf_offset <= len data)%N -> (file_offset + len d < 2 ^ 64)%N ->
  (offset + len data + len d < 2 ^ 64)%N ->
  let addl := saturating_sub offset file_offset in
  let to_read := N.min (len data - buf_offset) (len d - addl) in
  file_read_loop img vd offset (offset + len data) (c :: chunks) file_offset buf_offset data
  = file_read_loop img vd offset (offset + len data) chunks (file_offset + addl + to_read)
      (buf_offset + to_read) (splice buf_offset (slice addl to_read d) data).
Proof.
  intros Hc Hfo Hoff Hbo Hov Hov2 addl to_read. pose proof (chunk_data_len _ _ _ _ Hc) as Hl.
  assert (addl <= len d)%N as Haddl by (unfold addl, saturating_sub; lia).
  assert (len (slice addl to_read d) = to_read) as Hls by (rewrite len_slice; lia).
  cbn [file_read_loop]. rewrite (proj2 (N.ltb_ge _ _)) by lia.
  rewrite cast_w_small by word_lia. rewrite <-Hl.
  rewrite add_w_ok by word_lia. bsimpl. rewrite (proj2 (N.ltb_ge _ _)) by lia. fold addl.
  rewrite (sub_w_ok _ (len data)) by done. bsimpl. rewrite sub_w_ok by done. bsimpl. fold to_read.
  rewrite add_w_ok by (unfold usize_bits; lia). bsimpl.
  rewrite add_w_ok by (unfold addl, saturating_sub, usize_bits; lia). bsimpl.
  replace ((buf_offset <=? buf_offset + to_read)%N && (buf_offset + to_read <=? len data)%N) with true.
  2: { symmetry. apply andb_true_iff. split; apply N.leb_le; lia. }
  cbn [assert_]. bsimpl. rewrite (chunk_data_read img vd c d) by (done || lia). bsimpl. rewrite Hls.
  rewrite add_w_ok by (unfold addl, saturating_sub, usize_bits in *; lia). bsimpl.
  rewrite add_w_ok by (unfold usize_bits; lia). reflexivity.
Qed.

(** Once inside the range: chunks are read from their start, until the buffer is full; from then
    on nothing changes. *)
Lemma file_read_loop_inside img vd offset chunks ds rest buf_offset data :
  Forall2 (chunk_data img vd) chunks ds ->
  (buf_offset <= len data)%N -> (offset + len data + len (concat ds) < 2 ^ 64)%N ->
  let n := N.min (len data - buf_offset) (len (concat ds)) in
  file_read_loop img vd offset (offset + len data) (chunks ++ rest) (offset + buf_offset) buf_offset data
  = file_read_loop img vd offset (offset + len data) rest (offset + buf_offset + n) (buf_offset + n)
      (splice buf_offset (slice 0 (len data - buf_offset) (concat ds)) data).
Proof.
  intros Hall. revert buf_offset data.
  induction Hall as [|c d chunks ds Hc _ IH]; intros buf_offset data Hbo Hov n.
  - cbn [app concat] in *. rewrite (slice_past 0) by (unfold len; simpl; lia).
    rewrite splice_nil. unfold n, len. simpl. by rewrite N.min_0_r, !N.add_0_r.
  - cbn [app concat] in *. rewrite len_app in Hov.
    rewrite (file_read_loop_read img vd offset c d) by (done || lia). cbn zeta.
    replace (saturating_sub offset (offset + buf_offset)) with 0%N by (unfold saturating_sub; lia).
    rewrite N.add_0_r, N.sub_0_r. set (k := N.min (len data - buf_offset) (len d)).
    assert (len (slice 0 k d) = k) as Hk by (rewrite len_slice; lia).
    replace (offset + buf_offset + k)%N with (offset + (buf_offset + k))%N by lia.
    rewrite <-(len_splice buf_offset (slice 0 k d) data) at 1 by lia.
    rewrite IH by (rewrite len_splice; lia). rewrite len_splice by lia.
    assert (n = k + N.min (len data - (buf_offset + k)) (len (concat ds)))%N as ->
      by (unfold n; rewrite len_app; lia).
    f_equal; [lia..|]. rewrite <-Hk at 1.
    rewrite splice_splice by (rewrite Hk, len_slice; lia). f_equal.
    rewrite slice_app, N.sub_0_r by lia. f_equal; [|f_equal; lia].
    rewrite <-(slice_min 0 (len data - buf_offset) d), N.sub_0_r. done.
Qed.

(** Before the range: whole chunks are skipped, the first one that reaches the range is read
    from the middle. *)
Lemma file_read_loop_before img vd offset chunks ds rest file_offset data :
  Forall2 (chunk_data img vd) chunks ds ->
  (file_offset <= offset)%N -> (offset + len data + len (concat ds) < 2 ^ 64)%N ->
  let n := N.min (len data) (len (concat ds) - (offset - file_offset)) in
  file_read_loop img vd offset (offset + len data) (chunks ++ rest) file_offset 0 data
  = file_read_loop img vd offset (offset + len data) rest
      (if decide (file_offset + len (concat ds) < offset)%N then file_offset + len (concat ds) else offset + n)
      n (splice 0 (slice (offset - file_offset) (len data) (concat ds)) data).
Proof.
  intros Hall. revert file_offset.
  induction Hall as [|c d chunks ds Hc Hcs IH]; intros file_offset Hfo Hov n.
  - cbn [app concat] in *. rewrite slice_past by (unfold len; simpl; lia).
    rewrite splice_nil. change (len []) with 0%N in *. replace n with 0%N by (unfold n; lia).
    case_decide; f_equal; lia.
  - cbn [app concat] in *. rewrite len_app in Hov. pose proof (chunk_data_len _ _ _ _ Hc) as Hl.
    destruct (decide (file_offset + len d < offset)%N) as [Hskip|Hread].
    + cbn [file_read_loop]. rewrite (proj2 (N.ltb_ge _ _)) by lia.
      rewrite cast_w_small by word_lia. rewrite <-Hl.
      rewrite !add_w_ok by word_lia. bsimpl. rewrite (proj2 (N.ltb_lt _ _)) by lia.
      rewrite IH by lia. rewrite slice_app_r, !len_app in * by lia.
      replace (offset - (file_offset + len d))%N with (offset - file_offset - len d)%N by lia.
      unfold n. rewrite len_app. repeat case_decide; f_equal; lia.
    + rewrite (file_read_loop_read img vd offset c d) by (done || lia). cbn zeta.
      unfold saturating_sub. set (addl := (offset - file_offset)%N) in *.
      rewrite N.sub_0_r. set (k := N.min (len data) (len d - addl)).
      assert (len (slice addl k d) = k) as Hk by (rewrite len_slice; lia).
      replace (file_offset + addl + k)%N with (offset + k)%N by lia. rewrite N.add_0_l.
      rewrite <-(len_splice 0 (slice addl k d) data) at 1 by lia.
      rewrite (file_read_loop_inside img vd offset chunks ds) by (done || rewrite len_splice; lia).
      rewrite len_splice by lia. rewrite decide_False by (rewrite len_app; lia).
      assert (n = k + N.min (len data - k) (len (concat ds)))%N as -> by (unfold n; rewrite len_app; lia).
      f_equal; [lia|]. rewrite <-Hk at 1. rewrite <-(N.add_0_l (len (slice addl k d))).
      rewrite splice_splice by (rewrite Hk, len_slice; lia). f_equal.
      rewrite slice_app by lia. f_equal; [|f_equal; lia].
      unfold k. by rewrite slice_min.
Qed.

Lemma file_read_spec (img : Image oci_index) (vd : option VerityData) (inode : Inode)
    (chunks : list FileChunk) (content : bytes) (offset : N) (data : bytes) :
  i_mode inode = Mode_File chunks -> file_content img vd chunks content ->
  (offset + len data + len content < 2 ^ 64)%N ->
  file_read img inode offset data vd
  = Ok (splice 0 (slice offset (len data) content) data,
        N.min (len data) (len content - offset)).
Proof.
  intros Hm (ds & Hds & ->) Hov. unfold file_read. rewrite Hm.
  rewrite add_w_ok by word_lia. bsimpl.
  rewrite <-(app_nil_r chunks).
  rewrite (file_read_loop_before img vd offset chunks ds) by (done || lia).
  cbn [file_read_loop]. by rewrite N.sub_0_r.
Qed.

(** C7: [file_read] returns exactly the requested range of the file.  When the chunks of an
    inode resolve to [content], reading at [offset] into a buffer fills it with
    [content[offset..]] up to the end of the buffer or of the file, whichever comes first,
    returns that count, leaves the rest of the buffer as it was, and neither overflows nor
    panics nor indexes out of the buffer.  This covers reads that start in the middle of a
    chunk, span several chunks, start at or past the end of the file, or use an empty buffer. *)
Theorem file_read_correct (img : Image oci_index) (vd : option VerityData) (inode : Inode)
    (chunks : list FileChunk) (content : bytes) (offset : N) (data : bytes) :
  i_mode inode = Mode_File chunks -> file_content img vd chunks content ->
  (offset + len data + len content < 2 ^ 64)%N ->
  file_read img inode offset data vd
  = Ok (splice 0 (slice offset (len data) content) data,
        N.min (len data) (len content - offset)).
Proof. exact (file_read_spec img vd inode chunks content offset data). Qed.


(** The test "have we read enough?" never ends the loop of [file_read]: the position in the
    file does not pass the end of the requested range.  Once the buffer is full every later chunk
    of the file is still opened for a read of zero bytes, so that reading the first bytes of a
    file fails when a blob that holds only later bytes is missing. *)
Theorem file_read_opens_later_chunks (img : Image oci_index) (inode : Inode)
    (chunks rest : list FileChunk) (c : FileChunk) (content : bytes) (offset : N) (data : bytes) :
  i_mode inode = Mode_File (chunks ++ c :: rest) -> file_content img None chunks content ->
  (offset + len data + len content + fc_len c < 2 ^ 64)%N -> (offset + len data <= len content)%N ->
  img_blobs img !! hex_encode (br_digest (fc_blob c)) = None ->
  file_read img inode offset data None = Err (IOError (OsError (errno_code ENOENT))).
Proof.
  intros Hm (ds & Hds & ->) Hov Hin Hmiss. unfold file_read. rewrite Hm.
  rewrite add_w_ok by word_lia. bsimpl.
  rewrite (file_read_loop_before img None offset chunks ds) by (done || lia).
  rewrite decide_False, N.sub_0_r, N.min_l by lia.
  set (data' := splice 0 _ _). assert (len data' = len data) as Hd by (apply len_splice; rewrite len_slice; lia).
  cbn [file_read_loop]. rewrite (proj2 (N.ltb_ge _ _)) by lia. rewrite cast_w_small by word_lia.
  rewrite add_w_ok by word_lia. bsimpl. rewrite (proj2 (N.ltb_ge _ _)) by lia. unfold saturating_sub.
  rewrite Hd. rewrite !sub_w_ok by lia. bsimpl. rewrite !add_w_ok by word_lia. bsimpl.
  rewrite N.sub_diag, N.min_0_l, N.add_0_r.
  rewrite !(proj2 (N.leb_le _ _)) by lia. cbn [assert_ andb]. bsimpl.
  unfold fill_from_chunk, Digest_try_from_BlobRef. bsimpl.
  unfold read_blob, open_compressed_blob, open_raw_blob, Digest_to_string. cbn [digest_bytes].
  rewrite Hmiss. by destruct (br_compressed (fc_blob c)).
Qed.

(** ** [FileReader] *)

Lemma file_len_content img vd inode chunks content :
  i_mode inode = Mode_File chunks -> file_content img vd chunks content ->
  (len content < 2 ^ 64)%N -> file_len inode = Ok (len content).
Proof.
  intros Hm (ds & Hds & ->) Hlen. unfold file_len. rewrite Hm. bsimpl.
  pose proof (file_content_len _ _ _ _ Hds) as Hsum. rewrite sum_w_ok; rewrite Hsum; done.
Qed.

Lemma splice_full (src dst : bytes) : len src = len dst -> splice 0 src dst = src.
Proof.
  unfold splice, len. intros Hl. rewrite take_0. simpl. rewrite drop_ge by lia. apply app_nil_r.
Qed.

(** One [read]: the next bytes of the file, as many as fit, and the position moves past them. *)
Lemma FileReader_read_spec img inode chunks content off buf :
  i_mode inode = Mode_File chunks -> file_content img None chunks content ->
  (off <= len content)%N -> (off + len buf + len content < 2 ^ 64)%N ->
  let n := N.min (len content - off) (len buf) in
  FileReader_read (mkFileReader img inode off (len content)) buf
  = Ok (mkFileReader img inode (off + n) (len content), splice 0 (slice off n content) buf, n).
Proof.
  intros Hm Hc Hoff Hov n. unfold FileReader_read. cbn [fr_len fr_offset fr_oci fr_inode].
  rewrite sub_w_ok by done. bsimpl. fold n. destruct (N.eqb_spec n 0) as [Hn|Hn].
  - rewrite Hn, N.add_0_r, slice_0, splice_nil. done.
  - assert (len (slice 0 n buf) = n) as Hl by (rewrite len_slice; lia).
    rewrite (file_read_spec img None inode chunks content) by (done || lia).
    cbn [map_err]. bsimpl. rewrite Hl. rewrite (splice_full (slice off n content)) by (rewrite !len_slice; lia).
    rewrite N.min_l by lia. rewrite add_w_ok by word_lia. done.
Qed.

Lemma FileReader_copy_spec fuel img inode chunks content bufsize off acc :
  i_mode inode = Mode_File chunks -> file_content img None chunks content ->
  (0 < bufsize)%N -> (off <= len content)%N -> (len content + bufsize + len content < 2 ^ 64)%N ->
  (len content - off < N.of_nat fuel)%N ->
  FileReader_copy fuel bufsize (mkFileReader img inode off (len content)) acc
  = Ok (acc ++ slice off (len content - off) content).
Proof.
  intros Hm Hc Hbs. revert off acc. induction fuel as [|fuel IH]; intros off acc Hoff Hov Hf; [lia|].
  cbn [FileReader_copy]. assert (len (replicate (N.to_nat bufsize) x00) = bufsize) as Hl
    by (unfold len; rewrite length_replicate; lia).
  rewrite (FileReader_read_spec img inode chunks content) by (done || lia). cbn zeta. bsimpl.
  rewrite Hl. set (n := N.min (len content - off) bufsize). destruct (N.eqb_spec n 0) as [Hn|Hn].
  - replace (len content - off)%N with 0%N by lia. by rewrite slice_0, app_nil_r.
  - assert (len (slice off n content) = n) as Hs by (rewrite len_slice; lia).
    rewrite <-Hs at 2. rewrite slice_splice_0 by lia. rewrite IH by lia. rewrite <-app_assoc. do 2 f_equal.
    replace (len content - off)%N with (n + (len content - (off + n)))%N by lia.
    by rewrite slice_add.
Qed.

(** Copying a file out of an image gives its content.  Opening a [FileReader] on a file and
    reading it to the end with [io::copy], with a buffer of any size, terminates and delivers
    exactly the concatenation of the chunks. *)
Theorem FileReader_reads_everything (img : Image oci_index) (inode : Inode) (chunks : list FileChunk)
    (content : bytes) (bufsize : N) :
  i_mode inode = Mode_File chunks -> file_content img None chunks content ->
  (0 < bufsize)%N -> (len content + bufsize + len content < 2 ^ 64)%N ->
  exists reader, FileReader_new img inode = Ok reader /\
    FileReader_copy (S (length content)) bufsize reader [] = Ok content.
Proof.
  intros Hm Hc Hbs Hov. exists (mkFileReader img inode 0 (len content)). split.
  - unfold FileReader_new. rewrite (file_len_content img None inode chunks content) by (done || lia).
    bsimpl. by rewrite cast_w_small by word_lia.
  - rewrite (FileReader_copy_spec _ img inode chunks content) by (done || word_lia).
    rewrite N.sub_0_r. cbn [app]. by rewrite slice_all by lia.
Qed.

End file_read_facts.
