(* ===== verification/ReaderSafe.v ===== *)
(** The reader on arbitrary images, well formed or not: opening never panics, and reading a file
    never writes outside the buffer. *)

From S2P Require Import Prelude Errors RustStd Capnp Format Digest InodeTable Compression Oci Reader.

(** Calls of the environment return. *)
Class EnvReturns (H : Hex) (OD : OciDir) (W : CapnpWire) := {
  find_manifest_returns img tag : returns (oci_find_manifest_with_tag img tag);
  find_descriptor_returns img tag : returns (oci_find_manifest_descriptor_with_tag img tag);
  segments_returns b : returns (buffer_segments_new b);
  reader_returns s : returns (reader_get s);
  hex_returns s n : returns (hex_decode_to_slice s n)
}.

#[export] Hint Resolve find_manifest_returns find_descriptor_returns segments_returns reader_returns hex_returns : returns.

(** ** Opening *)

Section opening.
Context {P : Profile} {R : OsRead} {ZS : ZstdSeekable}.
Context {H : Hex} {SH : Sha256} {V : FsVerity} {D : OciDigest} {OD : OciDir} {W : CapnpWire}.
Context {ER : EnvReturns H OD W}.

(** Walk through a chain of calls. *)
Ltac returning := repeat first [solve [eauto with returns] | apply returns_map_err | apply returns_fmap
                                | apply returns_bind; [|intros ? _]]; try done.

Lemma check_fs_verity_returns f expected : returns (check_fs_verity f expected).
Proof.
  unfold check_fs_verity. destruct (negb _); [done|]. unfold fsverity_measure.
  returning; by case_match.
Qed.

Lemma open_raw_blob_returns (img : Image oci_index) digest verity : returns (open_raw_blob img digest verity).
Proof.
  unfold open_raw_blob. returning. destruct verity; [|done]. returning. apply check_fs_verity_returns.
Qed.

#[local] Hint Resolve check_fs_verity_returns open_raw_blob_returns : returns.

Lemma open_rootfs_blob_returns (img : Image oci_index) tag verity : returns (open_rootfs_blob img tag verity).
Proof.
  unfold open_rootfs_blob, get_image_manifest_fd, image_manifest_digest, get_pfs_rootfs_verity, get_pfs_rootfs,
    pfs_rootfs_digest, find_manifest, find_rootfs_desc, RootfsReader_open.
  returning. destruct verity; returning.
Qed.

Lemma verity_from_capnp_returns acc l : returns (verity_from_capnp acc l).
Proof.
  revert acc. induction l as [|cv l IH]; intros acc; cbn [verity_from_capnp]; [done|].
  returning; unfold get_ptr, try_into_digest; try (by case_decide); by destruct (_ cv).
Qed.

Lemma get_ptr_returns {A} (dflt : A) p : returns (get_ptr dflt p).
Proof. by destruct p. Qed.

#[local] Hint Resolve open_rootfs_blob_returns verity_from_capnp_returns get_ptr_returns : returns.

Lemma PuzzleFS_open_spec (img : Image oci_index) tag verity : returns (PuzzleFS_open img tag verity).
Proof.
  unfold PuzzleFS_open, get_manifest_version, get_verity_data. returning.
  destruct (negb _); returning. destruct verity; returning.
Qed.

(** Opening never panics.  Whatever the store holds (no such tag, missing or truncated blobs,
    metadata of another version, missing or malformed annotations, digests of the wrong length, a
    wrong root hash), [PuzzleFS::open] returns, a file system or an error. *)
Theorem PuzzleFS_open_returns (img : Image oci_index) (tag : bytes) (manifest_verity : option bytes) :
  returns (PuzzleFS_open img tag manifest_verity).
Proof. apply PuzzleFS_open_spec. Qed.

End opening.

(** ** Reading *)

Section reading.
Context {P : Profile} {R : OsRead} {ZS : ZstdSeekable}.
Context {H : Hex} {SH : Sha256} {V : FsVerity} {D : OciDigest} {OD : OciDir} {W : CapnpWire}.
Context {RL : OsReadOk R}.

(** Decompressing into a buffer fills at most the buffer. *)
Context (Hdecompress : forall s n off out, sk_decompress s n off = Ok out -> (len out <= n)%N).

Lemma fill_from_chunk_bound (img : Image oci_index) chunk addl n vd out :
  fill_from_chunk img chunk addl n vd = Ok out -> (len out <= n)%N.
Proof.
  unfold fill_from_chunk, read_blob. intros (dg & _ & Hr)%bind_ok_inv. apply bind_ok_inv in Hr as (fv & _ & Hr).
  destruct (br_compressed chunk); apply bind_ok_inv in Hr as (blob & _ & Hr); apply bind_ok_inv in Hr as (pos & _ & Hr);
    apply bind_ok_inv in Hr as ([blob1 off] & _ & Hr); apply bind_ok_inv in Hr as ([blob2 out'] & Hread%map_err_ok_inv & Hr);
    injection Hr as <-; cbn [d_read Zstd Noop] in Hread.
  - unfold Zstd_read in Hread. apply bind_ok_inv in Hread as (left & _ & Hread).
    apply bind_ok_inv in Hread as (o & Ho%Hdecompress & Hread). apply bind_ok_inv in Hread as (off' & _ & Hread).
    injection Hread as _ <-. lia.
  - unfold Noop_read, file_read_raw in Hread. injection Hread as _ <-. rewrite len_slice.
    pose proof (os_read_le (len (of_data blob1) - of_pos blob1) n). lia.
Qed.

(** The buffer so far: [written] at its start, the rest as it was. *)
Lemma file_read_loop_bound (img : Image oci_index) vd offset end_ chunks file_offset written data buf n :
  (len written <= len data)%N -> (len data < 2 ^ 64)%N ->
  file_read_loop img vd offset end_ chunks file_offset (len written) (splice 0 written data) = Ok (buf, n) ->
  exists written', buf = splice 0 written' data /\ len written' = n /\ (n <= len data)%N.
Proof.
  revert file_offset written. induction chunks as [|c chunks IH]; intros file_offset written Hw Hd; cbn [file_read_loop].
  { intros [= <- <-]. eauto. }
  destruct (end_ <? file_offset)%N; [intros [= <- <-]; eauto|].
  intros (ce & _ & Hr)%bind_ok_inv. destruct (ce <? offset)%N.
  { apply bind_ok_inv in Hr as (fo & _ & Hr). by eapply IH. }
  rewrite len_splice in Hr by lia. rewrite (sub_w_ok _ (len data) (len written)) in Hr by lia. cbn [mbind outcome_bind] in Hr.
  apply bind_ok_inv in Hr as (lic & _ & Hr). set (to_read := N.min _ _) in Hr.
  assert (len written + to_read <= len data)%N as Hto by lia.
  rewrite (add_w_ok _ (len written) to_read) in Hr by word_lia. cbn [mbind outcome_bind] in Hr.
  apply bind_ok_inv in Hr as (fo & _ & Hr). apply bind_ok_inv in Hr as (u & _ & Hr).
  apply bind_ok_inv in Hr as (out & Hout%fill_from_chunk_bound & Hr). apply bind_ok_inv in Hr as (fo' & _ & Hr).
  rewrite add_w_ok in Hr by word_lia. cbn [mbind outcome_bind] in Hr.
  replace (len written) with (0 + len written)%N in Hr at 2 by lia.
  rewrite splice_splice in Hr by lia. rewrite <-len_app in Hr. eapply IH; [|done|exact Hr]. rewrite len_app. lia.
Qed.

(** C24: a read stays in its buffer.  For any image, also one that is corrupt or malicious, any inode
    and any offset: if [file_read] returns a count, it is at most the length of the buffer, exactly
    that many bytes at the start of the buffer have been written, and the rest of the buffer is as
    it was. *)
Theorem file_read_in_bounds (img : Image oci_index) (inode : Inode) (offset : N) (data buf : bytes) (n : N)
    (vd : option VerityData) :
  (len data < 2 ^ 64)%N -> file_read img inode offset data vd = Ok (buf, n) ->
  exists written, buf = splice 0 written data /\ len written = n /\ (n <= len data)%N.
Proof.
  intros Hd. unfold file_read. destruct (i_mode inode); try done. intros (e & _ & Hr)%bind_ok_inv.
  eapply (file_read_loop_bound img vd offset e _ 0 [] data); [rewrite len_nil; lia|done|].
  rewrite splice_nil. exact Hr.
Qed.

End reading.
