(* ===== verification/Walk.v ===== *)
(** [reader/walk.rs]: the breadth-first iterator over an image, and what it promises: every entry
    it yields is the one a lookup of the yielded path finds, and its order is level order. *)

From S2P Require Import Prelude Errors RustStd Capnp Format Digest InodeTable Compression Oci Reader.

Section walk.
Context {P : Profile} {R : OsRead} {ZS : ZstdSeekable}.
Context {H : Hex} {SH : Sha256} {V : FsVerity} {D : OciDigest} {OD : OciDir} {W : CapnpWire}.

(** [struct DirEntry]. *)
Record DirEntry := mkDirEntry {
  we_oci : Image oci_index;
  we_path : Path;
  we_inode : Inode
}.

(** [struct WalkPuzzleFS]. *)
Record WalkPuzzleFS := mkWalk { w_pfs : PuzzleFS; w_q : list DirEntry }.

(** [WalkPuzzleFS::walk]. *)
Definition WalkPuzzleFS_walk (pfs : PuzzleFS) : Result WalkPuzzleFS :=
  inode ← PuzzleFS_find_inode pfs 1;
  Ok (mkWalk pfs [mkDirEntry (pfs_oci pfs) [RootDir] inode]).

(** The loop of [add_dir_entries]: the queue as the loop leaves it, also on an error. *)
Fixpoint add_entries_loop (pfs : PuzzleFS) (dir : DirEntry) (entries : list DirEnt)
    (q : list DirEntry) : list DirEntry * Result () :=
  match entries with
  | [] => (q, Ok ())
  | entry :: entries =>
      match PuzzleFS_find_inode pfs (de_ino entry) with
      | Ok inode =>
          let path := path_join (we_path dir) (de_name entry) in
          add_entries_loop pfs dir entries (q ++ [mkDirEntry (pfs_oci pfs) path inode])
      | Err e => (q, Err e)
      | Panic => (q, Panic)
      | Diverged => (q, Diverged)
      end
  end.

(** [WalkPuzzleFS::add_dir_entries]. *)
Definition add_dir_entries (self : WalkPuzzleFS) (dir : DirEntry) : WalkPuzzleFS * Result () :=
  match i_mode (we_inode dir) with
  | Mode_Dir dir_list =>
      let '(q, r) := add_entries_loop (w_pfs self) dir (dl_entries dir_list) (w_q self) in
      (mkWalk (w_pfs self) q, r)
  | _ => (self, Ok ())
  end.

(** [<WalkPuzzleFS as Iterator>::next]. *)
Definition WalkPuzzleFS_next (self : WalkPuzzleFS) : option (WalkPuzzleFS * Result DirEntry) :=
  match w_q self with
  | [] => None
  | de :: q =>
      let '(self, r) := add_dir_entries (mkWalk (w_pfs self) q) de in
      Some (self, (fun _ => de) <$> r)
  end.

(** [walker.collect::<Result<Vec<_>>>()]: stop at the end or at the first error. *)
Fixpoint walk_collect (fuel : nat) (self : WalkPuzzleFS) (acc : list DirEntry)
  : Result (list DirEntry) :=
  match fuel with
  | O => Diverged
  | S fuel =>
      match WalkPuzzleFS_next self with
      | None => Ok acc
      | Some (self, r) => de ← r; walk_collect fuel self (acc ++ [de])
      end
  end.

(** [DirEntry::open]. *)
Definition DirEntry_open (self : DirEntry) : Result FileReader :=
  FileReader_new (we_oci self) (we_inode self).

(** ** Specification: level order *)

(** The entry a directory entry stands for. *)
Definition child_entry (pfs : PuzzleFS) (dir : DirEntry) (entry : DirEnt) : Result DirEntry :=
  inode ← PuzzleFS_find_inode pfs (de_ino entry);
  Ok (mkDirEntry (pfs_oci pfs) (path_join (we_path dir) (de_name entry)) inode).

(** The children of an entry, in directory order. *)
Definition children (pfs : PuzzleFS) (dir : DirEntry) : Result (list DirEntry) :=
  match i_mode (we_inode dir) with
  | Mode_Dir dir_list =>
      mapM (child_entry pfs dir) (dl_entries dir_list)
  | _ => Ok []
  end.

Definition next_level (pfs : PuzzleFS) (level : list DirEntry) : Result (list DirEntry) :=
  @concat DirEntry <$> mapM (children pfs) level.

(** [levels pfs l ls]: [ls] are the levels of the forest with roots [l], down to the empty one. *)
Inductive levels (pfs : PuzzleFS) : list DirEntry -> list (list DirEntry) -> Prop :=
| levels_nil : levels pfs [] []
| levels_cons l l' ls :
    l ≠ [] -> next_level pfs l = Ok l' -> levels pfs l' ls -> levels pfs l (l :: ls).

(** A directory that can be addressed by path: its names are file names and differ. *)
Definition addressable (pfs : PuzzleFS) : Prop :=
  forall ino inode dir_list, PuzzleFS_find_inode pfs ino = Ok inode -> i_mode inode = Mode_Dir dir_list ->
    Forall valid_name (de_name <$> dl_entries dir_list) /\ NoDup (de_name <$> dl_entries dir_list).

(** The entry is what a lookup of its path finds, and came out of the inode table. *)
Definition genuine (pfs : PuzzleFS) (de : DirEntry) : Prop :=
  PuzzleFS_lookup pfs (we_path de) = Ok (Some (we_inode de)) /\
  (exists ino, PuzzleFS_find_inode pfs ino = Ok (we_inode de)) /\
  we_oci de = pfs_oci pfs.

(** ** Yielded paths can be looked up *)

Lemma lookup_from_snoc find cur comps inode dir_list e child :
  lookup_from find cur comps = Ok (Some inode) -> i_mode inode = Mode_Dir dir_list ->
  NoDup (de_name <$> dl_entries dir_list) -> e ∈ dl_entries dir_list -> find (de_ino e) = Ok child ->
  lookup_from find cur (comps ++ [Normal (de_name e)]) = Ok (Some child).
Proof.
  revert cur. induction comps as [|c comps IH]; intros cur Hl Hm Hnd He Hf; cbn [app lookup_from] in *.
  - injection Hl as ->. rewrite Hm.
    assert (List.find (fun d => bool_decide (de_name d = de_name e)) (dl_entries dir_list) = Some e) as ->.
    { revert He Hnd. clear. induction (dl_entries dir_list) as [|d l IH]; [by intros ?%elem_of_nil|].
      csimpl. intros He [Hnin Hnd]%NoDup_cons. case_bool_decide as Heq.
      - apply elem_of_cons in He as [->|He]; [done|]. destruct Hnin. rewrite Heq.
        by apply list_elem_of_fmap_2.
      - apply elem_of_cons in He as [->|He]; [done|]. by apply IH. }
    by rewrite Hf.
  - destruct c; try done. destruct (i_mode cur) eqn:Hc; try done.
    destruct (List.find _ _); [|done]. apply bind_ok_inv in Hl as (cur' & -> & Hl). bsimpl. eauto.
Qed.

Lemma genuine_child pfs dir dir_list e child :
  Forall valid_name (de_name <$> dl_entries dir_list) -> NoDup (de_name <$> dl_entries dir_list) ->
  genuine pfs dir -> i_mode (we_inode dir) = Mode_Dir dir_list ->
  e ∈ dl_entries dir_list -> PuzzleFS_find_inode pfs (de_ino e) = Ok child ->
  genuine pfs (mkDirEntry (pfs_oci pfs) (path_join (we_path dir) (de_name e)) child).
Proof.
  intros Hvn Hnd (Hl & (ino & Hino) & Ho) Hm He Hf.
  split; [|by eauto]. cbn [we_path we_inode].
  rewrite Forall_fmap, Forall_forall in Hvn. specialize (Hvn e He). cbn in Hvn.
  rewrite path_join_name by (done || by intros Hp; rewrite Hp in Hl).
  unfold PuzzleFS_lookup in *. destruct (we_path dir) as [|[] comps]; try done.
  cbn [app]. apply bind_ok_inv in Hl as (root & -> & Hl). bsimpl.
  by eapply lookup_from_snoc.
Qed.

Lemma add_entries_loop_genuine pfs dir dir_list q entries :
  addressable pfs -> genuine pfs dir -> i_mode (we_inode dir) = Mode_Dir dir_list ->
  (forall e, e ∈ entries -> e ∈ dl_entries dir_list) -> Forall (genuine pfs) q ->
  Forall (genuine pfs) (add_entries_loop pfs dir entries q).1.
Proof.
  intros Ha Hg Hm. revert q. induction entries as [|e entries IH]; intros q Hin Hq; simpl; [done|].
  destruct (PuzzleFS_find_inode pfs (de_ino e)) as [child| | |] eqn:Hf; try done.
  apply IH; [intros e' He'; apply Hin; by right|]. apply Forall_app. split; [done|].
  apply Forall_singleton. pose proof Hg as (_ & (ino & Hino) & _). destruct (Ha _ _ _ Hino Hm) as [Hvn Hnd].
  eapply genuine_child; try done. apply Hin. left.
Qed.

Lemma add_dir_entries_genuine w de :
  addressable (w_pfs w) -> genuine (w_pfs w) de -> Forall (genuine (w_pfs w)) (w_q w) ->
  w_pfs (add_dir_entries w de).1 = w_pfs w /\
  Forall (genuine (w_pfs w)) (w_q (add_dir_entries w de).1).
Proof.
  intros Ha Hg Hq. unfold add_dir_entries. destruct (i_mode (we_inode de)) eqn:Hm; try done.
  pose proof (add_entries_loop_genuine (w_pfs w) de _ (w_q w) _ Ha Hg Hm (fun _ He => He) Hq) as Hg'.
  by destruct (add_entries_loop _ _ _ _).
Qed.

(** The states a walker goes through from a given one, errors along the way included. *)
Inductive walk_steps : WalkPuzzleFS -> list (Result DirEntry) -> WalkPuzzleFS -> Prop :=
| walk_done w : walk_steps w [] w
| walk_step w w1 r rs w2 :
    WalkPuzzleFS_next w = Some (w1, r) -> walk_steps w1 rs w2 -> walk_steps w (r :: rs) w2.

Lemma walk_steps_genuine w rs w' :
  walk_steps w rs w' -> addressable (w_pfs w) -> Forall (genuine (w_pfs w)) (w_q w) ->
  forall de, Ok de ∈ rs -> genuine (w_pfs w) de.
Proof.
  induction 1 as [|w w1 r rs w2 Hn _ IH]; intros Ha Hq de Hde; [by apply elem_of_nil in Hde|].
  unfold WalkPuzzleFS_next in Hn. destruct (w_q w) as [|d q] eqn:Hwq; [done|].
  inversion Hq as [|? ? Hd Hrest]; subst.
  destruct (add_dir_entries_genuine (mkWalk (w_pfs w) q) d) as [Hp Hg]; [done..|]. cbn [w_pfs] in *.
  destruct (add_dir_entries _ d) as [w1' r']. injection Hn as <- <-. cbn [fst] in *.
  apply elem_of_cons in Hde as [Hde|Hde].
  - destruct r'; try done. by injection Hde as ->.
  - rewrite <-Hp. apply IH; rewrite ?Hp; done.
Qed.

(** The walk and the path lookup agree.  In an image whose directories have distinct, valid
    names, every entry the iterator yields, at any point and also after an earlier error, carries
    the absolute path under which [PuzzleFS::lookup] finds exactly that inode. *)
Theorem WalkPuzzleFS_yields_lookup (pfs : PuzzleFS) (w w' : WalkPuzzleFS)
    (rs : list (Result DirEntry)) (de : DirEntry) :
  addressable pfs -> WalkPuzzleFS_walk pfs = Ok w -> walk_steps w rs w' -> Ok de ∈ rs ->
  PuzzleFS_lookup pfs (we_path de) = Ok (Some (we_inode de)).
Proof.
  intros Ha Hw Hs Hde. apply bind_ok_inv in Hw as (root & Hroot & [= <-]).
  apply (walk_steps_genuine _ _ _ Hs Ha); [|done]. apply Forall_singleton.
  split; [|by eauto]. cbn. by rewrite Hroot.
Qed.

(** ** Level order *)

Lemma add_entries_loop_app pfs dir before after q ch :
  mapM (child_entry pfs dir) before = Ok ch ->
  add_entries_loop pfs dir (before ++ after) q = add_entries_loop pfs dir after (q ++ ch).
Proof.
  revert q ch. induction before as [|e before IH]; intros q ch Hm; cbn [mapM add_entries_loop app] in *.
  - injection Hm as <-. by rewrite app_nil_r.
  - apply bind_ok_inv in Hm as (y & Hy & Hm). apply bind_ok_inv in Hm as (ch' & Hm & Hc).
    injection Hc as <-. unfold child_entry in Hy.
    apply bind_ok_inv in Hy as (inode & -> & Hy). injection Hy as <-.
    rewrite (IH _ ch') by done. by rewrite <-app_assoc.
Qed.

Lemma WalkPuzzleFS_next_children pfs de q ch :
  children pfs de = Ok ch -> WalkPuzzleFS_next (mkWalk pfs (de :: q)) = Some (mkWalk pfs (q ++ ch), Ok de).
Proof.
  unfold children, WalkPuzzleFS_next, add_dir_entries. cbn [w_q w_pfs].
  destruct (i_mode (we_inode de)); intros Hc; try (injection Hc as <-; by rewrite app_nil_r).
  rewrite <-(app_nil_r (dl_entries _)). by rewrite (add_entries_loop_app _ _ _ _ _ ch).
Qed.

(** One level is consumed while the next one is queued. *)
Lemma walk_collect_level fuel pfs l l' q acc :
  mapM (children pfs) l = Ok l' ->
  walk_collect (length l + fuel) (mkWalk pfs (l ++ q)) acc
  = walk_collect fuel (mkWalk pfs (q ++ concat l')) (acc ++ l).
Proof.
  revert l' q acc. induction l as [|de l IH]; intros l' q acc Hm; cbn [mapM] in Hm.
  - injection Hm as <-. cbn. by rewrite !app_nil_r.
  - apply bind_ok_inv in Hm as (ch & Hch & (l'' & Hl & [= <-])%bind_ok_inv).
    cbn [length Nat.add walk_collect app].
    rewrite (WalkPuzzleFS_next_children pfs de (l ++ q) ch) by done. bsimpl.
    rewrite <-app_assoc, (IH l'') by done. cbn [concat]. by rewrite <-!app_assoc.
Qed.

Lemma walk_collect_levels fuel pfs l ls acc :
  levels pfs l ls -> length (concat ls) < fuel ->
  walk_collect fuel (mkWalk pfs l) acc = Ok (acc ++ concat ls).
Proof.
  intros Hl. revert fuel acc. induction Hl as [|l l' ls Hne Hnext _ IH]; intros fuel acc Hf.
  - destruct fuel; [simpl in Hf; lia|]. cbn. by rewrite app_nil_r.
  - cbn [concat] in *. rewrite length_app in Hf. unfold next_level in Hnext.
    destruct (mapM (children pfs) l) as [ll| | |] eqn:Hm; try done. injection Hnext as <-.
    replace fuel with (length l + (fuel - length l)) by lia.
    pose proof (walk_collect_level (fuel - length l) pfs l ll [] acc Hm) as Hlv.
    rewrite app_nil_r in Hlv. rewrite Hlv. rewrite IH by lia. by rewrite app_assoc.
Qed.

(** The walk is breadth first and complete.  When the tree below the root has finitely many
    levels, collecting the iterator terminates without an error and yields the root, then its
    children in directory order, then theirs, each level in full before the next, every entry
    once per path. *)
Theorem WalkPuzzleFS_breadth_first (pfs : PuzzleFS) (w : WalkPuzzleFS) (ls : list (list DirEntry)) :
  WalkPuzzleFS_walk pfs = Ok w -> levels pfs (w_q w) ls ->
  walk_collect (S (length (concat ls))) w [] = Ok (concat ls).
Proof.
  intros Hw Hl. assert (w = mkWalk pfs (w_q w)) as ->.
  { by apply bind_ok_inv in Hw as (root & _ & [= <-]). }
  apply (walk_collect_levels _ pfs _ ls []); [done | lia].
Qed.

(** The order in which entries leave the queue, one at a time. *)
Inductive visits (pfs : PuzzleFS) : list DirEntry -> list DirEntry -> Prop :=
| visits_nil : visits pfs [] []
| visits_cons de q ch es :
    children pfs de = Ok ch -> visits pfs (q ++ ch) es -> visits pfs (de :: q) (de :: es).

Lemma visits_level pfs l l' q es :
  mapM (children pfs) l = Ok l' -> visits pfs (q ++ concat l') es -> visits pfs (l ++ q) (l ++ es).
Proof.
  revert l' q. induction l as [|de l IH]; intros l' q Hm Hv.
  - injection Hm as <-. by rewrite app_nil_r in Hv.
  - cbn [mapM] in Hm. apply bind_ok_inv in Hm as (ch & Hch & (rest & Hrest & Hr)%bind_ok_inv). injection Hr as <-.
    apply (visits_cons pfs de (l ++ q) ch (l ++ es) Hch). rewrite <-app_assoc. apply (IH rest _ Hrest).
    by rewrite <-app_assoc.
Qed.

Lemma levels_visits pfs l ls : levels pfs l ls -> visits pfs l (concat ls).
Proof.
  induction 1 as [|l l' ls Hl Hn Hls IH]; [constructor|]. unfold next_level in Hn.
  destruct (mapM (children pfs) l) as [chs| | |] eqn:Hm; try done. injection Hn as <-.
  cbn [concat]. rewrite <-(app_nil_r l) at 1. by eapply visits_level.
Qed.

(** A directory entry whose inode is whited out cuts the walk of its directory short: the
    iterator reports [ENOENT] in place of the directory, which is never yielded, and the entries
    after the whiteout are never queued. *)
Theorem WalkPuzzleFS_whiteout_error (pfs : PuzzleFS) (de : DirEntry) (q : list DirEntry)
    (dir_list : DirList) (before after : list DirEnt) (wh : DirEnt) (ch : list DirEntry) :
  i_mode (we_inode de) = Mode_Dir dir_list -> dl_entries dir_list = before ++ wh :: after ->
  mapM (child_entry pfs de) before = Ok ch ->
  PuzzleFS_find_inode pfs (de_ino wh) = Err (from_errno ENOENT) ->
  WalkPuzzleFS_next (mkWalk pfs (de :: q)) = Some (mkWalk pfs (q ++ ch), Err (from_errno ENOENT)).
Proof.
  intros Hm He Hch Hwh. unfold WalkPuzzleFS_next, add_dir_entries. cbn [w_q w_pfs].
  rewrite Hm, He, (add_entries_loop_app _ _ _ _ _ ch) by done. cbn [add_entries_loop]. by rewrite Hwh.
Qed.

End walk.
