(* ===== verification/Fuse.v ===== *)
(** [reader/fuse.rs]: the FUSE request handlers.  A request is a value of [Request], a handler
    returns the reply it sends; [handle] dispatches as the [Filesystem] trait does. *)

From S2P Require Import Prelude Errors RustStd Capnp Format Digest InodeTable Compression Oci Reader.

(** ** Interfaces: [nix::fcntl::OFlag] and the size limit of [fuser::ReplyDirectory] *)

Class OFlags := {
  oflag_all : Z;
  O_RDONLY : Z; O_PATH : Z; O_NONBLOCK : Z; O_DIRECTORY : Z; O_NOFOLLOW : Z; O_NOATIME : Z;
  O_WRONLY : Z; O_RDWR : Z; O_CREAT : Z; O_TRUNC : Z; O_APPEND : Z
}.

(** The flags of an [open] that may modify something. *)
Definition write_flags `{OFlags} : Z :=
  Z.lor O_WRONLY (Z.lor O_RDWR (Z.lor O_CREAT (Z.lor O_TRUNC O_APPEND))).

Definition allowed_flags `{OFlags} : Z :=
  Z.lor O_RDONLY (Z.lor O_PATH (Z.lor O_NONBLOCK (Z.lor O_DIRECTORY (Z.lor O_NOFOLLOW O_NOATIME)))).

(** The flags that ask for changes are known bits, and different from the bits of the others. *)
Class OFlagsOk (OF : OFlags) := {
  write_flags_known : Z.land write_flags oflag_all = write_flags;
  flags_disjoint w r :
    w ∈ [O_WRONLY; O_RDWR; O_CREAT; O_TRUNC; O_APPEND] ->
    r ∈ [O_RDONLY; O_PATH; O_NONBLOCK; O_DIRECTORY; O_NOFOLLOW; O_NOATIME] -> Z.land w r = 0%Z
}.

(** None of the flags the server allows asks for a change. *)
Lemma write_flags_disjoint `{!OFlagsOk OF} : Z.land write_flags allowed_flags = 0%Z.
Proof.
  unfold write_flags, allowed_flags. rewrite !Z.land_lor_distr_l, !Z.land_lor_distr_r.
  by rewrite !flags_disjoint by set_solver.
Qed.

Inductive FileType := RegularFile | Directory | NamedPipe | CharDevice | BlockDevice | Symlink | Socket.

#[export] Instance file_type_eq_dec : EqDecision FileType.
Proof. solve_decision. Defined.

(** One entry of a [readdir] reply. *)
Record DirReply := mkDirReply { dr_ino : N; dr_offset : Z; dr_kind : FileType; dr_name : bytes }.

(** Whether an entry still fits behind those already in the reply buffer. *)
Class ReplyDirectory := reply_fits : list DirReply -> DirReply -> bool.

(** ** Data *)

(** [fuser::FileAttr]; the times are all [UNIX_EPOCH] and left out. *)
Record FileAttr := mkFileAttr {
  fa_ino : N;
  fa_size : N;
  fa_blocks : N;
  fa_kind : FileType;
  fa_perm : N;
  fa_nlink : N;
  fa_uid : N;
  fa_gid : N;
  fa_rdev : N;
  fa_blksize : N;
  fa_flags : N
}.

Inductive Reply :=
| ReplyError (code : Z)
| ReplyOk
| ReplyEntry (attr : FileAttr) (generation : N)
| ReplyAttr (attr : FileAttr)
| ReplyData (data : bytes)
| ReplyOpened (fh flags : N)
| ReplyDir (entries : list DirReply)
| ReplySize (size : N)
| ReplyStatfs (blocks bfree bavail files ffree bsize namelen frsize : N).

(** The requests, with the arguments some handler looks at. *)
Inductive Request :=
| Req_setattr (ino : N) | Req_mknod (parent : N) (name : bytes) | Req_mkdir (parent : N) (name : bytes)
| Req_unlink (parent : N) (name : bytes) | Req_rmdir (parent : N) (name : bytes)
| Req_symlink (parent : N) (name : bytes) | Req_rename (parent : N) (name : bytes) (newparent : N) (newname : bytes)
| Req_link (ino newparent : N) (newname : bytes) | Req_write (ino : N) (offset : Z) (data : bytes)
| Req_flush (ino : N) | Req_fsync (ino : N) | Req_fsyncdir (ino : N)
| Req_setxattr (ino : N) (name value : bytes) | Req_removexattr (ino : N) (name : bytes)
| Req_create (parent : N) (name : bytes) (flags : Z) | Req_getlk (ino : N) | Req_setlk (ino : N)
| Req_lookup (parent : N) (name : bytes) | Req_getattr (ino : N) | Req_readlink (ino : N)
| Req_open (ino : N) (flags : Z) | Req_read (ino : N) (offset : Z) (size : N) | Req_release (ino : N)
| Req_opendir (ino : N) (flags : Z) | Req_readdir (ino : N) (offset : Z) | Req_releasedir (ino : N)
| Req_statfs (ino : N) | Req_getxattr (ino : N) (name : bytes) (size : N) | Req_listxattr (ino : N) (size : N)
| Req_access (ino : N) (mask : Z) | Req_bmap (ino : N).

(** A handler returns a reply or panics; it has no error of its own. *)
Abbreviation Handler := (outcome Empty_set Reply).

(** [match self._f(...) { Ok(x) => ..., Err(e) => reply.error(e.to_errno()) }] *)
Definition reply_or_errno {A} (r : Result A) (ok : A -> Handler) : Handler :=
  match r with
  | Ok a => ok a
  | Err e => Ok (ReplyError (to_errno e))
  | Panic => Panic
  | Diverged => Diverged
  end.

Section fuse.
Context {P : Profile} {R : OsRead} {ZS : ZstdSeekable}.
Context {H : Hex} {SH : Sha256} {V : FsVerity} {D : OciDigest} {OD : OciDir} {W : CapnpWire}.
Context {OF : OFlags} {RD : ReplyDirectory}.

Definition mode_to_fuse_type (inode : Inode) : Result FileType :=
  match i_mode inode with
  | Mode_File _ => Ok RegularFile
  | Mode_Dir _ => Ok Directory
  | Mode_Fifo => Ok NamedPipe
  | Mode_Chr _ _ => Ok CharDevice
  | Mode_Blk _ _ => Ok BlockDevice
  | Mode_Lnk => Ok Symlink
  | Mode_Sock => Ok Socket
  | _ => Err (from_errno EINVAL)
  end.

(** [Fuse::_getattr]; [file_len().unwrap_or(0)]. *)
Definition Fuse_getattr (pfs : PuzzleFS) (ino : N) : Result FileAttr :=
  ic ← PuzzleFS_find_inode pfs ino;
  kind ← mode_to_fuse_type ic;
  l ← match file_len ic with
      | Err _ => Ok 0%N
      | r => r
      end;
  Ok (mkFileAttr (i_ino ic) l 0 kind (i_permissions ic) 0 (i_uid ic) (i_gid ic) 0 0 0).

(** [Fuse::_lookup]. *)
Definition Fuse_lookup (pfs : PuzzleFS) (parent : N) (name : bytes) : Result FileAttr :=
  dir ← PuzzleFS_find_inode pfs parent;
  ino ← dir_lookup dir name;
  Fuse_getattr pfs ino.

(** [Fuse::_open]; [flags_i.try_into().unwrap()] panics on a negative number. *)
Definition Fuse_open (flags_i : Z) : Handler :=
  let flags := Z.land flags_i oflag_all in
  if negb (Z.land allowed_flags flags =? flags)%Z then Ok (ReplyError (errno_code EROFS))
  else if (flags_i <? 0)%Z then Panic
  else Ok (ReplyOpened 0 (Z.to_N flags_i)).

(** [Fuse::_read]. *)
Definition Fuse_read (pfs : PuzzleFS) (ino offset size : N) : Result bytes :=
  inode ← PuzzleFS_find_inode pfs ino;
  let buf := replicate (N.to_nat size) x00 in
  '(buf, read) ← file_read (pfs_oci pfs) inode (cast_w usize_bits offset) buf (pfs_verity_data pfs);
  Ok (slice 0 read buf).

(** The loop of [_readdir]; [reply.add] returns true, and drops the entry, when it does not fit. *)
Fixpoint readdir_loop (pfs : PuzzleFS) (entries : list DirEnt) (index : nat) (reply : list DirReply)
  : Result (list DirReply) :=
  match entries with
  | [] => Ok reply
  | e :: entries =>
      inode ← PuzzleFS_find_inode pfs (de_ino e);
      kind ← mode_to_fuse_type inode;
      let r := mkDirReply (de_ino e) (Z.of_nat (index + 1)) kind (de_name e) in
      if reply_fits reply r then readdir_loop pfs entries (S index) (reply ++ [r]) else Ok reply
  end.

(** [Fuse::_readdir]: the entries added to the reply. *)
Definition Fuse_readdir (pfs : PuzzleFS) (ino : N) (offset : Z) : Result (list DirReply) :=
  inode ← PuzzleFS_find_inode pfs ino;
  entries ← dir_entries inode;
  let skip := Z.to_nat (offset mod 2 ^ 64) in
  readdir_loop pfs (drop skip entries) skip [].

(** [Fuse::_readlink]. *)
Definition Fuse_readlink (pfs : PuzzleFS) (ino : N) : Result bytes :=
  inode ← PuzzleFS_find_inode pfs ino;
  kind ← mode_to_fuse_type inode;
  match kind with
  | Symlink => ok_or (i_additional inode ≫= ia_symlink_target) (from_errno EINVAL)
  | _ => Err (from_errno EINVAL)
  end.

(** [CString::new(key).expect(...).as_bytes_with_nul()]. *)
Definition cstring (key : bytes) : Result bytes :=
  if bool_decide (x00 ∈ key) then Panic else Ok (key ++ [x00]).

(** [Fuse::_listxattr]. *)
Definition Fuse_listxattr (pfs : PuzzleFS) (ino : N) : Result bytes :=
  inode ← PuzzleFS_find_inode pfs ino;
  match i_additional inode with
  | Some add => l ← mapM (fun x => cstring (xa_key x)) (ia_xattrs add); Ok (concat l)
  | None => Ok []
  end.

(** [Fuse::_getxattr]. *)
Definition Fuse_getxattr (pfs : PuzzleFS) (ino : N) (name : bytes) : Result bytes :=
  inode ← PuzzleFS_find_inode pfs ino;
  ok_or (xa_val <$> (i_additional inode ≫=
           fun add => List.find (fun elem => bool_decide (xa_key elem = name)) (ia_xattrs add)))
    (from_errno ENODATA).

(** The size protocol of [getxattr] and [listxattr]. *)
Definition reply_xattr (xattr : bytes) (size : N) : Handler :=
  if (len xattr <? 2 ^ u32_bits)%N then
    if (size =? 0)%N then Ok (ReplySize (len xattr))
    else if (len xattr <=? size)%N then Ok (ReplyData xattr)
    else Ok (ReplyError (errno_code ERANGE))
  else Panic.

(** The [Filesystem] implementation of [Fuse], handler by handler; the handlers of requests that
    would change something only look at the reply they are to give. *)
Definition fs_setattr (ino : N) : Handler := Ok (ReplyError (errno_code EROFS)).
Definition fs_mknod (parent : N) (name : bytes) : Handler := Ok (ReplyError (errno_code EROFS)).
Definition fs_mkdir (parent : N) (name : bytes) : Handler := Ok (ReplyError (errno_code EROFS)).
Definition fs_unlink (parent : N) (name : bytes) : Handler := Ok (ReplyError (errno_code EROFS)).
Definition fs_rmdir (parent : N) (name : bytes) : Handler := Ok (ReplyError (errno_code EROFS)).
Definition fs_symlink (parent : N) (name : bytes) : Handler := Ok (ReplyError (errno_code EROFS)).
Definition fs_rename (parent : N) (name : bytes) (newparent : N) (newname : bytes) : Handler := Ok (ReplyError (errno_code EROFS)).
Definition fs_link (ino newparent : N) (newname : bytes) : Handler := Ok (ReplyError (errno_code EROFS)).
Definition fs_write (ino : N) (offset : Z) (data : bytes) : Handler := Ok (ReplyError (errno_code EROFS)).
Definition fs_flush (ino : N) : Handler := Ok (ReplyError (errno_code ENOSYS)).
Definition fs_fsync (ino : N) : Handler := Ok (ReplyError (errno_code EROFS)).
Definition fs_fsyncdir (ino : N) : Handler := Ok (ReplyError (errno_code EROFS)).
Definition fs_setxattr (ino : N) (name value : bytes) : Handler := Ok (ReplyError (errno_code EROFS)).
Definition fs_removexattr (ino : N) (name : bytes) : Handler := Ok (ReplyError (errno_code EROFS)).
Definition fs_create (parent : N) (name : bytes) (flags : Z) : Handler := Ok (ReplyError (errno_code EROFS)).
Definition fs_getlk (ino : N) : Handler := Ok (ReplyError (errno_code EROFS)).
Definition fs_setlk (ino : N) : Handler := Ok (ReplyError (errno_code EROFS)).

Definition fs_lookup (pfs : PuzzleFS) (parent : N) (name : bytes) : Handler :=
  reply_or_errno (Fuse_lookup pfs parent name) (fun attr => Ok (ReplyEntry attr 0)).

Definition fs_getattr (pfs : PuzzleFS) (ino : N) : Handler :=
  reply_or_errno (Fuse_getattr pfs ino) (fun attr => Ok (ReplyAttr attr)).

Definition fs_readlink (pfs : PuzzleFS) (ino : N) : Handler :=
  reply_or_errno (Fuse_readlink pfs ino) (fun symlink => Ok (ReplyData symlink)).

Definition fs_open (ino : N) (flags : Z) : Handler := Fuse_open flags.

(** [offset.try_into().unwrap()] panics on a negative offset. *)
Definition fs_read (pfs : PuzzleFS) (ino : N) (offset : Z) (size : N) : Handler :=
  if (offset <? 0)%Z then Panic
  else reply_or_errno (Fuse_read pfs ino (Z.to_N offset) size) (fun data => Ok (ReplyData data)).

Definition fs_release (ino : N) : Handler := Ok ReplyOk.

Definition fs_opendir (ino : N) (flags : Z) : Handler := Fuse_open flags.

Definition fs_readdir (pfs : PuzzleFS) (ino : N) (offset : Z) : Handler :=
  reply_or_errno (Fuse_readdir pfs ino offset) (fun entries => Ok (ReplyDir entries)).

Definition fs_releasedir (ino : N) : Handler := Ok ReplyOk.

Definition fs_statfs (ino : N) : Handler := Ok (ReplyStatfs 0 0 0 0 0 0 256 0).

Definition fs_getxattr (pfs : PuzzleFS) (ino : N) (name : bytes) (size : N) : Handler :=
  reply_or_errno (Fuse_getxattr pfs ino name) (fun xattr => reply_xattr xattr size).

Definition fs_listxattr (pfs : PuzzleFS) (ino : N) (size : N) : Handler :=
  reply_or_errno (Fuse_listxattr pfs ino) (fun xattr => reply_xattr xattr size).

Definition fs_access (ino : N) (mask : Z) : Handler := Ok ReplyOk.

Definition fs_bmap (ino : N) : Handler := Ok (ReplyError (errno_code ENOLCK)).

(** The session hands each request to its handler. *)
Definition handle (pfs : PuzzleFS) (req : Request) : Handler :=
  match req with
  | Req_setattr ino => fs_setattr ino
  | Req_mknod parent name => fs_mknod parent name
  | Req_mkdir parent name => fs_mkdir parent name
  | Req_unlink parent name => fs_unlink parent name
  | Req_rmdir parent name => fs_rmdir parent name
  | Req_symlink parent name => fs_symlink parent name
  | Req_rename parent name newparent newname => fs_rename parent name newparent newname
  | Req_link ino newparent newname => fs_link ino newparent newname
  | Req_write ino offset data => fs_write ino offset data
  | Req_flush ino => fs_flush ino
  | Req_fsync ino => fs_fsync ino
  | Req_fsyncdir ino => fs_fsyncdir ino
  | Req_setxattr ino name value => fs_setxattr ino name value
  | Req_removexattr ino name => fs_removexattr ino name
  | Req_create parent name flags => fs_create parent name flags
  | Req_getlk ino => fs_getlk ino
  | Req_setlk ino => fs_setlk ino
  | Req_lookup parent name => fs_lookup pfs parent name
  | Req_getattr ino => fs_getattr pfs ino
  | Req_readlink ino => fs_readlink pfs ino
  | Req_open ino flags => fs_open ino flags
  | Req_read ino offset size => fs_read pfs ino offset size
  | Req_release ino => fs_release ino
  | Req_opendir ino flags => fs_opendir ino flags
  | Req_readdir ino offset => fs_readdir pfs ino offset
  | Req_releasedir ino => fs_releasedir ino
  | Req_statfs ino => fs_statfs ino
  | Req_getxattr ino name size => fs_getxattr pfs ino name size
  | Req_listxattr ino size => fs_listxattr pfs ino size
  | Req_access ino mask => fs_access ino mask
  | Req_bmap ino => fs_bmap ino
  end.

(** ** Read-only *)

(** The requests that would change the file system, or ask for the right to. *)
Definition mutating (req : Request) : bool :=
  match req with
  | Req_setattr _ | Req_mknod _ _ | Req_mkdir _ _ | Req_unlink _ _ | Req_rmdir _ _ | Req_symlink _ _
  | Req_rename _ _ _ _ | Req_link _ _ _ | Req_write _ _ _ | Req_setxattr _ _ _ | Req_removexattr _ _
  | Req_create _ _ _ => true
  | Req_open _ flags | Req_opendir _ flags => negb (Z.land flags write_flags =? 0)%Z
  | _ => false
  end.

Lemma Fuse_open_refuses_write `{!OFlagsOk OF} flags :
  Z.land flags write_flags ≠ 0%Z -> Fuse_open flags = Ok (ReplyError (errno_code EROFS)).
Proof.
  intros Hw. unfold Fuse_open. cbv zeta.
  destruct (Z.eqb_spec (Z.land allowed_flags (Z.land flags oflag_all)) (Z.land flags oflag_all)) as [Heq|]; [|done].
  exfalso. apply Hw. rewrite <-write_flags_known.
  rewrite (Z.land_comm write_flags), Z.land_assoc, <-Heq.
  rewrite <-Z.land_assoc, (Z.land_comm _ write_flags), Z.land_assoc, (Z.land_comm allowed_flags).
  by rewrite write_flags_disjoint, Z.land_0_l.
Qed.

(** C33: a mounted image is read-only.  Every request that would change something, including opening a
    file or directory with any flag that asks for writing, creating, truncating or appending, is
    answered with [EROFS], whatever the image contains. *)
Theorem Fuse_read_only `{!OFlagsOk OF} (pfs : PuzzleFS) (req : Request) :
  mutating req = true -> handle pfs req = Ok (ReplyError (errno_code EROFS)).
Proof.
  destruct req; try done; cbn [mutating handle]; intros Hw%negb_true_iff%Z.eqb_neq;
    by apply Fuse_open_refuses_write.
Qed.

(** ** Lookups *)

(** The FUSE [lookup] of a name in a directory agrees with the lookup of the longer path: when
    a path names a directory, looking a name up in that directory by inode number finds exactly
    what [PuzzleFS::lookup] finds under the path extended by the name, with the attributes
    [getattr] reports for it, and fails with [ENOENT] when the path lookup finds nothing. *)
Theorem Fuse_lookup_path (pfs : PuzzleFS) (p : Path) (dir : Inode) (dir_list : DirList) (name : bytes) :
  PuzzleFS_lookup pfs p = Ok (Some dir) -> i_mode dir = Mode_Dir dir_list ->
  PuzzleFS_find_inode pfs (i_ino dir) = Ok dir ->
  (forall e, e ∈ dl_entries dir_list -> forall i, PuzzleFS_find_inode pfs (de_ino e) = Ok i -> i_ino i = de_ino e) ->
  match PuzzleFS_lookup pfs (p ++ [Normal name]) with
  | Ok (Some inode) => Fuse_lookup pfs (i_ino dir) name = Fuse_getattr pfs (i_ino inode)
  | Ok None => Fuse_lookup pfs (i_ino dir) name = Err (from_errno ENOENT)
  | Err e => Fuse_lookup pfs (i_ino dir) name = Err e
  | Panic => Fuse_lookup pfs (i_ino dir) name = Panic
  | Diverged => Fuse_lookup pfs (i_ino dir) name = Diverged
  end.
Proof.
  intros Hp Hm Hself Hinos. unfold PuzzleFS_lookup in *. destruct p as [|[] comps]; try done. cbn [app].
  apply bind_ok_inv in Hp as (root & -> & Hl). bsimpl.
  assert (lookup_from (PuzzleFS_find_inode pfs) root (comps ++ [Normal name])
          = lookup_from (PuzzleFS_find_inode pfs) dir [Normal name]) as ->.
  { revert root Hl. induction comps as [|c comps IH]; intros root Hl; cbn [app lookup_from] in *.
    - by injection Hl as ->.
    - destruct c; try done. destruct (i_mode root); try done. destruct (List.find _ _); [|done].
      apply bind_ok_inv in Hl as (r & -> & Hl). bsimpl. by apply IH. }
  cbn [lookup_from]. rewrite Hm. unfold Fuse_lookup. rewrite Hself. bsimpl.
  unfold dir_lookup, dir_entries. rewrite Hm. bsimpl.
  destruct (List.find _ _) as [e|] eqn:He; cbn [option_fmap option_map ok_or fmap]; [|done]. bsimpl.
  apply find_some in He as [He%list_elem_of_In _].
  destruct (PuzzleFS_find_inode pfs (de_ino e)) as [i|err| |] eqn:Hi; bsimpl; cbn.
  - by rewrite (Hinos e He i Hi).
  - unfold Fuse_getattr. by rewrite Hi.
  - unfold Fuse_getattr. by rewrite Hi.
  - unfold Fuse_getattr. by rewrite Hi.
Qed.

(** ** Reading *)

(** A FUSE [read] returns the requested range of the file: for an inode whose chunks hold
    [content], the reply carries [content[offset..offset+size]], cut off at the end of the file,
    and nothing else. *)
Theorem Fuse_read_correct (pfs : PuzzleFS) (ino : N) (inode : Inode) (chunks : list FileChunk)
    (content : bytes) (offset : Z) (size : N) :
  PuzzleFS_find_inode pfs ino = Ok inode -> i_mode inode = Mode_File chunks ->
  file_content (pfs_oci pfs) (pfs_verity_data pfs) chunks content ->
  (0 <= offset < 2 ^ 63)%Z -> (size < 2 ^ 32)%N -> (len content < 2 ^ 63 - 2 ^ 32)%N ->
  handle pfs (Req_read ino offset size) = Ok (ReplyData (slice (Z.to_N offset) size content)).
Proof.
  intros Hi Hm Hc Ho Hs Hl. cbn [handle]. unfold fs_read. rewrite (proj2 (Z.ltb_ge _ _)) by lia.
  unfold Fuse_read. rewrite Hi. bsimpl. set (buf := replicate (N.to_nat size) x00).
  assert (len buf = size) as Hb by (unfold len, buf; rewrite length_replicate; lia).
  rewrite cast_w_small by word_lia.
  rewrite (file_read_spec _ _ _ chunks content) by (done || lia). bsimpl. cbn [reply_or_errno]. do 2 f_equal.
  rewrite Hb. set (out := slice (Z.to_N offset) size content).
  assert (N.min size (len content - Z.to_N offset) = len out) as -> by (unfold out; by rewrite len_slice).
  apply slice_splice_0. unfold out. rewrite len_slice. lia.
Qed.

(** ** Listing a directory *)

(** What a complete listing reports for the entries from index [k] on. *)
Fixpoint listing (pfs : PuzzleFS) (entries : list DirEnt) (k : nat) : Result (list DirReply) :=
  match entries with
  | [] => Ok []
  | e :: entries =>
      inode ← PuzzleFS_find_inode pfs (de_ino e);
      kind ← mode_to_fuse_type inode;
      rest ← listing pfs entries (S k);
      Ok (mkDirReply (de_ino e) (Z.of_nat (k + 1)) kind (de_name e) :: rest)
  end.

(** The kernel's side: ask again from the offset of the last entry until a reply is empty. *)
Fixpoint readdir_all (fuel : nat) (pfs : PuzzleFS) (ino : N) (offset : Z) (acc : list DirReply)
  : outcome Z (list DirReply) :=
  match fuel with
  | O => Diverged
  | S fuel =>
      match handle pfs (Req_readdir ino offset) with
      | Ok (ReplyDir entries) =>
          match last entries with
          | None => Ok acc
          | Some e => readdir_all fuel pfs ino (dr_offset e) (acc ++ entries)
          end
      | Ok (ReplyError code) => Err code
      | _ => Panic
      end
  end.

(** One reply is a prefix of what is left, and not an empty one when something is left. *)
Lemma readdir_loop_prefix pfs entries k reply rest :
  listing pfs entries k = Ok rest -> (forall e, e ∈ rest -> reply_fits [] e = true) ->
  exists page, readdir_loop pfs entries k reply = Ok (reply ++ page) /\
    page = take (length page) rest /\ (reply = [] -> rest ≠ [] -> page ≠ []).
Proof.
  revert k reply rest. induction entries as [|e entries IH]; intros k reply rest Hl Hfit;
    cbn [listing readdir_loop] in *.
  - injection Hl as <-. exists []. by rewrite app_nil_r.
  - apply bind_ok_inv in Hl as (inode & -> & Hl). apply bind_ok_inv in Hl as (kind & Hk & Hl).
    apply bind_ok_inv in Hl as (rest' & Hrest & Hl). injection Hl as <-. bsimpl. rewrite Hk. bsimpl.
    set (r := mkDirReply _ _ _ _). destruct (reply_fits reply r) eqn:Hf.
    + destruct (IH (S k) (reply ++ [r]) rest' Hrest (fun e' He' => Hfit e' (list_elem_of_further _ _ _ He'))) as (page & -> & Hpage & _).
      exists (r :: page). rewrite <-app_assoc. split; [done|]. split; [cbn; by rewrite <-Hpage|done].
    + exists []. rewrite app_nil_r. split; [done|]. split; [done|]. intros ->. rewrite Hfit in Hf; [done|by left].
Qed.

Lemma listing_app pfs n entries k rest :
  listing pfs entries k = Ok rest -> listing pfs (drop n entries) (k + n) = Ok (drop n rest).
Proof.
  revert n k rest. induction entries as [|e entries IH]; intros n k rest Hl; cbn [listing] in Hl.
  - injection Hl as <-. by rewrite !drop_nil.
  - destruct n as [|n]; [by rewrite Nat.add_0_r, !drop_0|].
    apply bind_ok_inv in Hl as (i & _ & Hl). apply bind_ok_inv in Hl as (kd & _ & Hl).
    apply bind_ok_inv in Hl as (rest' & Hrest & Hl). injection Hl as <-. cbn [drop].
    replace (k + S n) with (S k + n) by lia. by apply IH.
Qed.

Lemma listing_offset pfs entries k rest n r :
  listing pfs entries k = Ok rest -> rest !! n = Some r -> dr_offset r = Z.of_nat (k + n + 1).
Proof.
  revert n k rest. induction entries as [|e entries IH]; intros n k rest Hl Hn; cbn [listing] in Hl.
  - by injection Hl as <-.
  - apply bind_ok_inv in Hl as (i & _ & Hl). apply bind_ok_inv in Hl as (kd & _ & Hl).
    apply bind_ok_inv in Hl as (rest' & Hrest & Hl). injection Hl as <-. destruct n as [|n].
    + injection Hn as <-. cbn. lia.
    + rewrite (IH n (S k) rest' Hrest Hn). lia.
Qed.

Lemma listing_length pfs entries k rest : listing pfs entries k = Ok rest -> length rest = length entries.
Proof.
  revert k rest. induction entries as [|e entries IH]; intros k rest Hl; cbn [listing] in Hl.
  - by injection Hl as <-.
  - apply bind_ok_inv in Hl as (i & _ & Hl). apply bind_ok_inv in Hl as (kd & _ & Hl).
    apply bind_ok_inv in Hl as (rest' & Hrest & Hl). injection Hl as <-. cbn. by rewrite (IH _ _ Hrest).
Qed.

Lemma readdir_all_from fuel pfs ino inode entries all k acc :
  (forall e, e ∈ all -> reply_fits [] e = true) -> PuzzleFS_find_inode pfs ino = Ok inode ->
  dir_entries inode = Ok entries -> listing pfs entries 0 = Ok all ->
  (Z.of_nat (length entries) < 2 ^ 63)%Z -> k <= length entries -> length entries - k < fuel ->
  readdir_all fuel pfs ino (Z.of_nat k) acc = Ok (acc ++ drop k all).
Proof.
  intros Hfit Hi He Hall Hlen. revert k acc. induction fuel as [|fuel IH]; intros k acc Hk Hf; [lia|].
  pose proof (listing_length _ _ _ _ Hall) as Hl. cbn [readdir_all handle]. unfold fs_readdir, Fuse_readdir. rewrite Hi. bsimpl.
  rewrite He. bsimpl. cbv zeta. rewrite Z.mod_small by lia. rewrite Nat2Z.id.
  destruct (readdir_loop_prefix pfs (drop k entries) k [] (drop k all) (listing_app _ k _ 0 _ Hall))
    as (page & -> & Hpage & Hne).
  { intros e [i Hi']%list_elem_of_lookup. rewrite lookup_drop in Hi'. by eapply Hfit, list_elem_of_lookup_2. }
  cbn [app reply_or_errno]. destruct (last page) as [r|] eqn:Hlast.
  - assert (0 < length page) as Hpos by (destruct page; [done | simpl; lia]).
    assert (length page <= length all - k) as Hple by (rewrite Hpage, length_take, length_drop; lia).
    rewrite last_lookup, Hpage, length_take, length_drop, lookup_take_lt in Hlast by lia.
    rewrite lookup_drop in Hlast.
    rewrite (listing_offset _ _ _ _ _ _ Hall Hlast).
    replace (0 + (k + pred (length page `min` (length all - k))) + 1) with (k + length page) by lia.
    rewrite IH by lia. rewrite <-app_assoc. f_equal. f_equal. rewrite Hpage at 1. rewrite <-drop_drop.
    apply take_drop.
  - apply last_None in Hlast as ->. destruct (drop k all) as [|x rest]; [by rewrite app_nil_r|].
    by destruct (Hne eq_refl).
Qed.

(** C31: paging through a directory lists it once, completely and in order.  When the inodes of the
    entries can be found, a client that starts at offset 0 and continues each [readdir] at the
    offset of the last entry it received, until a reply is empty, receives every entry of the
    directory exactly once in directory order, however many entries fit into each reply, as long as
    each of them fits into an empty one. *)
Theorem Fuse_readdir_complete (pfs : PuzzleFS) (ino : N) (inode : Inode) (entries : list DirEnt)
    (all : list DirReply) :
  (forall e, e ∈ all -> reply_fits [] e = true) -> PuzzleFS_find_inode pfs ino = Ok inode ->
  dir_entries inode = Ok entries -> listing pfs entries 0 = Ok all ->
  (Z.of_nat (length entries) < 2 ^ 63)%Z ->
  readdir_all (S (length entries)) pfs ino 0 [] = Ok all /\ dr_name <$> all = de_name <$> entries.
Proof.
  intros Hfit Hi He Hall Hlen. split.
  - apply (readdir_all_from _ pfs ino inode entries all 0 []); [done..| lia | lia].
  - clear -Hall. revert Hall. generalize 0 as k. revert all.
    induction entries as [|e entries IH]; intros all k Hl; cbn [listing] in Hl; [by injection Hl as <-|].
    apply bind_ok_inv in Hl as (i & _ & Hl). apply bind_ok_inv in Hl as (kd & _ & Hl).
    apply bind_ok_inv in Hl as (rest' & Hrest & Hl). injection Hl as <-. csimpl. f_equal. by eapply IH.
Qed.

(** ** Extended attributes *)

Lemma cstrings_ok keys :
  Forall (fun k => x00 ∉ k) keys -> mapM cstring keys = Ok ((fun k => k ++ [x00]) <$> keys).
Proof.
  intros Hk. apply mapM_ok_map. intros k Hin. rewrite Forall_forall in Hk. unfold cstring.
  by rewrite bool_decide_eq_false_2 by (by apply Hk).
Qed.

Lemma split_cstrings keys :
  Forall (fun k => x00 ∉ k) keys -> str_split x00 (concat ((fun k => k ++ [x00]) <$> keys)) = keys ++ [[]].
Proof.
  induction 1 as [|k keys Hk _ IH]; csimpl; [done|]. cbn [concat]. rewrite <-app_assoc. cbn [app].
  by rewrite str_split_app, IH.
Qed.

(** Extended attributes follow the two-step size protocol.  For an inode with attributes, asking
    with size 0 returns the length of the list, asking again with that length returns the names,
    each terminated by NUL and in order, from which a client recovers exactly the names; any
    smaller buffer is refused with [ERANGE].  Names that contain a NUL byte, which the host
    cannot produce, are excluded. *)
Theorem Fuse_listxattr_protocol (pfs : PuzzleFS) (ino : N) (inode : Inode) (add : InodeAdditional) (size : N) :
  PuzzleFS_find_inode pfs ino = Ok inode -> i_additional inode = Some add ->
  Forall (fun x => x00 ∉ xa_key x) (ia_xattrs add) ->
  (len (concat ((fun x => xa_key x ++ [x00]) <$> ia_xattrs add)) < 2 ^ u32_bits)%N ->
  exists data, str_split_terminator x00 data = xa_key <$> ia_xattrs add /\
    handle pfs (Req_listxattr ino 0) = Ok (ReplySize (len data)) /\
    ((0 < size < len data)%N -> handle pfs (Req_listxattr ino size) = Ok (ReplyError (errno_code ERANGE))) /\
    ((0 < size)%N -> (len data <= size)%N -> handle pfs (Req_listxattr ino size) = Ok (ReplyData data)).
Proof.
  intros Hi Ha Hk Hlen. set (keys := xa_key <$> ia_xattrs add).
  assert (Forall (fun k => x00 ∉ k) keys) as Hkeys by (by apply Forall_fmap).
  assert ((fun x => xa_key x ++ [x00]) <$> ia_xattrs add = (fun k => k ++ [x00]) <$> keys) as Heq
    by (unfold keys; by rewrite <-list_fmap_compose).
  rewrite Heq in Hlen. exists (concat ((fun k => k ++ [x00]) <$> keys)). split.
  { unfold str_split_terminator. rewrite split_cstrings by done. rewrite last_snoc. apply List.removelast_last. }
  assert (Fuse_listxattr pfs ino = Ok (concat ((fun k => k ++ [x00]) <$> keys))) as Hlx.
  { unfold Fuse_listxattr. rewrite Hi. bsimpl. rewrite Ha.
    assert (mapM (fun x => cstring (xa_key x)) (ia_xattrs add) = mapM cstring keys) as ->
      by (unfold keys; clear; induction (ia_xattrs add) as [|x l IH]; [done | rewrite fmap_cons; cbn [mapM]; by rewrite IH]).
    by rewrite cstrings_ok. }
  cbn [handle]. unfold fs_listxattr. rewrite Hlx. cbn [reply_or_errno]. unfold reply_xattr.
  rewrite (proj2 (N.ltb_lt _ _)) by done. split; [done|]. split.
  - intros [H0 H1]. rewrite (proj2 (N.eqb_neq _ _)) by lia. by rewrite (proj2 (N.leb_gt _ _)).
  - intros H0 H1. rewrite (proj2 (N.eqb_neq _ _)) by lia. by rewrite (proj2 (N.leb_le _ _)).
Qed.

(** A whiteout makes its directory unlistable.  When the inode of an entry is whited out (as it is
    for every name deleted by a delta), a [readdir] that reaches the entry fails with [ENOENT]
    and the entries before it are lost with it, although they exist. *)
Theorem Fuse_readdir_whiteout (pfs : PuzzleFS) (ino : N) (inode : Inode) (before after : list DirEnt)
    (wh : DirEnt) (page : list DirReply) :
  PuzzleFS_find_inode pfs ino = Ok inode -> dir_entries inode = Ok (before ++ wh :: after) ->
  listing pfs before 0 = Ok page ->
  (forall l e, prefix (l ++ [e]) page -> reply_fits l e = true) ->
  PuzzleFS_find_inode pfs (de_ino wh) = Err (from_errno ENOENT) ->
  handle pfs (Req_readdir ino 0) = Ok (ReplyError (errno_code ENOENT)).
Proof.
  intros Hi He Hl Hfit Hwh. cbn [handle]. unfold fs_readdir, Fuse_readdir. rewrite Hi. bsimpl. rewrite He. bsimpl.
  cbv zeta. rewrite Z.mod_0_l by lia. change (Z.to_nat 0) with 0. rewrite drop_0.
  assert (forall k done0 rest, listing pfs before k = Ok rest ->
    (forall l e, prefix (l ++ [e]) (done0 ++ rest) -> reply_fits l e = true) ->
    readdir_loop pfs (before ++ wh :: after) k done0 = Err (from_errno ENOENT)) as Hloop.
  { clear -Hwh. induction before as [|e before IH]; intros k done0 rest Hl Hfit; cbn [listing readdir_loop app] in *.
    - by rewrite Hwh.
    - apply bind_ok_inv in Hl as (i & -> & Hl). apply bind_ok_inv in Hl as (kd & Hkd & Hl).
      apply bind_ok_inv in Hl as (rest' & Hrest & Hl). injection Hl as <-. bsimpl. rewrite Hkd. bsimpl.
      rewrite Hfit by (apply prefix_app, prefix_cons, prefix_nil).
      apply (IH (S k) _ rest' Hrest). by rewrite <-app_assoc. }
  by rewrite (Hloop 0 [] page Hl Hfit).
Qed.

End fuse.
