(* ===== verification/Extractor.v ===== *)
(** [extractor.rs]: unpacking an image into a directory.  The target file system is an interface;
    the model records every operation performed on it, so that the theorems can say where an
    extraction writes, also for a malicious image. *)

From S2P Require Import Prelude Errors RustStd Capnp Format Digest InodeTable Compression Oci Reader Walk.

(** The operations of the extractor on the target. *)
Inductive Effect :=
| E_create_dir_all (p : Path)
| E_hard_link (original link : Path)
| E_create (p : Path)
| E_write (p : Path) (data : bytes)
| E_mkfifo (p : Path)
| E_mknod (p : Path) (kind dev : N)
| E_symlinkat (target : bytes) (p : Path)
| E_xattr_set (p : Path) (key val : bytes)
| E_set_permissions (p : Path) (mode : N)
| E_chown (p : Path) (uid gid : N).

Class TargetFs := {
  target : Type;
  lstat : target -> Path -> io_Result Metadata;
  perform : target -> Effect -> target * io_Result ();
  runs_privileged : bool
}.

(** [anyhow::Error]: the errors wrapped, and the messages of [bail!]. *)
Inductive any_error :=
| AnyWire (e : WireFormatError)
| AnyIo (e : io_error)
| PathPrefix
| SymlinkPrefix (p : Path)
| AccessProblem (p : Path) (e : io_error)
| EscapesExtractDir (p : Path)
| BadInodeMode.

Abbreviation any_Result := (outcome any_error).

(** The state of an extraction: the target, the paths by inode number, and a log of what was
    done, each operation with the target it was done on. *)
Record Extract `{TargetFs} := mkExtract {
  x_target : target;
  x_host_to_pfs : gmap N Path;
  x_log : list (target * Effect)
}.

(** [std::io::copy]'s buffer. *)
Definition COPY_BUF_SIZE : N := 8192.

Section extract.
Context {T : TargetFs}.

(** The loop of [safe_path]. *)
Fixpoint safe_path_loop (fs : target) (image_path comps buf : Path) (level : Z) : any_Result Path :=
  match comps with
  | [] => Ok buf
  | Prefix :: _ => Err PathPrefix
  | RootDir :: comps => safe_path_loop fs image_path comps buf level
  | CurDir :: comps => safe_path_loop fs image_path comps buf level
  | Normal c :: comps =>
      let buf := path_push buf c in
      match lstat fs buf with
      | Ok md =>
          if md_is_symlink md then Err (SymlinkPrefix buf)
          else safe_path_loop fs image_path comps buf (level + 1)
      | Err e =>
          if decide (io_kind e = NotFound) then Ok buf else Err (AccessProblem buf e)
      | Panic => Panic
      | Diverged => Diverged
      end
  | ParentDir :: comps =>
      let level := (level - 1)%Z in
      if (level <=? 0)%Z then Err (EscapesExtractDir image_path)
      else safe_path_loop fs image_path comps (path_pop buf) level
  end.

Definition safe_path (fs : target) (dir image_path : Path) : any_Result Path :=
  safe_path_loop fs image_path image_path dir 1.

Context {P : Profile} {R : OsRead} {ZS : ZstdSeekable} {NS : NixStat}.
Context {H : Hex} {SH : Sha256} {V : FsVerity} {D : OciDigest} {OD : OciDir} {W : CapnpWire}.

(** A small state monad: the state survives errors. *)
Definition X (A : Type) : Type := Extract -> Extract * any_Result A.

#[export] Instance X_ret : MRet X := fun A a st => (st, Ok a).
#[export] Instance X_bind : MBind X := fun A B k c st =>
  match c st with
  | (st, Ok a) => k a st
  | (st, Err e) => (st, Err e)
  | (st, Panic) => (st, Panic)
  | (st, Diverged) => (st, Diverged)
  end.

Definition lift {A} (r : any_Result A) : X A := fun st => (st, r).

(** One operation on the target. *)
Definition effect (e : Effect) : X () := fun st =>
  let '(t, r) := perform (x_target st) e in
  (mkExtract _ t (x_host_to_pfs st) (x_log st ++ [(x_target st, e)]), map_err AnyIo r).

Definition get_target : X target := fun st => (st, Ok (x_target st)).
Definition get_path (ino : N) : X (option Path) := fun st => (st, Ok (x_host_to_pfs st !! ino)).
Definition insert_path (ino : N) (p : Path) : X () := fun st =>
  (mkExtract _ (x_target st) (<[ino := p]> (x_host_to_pfs st)) (x_log st), Ok ()).

Fixpoint set_xattrs (path : Path) (xs : list Xattr) : X () :=
  match xs with
  | [] => mret ()
  | x :: xs => _ ← effect (E_xattr_set path (xa_key x) (xa_val x)); set_xattrs path xs
  end.

(** The [match dir_entry.inode.mode]; the result is [is_symlink]. *)
Definition extract_node (dir_entry : DirEntry) (path : Path) : X bool :=
  match i_mode (we_inode dir_entry) with
  | Mode_File _ =>
      reader ← lift (map_err AnyWire (DirEntry_open dir_entry));
      _ ← effect (E_create path);
      data ← lift (map_err AnyIo (FileReader_copy (S (N.to_nat (fr_len reader))) COPY_BUF_SIZE reader []));
      _ ← effect (E_write path data);
      mret false
  | Mode_Dir _ => _ ← effect (E_create_dir_all path); mret false
  | Mode_Fifo => _ ← effect (E_mkfifo path); mret false
  | Mode_Chr major minor => _ ← effect (E_mknod path S_IFCHR (makedev major minor)); mret false
  | Mode_Blk major minor => _ ← effect (E_mknod path S_IFBLK (makedev major minor)); mret false
  | Mode_Lnk =>
      target ← lift (map_err AnyWire (symlink_target (we_inode dir_entry)));
      _ ← effect (E_symlinkat target path);
      mret true
  | Mode_Sock => lift Panic
  | Mode_Wht => lift Panic
  | Mode_Unknown => lift (Err BadInodeMode)
  end.

(** The closure of [try_for_each]. *)
Definition extract_entry (dir : Path) (de : Result DirEntry) : X () :=
  dir_entry ← lift (map_err AnyWire de);
  fs ← get_target;
  path ← lift (safe_path fs dir (we_path dir_entry));
  existing ← get_path (i_ino (we_inode dir_entry));
  match existing with
  | Some existing_path => effect (E_hard_link existing_path path)
  | None =>
      _ ← insert_path (i_ino (we_inode dir_entry)) path;
      is_symlink ← extract_node dir_entry path;
      _ ← set_xattrs path (match i_additional (we_inode dir_entry) with Some x => ia_xattrs x | None => [] end);
      _ ← (if negb is_symlink then effect (E_set_permissions path (i_permissions (we_inode dir_entry)))
           else mret ());
      if runs_privileged then effect (E_chown path (i_uid (we_inode dir_entry)) (i_gid (we_inode dir_entry)))
      else mret ()
  end.

(** [walker.try_for_each(...)]. *)
Fixpoint extract_loop (fuel : nat) (dir : Path) (walker : WalkPuzzleFS) : X () :=
  match fuel with
  | O => lift Diverged
  | S fuel =>
      match WalkPuzzleFS_next walker with
      | None => mret ()
      | Some (walker, de) => _ ← extract_entry dir de; extract_loop fuel dir walker
      end
  end.

(** [extract_rootfs] on an opened image. *)
Definition extract_rootfs (fuel : nat) (image : Image oci_index) (tag : bytes) (dir : Path) : X () :=
  _ ← effect (E_create_dir_all dir);
  pfs ← lift (map_err AnyWire (PuzzleFS_open image tag None));
  walker ← lift (map_err AnyWire (WalkPuzzleFS_walk pfs));
  extract_loop fuel dir walker.

(** ** Where an extraction writes *)

(** A path [dir/n1/.../nk], none of whose components below [dir] is a symbolic link. *)
Definition below (fs : target) (dir p : Path) : Prop :=
  exists names, p = dir ++ (Normal <$> names) /\
    forall n, 0 < n <= length names ->
      match lstat fs (dir ++ (Normal <$> take n names)) with
      | Ok md => md_is_symlink md = false
      | Err e => io_kind e = NotFound
      | _ => False
      end.

(** Only the names matter here. *)
Definition inside (dir p : Path) : Prop := exists names, p = dir ++ (Normal <$> names).

(** Every name in the path is a file name: true of whatever [Path::components] yields. *)
Definition named (p : Path) : Prop := Forall (fun c => match c with Normal n => valid_name n | _ => True end) p.

Lemma single_component_named s : slash ∉ s -> named (single_component s).
Proof.
  intros Hs. unfold single_component. repeat case_decide; repeat constructor; done.
Qed.

Lemma split_components_named s : named (concat (single_component <$> str_split slash s)).
Proof.
  pose proof (str_split_sound slash s) as Hall. unfold named in *.
  induction Hall as [|x l Hx _ IH]; csimpl; [constructor|]. apply Forall_app. split; [|done].
  by apply single_component_named.
Qed.

Lemma path_join_named p s : named p -> named (path_join p s).
Proof.
  intros Hp. pose proof (split_components_named s) as Hs.
  assert (named (components s)) as Hc.
  { unfold components. destruct (is_absolute s); [by constructor|].
    destruct (str_split slash s); [done|]. case_decide; [by constructor | done]. }
  unfold path_join, path_push. destruct (is_absolute s); [done|]. destruct p; [done|].
  by apply Forall_app.
Qed.

Lemma path_push_name p n : p ≠ [] -> valid_name n -> path_push p n = p ++ [Normal n].
Proof. apply path_join_name. Qed.

(** The loop invariant: [buf] is [level - 1] names below [dir], all of them checked. *)
Lemma safe_path_loop_below fs image_path comps dir names level p :
  dir ≠ [] -> named comps -> level = Z.of_nat (S (length names)) ->
  (forall n, 0 < n <= length names ->
     exists md, lstat fs (dir ++ (Normal <$> take n names)) = Ok md /\ md_is_symlink md = false) ->
  safe_path_loop fs image_path comps (dir ++ (Normal <$> names)) level = Ok p -> below fs dir p.
Proof.
  intros Hdir. revert names level. induction comps as [|c comps IH]; intros names level Hn Hl Hck Hp.
  - injection Hp as <-. exists names. split; [done|]. intros n Hnn. destruct (Hck n Hnn) as (md & -> & ?). done.
  - inversion Hn as [|? ? Hc Hcs]; subst. destruct c as [| | | |c]; cbn [safe_path_loop] in Hp; try done.
    + by eapply IH.
    + by eapply IH.
    + destruct (Z.leb_spec (Z.of_nat (S (length names)) - 1) 0) as [|Hlev]; [done|].
      destruct names as [|x names'] using rev_ind; [simpl in Hlev; lia|]. clear IHnames'.
      rewrite fmap_app, app_assoc in Hp. cbn [fmap list_fmap] in Hp. rewrite path_pop_snoc in Hp.
      rewrite length_app in *. cbn [length] in *. eapply (IH names'); [done| |..|exact Hp]; [lia|].
      intros n Hnn. destruct (Hck n) as (md & Hmd & Hsym); [lia|]. exists md. split; [|done].
      by rewrite take_app_le in Hmd by lia.
    + rewrite path_push_name in Hp by (done || by destruct dir).
      assert ((dir ++ (Normal <$> names)) ++ [Normal c] = dir ++ (Normal <$> (names ++ [c]))) as Heq
        by (by rewrite fmap_app, app_assoc).
      rewrite Heq in Hp. clear Heq.
      assert (forall n, 0 < n <= length (names ++ [c]) ->
        n <= length names /\ take n (names ++ [c]) = take n names
        \/ take n (names ++ [c]) = names ++ [c]) as Hcases.
      { intros n [Hn0 Hn1]. rewrite length_app in Hn1. cbn in Hn1. destruct (decide (n <= length names)).
        - left. split; [done|]. by rewrite take_app_le.
        - right. rewrite take_ge; [done|]. rewrite length_app. cbn. lia. }
      destruct (lstat fs (dir ++ (Normal <$> (names ++ [c])))) as [md|e| |] eqn:Hst; [| |done|done].
      * destruct (md_is_symlink md) eqn:Hsym; [done|]. eapply (IH (names ++ [c])); [done| | |exact Hp].
        { rewrite length_app. cbn. lia. }
        intros n Hnn. destruct (Hcases n Hnn) as [[Hle ->]| ->]; [apply Hck; lia | by exists md].
      * case_decide as Hk; [|done]. injection Hp as <-. exists (names ++ [c]). split; [done|].
        intros n Hnn. destruct (Hcases n Hnn) as [[Hle ->]| ->]; [|by rewrite Hst].
        destruct (Hck n) as (md & -> & ?); [lia | done].
Qed.

Lemma safe_path_below fs dir image_path p :
  dir ≠ [] -> named image_path -> safe_path fs dir image_path = Ok p -> below fs dir p.
Proof.
  intros Hdir Hn Hp. apply (safe_path_loop_below fs image_path image_path dir [] 1); try done.
  - cbn. lia.
  - by rewrite app_nil_r.
Qed.

(** [safe_path] never leaves the extraction directory.  For any path an image can contain,
    with [..], absolute parts or empty components in any position, the path it returns is the
    extraction directory followed by plain names, and no component of it below the directory was
    a symbolic link when it was checked.  In particular a path that would climb out with [..] is
    rejected, also when it climbs back in. *)
Theorem safe_path_confined (fs : target) (dir : Path) (s image_path p : Path) (name : bytes) :
  dir ≠ [] -> named s -> image_path = path_join s name ->
  safe_path fs dir image_path = Ok p -> below fs dir p.
Proof. intros Hdir Hs ->. apply safe_path_below; [done|]. by apply path_join_named. Qed.

(** ** Every operation of an extraction is confined *)

(** The paths an operation creates or changes. *)
Definition effect_paths (e : Effect) : list Path :=
  match e with
  | E_create_dir_all p | E_create p | E_write p _ | E_mkfifo p | E_mknod p _ _ | E_symlinkat _ p
  | E_xattr_set p _ _ | E_set_permissions p _ | E_chown p _ _ => [p]
  | E_hard_link o l => [o; l]
  end.

Definition confined (dir : Path) (st : Extract) : Prop :=
  Forall (fun te => Forall (inside dir) (effect_paths te.2)) (x_log st) /\
  map_Forall (fun _ p => inside dir p) (x_host_to_pfs st).

Definition keeps {A} (I : Extract -> Prop) (c : X A) : Prop := forall st, I st -> I (c st).1.

Lemma keeps_bind {A B} I (c : X A) (k : A -> X B) :
  keeps I c -> (forall a, keeps I (k a)) -> keeps I (c ≫= k).
Proof.
  intros Hc Hk st Hst. unfold mbind, X_bind. specialize (Hc st Hst).
  destruct (c st) as [st' [a|e| |]]; cbn in *; [by apply Hk | done..].
Qed.

Lemma keeps_lift {A} I (r : any_Result A) : keeps I (lift r).
Proof. intros st Hst. done. Qed.

Lemma keeps_ret {A} I (a : A) : keeps I (mret a).
Proof. intros st Hst. done. Qed.

Lemma keeps_effect dir e : Forall (inside dir) (effect_paths e) -> keeps (confined dir) (effect e).
Proof.
  intros He st [Hl Hm]. unfold effect. destruct (perform (x_target st) e) as [t r]. cbn.
  split; [|done]. apply Forall_app. split; [done|]. by apply Forall_singleton.
Qed.

Lemma keeps_insert_path dir ino p : inside dir p -> keeps (confined dir) (insert_path ino p).
Proof. intros Hp st [Hl Hm]. split; [done|]. cbn. by apply map_Forall_insert_2. Qed.

Hint Resolve keeps_lift keeps_ret keeps_effect keeps_insert_path : pfs.

Lemma keeps_node dir de path : inside dir path -> keeps (confined dir) (extract_node de path).
Proof.
  intros Hp. unfold extract_node.
  assert (forall e, effect_paths e = [path] -> keeps (confined dir) (effect e)) as He.
  { intros e Heq. apply keeps_effect. rewrite Heq. by apply Forall_singleton. }
  destruct (i_mode _); repeat (apply keeps_bind; [|intros ?]); auto with pfs.
Qed.

Lemma keeps_set_xattrs dir path xs : inside dir path -> keeps (confined dir) (set_xattrs path xs).
Proof.
  intros Hp. induction xs as [|x xs IH]; cbn [set_xattrs]; [apply keeps_ret|].
  apply keeps_bind; [|done]. apply keeps_effect. by apply Forall_singleton.
Qed.

Lemma below_inside fs dir p : below fs dir p -> inside dir p.
Proof. intros (names & -> & _). by exists names. Qed.

Lemma keeps_entry dir de :
  dir ≠ [] -> (forall d, de = Ok d -> named (we_path d)) -> keeps (confined dir) (extract_entry dir de).
Proof.
  intros Hdir Hn st Hst. unfold extract_entry. destruct de as [d|e| |]; [|done..].
  cbn [map_err lift]. unfold mbind, X_bind at 1, lift. cbn beta iota.
  unfold X_bind at 1, get_target. cbn beta iota. unfold X_bind at 1.
  destruct (safe_path (x_target st) dir (we_path d)) as [p|e| |] eqn:Hsp; try done.
  apply safe_path_below, below_inside in Hsp; [|done|by apply Hn]. cbn beta iota.
  unfold X_bind at 1, get_path. cbn beta iota.
  destruct (x_host_to_pfs st !! i_ino (we_inode d)) as [ex|] eqn:Hex.
  - apply keeps_effect; [|done]. destruct Hst as [_ Hm]. specialize (Hm _ _ Hex). by repeat constructor.
  - revert st Hst Hex. intros st Hst _.
    assert (keeps (confined dir) (extract_node d p)) as Hnode by by apply keeps_node.
    assert (forall e, effect_paths e = [p] -> keeps (confined dir) (effect e)) as He.
    { intros e Heq. apply keeps_effect. rewrite Heq. by apply Forall_singleton. }
    apply (keeps_bind (confined dir) (insert_path _ p)); [by apply keeps_insert_path| |done].
    intros ?. apply keeps_bind; [done|]. intros is_symlink.
    apply keeps_bind; [by apply keeps_set_xattrs|]. intros ?.
    apply keeps_bind; [destruct is_symlink; [apply keeps_ret | by apply He]|]. intros ?.
    destruct runs_privileged; [by apply He | apply keeps_ret].
Qed.

(** The walk joins names to the root path, so that its paths are [named]. *)
Definition walk_named (w : WalkPuzzleFS) : Prop := Forall (fun de => named (we_path de)) (w_q w).

Lemma add_entries_named pfs de entries q :
  named (we_path de) -> Forall (fun d => named (we_path d)) q ->
  Forall (fun d => named (we_path d)) (add_entries_loop pfs de entries q).1.
Proof.
  intros Hd. revert q. induction entries as [|e entries IH]; intros q Hq; cbn [add_entries_loop]; [done|].
  destruct (PuzzleFS_find_inode pfs (de_ino e)); try done. apply IH. apply Forall_app. split; [done|].
  apply Forall_singleton. by apply path_join_named.
Qed.

Lemma next_named w w' r :
  walk_named w -> WalkPuzzleFS_next w = Some (w', r) ->
  walk_named w' /\ forall d, r = Ok d -> named (we_path d).
Proof.
  unfold walk_named, WalkPuzzleFS_next. intros Hw Hn. destruct (w_q w) as [|de q]; [done|].
  inversion Hw as [|? ? Hde Hq]; subst. unfold add_dir_entries in Hn. cbn [w_pfs w_q] in Hn.
  destruct (i_mode (we_inode de)); try (injection Hn as <- <-; split; [done|]; intros d [= <-]; done).
  pose proof (add_entries_named (w_pfs w) de (dl_entries dir_list) q Hde Hq) as Ha.
  destruct (add_entries_loop _ _ _ _) as [q' r']. injection Hn as <- <-. split; [done|].
  intros d Hd. destruct r'; try done. by injection Hd as <-.
Qed.

Lemma keeps_loop dir fuel w : dir ≠ [] -> walk_named w -> keeps (confined dir) (extract_loop fuel dir w).
Proof.
  intros Hdir. revert w. induction fuel as [|fuel IH]; intros w Hw; cbn [extract_loop]; [apply keeps_lift|].
  destruct (WalkPuzzleFS_next w) as [[w' r]|] eqn:Hn; [|apply keeps_ret].
  destruct (next_named w w' r Hw Hn) as [Hw' Hr].
  apply keeps_bind; [by apply keeps_entry | intros ?; by apply IH].
Qed.

(** C10: an extraction stays inside its directory.  Whatever the image contains, malformed or
    malicious, and however far the extraction gets before it stops or fails, every operation it
    performs creates or changes only paths that are the extraction directory followed by plain
    names, and hard links are made only between such paths. *)
Theorem extract_rootfs_confined (fuel : nat) (image : Image oci_index) (tag : bytes) (dir : Path) (t : target) :
  dir ≠ [] ->
  let st := (extract_rootfs fuel image tag dir (mkExtract _ t ∅ [])).1 in
  Forall (fun te => Forall (inside dir) (effect_paths te.2)) (x_log st).
Proof.
  intros Hdir. assert (confined dir (mkExtract _ t ∅ [])) as H0 by (split; [constructor | by apply map_Forall_empty]).
  assert (keeps (confined dir) (extract_rootfs fuel image tag dir)) as Hk; [|by apply (Hk _ H0)].
  apply keeps_bind; [apply keeps_effect, Forall_singleton; exists []; by rewrite app_nil_r|]. intros ?.
  apply keeps_bind; [apply keeps_lift|]. intros pfs. unfold WalkPuzzleFS_walk.
  destruct (PuzzleFS_find_inode pfs 1) as [root| | |]; cbn; try (intros st Hst; exact Hst).
  intros st Hst. apply keeps_loop; [done| |done]. by repeat constructor.
Qed.

Lemma X_bind_ok_inv {A B} (m : X A) (k : A -> X B) st st' b :
  (m ≫= k) st = (st', Ok b) -> exists st1 a, m st = (st1, Ok a) /\ k a st1 = (st', Ok b).
Proof. unfold mbind, X_bind. destruct (m st) as [st1 []]; [eauto|done..]. Qed.

Lemma effect_ok_inv e st st' r :
  effect e st = (st', Ok r) -> x_log st' = x_log st ++ [(x_target st, e)].
Proof. unfold effect. destruct (perform _ _) as [t [[]| | |]]; try done. by intros [= <-]. Qed.

(** Attributes are set on the path itself. *)
Lemma set_xattrs_ok_log path xs st st' r :
  set_xattrs path xs st = (st', Ok r) ->
  exists mid, x_log st' = x_log st ++ mid /\ Forall (fun te => exists key val, te.2 = E_xattr_set path key val) mid.
Proof.
  revert st. induction xs as [|x xs IH]; intros st; cbn [set_xattrs].
  - intros [= <- _]. exists []. by rewrite app_nil_r.
  - intros (st1 & [] & He%effect_ok_inv & (mid & Hmid & Hall)%IH)%X_bind_ok_inv.
    exists ((x_target st, E_xattr_set path (xa_key x) (xa_val x)) :: mid). split.
    + by rewrite Hmid, He, <-app_assoc.
    + constructor; [by eexists _, _|done].
Qed.

(** C39: extracting as root changes the owner through symbolic links.  Whenever the privileged
    extraction of a symbolic link of the image (one not extracted before under another name) ends
    without an error, whatever the file system did: the link was made at its path, attributes were
    set there, and the last operation was [chown] on that same path.  [chown(2)] follows the link, so
    the file it points to, possibly outside the extraction directory, is the one whose owner
    changes. *)
Theorem extract_chowns_through_symlink (dir path : Path) (de : DirEntry) (tgt : bytes) (st st' : Extract) :
  runs_privileged = true -> i_mode (we_inode de) = Mode_Lnk -> symlink_target (we_inode de) = Ok tgt ->
  safe_path (x_target st) dir (we_path de) = Ok path -> x_host_to_pfs st !! i_ino (we_inode de) = None ->
  extract_entry dir (Ok de) st = (st', Ok ()) ->
  exists mid t, x_log st' = x_log st ++ (x_target st, E_symlinkat tgt path) ::
                              mid ++ [(t, E_chown path (i_uid (we_inode de)) (i_gid (we_inode de)))] /\
    Forall (fun te => exists key val, te.2 = E_xattr_set path key val) mid.
Proof.
  intros Hpriv Hm Ht Hsp Hnone. unfold extract_entry. cbn [map_err].
  intros (st1 & ? & [= <- <-] & Hr)%X_bind_ok_inv. apply X_bind_ok_inv in Hr as (st2 & ? & [= <- <-] & Hr).
  rewrite Hsp in Hr. apply X_bind_ok_inv in Hr as (st3 & ? & [= <- <-] & Hr).
  apply X_bind_ok_inv in Hr as (st4 & existing & Hg & Hr). unfold get_path in Hg. rewrite Hnone in Hg.
  injection Hg as <- <-. apply X_bind_ok_inv in Hr as (st5 & [] & [= <-] & Hr).
  apply X_bind_ok_inv in Hr as (st6 & is_symlink & Hn & Hr). unfold extract_node in Hn. rewrite Hm, Ht in Hn.
  apply X_bind_ok_inv in Hn as (st7 & ? & [= <- <-] & Hn).
  apply X_bind_ok_inv in Hn as (st8 & [] & Hl%effect_ok_inv & [= <- <-]).
  apply X_bind_ok_inv in Hr as (st9 & [] & (mid & Hmid & Hall)%set_xattrs_ok_log & Hr).
  apply X_bind_ok_inv in Hr as (st10 & [] & [= <-] & Hr). rewrite Hpriv in Hr. apply effect_ok_inv in Hr.
  exists mid, (x_target st9). split; [|done]. rewrite Hr, Hmid, Hl. cbn [x_target x_log]. by rewrite <-!app_assoc.
Qed.

(** Extracting a file writes its content.  For a file entry whose chunks hold [content], the
    operations performed are creating the file at its path and writing exactly [content] to it,
    then the attributes, the permissions and the owner. *)
Theorem extract_file_content (path : Path) (de : DirEntry) (chunks : list FileChunk) (content : bytes) (st : Extract) :
  i_mode (we_inode de) = Mode_File chunks -> file_content (we_oci de) None chunks content ->
  (len content + COPY_BUF_SIZE + len content < 2 ^ 64)%N ->
  (perform (x_target st) (E_create path)).2 = Ok () ->
  (perform (perform (x_target st) (E_create path)).1 (E_write path content)).2 = Ok () ->
  exists t, extract_node de path st
    = (mkExtract _ t (x_host_to_pfs st)
         (x_log st ++ [(x_target st, E_create path);
                       ((perform (x_target st) (E_create path)).1, E_write path content)]), Ok false).
Proof.
  intros Hm Hc Hlen H1 H2. unfold extract_node. rewrite Hm.
  unfold DirEntry_open, FileReader_new.
  rewrite (file_len_content (we_oci de) None (we_inode de) chunks content) by (done || lia). bsimpl.
  rewrite cast_w_small by word_lia. cbn [map_err]. unfold mbind, X_bind, lift, effect. cbn beta iota.
  destruct (perform (x_target st) (E_create path)) as [t1 r1]. cbn in H1, H2. subst r1. cbn [map_err]. cbn beta iota.
  cbn [fr_len]. rewrite (FileReader_copy_spec _ (we_oci de) (we_inode de) chunks content); [|done|done|done|lia|lia|lia].
  rewrite N.sub_0_r, slice_all by lia. cbn [map_err app]. cbn beta iota. cbn [x_target x_log x_host_to_pfs].
  destruct (perform t1 (E_write path content)) as [t2 r2].
  cbn in H2. subst r2. exists t2. cbn. by rewrite <-app_assoc.
Qed.

End extract.
