(* ===== verification/Target.v ===== *)
(** What the operations of an extraction do to the directory they work in: a specification of the
    system calls behind [extractor.rs] on a tree of files, and the laws of a target file system.

    Files are named by the path at which they were made, since an extraction removes nothing; a hard
    link is a second path with the name of the first. *)

From S2P Require Import Prelude Errors RustStd Capnp Format Digest InodeTable Compression Oci Reader Walk Extractor.

(** ** Trees of files *)

Inductive NodeKind :=
| K_dir
| K_file (data : bytes)
| K_fifo
| K_device (kind dev : N)
| K_symlink (dest : bytes).

(** A mode or an owner is known once it has been set. *)
Record Node := mkNode {
  n_kind : NodeKind;
  n_mode : option N;
  n_owner : option (N * N);
  n_xattrs : gmap bytes bytes
}.

Record TargetTree := mkTree {
  t_links : gmap Path Path;   (* the file at a path, by the path it was made at *)
  t_nodes : gmap Path Node
}.

Definition node_at (v : TargetTree) (p : Path) : option Node :=
  match t_links v !! p with Some o => t_nodes v !! o | None => None end.

Definition is_symlink (n : Node) : bool := match n_kind n with K_symlink _ => true | _ => false end.
Definition is_directory (n : Node) : bool := match n_kind n with K_dir => true | _ => false end.

Definition add_node (v : TargetTree) (p : Path) (n : Node) : TargetTree :=
  mkTree (<[p := p]> (t_links v)) (<[p := n]> (t_nodes v)).
Definition add_link (v : TargetTree) (o p : Path) : TargetTree := mkTree (<[p := o]> (t_links v)) (t_nodes v).
Definition set_node (v : TargetTree) (o : Path) (n : Node) : TargetTree := mkTree (t_links v) (<[o := n]> (t_nodes v)).

Definition new_node (k : NodeKind) : Node := mkNode k None None ∅.
Definition with_xattr (n : Node) (key val : bytes) : Node :=
  mkNode (n_kind n) (n_mode n) (n_owner n) (<[key := val]> (n_xattrs n)).

(** chmod(2) takes twelve bits. *)
Definition with_mode (n : Node) (mode : N) : Node :=
  mkNode (n_kind n) (Some (N.land mode 4095)) (n_owner n) (n_xattrs n).

(** chown(2), for any caller: on a file that is not a directory the set-user-ID bit is cleared, the
    set-group-ID bit too if the group may execute the file, and its capabilities are removed. *)
Definition S_ISUID : N := 2048.
Definition S_ISGID : N := 1024.
Definition S_IXGRP : N := 8.
Definition capability : bytes := bstr "security.capability".

Definition mode_after_chown (mode : N) : N :=
  let mode := N.ldiff mode S_ISUID in
  if (N.land mode S_IXGRP =? 0)%N then mode else N.ldiff mode S_ISGID.

Definition with_owner (n : Node) (uid gid : N) : Node :=
  if is_directory n then mkNode (n_kind n) (n_mode n) (Some (uid, gid)) (n_xattrs n)
  else mkNode (n_kind n) (mode_after_chown <$> n_mode n) (Some (uid, gid)) (delete capability (n_xattrs n)).

Section effects.
Context {T : TargetFs}.

(** A process that is not privileged needs the owner's write and search bits of a directory. *)
Definition writable (n : Node) : bool :=
  is_directory n && (runs_privileged || match n_mode n with Some m => (N.land m 192 =? 192)%N | None => true end).

(** A new name: it is not taken, and its directory is there and writable. *)
Definition can_add (v : TargetTree) (p : Path) : bool :=
  bool_decide (t_links v !! p = None) &&
  match path_parent p with
  | Some d => match node_at v d with Some n => writable n | None => false end
  | None => false
  end.

(** xattr(7): user attributes exist on files and directories; the others need privileges. *)
Definition xattr_allowed (n : Node) (key : bytes) : bool :=
  if starts_with (bstr "user.") key then match n_kind n with K_dir | K_file _ => true | _ => false end
  else runs_privileged.

Definition change_node (v : TargetTree) (p : Path) (f : Node -> option Node) : option TargetTree :=
  match t_links v !! p with
  | Some o => match t_nodes v !! o with
              | Some n => set_node v o <$> f n
              | None => None
              end
  | None => None
  end.

(** One operation in the tree below [dir]; [None] where nothing is promised. *)
Definition apply_effect (dir : Path) (v : TargetTree) (e : Effect) : option TargetTree :=
  let make p k := if can_add v p then Some (add_node v p (new_node k)) else None in
  match e with
  | E_create_dir_all p =>
      match node_at v p with
      | Some n => if is_directory n then Some v else None
      | None => if bool_decide (p = dir) then Some (add_node v p (new_node K_dir)) else make p K_dir
      end
  | E_create p => make p (K_file [])
  | E_mkfifo p => make p K_fifo
  | E_mknod p kind dev => if runs_privileged then make p (K_device kind dev) else None
  | E_symlinkat dest p => make p (K_symlink dest)
  | E_hard_link o p =>
      match t_links v !! o, node_at v o with
      | Some o, Some n => if negb (is_directory n) && can_add v p then Some (add_link v o p) else None
      | _, _ => None
      end
  | E_write p data =>
      change_node v p (fun n => match n_kind n with
                                | K_file [] => Some (mkNode (K_file data) (n_mode n) (n_owner n) (n_xattrs n))
                                | _ => None
                                end)
  | E_xattr_set p key val => change_node v p (fun n => if xattr_allowed n key then Some (with_xattr n key val) else None)
  | E_set_permissions p mode => change_node v p (fun n => if is_symlink n then None else Some (with_mode n mode))
  | E_chown p uid gid =>
      change_node v p (fun n => if runs_privileged && negb (is_symlink n) then Some (with_owner n uid gid) else None)
  end.

End effects.

(** ** Laws of a target *)

(** The target hosts a tree below [dir]: [lstat] sees it, and an operation that is specified
    succeeds and leads to a target that hosts the changed tree. *)
Class TargetFsOk (T : TargetFs) (dir : Path) := {
  hosts : target -> TargetTree -> Prop;
  hosts_present t v p n : hosts t v -> node_at v p = Some n ->
    exists md, lstat t p = Ok md /\ md_is_symlink md = is_symlink n;
  hosts_absent t v p d n : hosts t v -> t_links v !! p = None -> path_parent p = Some d ->
    node_at v d = Some n -> is_directory n = true -> exists e, lstat t p = Err e /\ io_kind e = NotFound;
  hosts_perform t v e v' : hosts t v -> apply_effect dir v e = Some v' ->
    exists t', perform t e = (t', Ok ()) /\ hosts t' v'
}.
