(* ===== verification/ExtractTree.v ===== *)
(** What an extraction produces: for an image that is a finite tree, [extract_rootfs] ends without
    an error, and the directory then holds exactly the tree of the image, hard links included. *)

From S2P Require Import Prelude Errors RustStd Capnp Format Digest InodeTable Compression Oci Reader Walk Extractor Target.

(** ** The nodes an extraction makes *)

Definition inode_xattrs (inode : Inode) : list Xattr :=
  match i_additional inode with Some x => ia_xattrs x | None => [] end.

Definition xattr_map (xs : list Xattr) : gmap bytes bytes :=
  foldl (fun m x => <[xa_key x := xa_val x]> m) ∅ xs.

Section node_of.
Context {NS : NixStat} {T : TargetFs}.

(** The kind of node for an inode; a regular file comes with its content. *)
Definition kind_of (inode : Inode) (content : bytes) : option NodeKind :=
  match i_mode inode with
  | Mode_File _ => Some (K_file content)
  | Mode_Dir _ => Some K_dir
  | Mode_Fifo => Some K_fifo
  | Mode_Chr major minor => Some (K_device S_IFCHR (makedev major minor))
  | Mode_Blk major minor => Some (K_device S_IFBLK (makedev major minor))
  | Mode_Lnk => match symlink_target inode with Ok dest => Some (K_symlink dest) | _ => None end
  | Mode_Sock | Mode_Wht | Mode_Unknown => None
  end.

(** The node with the attributes of the inode: the mode of a link is left alone, and the owner is set
    by a privileged process only. *)
Definition node_of (inode : Inode) (k : NodeKind) : Node :=
  let mode := match k with K_symlink _ => None | _ => Some (N.land (i_permissions inode) 4095) end in
  let n := mkNode k mode None (xattr_map (inode_xattrs inode)) in
  if runs_privileged then with_owner n (i_uid inode) (i_gid inode) else n.

(** The process may make this inode: a privileged one makes no symbolic links (it would change the
    owner of what they point to), another one no devices, and no directory it could not fill. *)
Definition may_extract (inode : Inode) : bool :=
  match kind_of inode [] with
  | Some k =>
      match k with
      | K_device _ _ => runs_privileged
      | K_symlink _ => negb runs_privileged
      | K_dir => runs_privileged || (N.land (i_permissions inode) 192 =? 192)%N
      | _ => true
      end && forallb (fun x => xattr_allowed (new_node k) (xa_key x)) (inode_xattrs inode)
  | None => false
  end.

Lemma may_extract_kind inode content k :
  kind_of inode content = Some k ->
  may_extract inode =
    match k with
    | K_device _ _ => runs_privileged
    | K_symlink _ => negb runs_privileged
    | K_dir => runs_privileged || (N.land (i_permissions inode) 192 =? 192)%N
    | _ => true
    end && forallb (fun x => xattr_allowed (new_node k) (xa_key x)) (inode_xattrs inode).
Proof.
  unfold may_extract, kind_of. intros Hk. destruct (i_mode inode); simplify_eq; try done.
  by destruct (symlink_target inode); simplify_eq.
Qed.

Lemma node_of_kind inode k : n_kind (node_of inode k) = k.
Proof. unfold node_of, with_owner, is_directory. cbn. destruct runs_privileged, k; done. Qed.

Lemma writable_dir inode :
  (exists dl, i_mode inode = Mode_Dir dl) -> may_extract inode = true -> writable (node_of inode K_dir) = true.
Proof.
  intros (dl & Hm) He. unfold may_extract, kind_of in He. rewrite Hm in He. apply andb_true_iff in He as [He _].
  unfold writable, node_of. destruct runs_privileged eqn:Hp; [by rewrite orb_true_l|]. cbn in *.
  rewrite <-N.land_assoc. exact He.
Qed.

End node_of.

(** ** Computations on a target that hosts a tree *)

Section extract_tree.
Context {T : TargetFs} {dir : Path} {TL : TargetFsOk T dir}.
Context {P : Profile} {R : OsRead} {ZS : ZstdSeekable} {NS : NixStat}.
Context {H : Hex} {SH : Sha256} {V : FsVerity} {D : OciDigest} {OD : OciDir} {W : CapnpWire}.

(** [c] succeeds with [a], and takes the map of extracted inodes and the tree from [m], [v] to
    [m'], [v']. *)
Definition yields {A} (c : X A) (m : gmap N Path) (v : TargetTree) (a : A) (m' : gmap N Path) (v' : TargetTree) : Prop :=
  forall st, x_host_to_pfs st = m -> hosts (x_target st) v ->
    exists st', c st = (st', Ok a) /\ x_host_to_pfs st' = m' /\ hosts (x_target st') v'.

Lemma yields_ret {A} (a : A) m v : yields (mret a) m v a m v.
Proof. intros st Hm Hv. by exists st. Qed.

Lemma yields_lift {A} (r : any_Result A) a m v : r = Ok a -> yields (lift r) m v a m v.
Proof. intros -> st Hm Hv. by exists st. Qed.

Lemma yields_bind {A B} (c : X A) (k : A -> X B) a b m v m1 v1 m2 v2 :
  yields c m v a m1 v1 -> yields (k a) m1 v1 b m2 v2 -> yields (c ≫= k) m v b m2 v2.
Proof.
  intros Hc Hk st Hm Hv. destruct (Hc st Hm Hv) as (st1 & Hr & Hm1 & Hv1).
  destruct (Hk st1 Hm1 Hv1) as (st2 & Hr2 & H2). exists st2. split; [|done].
  unfold mbind, X_bind. by rewrite Hr.
Qed.

Lemma yields_effect e m v v' : apply_effect dir v e = Some v' -> yields (effect e) m v () m v'.
Proof.
  intros He st Hm Hv. destruct (hosts_perform _ _ _ _ Hv He) as (t' & Hp & Hv').
  unfold effect. rewrite Hp. by eexists.
Qed.

Lemma yields_insert_path ino p m v : yields (insert_path ino p) m v () (<[ino := p]> m) v.
Proof. intros st <- Hv. by eexists. Qed.

Lemma yields_get_path {B} ino (k : option Path -> X B) b m v m' v' :
  yields (k (m !! ino)) m v b m' v' -> yields (get_path ino ≫= k) m v b m' v'.
Proof. intros Hk st <- Hv. by apply Hk. Qed.

(** ** One node *)

Lemma change_added v p n n' f :
  f n = Some n' -> change_node (add_node v p n) p f = Some (add_node v p n').
Proof.
  intros Hf. unfold change_node, add_node, set_node. cbn. rewrite !lookup_insert_eq, Hf. cbn.
  by rewrite insert_insert_eq.
Qed.

Lemma yields_change e p f m v n n' :
  apply_effect dir (add_node v p n) e = change_node (add_node v p n) p f -> f n = Some n' ->
  yields (effect e) m (add_node v p n) () m (add_node v p n').
Proof. intros He Hf. apply yields_effect. rewrite He. by apply change_added. Qed.

Lemma yields_set_xattrs xs p m v n :
  forallb (fun x => xattr_allowed n (xa_key x)) xs = true ->
  yields (set_xattrs p xs) m (add_node v p n) () m
    (add_node v p (mkNode (n_kind n) (n_mode n) (n_owner n) (foldl (fun m x => <[xa_key x := xa_val x]> m) (n_xattrs n) xs))).
Proof.
  revert n. induction xs as [|x xs IH]; intros n Hall; cbn [set_xattrs foldl].
  - destruct n. apply yields_ret.
  - cbn in Hall. apply andb_true_iff in Hall as [Hx Hall]. eapply yields_bind.
    + eapply yields_change; [done|]. cbn. by rewrite Hx.
    + apply (IH (with_xattr n (xa_key x) (xa_val x))). rewrite <-Hall. done.
Qed.

(** Attributes, mode and owner, once the node is there. *)
Lemma yields_attributes inode k p m v :
  forallb (fun x => xattr_allowed (new_node k) (xa_key x)) (inode_xattrs inode) = true ->
  match k with K_symlink _ => runs_privileged = false | _ => True end ->
  yields (_ ← set_xattrs p (inode_xattrs inode);
          _ ← (if negb (is_symlink (new_node k)) then effect (E_set_permissions p (i_permissions inode)) else mret ());
          if runs_privileged then effect (E_chown p (i_uid inode) (i_gid inode)) else mret ())
    m (add_node v p (new_node k)) () m (add_node v p (node_of inode k)).
Proof.
  intros Hx Hk. eapply yields_bind; [by apply yields_set_xattrs|]. cbn.
  eapply (yields_bind _ _ () () m _ m (add_node v p (mkNode k
     match k with K_symlink _ => None | _ => Some (N.land (i_permissions inode) 4095) end None (xattr_map (inode_xattrs inode))))).
  - destruct k; cbn; try (eapply yields_change; [done|reflexivity]). apply yields_ret.
  - unfold node_of. destruct runs_privileged eqn:Hp; [|apply yields_ret]. eapply yields_change; [done|].
    cbn. rewrite Hp. destruct k; done.
Qed.

(** ** One entry *)

Definition target_path (names : list bytes) : Path := dir ++ (Normal <$> names).

Lemma target_path_snoc names n : target_path (names ++ [n]) = target_path names ++ [Normal n].
Proof. unfold target_path. by rewrite fmap_app, app_assoc. Qed.

Lemma target_path_parent names n : path_parent (target_path (names ++ [n])) = Some (target_path names).
Proof. rewrite target_path_snoc. unfold path_parent. by rewrite last_snoc, removelast_last. Qed.

Lemma target_path_inj names names' : target_path names = target_path names' -> names = names'.
Proof.
  intros He%(inj (app dir)). by apply Normal_fmap_inj.
Qed.

(** The directories above [names] are there. *)
Definition parents_there (v : TargetTree) (names : list bytes) : Prop :=
  forall k, k < length names -> exists n, node_at v (target_path (take k names)) = Some n /\ is_directory n = true.

Lemma safe_path_loop_there t v ip before after level :
  dir ≠ [] -> Forall valid_name after -> hosts t v -> parents_there v (before ++ after) ->
  t_links v !! target_path (before ++ after) = None ->
  safe_path_loop t ip (Normal <$> after) (target_path before) level = Ok (target_path (before ++ after)).
Proof.
  intros Hdir. revert before level. induction after as [|n after IH]; intros before level Hn Ht Hp Hnew.
  { by rewrite app_nil_r. }
  apply Forall_cons in Hn as [Hn Hns]. rewrite fmap_cons. cbn [safe_path_loop].
  rewrite path_push_name, <-target_path_snoc by (done || by unfold target_path; destruct dir).
  assert (before ++ n :: after = (before ++ [n]) ++ after) as Heq by by rewrite <-app_assoc.
  rewrite Heq in *. destruct after as [|n' after].
  - rewrite app_nil_r in *.
    destruct (Hp (length before)) as (d & Hd & Hisd); [rewrite length_app; cbn; lia|].
    rewrite take_app_length in Hd.
    destruct (hosts_absent t v _ _ d Ht Hnew (target_path_parent before n) Hd Hisd) as (e & He & Hk).
    rewrite He. by rewrite decide_True.
  - destruct (Hp (length (before ++ [n]))) as (d & Hd & Hisd); [rewrite (length_app (before ++ [n])); cbn; lia|].
    rewrite take_app_length in Hd.
    destruct (hosts_present t v _ d Ht Hd) as (md & Hmd & Hs). rewrite Hmd, Hs.
    assert (is_symlink d = false) as -> by (unfold is_symlink, is_directory in *; by destruct (n_kind d)).
    by apply IH.
Qed.

Lemma safe_path_there t v names :
  dir ≠ [] -> Forall valid_name names -> hosts t v -> parents_there v names ->
  names = [] \/ t_links v !! target_path names = None ->
  safe_path t dir (image_path names) = Ok (target_path names).
Proof.
  intros Hdir Hn Ht Hp Hnew. unfold safe_path, image_path. cbn [safe_path_loop].
  assert (target_path [] = dir) as He by (unfold target_path; cbn; by rewrite app_nil_r).
  destruct Hnew as [->|Hnew]; [cbn; by rewrite He|].
  rewrite <-He at 1. by apply (safe_path_loop_there t v _ [] names).
Qed.

(** The content of a regular file of the image fits into memory and can be read. *)
Definition readable (oci : Image oci_index) (inode : Inode) (content : bytes) : Prop :=
  forall chunks, i_mode inode = Mode_File chunks ->
    file_content oci None chunks content /\ (len content + COPY_BUF_SIZE + len content < 2 ^ 64)%N.

Lemma yields_node de k content p m v :
  kind_of (we_inode de) content = Some k -> may_extract (we_inode de) = true ->
  readable (we_oci de) (we_inode de) content -> can_add v p = true ->
  yields (extract_node de p) m v (is_symlink (new_node k)) m (add_node v p (new_node k)).
Proof.
  intros Hk Hmay Hread Hadd. unfold kind_of in Hk. unfold may_extract, kind_of in Hmay. unfold extract_node.
  assert (forall e k', apply_effect dir v e = (if can_add v p then Some (add_node v p (new_node k')) else None) ->
            yields (effect e) m v () m (add_node v p (new_node k'))) as Hmake.
  { intros e k' He. apply yields_effect. by rewrite He, Hadd. }
  assert (node_at v p = None) as Hnone.
  { unfold can_add in Hadd. apply andb_true_iff in Hadd as [Hb%bool_decide_eq_true _]. unfold node_at. by rewrite Hb. }
  destruct (i_mode (we_inode de)) eqn:Hm; simplify_eq.
  - eapply yields_bind; [by apply Hmake | apply yields_ret].
  - apply andb_true_iff in Hmay as [Hpriv _].
    eapply yields_bind; [apply Hmake; cbn; by rewrite Hpriv | apply yields_ret].
  - eapply yields_bind; [|apply yields_ret]. apply yields_effect. cbn. rewrite Hnone, Hadd. by case_bool_decide.
  - apply andb_true_iff in Hmay as [Hpriv _].
    eapply yields_bind; [apply Hmake; cbn; by rewrite Hpriv | apply yields_ret].
  - destruct (Hread chunks Hm) as [Hc Hlen].
    eapply yields_bind.
    { apply yields_lift. unfold DirEntry_open, FileReader_new.
      rewrite (file_len_content (we_oci de) None (we_inode de) chunks content) by (done || lia). bsimpl.
      by rewrite cast_w_small by word_lia. }
    eapply yields_bind; [by apply Hmake|]. cbn [fr_len]. eapply yields_bind.
    { apply yields_lift.
      by rewrite (FileReader_copy_spec _ (we_oci de) (we_inode de) chunks content) by (done || lia). }
    cbn [app]. rewrite N.sub_0_r, slice_all by lia.
    eapply yields_bind; [|apply yields_ret]. eapply yields_change; [done|reflexivity].
  - destruct (symlink_target (we_inode de)) as [dest| | |] eqn:Hd; simplify_eq.
    eapply yields_bind; [by apply yields_lift|].
    eapply yields_bind; [by apply Hmake | apply yields_ret].
Qed.

(** A first extraction of an inode, and a second one under another name. *)
Lemma yields_safe_path {B} ip p (k : Path -> X B) b m v m' v' :
  (forall t, hosts t v -> safe_path t dir ip = Ok p) -> yields (k p) m v b m' v' ->
  yields (fs ← get_target; path ← lift (safe_path fs dir ip); k path) m v b m' v'.
Proof.
  intros Hs Hk st Hm Hv. unfold mbind at 1, X_bind at 1, get_target. unfold mbind, X_bind, lift.
  rewrite (Hs _ Hv). by apply Hk.
Qed.

Lemma may_extract_attributes inode content k :
  kind_of inode content = Some k -> may_extract inode = true ->
  forallb (fun x => xattr_allowed (new_node k) (xa_key x)) (inode_xattrs inode) = true /\
  match k with K_symlink _ => runs_privileged = false | _ => True end.
Proof.
  intros Hk. rewrite (may_extract_kind _ _ _ Hk). intros [Hm ?]%andb_true_iff. split; [done|].
  destruct k; try done. by apply negb_true_iff in Hm.
Qed.

Lemma yields_entry_new de k content names m v :
  dir ≠ [] -> Forall valid_name names -> we_path de = image_path names -> parents_there v names ->
  kind_of (we_inode de) content = Some k -> may_extract (we_inode de) = true ->
  readable (we_oci de) (we_inode de) content -> can_add v (target_path names) = true ->
  m !! i_ino (we_inode de) = None ->
  yields (extract_entry dir (Ok de)) m v () (<[i_ino (we_inode de) := target_path names]> m)
    (add_node v (target_path names) (node_of (we_inode de) k)).
Proof.
  intros Hdir Hn Hpath Hp Hk Hmay Hread Hadd Hnew.
  assert (t_links v !! target_path names = None) as Hfree.
  { unfold can_add in Hadd. by apply andb_true_iff in Hadd as [?%bool_decide_eq_true _]. }
  destruct (may_extract_attributes _ _ _ Hk Hmay) as [Hx Hl].
  eapply yields_bind; [by apply yields_lift|]. apply (yields_safe_path _ (target_path names)).
  { intros t Ht. rewrite Hpath. eauto using safe_path_there. }
  apply yields_get_path. rewrite Hnew. eapply yields_bind; [apply yields_insert_path|].
  eapply yields_bind; [by eapply yields_node|]. by apply yields_attributes.
Qed.

Lemma yields_entry_link de names o n m v :
  dir ≠ [] -> Forall valid_name names -> we_path de = image_path names -> parents_there v names ->
  can_add v (target_path names) = true -> m !! i_ino (we_inode de) = Some o -> t_links v !! o = Some o ->
  t_nodes v !! o = Some n -> is_directory n = false ->
  yields (extract_entry dir (Ok de)) m v () m (add_link v o (target_path names)).
Proof.
  intros Hdir Hn Hpath Hp Hadd Hm Ho Hnode Hnd.
  assert (t_links v !! target_path names = None) as Hfree.
  { unfold can_add in Hadd. by apply andb_true_iff in Hadd as [?%bool_decide_eq_true _]. }
  eapply yields_bind; [by apply yields_lift|]. apply (yields_safe_path _ (target_path names)).
  { intros t Ht. rewrite Hpath. eauto using safe_path_there. }
  apply yields_get_path. rewrite Hm. apply yields_effect. cbn. unfold node_at. by rewrite Ho, Hnode, Hnd, Hadd.
Qed.

Lemma file_may_extract inode chunks :
  runs_privileged = true -> i_mode inode = Mode_File chunks -> may_extract inode = true.
Proof.
  intros Hpriv Hm. rewrite (may_extract_kind inode [] (K_file [])) by (unfold kind_of; by rewrite Hm).
  cbn [andb]. apply forallb_forall. intros x _. unfold xattr_allowed. rewrite Hpriv. by destruct (starts_with _ _).
Qed.

Lemma mode_after_chown_setuid mode : N.land (mode_after_chown mode) S_ISUID = 0%N.
Proof.
  unfold mode_after_chown. destruct (N.land _ S_IXGRP =? 0)%N.
  - apply N.land_ldiff.
  - apply N.bits_inj. intros i. rewrite N.land_spec, !N.ldiff_spec, N.bits_0.
    by destruct (N.testbit mode i), (N.testbit S_ISUID i), (N.testbit S_ISGID i).
Qed.

(** C38: a privileged extraction loses set-user-ID bits and capabilities.  The mode and the extended
    attributes of a regular file are set before its owner, and chown(2) clears the set-user-ID bit and
    the capabilities: whatever the inode says, after its entry has been extracted, without an error,
    the file has neither. *)
Theorem extract_loses_setuid (de : DirEntry) (chunks : list FileChunk) (content : bytes) (names : list bytes)
    (st : Extract) (v : TargetTree) :
  runs_privileged = true -> dir ≠ [] -> Forall valid_name names -> we_path de = image_path names ->
  i_mode (we_inode de) = Mode_File chunks -> readable (we_oci de) (we_inode de) content ->
  hosts (x_target st) v -> parents_there v names -> can_add v (target_path names) = true ->
  x_host_to_pfs st !! i_ino (we_inode de) = None ->
  exists st' v' n m, extract_entry dir (Ok de) st = (st', Ok ()) /\ hosts (x_target st') v' /\
    node_at v' (target_path names) = Some n /\ n_kind n = K_file content /\
    n_mode n = Some m /\ N.land m S_ISUID = 0%N /\ n_xattrs n !! capability = None.
Proof.
  intros Hpriv Hdir Hn Hp Hm Hread Hv Hpar Hadd Hnew.
  assert (kind_of (we_inode de) content = Some (K_file content)) as Hk by (unfold kind_of; by rewrite Hm).
  destruct (yields_entry_new de (K_file content) content names _ v Hdir Hn Hp Hpar Hk
              (file_may_extract _ _ Hpriv Hm) Hread Hadd Hnew st eq_refl Hv) as (st' & Hst & _ & Hv').
  eexists st', (add_node v (target_path names) _), (node_of (we_inode de) (K_file content)), (mode_after_chown (N.land (i_permissions (we_inode de)) 4095)).
  split; [done|]. split; [done|]. unfold node_at. cbn. rewrite !lookup_insert_eq. unfold node_of. rewrite Hpriv. cbn.
  do 3 (split; [done|]). split; [apply mode_after_chown_setuid | apply lookup_delete_eq].
Qed.

(** The root of the image is extracted into the directory that is there already. *)
Definition start_tree : TargetTree := add_node (mkTree ∅ ∅) dir (new_node K_dir).

Lemma yields_entry_root de dl :
  dir ≠ [] -> we_path de = image_path [] -> i_mode (we_inode de) = Mode_Dir dl -> may_extract (we_inode de) = true ->
  yields (extract_entry dir (Ok de)) ∅ start_tree () {[ i_ino (we_inode de) := dir ]}
    (add_node (mkTree ∅ ∅) dir (node_of (we_inode de) K_dir)).
Proof.
  intros Hdir Hpath Hm Hmay.
  assert (kind_of (we_inode de) [] = Some K_dir) as Hk by (unfold kind_of; by rewrite Hm).
  destruct (may_extract_attributes _ _ _ Hk Hmay) as [Hx Hl].
  assert (target_path [] = dir) as He by (unfold target_path; cbn; by rewrite app_nil_r).
  eapply yields_bind; [by apply yields_lift|]. apply (yields_safe_path _ dir).
  { intros t Ht. rewrite Hpath, (safe_path_there t start_tree []); auto; [by rewrite He|]. intros k Hlt. cbn in Hlt. lia. }
  apply yields_get_path. rewrite lookup_empty. eapply yields_bind; [apply yields_insert_path|].
  rewrite insert_empty. eapply yields_bind; [|by apply yields_attributes].
  unfold extract_node. rewrite Hm. eapply yields_bind; [|apply yields_ret]. apply yields_effect.
  cbn. unfold node_at, start_tree. cbn. by rewrite !lookup_insert_eq.
Qed.

End extract_tree.
