(* ===== verification/ExtractImage.v ===== *)
(** Extracting an image as a whole: the walk and the tree made so far, step by step. *)

From S2P Require Import Prelude Errors RustStd Capnp Format Digest InodeTable Compression Oci Reader Walk Extractor Target ExtractTree.

Section extract_image.
Context {T : TargetFs} {dir : Path} {TL : TargetFsOk T dir}.
Context {P : Profile} {R : OsRead} {ZS : ZstdSeekable} {NS : NixStat}.
Context {H : Hex} {SH : Sha256} {V : FsVerity} {D : OciDigest} {OD : OciDir} {W : CapnpWire}.

Abbreviation target_path := (target_path (dir := dir)).

(** All of a file, in one read. *)
Definition read_all (oci : Image oci_index) (inode : Inode) : bytes :=
  match file_len inode with
  | Ok n => match file_read oci inode 0 (replicate (N.to_nat n) x00) None with Ok (data, _) => data | _ => [] end
  | _ => []
  end.

Lemma read_all_content oci inode chunks content :
  i_mode inode = Mode_File chunks -> file_content oci None chunks content -> (len content < 2 ^ 63)%N ->
  read_all oci inode = content.
Proof.
  intros Hm Hc Hlen. unfold read_all. rewrite (file_len_content oci None inode chunks content) by (done || lia).
  assert (len (replicate (N.to_nat (len content)) x00) = len content) as Hrep by (unfold len; rewrite length_replicate; lia).
  rewrite (file_read_spec oci None inode chunks content) by (done || lia).
  rewrite Hrep, slice_all by lia. by apply splice_full.
Qed.

(** An image that can be extracted: its paths are those of a finite tree, every inode in it may be
    made and read, and no directory has two paths. *)
Record extractable (pfs : PuzzleFS) : Prop := {
  xt_addressable names inode dl : PuzzleFS_lookup pfs (image_path names) = Ok (Some inode) -> i_mode inode = Mode_Dir dl ->
    Forall valid_name (de_name <$> dl_entries dl) /\ NoDup (de_name <$> dl_entries dl);
  xt_finite : exists root dl ls, PuzzleFS_find_inode pfs 1 = Ok root /\ i_mode root = Mode_Dir dl /\
                levels pfs [mkDirEntry (pfs_oci pfs) (image_path []) root] ls;
  xt_inode names inode : PuzzleFS_lookup pfs (image_path names) = Ok (Some inode) ->
    may_extract inode = true /\ readable (pfs_oci pfs) inode (read_all (pfs_oci pfs) inode);
  xt_dirs names names' inode inode' dl :
    PuzzleFS_lookup pfs (image_path names) = Ok (Some inode) -> PuzzleFS_lookup pfs (image_path names') = Ok (Some inode') ->
    i_ino inode = i_ino inode' -> i_mode inode = Mode_Dir dl -> names = names'
}.

Section run.
Context (pfs : PuzzleFS) (HX : extractable pfs) (Hdir : dir ≠ []).

Abbreviation content := (read_all (pfs_oci pfs)).

(** ** The walk *)

Definition entry_at (names : list bytes) (e : DirEntry) : Prop :=
  we_path e = image_path names /\ Forall valid_name names /\ genuine pfs e.

Record walk_state (done q : list DirEntry) : Prop := {
  ws_entry e : e ∈ done ++ q -> exists names, entry_at names e;
  ws_nodup : NoDup (we_path <$> done ++ q);
  ws_parent e names n : e ∈ done ++ q -> we_path e = image_path (names ++ [n]) ->
    exists d dl, d ∈ done /\ we_path d = image_path names /\ i_mode (we_inode d) = Mode_Dir dl;
  ws_closed d ch : d ∈ done -> children pfs d = Ok ch -> ch ⊆ done ++ q
}.

Lemma child_path names de dl e :
  entry_at names de -> i_mode (we_inode de) = Mode_Dir dl -> e ∈ dl_entries dl ->
  valid_name (de_name e) /\ path_join (we_path de) (de_name e) = image_path (names ++ [de_name e]).
Proof.
  intros (Hpath & _ & Hl & _) Hm He. rewrite Hpath in Hl. destruct (xt_addressable _ HX names _ dl Hl Hm) as [Hnames _].
  rewrite Forall_forall in Hnames. pose proof (Hnames _ (list_elem_of_fmap_2 _ _ _ He)).
  by rewrite Hpath, path_join_name, image_path_snoc.
Qed.

(** The children of an entry: one for each name, below its path. *)
Lemma children_entries de ch names c :
  entry_at names de -> children pfs de = Ok ch -> c ∈ ch ->
  exists n dl, i_mode (we_inode de) = Mode_Dir dl /\ we_path c = image_path (names ++ [n]) /\ entry_at (names ++ [n]) c.
Proof.
  intros Hat Hch Hc. unfold children in Hch.
  destruct (i_mode (we_inode de)) as [| | |dl| | | | |] eqn:Hm; try (injection Hch as <-; by apply not_elem_of_nil in Hc).
  apply mapM_ok_inv in Hch. apply list_elem_of_lookup in Hc as (i & Hi).
  destruct (Forall2_lookup_r _ _ _ _ _ Hch Hi) as (e & He & (child & Hchild & Hr)%bind_ok_inv).
  apply list_elem_of_lookup_2 in He. injection Hr as <-. destruct (child_path _ _ _ _ Hat Hm He) as [Hv Hp].
  destruct Hat as (Hpath & Hvalid & Hgen). pose proof Hgen as (Hl & _). rewrite Hpath in Hl.
  destruct (xt_addressable _ HX names _ dl Hl Hm) as [Hnames Hnd].
  exists (de_name e), dl. do 3 (split; [done|]). split; [by apply Forall_app_2; [|constructor]|].
  eapply genuine_child; eauto.
Qed.

Lemma children_nodup de ch names : entry_at names de -> children pfs de = Ok ch -> NoDup (we_path <$> ch).
Proof.
  intros (Hpath & Hvalid & Hlook & (ino & Hino) & Hoci) Hch. unfold children in Hch.
  destruct (i_mode (we_inode de)) as [| | |dl| | | | |] eqn:Hm; try (injection Hch as <-; by constructor).
  rewrite Hpath in Hlook. destruct (xt_addressable _ HX names _ dl Hlook Hm) as [Hnames Hnd].
  apply mapM_ok_inv in Hch. revert Hnames Hnd.
  induction Hch as [|e c es cs (child & _ & Hr)%bind_ok_inv Hall IH]; intros Hv Hnd; csimpl; [constructor|].
  injection Hr as <-. csimpl in Hv. csimpl in Hnd. apply Forall_cons in Hv as [Hv Hvs]. apply NoDup_cons in Hnd as [Hnew Hnd].
  constructor; [|by apply IH]. intros (c' & Heq & Hc')%list_elem_of_fmap. apply Hnew.
  apply list_elem_of_lookup in Hc' as (i & Hi).
  destruct (Forall2_lookup_r _ _ _ _ _ Hall Hi) as (e' & He' & (ch' & _ & Hr)%bind_ok_inv). injection Hr as <-.
  apply list_elem_of_lookup_2 in He'. cbn in Heq. rewrite Forall_forall in Hvs.
  rewrite !path_join_name in Heq; [|by rewrite Hpath|apply Hvs; by apply list_elem_of_fmap_2|by rewrite Hpath|done].
  apply app_inj_2 in Heq as [_ [= ->]]; [|done]. by apply list_elem_of_fmap_2.
Qed.

Lemma walk_state_step done de q ch :
  walk_state done (de :: q) -> children pfs de = Ok ch -> walk_state (done ++ [de]) (q ++ ch).
Proof.
  intros Hw Hch.
  assert (de ∈ done ++ de :: q) as Hde by set_solver.
  destruct (ws_entry _ _ Hw de Hde) as (names & Hat).
  assert ((done ++ [de]) ++ q ++ ch = (done ++ de :: q) ++ ch) as Heq by (by rewrite <-!app_assoc).
  split; rewrite ?Heq.
  - intros e [He|He]%elem_of_app; [by eapply ws_entry|].
    destruct (children_entries _ _ _ _ Hat Hch He) as (n & dl & _ & _ & ?). eauto.
  - rewrite fmap_app. apply NoDup_app. split; [by eapply ws_nodup|]. split; [|by eapply children_nodup].
    intros p (e & -> & He)%list_elem_of_fmap (c & Hp & Hc)%list_elem_of_fmap.
    destruct (children_entries _ _ _ _ Hat Hch Hc) as (n & dl & _ & Hpath & _). rewrite Hpath in Hp.
    destruct (ws_parent _ _ Hw e names n He Hp) as (d & _ & Hd & Hdp & _).
    pose proof (ws_nodup _ _ Hw) as Hnd. rewrite fmap_app in Hnd. apply NoDup_app in Hnd as (_ & Hdisj & _).
    apply (Hdisj (we_path de)); [|by left]. destruct Hat as (-> & _). rewrite <-Hdp. by apply list_elem_of_fmap_2.
  - intros e names' n He Hp. apply elem_of_app in He as [He|He].
    + destruct (ws_parent _ _ Hw e names' n He Hp) as (d & dl & Hd & ?). exists d, dl. set_solver.
    + destruct (children_entries _ _ _ _ Hat Hch He) as (n' & dl & Hdl & Hpath & _). rewrite Hpath in Hp.
      apply image_path_inj, app_inj_2 in Hp as [<- _]; [|done]. exists de, dl. destruct Hat as (Hp & _).
      split; [set_solver|]. done.
  - intros d ch' [Hd|Hd%list_elem_of_singleton]%elem_of_app Hch'.
    + etransitivity; [by eapply ws_closed|]. by apply list_subseteq_app_l.
    + subst d. assert (ch' = ch) as -> by congruence. by apply list_subseteq_app_r.
Qed.

(** All directories above an entry have been visited. *)
Lemma walk_parents done q e names k :
  walk_state done q -> e ∈ done ++ q -> we_path e = image_path names -> k < length names ->
  exists d dl, d ∈ done /\ we_path d = image_path (take k names) /\ i_mode (we_inode d) = Mode_Dir dl.
Proof.
  intros Hw. revert e. induction names as [|n names IH] using rev_ind; intros e He Hp Hk; [cbn in Hk; lia|].
  rewrite length_app in Hk. cbn in Hk.
  destruct (ws_parent _ _ Hw e names n He Hp) as (d & dl & Hd & Hdp & Hdl).
  destruct (decide (k = length names)) as [->|Hne].
  - rewrite take_app_length. eauto.
  - rewrite take_app_le by lia. apply (IH d); [set_solver|done|lia].
Qed.

(** When the queue is empty, every path of the image has been visited. *)
Lemma walk_complete done names inode :
  walk_state done [] -> (forall e, e ∈ done -> exists ch, children pfs e = Ok ch) ->
  (exists e, e ∈ done /\ we_path e = image_path []) ->
  PuzzleFS_lookup pfs (image_path names) = Ok (Some inode) ->
  exists e, e ∈ done /\ we_path e = image_path names /\ we_inode e = inode.
Proof.
  intros Hw Hch (r & Hr & Hrp). revert inode. induction names as [|n names IH] using rev_ind; intros inode Hl.
  - exists r. do 2 (split; [done|]). destruct (ws_entry _ _ Hw r) as (names & _ & _ & Hg & _); [set_solver|].
    rewrite Hrp, Hl in Hg. congruence.
  - destruct (lookup_snoc _ _ _ _ Hl) as (d & dl & e & Hd & Hm & He & <- & Hf).
    destruct (IH _ Hd) as (de & Hde & Hp & <-). destruct (Hch de Hde) as (ch & Hok).
    pose proof (ws_closed _ _ Hw de ch Hde Hok) as Hsub. rewrite app_nil_r in Hsub.
    assert (exists c, child_entry pfs de e = Ok c /\ c ∈ ch) as (c & Hc & Hin).
    { unfold children in Hok. rewrite Hm in Hok. apply mapM_ok_inv in Hok.
      apply list_elem_of_lookup in He as (i & Hi). destruct (Forall2_lookup_l _ _ _ _ _ Hok Hi) as (c & Hci & Hc).
      exists c. split; [done|]. by eapply list_elem_of_lookup_2. }
    unfold child_entry in Hc. rewrite Hf in Hc. injection Hc as <-.
    exists (mkDirEntry (pfs_oci pfs) (path_join (we_path de) (de_name e)) inode). split; [by apply Hsub|]. split; [|done]. cbn.
    destruct (ws_entry _ _ Hw de) as (names' & Hat); [set_solver|].
    destruct (child_path _ _ _ _ Hat Hm He) as [_ ->]. destruct Hat as (Hp' & _).
    rewrite Hp in Hp'. by apply image_path_inj in Hp' as <-.
Qed.

(** ** The tree made so far *)

Definition node_for (inode : Inode) : option Node := node_of inode <$> kind_of inode (content inode).

Record placed (m : gmap N Path) (v : TargetTree) (done : list DirEntry) : Prop := {
  pl_links p o : t_links v !! p = Some o <->
    exists e names, e ∈ done /\ we_path e = image_path names /\ p = target_path names /\
      m !! i_ino (we_inode e) = Some o;
  pl_first n o : m !! n = Some o ->
    exists e names, e ∈ done /\ we_path e = image_path names /\ o = target_path names /\
      i_ino (we_inode e) = n /\ t_nodes v !! o = node_for (we_inode e);
  pl_all e : e ∈ done -> is_Some (m !! i_ino (we_inode e))
}.

Lemma genuine_same e e' : genuine pfs e -> genuine pfs e' -> i_ino (we_inode e) = i_ino (we_inode e') -> we_inode e = we_inode e'.
Proof.
  intros (_ & (n & Hn) & _) (_ & (n' & Hn') & _) Heq.
  pose proof (RootfsReader_find_inode_number _ _ _ Hn). pose proof (RootfsReader_find_inode_number _ _ _ Hn'). congruence.
Qed.

Lemma entry_extractable done q e :
  walk_state done q -> e ∈ done ++ q ->
  may_extract (we_inode e) = true /\ readable (we_oci e) (we_inode e) (content (we_inode e)) /\
  exists k, kind_of (we_inode e) (content (we_inode e)) = Some k.
Proof.
  intros Hw He. destruct (ws_entry _ _ Hw e He) as (names & Hp & _ & Hl & _ & ->). rewrite Hp in Hl.
  destruct (xt_inode _ HX _ _ Hl) as [Hmay Hread]. do 2 (split; [done|]).
  unfold may_extract, kind_of in *. destruct (i_mode (we_inode e)); try done; eauto.
  destruct (symlink_target (we_inode e)); eauto; done.
Qed.

Lemma placed_node m v done q e names :
  placed m v done -> walk_state done q -> e ∈ done -> we_path e = image_path names ->
  exists o, t_links v !! target_path names = Some o /\ t_nodes v !! o = node_for (we_inode e).
Proof.
  intros Hpl Hw He Hp. destruct (pl_all _ _ _ Hpl e He) as (o & Ho). exists o. split.
  - apply (pl_links _ _ _ Hpl). eauto 10.
  - destruct (pl_first _ _ _ Hpl _ _ Ho) as (e' & names' & He' & _ & _ & Hino & ->). f_equal.
    destruct (ws_entry _ _ Hw e) as (? & _ & _ & Hg); [set_solver|].
    destruct (ws_entry _ _ Hw e') as (? & _ & _ & Hg'); [set_solver|]. by apply genuine_same.
Qed.

Lemma placed_dir m v done q d dl names :
  placed m v done -> walk_state done q -> d ∈ done -> we_path d = image_path names -> i_mode (we_inode d) = Mode_Dir dl ->
  exists n, node_at v (target_path names) = Some n /\ writable n = true /\ is_directory n = true.
Proof.
  intros Hpl Hw Hd Hp Hm. destruct (placed_node _ _ _ _ _ _ Hpl Hw Hd Hp) as (o & Ho & Hn).
  destruct (entry_extractable _ _ d Hw) as (Hmay & _); [set_solver|].
  exists (node_of (we_inode d) K_dir). unfold node_at. rewrite Ho, Hn. unfold node_for, kind_of. rewrite Hm.
  split; [done|]. split; [|unfold is_directory; by rewrite node_of_kind]. apply writable_dir; eauto.
Qed.

(** The next entry can be placed. *)
Lemma next_can_add m v done de q names :
  placed m v done -> walk_state done (de :: q) -> (exists e, e ∈ done /\ we_path e = image_path []) ->
  we_path de = image_path names ->
  parents_there (dir := dir) v names /\ can_add v (target_path names) = true.
Proof.
  intros Hpl Hw (r & Hr & Hrp) Hp.
  assert (de ∈ done ++ de :: q) as Hde by set_solver.
  assert (forall e, e ∈ done -> we_path e ≠ image_path names) as Hnew.
  { intros e He Heq. pose proof (ws_nodup _ _ Hw) as Hnd. rewrite fmap_app in Hnd. apply NoDup_app in Hnd as (_ & Hdisj & _).
    apply (Hdisj (we_path e)); [by apply list_elem_of_fmap_2|]. rewrite Heq, <-Hp. by left. }
  split.
  - intros k Hk. destruct (walk_parents _ _ _ _ k Hw Hde Hp Hk) as (d & dl & Hd & Hdp & Hdl).
    destruct (placed_dir _ _ _ _ _ _ _ Hpl Hw Hd Hdp Hdl) as (n & ? & _ & ?). eauto.
  - unfold can_add. rewrite bool_decide_true; cbn [andb].
    + destruct names as [|n names _] using rev_ind; [by destruct (Hnew r)|]. rewrite target_path_parent.
      destruct (ws_parent _ _ Hw de names n Hde Hp) as (d & dl & Hd & Hdp & Hdl).
      by destruct (placed_dir _ _ _ _ _ _ _ Hpl Hw Hd Hdp Hdl) as (nd & -> & ? & _).
    + destruct (t_links v !! target_path names) as [o|] eqn:Ho; [|done].
      apply (pl_links _ _ _ Hpl) in Ho as (e & names' & He & Hpe & Heq & _).
      apply target_path_inj in Heq as <-. by destruct (Hnew e).
Qed.

Lemma placed_add m v done e names n :
  placed m v done -> t_links v !! target_path names = None -> we_path e = image_path names ->
  m !! i_ino (we_inode e) = None -> node_for (we_inode e) = Some n ->
  placed (<[i_ino (we_inode e) := target_path names]> m) (add_node v (target_path names) n) (done ++ [e]).
Proof.
  intros Hpl Hfree Hp Hm Hn.
  assert (forall e', e' ∈ done -> i_ino (we_inode e') ≠ i_ino (we_inode e)) as Hne.
  { intros e' [o Ho]%(pl_all _ _ _ Hpl) Heq. congruence. }
  split.
  - intros p o. cbn [t_links add_node]. split.
    + intros [[<- <-]|[Hpne Hl]]%lookup_insert_Some.
      { exists e, names. rewrite lookup_insert_eq. set_solver. }
      apply (pl_links _ _ _ Hpl) in Hl as (e' & names' & He' & Hp' & -> & Ho). exists e', names'.
      rewrite lookup_insert_ne by (symmetry; by apply Hne). set_solver.
    + intros (e' & names' & [He'|He'%list_elem_of_singleton]%elem_of_app & Hp' & -> & Ho).
      * rewrite lookup_insert_ne in Ho by (symmetry; by apply Hne).
        assert (t_links v !! target_path names' = Some o) as Hl by (apply (pl_links _ _ _ Hpl); eauto 10).
        rewrite lookup_insert_ne; [done|]. intros Heq. rewrite Heq, Hl in Hfree. done.
      * subst e'. rewrite Hp in Hp'. apply image_path_inj in Hp' as <-. rewrite lookup_insert_eq in Ho. by rewrite lookup_insert_eq.
  - intros n' o [[<- <-]|[Hnne Ho]]%lookup_insert_Some; cbn [t_nodes add_node].
    + exists e, names. rewrite lookup_insert_eq. set_solver.
    + destruct (pl_first _ _ _ Hpl _ _ Ho) as (e' & names' & He' & Hp' & -> & <- & Hnode). exists e', names'.
      rewrite lookup_insert_ne; [set_solver|]. intros Heq. rewrite Heq in Hfree.
      assert (t_links v !! target_path names' = Some (target_path names')) as Hl by (apply (pl_links _ _ _ Hpl); eauto 10).
      congruence.
  - intros e' [He'|He'%list_elem_of_singleton]%elem_of_app.
    + rewrite lookup_insert_ne by (symmetry; by apply Hne). by apply (pl_all _ _ _ Hpl).
    + subst e'. rewrite lookup_insert_eq. eauto.
Qed.

Lemma placed_link m v done e names o :
  placed m v done -> t_links v !! target_path names = None -> we_path e = image_path names ->
  m !! i_ino (we_inode e) = Some o -> placed m (add_link v o (target_path names)) (done ++ [e]).
Proof.
  intros Hpl Hfree Hp Hm. split.
  - intros p o'. cbn [t_links add_link]. split.
    + intros [[<- <-]|[Hpne Hl]]%lookup_insert_Some.
      { exists e, names. set_solver. }
      apply (pl_links _ _ _ Hpl) in Hl as (e' & names' & He' & Hp' & -> & Ho). exists e', names'. set_solver.
    + intros (e' & names' & [He'|He'%list_elem_of_singleton]%elem_of_app & Hp' & -> & Ho).
      * assert (t_links v !! target_path names' = Some o') as Hl by (apply (pl_links _ _ _ Hpl); eauto 10).
        rewrite lookup_insert_ne; [done|]. intros Heq. rewrite Heq, Hl in Hfree. done.
      * subst e'. rewrite Hp in Hp'. apply image_path_inj in Hp' as <-. rewrite lookup_insert_eq. congruence.
  - intros n' o' Ho. destruct (pl_first _ _ _ Hpl _ _ Ho) as (e' & names' & He' & Hr). exists e', names'. set_solver.
  - intros e' [He'|He'%list_elem_of_singleton]%elem_of_app; [by apply (pl_all _ _ _ Hpl)|]. subst e'. eauto.
Qed.

Lemma extract_step m v done de q :
  placed m v done -> walk_state done (de :: q) -> (exists e, e ∈ done /\ we_path e = image_path []) ->
  exists m' v', yields (dir := dir) (extract_entry dir (Ok de)) m v () m' v' /\ placed m' v' (done ++ [de]).
Proof.
  intros Hpl Hw Hr. assert (de ∈ done ++ de :: q) as Hde by set_solver.
  destruct (ws_entry _ _ Hw de Hde) as (names & Hp & Hvalid & Hg).
  destruct (entry_extractable _ _ de Hw Hde) as (Hmay & Hread & k & Hk).
  destruct (next_can_add _ _ _ _ _ _ Hpl Hw Hr Hp) as [Hpar Hadd].
  assert (t_links v !! target_path names = None) as Hfree.
  { unfold can_add in Hadd. by apply andb_true_iff in Hadd as [?%bool_decide_eq_true _]. }
  destruct (m !! i_ino (we_inode de)) as [o|] eqn:Hm.
  - do 2 eexists. split; [|by apply placed_link].
    destruct (pl_first _ _ _ Hpl _ _ Hm) as (e' & names' & He' & Hp' & -> & Hino & Hnode).
    destruct (ws_entry _ _ Hw e') as (names'' & Hp'' & _ & Hg'); [set_solver|].
    pose proof (genuine_same _ _ Hg' Hg Hino) as Hsame. rewrite Hsame in Hnode.
    unfold node_for in Hnode. rewrite Hk in Hnode. cbn in Hnode.
    eapply (yields_entry_link de names (target_path names')); eauto.
    + apply (pl_links _ _ _ Hpl). exists e', names'. rewrite Hino. auto.
    + unfold is_directory. rewrite node_of_kind. destruct k; try done.
      unfold kind_of in Hk. destruct (i_mode (we_inode de)) as [| | |dl| | | | |] eqn:Hmode; simplify_eq.
      * destruct Hg as (Hl & _), Hg' as (Hl' & _). rewrite Hp in Hl. rewrite Hp' in Hl'.
        pose proof (xt_dirs _ HX _ _ _ _ _ Hl Hl' (eq_sym Hino) Hmode) as Heq. subst names'.
        assert (t_links v !! target_path names = Some (target_path names)) as Hl1; [|congruence].
        apply (pl_links _ _ _ Hpl). exists e', names. rewrite Hino. auto.
      * by destruct (symlink_target (we_inode de)).
  - do 2 eexists. split; [by eapply (yields_entry_new de k)|]. apply placed_add; try done.
    unfold node_for. by rewrite Hk.
Qed.

Lemma extract_visits done q es m v fuel :
  visits pfs q es -> placed m v done -> walk_state done q -> (exists e, e ∈ done /\ we_path e = image_path []) ->
  (forall e, e ∈ done -> exists ch, children pfs e = Ok ch) -> length es < fuel ->
  exists m' v', yields (dir := dir) (extract_loop fuel dir (mkWalk pfs q)) m v () m' v' /\
    placed m' v' (done ++ es) /\ walk_state (done ++ es) [] /\ (forall e, e ∈ done ++ es -> exists ch, children pfs e = Ok ch).
Proof.
  intros Hv. revert done m v fuel. induction Hv as [|de q ch es Hch Hv IH]; intros done m v fuel Hpl Hw Hr Hok Hf;
    (destruct fuel as [|fuel]; [cbn in Hf; lia|]); cbn [extract_loop].
  - exists m, v. rewrite app_nil_r. split; [apply yields_ret|]. done.
  - destruct (extract_step _ _ _ _ _ Hpl Hw Hr) as (m1 & v1 & Hy & Hpl1).
    destruct (IH (done ++ [de]) m1 v1 fuel) as (m2 & v2 & Hy2 & Hrest).
    { done. }
    { by apply walk_state_step. }
    { set_solver. }
    { intros e [He|He%list_elem_of_singleton]%elem_of_app; [by apply Hok|]. subst e. eauto. }
    { cbn in Hf. lia. }
    rewrite <-app_assoc in Hrest. exists m2, v2. split; [|done].
    rewrite (WalkPuzzleFS_next_children pfs de q ch Hch). by eapply yields_bind.
Qed.

(** ** The whole extraction *)

Definition image_root (root : Inode) : DirEntry := mkDirEntry (pfs_oci pfs) (image_path []) root.

Lemma walk_state_root root : PuzzleFS_find_inode pfs 1 = Ok root -> walk_state [] [image_root root].
Proof.
  intros Hroot. split.
  - intros e ->%list_elem_of_singleton. exists []. split; [done|]. split; [constructor|].
    split; [|by eauto]. cbn. by rewrite Hroot.
  - cbn. apply NoDup_singleton.
  - intros e names n ->%list_elem_of_singleton Hp. cbn in Hp. rewrite image_path_snoc in Hp. by destruct names.
  - intros d ch Hd. by apply not_elem_of_nil in Hd.
Qed.

Lemma placed_empty : placed ∅ (mkTree ∅ ∅) [].
Proof.
  split.
  - intros p o. split; [intros Hl; cbn in Hl; by rewrite lookup_empty in Hl|]. intros (e & names & He & _). by apply not_elem_of_nil in He.
  - intros n o Hl. by rewrite lookup_empty in Hl.
  - intros e He. by apply not_elem_of_nil in He.
Qed.

(** The directory is empty, or is not there yet. *)
Definition fresh_target (v : TargetTree) : Prop := v = mkTree ∅ ∅ \/ v = start_tree (dir := dir).

(** The tree in the target is that of the image. *)
Definition same_tree (v : TargetTree) : Prop :=
  (forall names,
     match PuzzleFS_lookup pfs (image_path names) with
     | Ok (Some inode) => exists n, node_for inode = Some n /\ node_at v (target_path names) = Some n
     | _ => t_links v !! target_path names = None
     end) /\
  (forall names names' inode inode',
     PuzzleFS_lookup pfs (image_path names) = Ok (Some inode) -> PuzzleFS_lookup pfs (image_path names') = Ok (Some inode') ->
     t_links v !! target_path names = t_links v !! target_path names' <-> i_ino inode = i_ino inode') /\
  (forall p, is_Some (t_links v !! p) -> exists names, p = target_path names).

Lemma placed_same_tree m v done :
  placed m v done -> walk_state done [] -> (forall e, e ∈ done -> exists ch, children pfs e = Ok ch) ->
  (exists e, e ∈ done /\ we_path e = image_path []) -> same_tree v.
Proof.
  intros Hpl Hw Hok Hr. pose proof (fun names inode => walk_complete done names inode Hw Hok Hr) as Hall. split; [|split].
  - intros names.
    assert (forall o, t_links v !! target_path names = Some o ->
      exists i, PuzzleFS_lookup pfs (image_path names) = Ok (Some i)) as Hback.
    { intros o (e & names' & He & Hp & Heq & _)%(pl_links _ _ _ Hpl). apply target_path_inj in Heq as <-.
      destruct (ws_entry _ _ Hw e) as (? & _ & _ & Hl & _); [set_solver|]. rewrite Hp in Hl. eauto. }
    destruct (PuzzleFS_lookup pfs (image_path names)) as [[inode|]| | |] eqn:Hl;
      try (destruct (t_links v !! target_path names) as [o|]; [|done]; by destruct (Hback o eq_refl)).
    destruct (Hall names inode Hl) as (e & He & Hp & <-).
    destruct (placed_node _ _ _ _ _ _ Hpl Hw He Hp) as (o & Ho & Hn).
    destruct (entry_extractable _ _ e Hw) as (_ & _ & k & Hk); [set_solver|].
    unfold node_for in *. rewrite Hk in *. cbn in *. eexists. split; [done|]. unfold node_at. by rewrite Ho.
  - intros names names' inode inode' Hl Hl'.
    destruct (Hall names inode Hl) as (e & He & Hp & <-), (Hall names' inode' Hl') as (e' & He' & Hp' & <-).
    destruct (pl_all _ _ _ Hpl e He) as (o & Ho), (pl_all _ _ _ Hpl e' He') as (o' & Ho').
    assert (t_links v !! target_path names = Some o) as -> by (apply (pl_links _ _ _ Hpl); eauto 10).
    assert (t_links v !! target_path names' = Some o') as -> by (apply (pl_links _ _ _ Hpl); eauto 10).
    split; [|intros Heq; congruence]. intros [= <-].
    destruct (pl_first _ _ _ Hpl _ _ Ho) as (e1 & n1 & He1 & Hp1 & -> & <- & _).
    destruct (pl_first _ _ _ Hpl _ _ Ho') as (e2 & n2 & He2 & Hp2 & Heq & <- & _). apply target_path_inj in Heq as <-.
    destruct (ws_entry _ _ Hw e1) as (? & _ & _ & Hl1 & _); [set_solver|].
    destruct (ws_entry _ _ Hw e2) as (? & _ & _ & Hl2 & _); [set_solver|]. congruence.
  - intros p (o & (e & names & _ & _ & -> & _)%(pl_links _ _ _ Hpl)). eauto.
Qed.

Lemma extract_rootfs_spec img tag t v0 :
  PuzzleFS_open img tag None = Ok pfs -> hosts (dir := dir) t v0 -> fresh_target v0 ->
  exists bound, forall fuel, bound <= fuel ->
    exists st v, extract_rootfs fuel img tag dir (mkExtract _ t ∅ []) = (st, Ok ()) /\ hosts (dir := dir) (x_target st) v /\ same_tree v.
Proof.
  intros Hopen Ht Hfresh. destruct (xt_finite _ HX) as (root & dl & ls & Hroot & Hm & Hls%levels_visits).
  inversion Hls as [|de q ch es Hch Hv Heq1 Heq2]; subst. cbn [app] in Hv.
  change (mkDirEntry (pfs_oci pfs) (image_path []) root) with (image_root root) in *.
  exists (S (S (length es))). intros fuel Hf. destruct fuel as [|fuel]; [lia|].
  assert (target_path [] = dir) as Htp by (unfold ExtractTree.target_path; cbn; by rewrite app_nil_r).
  pose proof (walk_state_root root Hroot) as Hw0. pose proof (walk_state_step _ _ _ _ Hw0 Hch) as Hw1. cbn [app] in Hw1.
  destruct (entry_extractable _ _ (image_root root) Hw0) as (Hmay & _ & _); [by left|].
  assert (placed {[ i_ino root := dir ]} (add_node (mkTree ∅ ∅) dir (node_of root K_dir)) [image_root root]) as Hpl.
  { rewrite <-insert_empty, <-Htp. apply (placed_add ∅ (mkTree ∅ ∅) [] (image_root root) []); try done.
    - apply placed_empty.
    - unfold node_for, kind_of. cbn. by rewrite Hm. }
  destruct (extract_visits _ _ _ _ _ fuel Hv Hpl Hw1) as (m' & v' & Hy & Hpl' & Hw' & Hok').
  { exists (image_root root). split; [by left|done]. }
  { intros e ->%list_elem_of_singleton. eauto. }
  { lia. }
  assert (yields (dir := dir) (extract_rootfs (S fuel) img tag dir) ∅ v0 () m' v') as Hrun.
  { unfold extract_rootfs. eapply (yields_bind _ _ () () _ _ ∅ (start_tree (dir := dir))).
    { apply yields_effect. cbn. destruct Hfresh as [->| ->]; unfold node_at; cbn.
      - by rewrite lookup_empty, bool_decide_true.
      - by rewrite !lookup_insert_eq. }
    eapply yields_bind; [apply yields_lift; by rewrite Hopen|].
    eapply yields_bind; [apply yields_lift; unfold WalkPuzzleFS_walk; by rewrite Hroot|].
    cbn [extract_loop].
    change (mkDirEntry (pfs_oci pfs) [RootDir] root) with (image_root root).
    rewrite (WalkPuzzleFS_next_children pfs _ _ ch Hch).
    eapply yields_bind; [by eapply yields_entry_root|]. exact Hy. }
  destruct (Hrun (mkExtract _ t ∅ []) eq_refl Ht) as (st & Hst & _ & Hv'). exists st, v'. do 2 (split; [done|]).
  eapply placed_same_tree; eauto. exists (image_root root). split; [by left|done].
Qed.

End run.

(** C15: an extraction reproduces the tree of the image.  For an image whose paths form a finite tree
    of inodes that the process may make ([extractable]), [extract_rootfs] into a directory that is
    empty or not there terminates without an error.  Afterwards the directory has a file exactly at
    the paths of the image; the file has the kind, data or link target, mode, extended attributes
    and, for a privileged process, owner of the inode, as chmod(2) and chown(2) leave them
    ([node_of]); and two paths are links to one file exactly if they have the same inode number.
    Inodes the process may not make are sockets, symbolic links when it is privileged, and devices when
    it is not ([may_extract]). *)
Theorem extract_rootfs_tree (pfs : PuzzleFS) (img : Image oci_index) (tag : bytes)
    (t : target) (v0 : TargetTree) :
  dir ≠ [] -> PuzzleFS_open img tag None = Ok pfs -> extractable pfs ->
  hosts (dir := dir) t v0 -> fresh_target v0 ->
  exists bound, forall fuel, bound <= fuel ->
    exists st v, extract_rootfs fuel img tag dir (mkExtract _ t ∅ []) = (st, Ok ()) /\
      hosts (dir := dir) (x_target st) v /\ same_tree pfs v.
Proof. intros Hdir Hopen HX. by apply extract_rootfs_spec. Qed.

End extract_image.
