(* ===== verification/ExtractStale.v ===== *)
(** Extracting an image some of whose directory entries name nothing, as those of a delta in which
    names were removed do: it cannot succeed. *)

From S2P Require Import Prelude Errors RustStd Capnp Format Digest InodeTable Compression Oci Reader Walk Extractor.

Section stale.
Context {T : TargetFs} {P : Profile} {R : OsRead} {ZS : ZstdSeekable} {NS : NixStat}.
Context {H : Hex} {SH : Sha256} {V : FsVerity} {D : OciDigest} {OD : OciDir} {W : CapnpWire}.

(** What one step of the walk yields, if it is not an error. *)
Lemma add_entries_loop_ok pfs dir entries q q' :
  add_entries_loop pfs dir entries q = (q', Ok ()) -> exists ch, mapM (child_entry pfs dir) entries = Ok ch /\ q' = q ++ ch.
Proof.
  revert q. induction entries as [|e entries IH]; intros q; cbn.
  - intros [= <-]. exists []. by rewrite app_nil_r.
  - destruct (PuzzleFS_find_inode pfs (de_ino e)) as [i| | |] eqn:Hf; try done.
    intros (ch & Hch & ->)%IH. eexists (_ :: ch). split; [apply mapM_cons_ok|by rewrite <-app_assoc].
    + unfold child_entry. by rewrite Hf.
    + done.
Qed.

Lemma WalkPuzzleFS_next_ok w w' de :
  WalkPuzzleFS_next w = Some (w', Ok de) ->
  exists q ch, w_q w = de :: q /\ children (w_pfs w) de = Ok ch /\ w' = mkWalk (w_pfs w) (q ++ ch).
Proof.
  unfold WalkPuzzleFS_next, add_dir_entries, children. destruct w as [pfs [|de' q]]; cbn; [done|].
  destruct (i_mode (we_inode de')) as [| | |dl| | | | |] eqn:Hm; cbn; try (intros [= <- <-]; exists q, []; rewrite Hm, app_nil_r; done).
  destruct (add_entries_loop pfs de' (dl_entries dl) q) as [q' [[]| | |]] eqn:Ha; cbn; try done.
  intros [= <- <-]. apply add_entries_loop_ok in Ha as (ch & Hch & ->). exists q, ch. by rewrite Hm.
Qed.

(** An extraction that succeeds has visited everything. *)
Lemma extract_loop_visits fuel dir w st st' :
  extract_loop fuel dir w st = (st', Ok ()) -> exists es, visits (w_pfs w) (w_q w) es.
Proof.
  revert w st. induction fuel as [|fuel IH]; intros w st; cbn [extract_loop]; [done|].
  destruct (WalkPuzzleFS_next w) as [[w' r]|] eqn:Hn.
  - intros (st1 & [] & He & Hl)%X_bind_ok_inv. apply X_bind_ok_inv in He as (st2 & de & Hr & _).
    destruct r as [de'| | |]; try done. destruct (WalkPuzzleFS_next_ok _ _ _ Hn) as (q & ch & Hq & Hch & ->).
    destruct (IH _ _ Hl) as [es Hes]. rewrite Hq. eexists. by econstructor.
  - intros _. unfold WalkPuzzleFS_next in Hn. destruct (w_q w) as [|de q]; [exists []; constructor|].
    by destruct (add_dir_entries _ de).
Qed.

Lemma visits_all pfs q es : visits pfs q es -> q ⊆ es /\ forall de, de ∈ es -> exists ch, children pfs de = Ok ch /\ ch ⊆ es.
Proof.
  induction 1 as [|de q ch es Hch Hv [IHq IH]]; [split; [done|]; by intros de ?%not_elem_of_nil|].
  assert (q ⊆ es /\ ch ⊆ es) as [Hq Hc] by set_solver. split; [set_solver|].
  intros de' [->|Hin]%elem_of_cons; [exists ch; set_solver|]. destruct (IH _ Hin) as (ch' & ? & ?). exists ch'. set_solver.
Qed.

(** What a lookup finds has been visited. *)
Lemma visits_lookup pfs q es de names inode :
  visits pfs q es -> de ∈ es -> lookup_from (PuzzleFS_find_inode pfs) (we_inode de) (Normal <$> names) = Ok (Some inode) ->
  exists de', de' ∈ es /\ we_inode de' = inode.
Proof.
  intros Hv. destruct (visits_all _ _ _ Hv) as [_ Hall]. revert de. induction names as [|name names IH]; intros de Hde; cbn.
  { intros [= <-]. eauto. }
  destruct (Hall de Hde) as (ch & Hch & Hsub). unfold children in Hch.
  destruct (i_mode (we_inode de)) as [| | |dl| | | | |]; try done.
  destruct (List.find _ (dl_entries dl)) as [e|] eqn:Hf; [|done]. apply find_some in Hf as [Hin%list_elem_of_In _].
  intros (child & Hfind & Hl)%bind_ok_inv. destruct (mapM_elem _ _ _ _ Hch Hin) as (c & Hc & Hcin).
  unfold child_entry in Hc. rewrite Hfind in Hc. injection Hc as <-. apply (IH _ (Hsub _ Hcin)). exact Hl.
Qed.

(** An image with a directory entry that names nothing cannot be extracted: if some directory that
    can be looked up has an entry whose inode is not found, [extract_rootfs] does not succeed,
    whatever the target. *)
Lemma extract_stale_fails fuel (image : Image oci_index) tag dir st pfs names inode dl e err :
  PuzzleFS_open image tag None = Ok pfs -> PuzzleFS_lookup pfs (image_path names) = Ok (Some inode) ->
  i_mode inode = Mode_Dir dl -> e ∈ dl_entries dl -> PuzzleFS_find_inode pfs (de_ino e) = Err err ->
  (extract_rootfs fuel image tag dir st).2 ≠ Ok ().
Proof.
  intros Hopen Hlook Hm Hin Hfind Hok. pose proof (surjective_pairing (extract_rootfs fuel image tag dir st)) as Hx. rewrite Hok in Hx.
  unfold extract_rootfs in Hx at 1. apply X_bind_ok_inv in Hx as (st1 & [] & _ & Hx). rewrite Hopen in Hx.
  apply X_bind_ok_inv in Hx as (st2 & pfs' & [= _ <-] & Hx). apply X_bind_ok_inv in Hx as (st3 & w & Hw & Hx).
  injection Hw as _ Hw%map_err_ok_inv. unfold WalkPuzzleFS_walk in Hw. cbn [PuzzleFS_lookup image_path] in Hlook.
  destruct (PuzzleFS_find_inode pfs 1) as [root| | |]; try done. injection Hw as <-. bsimpl.
  destruct (extract_loop_visits _ _ _ _ _ Hx) as [es Hv]. destruct (visits_all _ _ _ Hv) as [Hq Hall]. cbn [w_q w_pfs] in *.
  destruct (visits_lookup pfs _ es (mkDirEntry (pfs_oci pfs) [RootDir] root) names inode Hv) as (de & Hde & Hi); [set_solver|exact Hlook|].
  destruct (Hall de Hde) as (ch & Hch & _). unfold children in Hch. rewrite Hi, Hm in Hch.
  destruct (mapM_elem _ _ _ _ Hch Hin) as (c & Hc & _). unfold child_entry in Hc. by rewrite Hfind in Hc.
Qed.

End stale.
