(* ===== verification/FsStream.v ===== *)
(** [builder/filesystem.rs]: the chain of files the chunker reads from, and the part of the host
    file system the builder uses.

    The stream delivers the concatenation of the files in the order they were pushed, whatever
    the sizes of the buffers and however short the reads of the host are. *)

From S2P Require Import Prelude Errors RustStd Format Compression.

(** The host file system as the builder sees it; it does not change during a build. *)
Class HostFs := {
  symlink_metadata : Path -> io_Result Metadata;
  fs_open : Path -> io_Result bytes;
  fs_read_dir : Path -> io_Result (list (io_Result bytes));
  fs_read_link : Path -> io_Result bytes;
  xattr_list : Path -> io_Result (list bytes);
  xattr_get : Path -> bytes -> io_Result (option bytes)
}.

Record ReaderLink := mkReaderLink { rl_file : Path; rl_done : bool }.

Record FilesystemStream := mkFilesystemStream {
  reader_chain : list ReaderLink;
  current_reader : option OsFile
}.

Section fs_stream.
Context {R : OsRead} {F : HostFs}.

Definition FilesystemStream_new : FilesystemStream := mkFilesystemStream [] None.

Definition FilesystemStream_push (self : FilesystemStream) (file : Path) : FilesystemStream :=
  mkFilesystemStream (reader_chain self ++ [mkReaderLink file false]) (current_reader self).

(** The [for link in &mut self.reader_chain] loop; the first component is the stream as the call
    leaves it, also when it fails. *)
Fixpoint read_links (seen links : list ReaderLink) (cur : option OsFile) (want : N)
  : FilesystemStream * io_Result bytes :=
  match links with
  | [] => (mkFilesystemStream seen cur, Ok [])
  | link :: rest =>
      if rl_done link then read_links (seen ++ [link]) rest cur want
      else
        match (match cur with
               | Some reader => Ok reader
               | None => data ← fs_open (rl_file link); Ok (file_open data)
               end) with
        | Ok reader =>
            match file_read_raw reader want with
            | Ok (reader, out) =>
                if (len out =? 0)%N && negb (want =? 0)%N then
                  read_links (seen ++ [mkReaderLink (rl_file link) true]) rest None want
                else (mkFilesystemStream (seen ++ link :: rest) (Some reader), Ok out)
            | Err e => (mkFilesystemStream (seen ++ link :: rest) (Some reader), Err e)
            | Panic => (mkFilesystemStream (seen ++ link :: rest) (Some reader), Panic)
            | Diverged => (mkFilesystemStream (seen ++ link :: rest) (Some reader), Diverged)
            end
        | Err e => (mkFilesystemStream (seen ++ link :: rest) cur, Err e)
        | Panic => (mkFilesystemStream (seen ++ link :: rest) cur, Panic)
        | Diverged => (mkFilesystemStream (seen ++ link :: rest) cur, Diverged)
        end
  end.

(** [<FilesystemStream as Read>::read] into a buffer of [want] bytes. *)
Definition FilesystemStream_read (self : FilesystemStream) (want : N)
  : FilesystemStream * io_Result bytes :=
  read_links [] (reader_chain self) (current_reader self) want.

(** Reading to the end with the buffer sizes [wants], as [read_to_end] or the chunker does; it
    stops at the first [Ok(0)]. *)
Fixpoint drain (wants : nat -> N) (fuel k : nat) (self : FilesystemStream) (acc : bytes) : io_Result bytes :=
  match fuel with
  | O => Diverged
  | S fuel =>
      match FilesystemStream_read self (wants k) with
      | (self, Ok out) =>
          if (len out =? 0)%N then Ok acc else drain wants fuel (S k) self (acc ++ out)
      | (_, Err e) => Err e
      | (_, Panic) => Panic
      | (_, Diverged) => Diverged
      end
  end.

(** ** What is still to be read *)

(** The bytes the links have left, [cur] being the reader of the first link that is not done. *)
Fixpoint pending (links : list ReaderLink) (cur : option OsFile) : option bytes :=
  match links with
  | [] => Some []
  | link :: rest =>
      if rl_done link then pending rest cur
      else
        data ← match cur with
               | Some reader => Some (slice (of_pos reader) (len (of_data reader)) (of_data reader))
               | None => match fs_open (rl_file link) with Ok data => Some data | _ => None end
               end;
        more ← pending rest None;
        Some (data ++ more)
  end.

Definition stream_pending (s : FilesystemStream) : option bytes :=
  pending (reader_chain s) (current_reader s).

Lemma pending_done_app seen links cur :
  Forall (fun l => rl_done l = true) seen -> pending (seen ++ links) cur = pending links cur.
Proof. induction 1 as [|l seen Hl _ IH]; simpl; [done|]. by rewrite Hl. Qed.

(** Reading from a file delivers the first bytes of what it has left. *)
Lemma file_read_raw_pending `{!OsReadOk R} f want :
  exists f' out, file_read_raw f want = Ok (f', out) /\
    slice (of_pos f) (len (of_data f)) (of_data f)
    = out ++ slice (of_pos f') (len (of_data f')) (of_data f') /\
    (out = [] -> (0 < want)%N -> slice (of_pos f) (len (of_data f)) (of_data f) = []).
Proof.
  unfold file_read_raw. set (avail := (len (of_data f) - of_pos f)%N). set (k := os_read avail want).
  assert (k <= avail)%N as Hk by (pose proof (os_read_le avail want); unfold k; lia).
  eexists _, _. split; [reflexivity|]. cbn [of_data of_pos].
  assert (len (slice (of_pos f) k (of_data f)) = k) as Hl by (rewrite len_slice; unfold avail in *; lia).
  assert (forall p, slice p (len (of_data f)) (of_data f) = slice p (len (of_data f) - p) (of_data f)) as Hs.
  { intros p. by rewrite <-slice_min, N.min_r by lia. }
  split.
  - rewrite Hl, !Hs. replace (len (of_data f) - of_pos f)%N with (k + (avail - k))%N by (unfold avail; lia).
    rewrite slice_add. do 2 f_equal. unfold avail. lia.
  - intros Hnil Hw. rewrite Hnil in Hl. change (len []) with 0%N in Hl.
    destruct (decide (avail = 0)%N) as [Ha|Ha].
    + rewrite Hs. fold avail. by rewrite Ha, slice_0.
    + pose proof (os_read_pos avail want ltac:(lia)). unfold k in Hl. lia.
Qed.

(** One call: it delivers a non-empty prefix of what is pending, or there is nothing pending. *)
Lemma read_links_pending `{!OsReadOk R} seen links cur want data :
  Forall (fun l => rl_done l = true) seen -> (0 < want)%N -> pending links cur = Some data ->
  exists s' out rest, read_links seen links cur want = (s', Ok out) /\ data = out ++ rest /\
    stream_pending s' = Some rest /\ (out = [] -> data = []).
Proof.
  intros Hseen Hw. revert seen cur data Hseen.
  induction links as [|link links IH]; intros seen cur data Hseen Hp; cbn [pending read_links] in *.
  - injection Hp as <-. exists (mkFilesystemStream seen cur), [], []. repeat split.
    unfold stream_pending. cbn. rewrite <-(app_nil_r seen). by rewrite pending_done_app.
  - destruct (rl_done link) eqn:Hd.
    { apply IH; [|done]. apply Forall_app. by split; [|apply Forall_singleton]. }
    set (r := match cur with Some reader => Ok reader | None => _ end).
    assert (exists reader more, r = Ok reader /\ pending links None = Some more /\
      data = slice (of_pos reader) (len (of_data reader)) (of_data reader) ++ more)
      as (reader & more & -> & Hmore & ->).
    { unfold r. destruct cur as [reader|].
      - cbn in Hp. destruct (pending links None) as [more|]; [|done]. exists reader, more. naive_solver.
      - destruct (fs_open (rl_file link)) as [d| | |]; try done. cbn in Hp.
        destruct (pending links None) as [more|]; [|done]. injection Hp as <-. exists (file_open d), more.
        repeat split. cbn. by rewrite slice_all. }
    clear Hp.
    destruct (file_read_raw_pending reader want) as (reader' & out & -> & Hsplit & Hempty).
    destruct (N.eqb_spec (len out) 0) as [Hz|Hz]; cbn [andb].
    + rewrite (proj2 (N.eqb_neq want 0)) by lia. cbn [negb].
      assert (out = []) as -> by (destruct out; [done | unfold len in Hz; simpl in Hz; lia]).
      rewrite Hempty by done. apply IH; [|done]. apply Forall_app. split; [done|].
      by apply Forall_singleton.
    + eexists _, out, _. split; [reflexivity|]. rewrite Hsplit, <-app_assoc. split; [reflexivity|].
      split; [|intros ->; by destruct Hz].
      unfold stream_pending. cbn [reader_chain current_reader]. rewrite pending_done_app by done.
      cbn [pending]. rewrite Hd. cbn. by rewrite Hmore.
Qed.

Lemma drain_pending `{!OsReadOk R} wants fuel k s data acc :
  (forall j, (0 < wants j)%N) -> stream_pending s = Some data -> length data < fuel ->
  drain wants fuel k s acc = Ok (acc ++ data).
Proof.
  intros Hw. revert k s data acc. induction fuel as [|fuel IH]; intros k s data acc Hs Hf; [lia|].
  cbn [drain]. unfold FilesystemStream_read.
  destruct (read_links_pending [] (reader_chain s) (current_reader s) (wants k) data)
    as (s' & out & rest & -> & -> & Hs' & Hempty); [constructor | done | done |].
  destruct (N.eqb_spec (len out) 0) as [Hz|Hz].
  - assert (out = []) as -> by (destruct out; [done | unfold len in Hz; simpl in Hz; lia]).
    cbn [app] in *. by rewrite Hempty, app_nil_r.
  - rewrite (IH (S k) s' rest); [by rewrite app_assoc | done |].
    rewrite length_app in Hf. unfold len in Hz. lia.
Qed.

(** The stream of a list of files. *)
Definition stream_of (files : list Path) : FilesystemStream :=
  foldl FilesystemStream_push FilesystemStream_new files.

Lemma stream_of_chain files s :
  foldl FilesystemStream_push s files
  = mkFilesystemStream (reader_chain s ++ ((fun p => mkReaderLink p false) <$> files)) (current_reader s).
Proof.
  revert s; induction files as [|p files IH]; intros s; csimpl.
  - rewrite app_nil_r. by destruct s.
  - rewrite IH. cbn. by rewrite <-app_assoc.
Qed.

Lemma stream_of_pending files datas :
  Forall2 (fun p d => fs_open p = Ok d) files datas ->
  stream_pending (stream_of files) = Some (concat datas).
Proof.
  intros Hf. unfold stream_of, stream_pending. rewrite stream_of_chain. cbn [reader_chain current_reader app].
  change (reader_chain FilesystemStream_new) with (@nil ReaderLink). cbn [app FilesystemStream_new current_reader].
  induction Hf as [|p d files datas Hp _ IH]; csimpl; [done|]. rewrite Hp. cbn.
  change (pending ((fun p => mkReaderLink p false) <$> files) None = Some (concat datas)) in IH.
  by rewrite IH.
Qed.

(** The stream of the files of a build is their concatenation.  Reading a stream to the end
    terminates and delivers the contents of the pushed files one after the other, nothing lost,
    repeated or reordered, whatever sizes the caller's buffers have from call to call and however
    short the host's reads are; empty files in any position are skipped. *)
Theorem FilesystemStream_concatenates `{!OsReadOk R} (files : list Path) (datas : list bytes)
    (wants : nat -> N) :
  Forall2 (fun p d => fs_open p = Ok d) files datas -> (forall j, (0 < wants j)%N) ->
  drain wants (S (length (concat datas))) 0 (stream_of files) [] = Ok (concat datas).
Proof.
  intros Hf Hw. apply (drain_pending wants _ 0 _ (concat datas) []); [done | by apply stream_of_pending | lia].
Qed.

End fs_stream.
