(* ===== verification/Chunks.v ===== *)
(** [process_chunks] of [builder.rs]: the chunker cuts the stream of all files into blobs, and
    every file is described as a list of ranges of those blobs.

    The content-defined chunker ([fastcdc::v2020::StreamCDC]) is an interface: it cuts what it
    reads from its source into non-empty pieces. *)

From S2P Require Import Prelude Errors RustStd Capnp Format Digest InodeTable Compression Oci Reader FsStream.

Definition MIN_CHUNK_SIZE : N := 16 * 1024.
Definition AVG_CHUNK_SIZE : N := 64 * 1024.
Definition MAX_CHUNK_SIZE : N := 256 * 1024.

(** [fastcdc::v2020::ChunkData], the fields used. *)
Record ChunkData := mkChunkData { cd_length : N; cd_data : bytes }.

(** [StreamCDC::new(source, min, avg, max)] as the items its iterator yields. *)
Class StreamCDC := stream_cdc : FilesystemStream -> N -> N -> N -> list (io_Result ChunkData).

Definition sound_chunk (c : ChunkData) : Prop :=
  cd_data c ≠ [] /\ cd_length c = len (cd_data c) /\ (len (cd_data c) < 2 ^ 63)%N.

(** The items are a partition of the data the source delivers. *)
Class StreamCDCOk `{OsRead, HostFs} (CD : StreamCDC) :=
  stream_cdc_partition s data :
    stream_pending s = Some data ->
    exists chunks, stream_cdc s MIN_CHUNK_SIZE AVG_CHUNK_SIZE MAX_CHUNK_SIZE = Ok <$> chunks /\
      concat (cd_data <$> chunks) = data /\ Forall sound_chunk chunks.

(** [struct File] of the builder. *)
Record File := mkFile {
  f_ino : N;
  f_chunks : list FileChunk;
  f_md : Metadata;
  f_additional : option InodeAdditional
}.

(** [files.iter_mut()] with the variables of [process_chunks]: the files passed, the current
    one, those to come, and how much of the current one is used. *)
Record ChunkState := mkChunkState {
  cs_passed : list File;
  cs_file : option File;
  cs_iter : list File;
  cs_used : N
}.

Section process_chunks.
Context {P : Profile} {R : OsRead} {ZS : ZstdSeekable}.
Context {H : Hex} {SH : Sha256} {V : FsVerity} {D : OciDigest} {OD : OciDir} {W : CapnpWire}.

Abbreviation Img := (Image oci_index).

(** [for f in file_iter.by_ref() { if f.md.size() > 0 { file = Some(f); break; } }]: the files
    passed over, the file found, the rest of the iterator. *)
Fixpoint next_file (file_iter : list File) : list File * option File * list File :=
  match file_iter with
  | [] => ([], None, [])
  | f :: file_iter =>
      if (0 <? md_len (f_md f))%N then ([], Some f, file_iter)
      else let '(passed, file, rest) := next_file file_iter in (f :: passed, file, rest)
  end.

Definition push_chunk (f : File) (c : FileChunk) : File :=
  mkFile (f_ino f) (f_chunks f ++ [c]) (f_md f) (f_additional f).

(** The [while chunk_used < chunk.length] loop; [true] stands for [break 'outer]. *)
Fixpoint use_chunk (fuel : nat) (digest : bytes) (compressed : bool) (length chunk_used : N)
    (st : ChunkState) : Result (ChunkState * bool) :=
  match fuel with
  | O => Diverged
  | S fuel =>
      if (chunk_used <? length)%N then
        file ← unwrap (cs_file st);
        left_in_file ← sub_w u64_bits (md_len (f_md file)) (cs_used st);
        left_in_chunk ← sub_w u64_bits length chunk_used;
        let room := N.min left_in_file left_in_chunk in
        let blob := mkBlobRef digest chunk_used compressed in
        let file := push_chunk file (mkFileChunk blob room) in
        chunk_used ← add_w u64_bits chunk_used room;
        file_used ← add_w u64_bits (cs_used st) room;
        if (file_used =? md_len (f_md file))%N then
          let '(passed, next, rest) := next_file (cs_iter st) in
          let st := mkChunkState (cs_passed st ++ file :: passed) next rest 0 in
          match next with
          | None => Ok (st, true)
          | Some _ => use_chunk fuel digest compressed length chunk_used st
          end
        else
          use_chunk fuel digest compressed length chunk_used
            (mkChunkState (cs_passed st) (Some file) (cs_iter st) file_used)
      else Ok (st, false)
  end.

(** The ['outer] loop; the last component is what the chunker has left. *)
Fixpoint process_items (C : Compression) (items : list (io_Result ChunkData)) (oci : Img)
    (st : ChunkState) (verity_data : VerityData) (image_manifest : ImageManifest)
  : Result (Img * ChunkState * VerityData * ImageManifest * list (io_Result ChunkData)) :=
  match items with
  | [] => Ok (oci, st, verity_data, image_manifest, [])
  | Ok chunk :: items =>
      '(oci, image_manifest, (desc, fs_verity_digest, compressed)) ←
        put_blob C oci (cd_data chunk) image_manifest MT_Chunk;
      digest ← map_err HexError (Digest_try_from_str (d_digest desc));
      let digest := underlying digest in
      let verity_data := <[digest := fs_verity_digest]> verity_data in
      '(st, broke) ← use_chunk (2 + length (cs_iter st)) digest compressed (cd_length chunk) 0 st;
      if broke : bool then Ok (oci, st, verity_data, image_manifest, items)
      else process_items C items oci st verity_data image_manifest
  | _ :: _ => Panic
  end.

(** [process_chunks::<C>]: the store, the files, the verity data and the manifest afterwards. *)
Definition process_chunks (C : Compression) (oci : Img) (chunker : list (io_Result ChunkData))
    (files : list File) (verity_data : VerityData) (image_manifest : ImageManifest)
  : Result (Img * list File * VerityData * ImageManifest) :=
  let '(passed, file, rest) := next_file files in
  '(oci, st, verity_data, image_manifest, chunker) ←
    process_items C chunker oci (mkChunkState passed file rest 0) verity_data image_manifest;
  _ ← assert_ (match chunker with [] => true | _ => false end);
  Ok (oci, cs_passed st ++ option_list (cs_file st) ++ cs_iter st, verity_data, image_manifest).

(** ** Files and the data they stand for *)

(** A file before any chunk is recorded, with its content. *)
Definition fresh (fd : File * bytes) : Prop :=
  f_chunks fd.1 = [] /\ md_len (f_md fd.1) = len fd.2.

Definition same_file (f f0 : File) : Prop :=
  f_ino f = f_ino f0 /\ f_md f = f_md f0 /\ f_additional f = f_additional f0.

(** The file that [fd] became: all but the chunks as before, the chunks hold the content. *)
Definition rendered (img : Img) (f : File) (fd : File * bytes) : Prop :=
  same_file f fd.1 /\ file_content img None (f_chunks f) fd.2.

(** Between two chunks: [orig] are all files with their contents, [stream] is still to come. *)
Definition in_progress (img : Img) (orig : list (File * bytes)) (st : ChunkState) (stream : bytes) : Prop :=
  exists before f0 pre suf after f,
    orig = before ++ (f0, pre ++ suf) :: after /\ cs_file st = Some f /\ same_file f f0 /\
    Forall2 (rendered img) (cs_passed st) before /\
    file_content img None (f_chunks f) pre /\ cs_used st = len pre /\ suf ≠ [] /\
    md_len (f_md f0) = len (pre ++ suf) /\
    cs_iter st = after.*1 /\ Forall fresh after /\ stream = suf ++ concat after.*2.

Definition finished (img : Img) (orig : list (File * bytes)) (st : ChunkState) : Prop :=
  cs_file st = None /\ cs_iter st = [] /\ Forall2 (rendered img) (cs_passed st) orig.

Lemma chunk_data_mono img img' vd c d :
  vd = None -> data_kept img img' -> chunk_data img vd c d -> chunk_data img' vd c d.
Proof.
  intros -> Hsub (blob & _ & Hr & ?). exists blob. split; [done|]. split; [|done].
  by eapply resolves_mono.
Qed.

Lemma file_content_mono img img' chunks d :
  data_kept img img' -> file_content img None chunks d -> file_content img' None chunks d.
Proof.
  intros Hsub (ds & Hds & ->). exists ds. split; [|done]. eapply Forall2_impl; [exact Hds|].
  intros. by eapply chunk_data_mono.
Qed.

Lemma rendered_mono img img' fs fds :
  data_kept img img' -> Forall2 (rendered img) fs fds -> Forall2 (rendered img') fs fds.
Proof.
  intros Hsub Hr. eapply Forall2_impl; [exact Hr|]. intros f fd [Hs Hc]. split; [done|].
  by eapply file_content_mono.
Qed.

Lemma in_progress_mono img img' orig st stream :
  data_kept img img' -> in_progress img orig st stream -> in_progress img' orig st stream.
Proof.
  intros Hsub (before & f0 & pre & suf & after & f & ? & ? & ? & Hb & Hc & Hrest).
  exists before, f0, pre, suf, after, f. do 3 (split; [done|]).
  split; [by eapply rendered_mono|]. split; [by eapply file_content_mono|done].
Qed.

Lemma file_content_snoc img chunks d c e :
  file_content img None chunks d -> chunk_data img None c e ->
  file_content img None (chunks ++ [c]) (d ++ e).
Proof.
  intros (ds & Hds & ->) Hc. exists (ds ++ [e]). split; [|by rewrite concat_app, concat_cons, app_nil_r].
  apply Forall2_app; [done | by constructor].
Qed.

Lemma fresh_empty_rendered img fd : fresh fd -> fd.2 = [] -> rendered img fd.1 fd.
Proof. intros [Hc _] Hd. split; [done|]. rewrite Hc, Hd. exists []. by split; [constructor|]. Qed.

(** Skipping over empty files. *)
Lemma next_file_fresh img iter :
  Forall fresh iter ->
  exists skip rest, iter = skip ++ rest /\ Forall2 (rendered img) skip.*1 skip /\ concat skip.*2 = [] /\
    match rest with
    | [] => next_file iter.*1 = (skip.*1, None, [])
    | (f, d) :: after => d ≠ [] /\ md_len (f_md f) = len d /\ f_chunks f = [] /\ Forall fresh after /\
                         next_file iter.*1 = (skip.*1, Some f, after.*1)
    end.
Proof.
  induction 1 as [|[f d] iter Hf Hall IH].
  { exists [], []. by repeat split; constructor. }
  csimpl. destruct (N.ltb_spec 0 (md_len (f_md f))) as [Hpos|Hz].
  - exists [], ((f, d) :: iter). destruct Hf as [Hc Hl]; cbn [fst snd] in *.
    split; [done|]. split; [constructor|]. split; [done|].
    split; [intros ->; change (len []) with 0%N in Hl; lia | done].
  - destruct IH as (skip & rest & -> & Hr & Hcat & Hn). exists ((f, d) :: skip), rest.
    assert (d = []) as -> by (destruct Hf as [_ Hl]; destruct d; [done | unfold len in Hl; simpl in *; lia]).
    split; [done|]. split; [constructor; [by apply (fresh_empty_rendered img (f, [])) | done]|].
    split; [done|]. destruct rest as [|[f' d'] after].
    + by rewrite Hn.
    + destruct Hn as (? & ? & ? & ? & ->). done.
Qed.

(** The state after the current file is complete, or before the first one. *)
Lemma next_file_state img orig passed before iter :
  orig = before ++ iter -> Forall2 (rendered img) passed before -> Forall fresh iter ->
  let '(skipped, next, rest) := next_file iter.*1 in
  let st := mkChunkState (passed ++ skipped) next rest 0 in
  match next with
  | None => concat iter.*2 = [] /\ finished img orig st
  | Some _ => in_progress img orig st (concat iter.*2) /\ length rest < length iter
  end.
Proof.
  intros -> Hp Hf. destruct (next_file_fresh img iter Hf) as (skip & rest & -> & Hr & Hcat & Hn).
  rewrite !fmap_app, concat_app, Hcat. cbn [app].
  destruct rest as [|[f d] after].
  - rewrite fmap_app in Hn. rewrite Hn. cbn beta iota zeta.
    split; [done|]. split; [done|]. split; [done|]. rewrite app_nil_r. by apply Forall2_app.
  - destruct Hn as (Hd & Hl & Hc & Ha & Hn). rewrite fmap_app in Hn. rewrite Hn. cbn beta iota zeta. split.
    + exists (before ++ skip), f, [], d, after, f. split; [by rewrite <-app_assoc|].
      split; [done|]. split; [done|]. split; [by apply Forall2_app|].
      split; [rewrite Hc; by exists []; split; [constructor|]|]. done.
    + rewrite length_app, length_fmap. simpl. lia.
Qed.

Lemma app_eq_split {A} (l1 l2 k1 k2 : list A) :
  l1 ++ l2 = k1 ++ k2 ->
  (exists m, l1 = k1 ++ m /\ k2 = m ++ l2) \/ (exists m, m ≠ [] /\ k1 = l1 ++ m /\ l2 = m ++ k2).
Proof.
  intros [?|([|x m] & -> & ->)]%app_eq_inv; [by left | left | right; by exists (x :: m)].
  exists []. by rewrite !app_nil_r.
Qed.

(** The rest of a blob from position [used] on. *)
Lemma slice_rest_app (data l1 l2 : bytes) used :
  slice used (len data) data = l1 ++ l2 ->
  slice used (len l1) data = l1 /\ slice (used + len l1) (len data) data = l2.
Proof.
  intros Hs. pose proof (f_equal len Hs) as Hl. rewrite len_slice, len_app in Hl.
  split.
  - rewrite <-(N.add_0_r used), <-(slice_slice used (len data) 0), Hs by lia. rewrite slice_app_l, slice_all by lia. done.
  - rewrite <-slice_min. replace (N.min _ _) with (len l2) by lia.
    rewrite <-(slice_slice used (len data) (len l1)) by lia.
    by rewrite Hs, slice_app_r, N.sub_diag, slice_all by lia.
Qed.

(** The blob goes past the end of the current file: the file is complete. *)
Lemma complete_file img orig st f0 f before pre suf after c :
  orig = before ++ (f0, pre ++ suf) :: after -> same_file f f0 ->
  Forall2 (rendered img) (cs_passed st) before -> file_content img None (f_chunks f) pre ->
  Forall fresh after -> chunk_data img None c suf ->
  let '(skipped, next, rest) := next_file after.*1 in
  let st := mkChunkState (cs_passed st ++ push_chunk f c :: skipped) next rest 0 in
  match next with
  | None => concat after.*2 = [] /\ finished img orig st
  | Some _ => in_progress img orig st (concat after.*2) /\ length rest < length after
  end.
Proof.
  intros Horig Hsame Hb Hc Hfr Hchunk.
  pose proof (next_file_state img orig (cs_passed st ++ [push_chunk f c]) (before ++ [(f0, pre ++ suf)])
                after) as Hnext.
  rewrite <-app_assoc in Hnext. specialize (Hnext Horig).
  destruct (next_file after.*1) as [[skipped next] rest]. rewrite <-app_assoc in Hnext.
  apply Hnext; [|done]. apply Forall2_app; [done|]. constructor; [|constructor].
  split; [done|]. by apply file_content_snoc.
Qed.

(** One blob is distributed over the files: either everything is rendered and the stream is used
    up, or the loop ends with the blob used up. *)
Lemma use_chunk_spec fuel img orig digest compressed data used st rest :
  resolves img digest compressed data -> (len data < 2 ^ 63)%N -> (used <= len data)%N ->
  Forall (fun fd => len fd.2 < 2 ^ 63)%N orig ->
  in_progress img orig st (slice used (len data) data ++ rest) -> S (length (cs_iter st)) < fuel ->
  exists st' broke, use_chunk fuel digest compressed (len data) used st = Ok (st', broke) /\
    if broke : bool then rest = [] /\ finished img orig st' else in_progress img orig st' rest.
Proof.
  intros Hres Hlen Hused Hsmall. revert used st Hused.
  induction fuel as [|fuel IH]; intros used st Hused Hinv Hfuel; [lia|].
  cbn [use_chunk]. destruct (N.ltb_spec used (len data)) as [Hlt|Hge].
  2: { exists st, false. split; [done|]. by rewrite slice_past in Hinv by lia. }
  destruct Hinv as (before & f0 & pre & suf & after & f & Horig & Hcur & Hsame & Hb & Hc & Hu & Hsuf
                    & Hmd & Hit & Hfr & Hstream).
  assert (len (pre ++ suf) < 2 ^ 63)%N as Hfl.
  { rewrite Horig, Forall_app in Hsmall. destruct Hsmall as [_ Hsmall]. by inversion Hsmall; subst. }
  rewrite Hcur. cbn [unwrap]. bsimpl. rewrite (proj1 (proj2 Hsame)), Hmd, Hu, len_app.
  rewrite len_app in Hfl. rewrite !sub_w_ok by lia. bsimpl. rewrite !add_w_ok by word_lia. bsimpl.
  cbn [push_chunk f_md]. rewrite (proj1 (proj2 Hsame)), Hmd, len_app.
  replace (len pre + len suf - len pre)%N with (len suf) by lia.
  assert (len (slice used (len data) data) = len data - used)%N as Hleft by (rewrite len_slice; lia).
  assert (forall k, (used + k <= len data)%N ->
    chunk_data img None (mkFileChunk (mkBlobRef digest used compressed) k) (slice used k data)) as Hchunk.
  { intros k Hk. by exists data. }
  apply app_eq_split in Hstream as [(m & Hm & Hrest)|(m & Hne & Hm & ->)].
  - (* the blob goes on after the end of the file *)
    pose proof (f_equal len Hm) as Hml. rewrite Hleft, len_app in Hml.
    destruct (slice_rest_app data suf m used Hm) as [Hs1 Hs2].
    rewrite N.min_l, N.eqb_refl by lia. rewrite Hit.
    pose proof (complete_file img orig st f0 f before pre suf after _ Horig Hsame Hb Hc Hfr
      (eq_rect _ _ (Hchunk (len suf) ltac:(lia)) _ Hs1)) as Hnext.
    destruct (next_file after.*1) as [[skipped next] iter']. cbn beta iota zeta in Hnext.
    destruct next as [f'|]; destruct Hnext as [Hnext Hst].
    + apply IH; [lia | by rewrite Hs2, <-Hrest | cbn; rewrite Hit, length_fmap in Hfuel; lia].
    + eexists _, true. split; [done|]. rewrite Hrest in Hnext. by apply app_nil in Hnext as [_ ->].
  - (* the file goes on after the end of the blob *)
    pose proof (f_equal len Hm) as Hml. rewrite len_app, Hleft in Hml.
    assert (0 < len m)%N by (destruct m; [done | rewrite len_cons; lia]).
    rewrite N.min_r by lia. rewrite (proj2 (N.eqb_neq _ _)) by lia.
    destruct fuel as [|fuel]; [lia|]. cbn [use_chunk]. rewrite (proj2 (N.ltb_ge _ _)) by lia.
    eexists _, false. split; [done|].
    exists before, f0, (pre ++ slice used (len data) data), m, after,
      (push_chunk f (mkFileChunk (mkBlobRef digest used compressed) (len data - used))).
    rewrite <-app_assoc, <-Hm, !len_app, Hleft. do 4 (split; [done|]).
    split; [|by rewrite Hmd, len_app]. apply file_content_snoc; [done|].
    replace (slice used (len data) data) with (slice used (len data - used) data); [apply Hchunk; lia|].
    by rewrite <-(slice_min used (len data)), N.min_r by lia.
Qed.

Context {SL : Sha256Ok SH} {HL : HexOk H} {DL : OciDigestOk D}.
Context {RF : OsReadFull R} {ZSL : ZstdSeekableOk ZS}.

(** The verity data gains an entry per stored chunk: the digest of what was compressed. *)
Definition chunk_verity (C : Compression) (verity_data : VerityData) (c : ChunkData) : VerityData :=
  match compress_buf (cd_data c) with
  | Ok (z, _) => <[sha256 (stored_form C (cd_data c)).1 := fs_verity_sha256 z]> verity_data
  | _ => verity_data
  end.

Lemma process_items_spec (C : Compression) U chunks img orig st vd man :
  C = Noop \/ C = Zstd -> healthy U img -> Forall sound_chunk chunks ->
  Forall (fun c => U (stored_form C (cd_data c)).1) chunks ->
  Forall (fun fd => len fd.2 < 2 ^ 63)%N orig ->
  in_progress img orig st (concat (cd_data <$> chunks)) ->
  exists img' st' man',
    process_items C (Ok <$> chunks) img st vd man
    = Ok (img', st', foldl (chunk_verity C) vd chunks, man', []) /\
    healthy U img' /\ image_extends img img' /\ finished img' orig st'.
Proof.
  intros HC Hh Hs HU Hsmall. revert img st vd man Hh HU.
  induction Hs as [|c chunks (Hne & Hcl & Hlen) Hs IH]; intros img st vd man Hh HU Hinv.
  { destruct Hinv as (before & f0 & pre & suf & after & f & _ & _ & _ & _ & _ & _ & Hsuf & _ & _ & _ & Hstr).
    by destruct suf. }
  inversion HU as [|? ? HUc HUcs]; subst.
  rewrite !fmap_cons in *. cbn [concat foldl process_items] in *.
  destruct (put_blob_healthy C U img (cd_data c) man MT_Chunk HC Hlen Hh HUc)
    as (img1 & man1 & desc & v & comp & -> & Hh1 & Hext & Hdig & _ & _ & _ & Hres & (z & Hz & ->) & _).
  bsimpl. rewrite Hdig. cbn [map_err]. bsimpl. cbn [underlying digest_bytes]. rewrite Hcl.
  destruct (use_chunk_spec (2 + length (cs_iter st)) img1 orig (sha256 (stored_form C (cd_data c)).1) comp
              (cd_data c) 0 st (concat (cd_data <$> chunks))) as (st1 & broke & Huse & Hpost);
    [done | done | lia | done | | lia |].
  { rewrite slice_all by lia. eapply in_progress_mono; [apply subseteq_data_kept, Hext | done]. }
  rewrite Huse. bsimpl.
  assert (<[sha256 (stored_form C (cd_data c)).1 := fs_verity_sha256 z]> vd = chunk_verity C vd c) as ->
    by (unfold chunk_verity; by rewrite Hz).
  destruct broke.
  - destruct Hpost as [Hnil Hfin]. destruct chunks as [|c2 chunks].
    + eexists _, _, _. split; [done|]. done.
    + exfalso. cbn in Hnil. apply app_nil in Hnil as [Hnil _].
      inversion Hs as [|? ? [Hne2 _] _]; subst. done.
  - destruct (IH img1 st1 (chunk_verity C vd c) man1 Hh1 HUcs Hpost) as (img2 & st2 & man2 & -> & Hh2 & Hext2 & Hfin).
    eexists _, _, _. split; [done|]. split; [done|]. split; [|done].
    destruct Hext as [Ha Hb], Hext2 as [Ha2 Hb2]. split; [by transitivity (img_blobs img1) | congruence].
Qed.

Lemma process_chunks_spec (C : Compression) U chunks img orig vd man :
  C = Noop \/ C = Zstd -> healthy U img -> Forall sound_chunk chunks ->
  Forall (fun c => U (stored_form C (cd_data c)).1) chunks ->
  Forall (fun fd => len fd.2 < 2 ^ 63)%N orig -> Forall fresh orig ->
  concat (cd_data <$> chunks) = concat orig.*2 ->
  exists img' files' man',
    process_chunks C img (Ok <$> chunks) orig.*1 vd man
    = Ok (img', files', foldl (chunk_verity C) vd chunks, man') /\
    healthy U img' /\ image_extends img img' /\ Forall2 (rendered img') files' orig.
Proof.
  intros HC Hh Hs HU Hsmall Hfresh Hcat. unfold process_chunks.
  pose proof (next_file_state img orig [] [] orig eq_refl ltac:(constructor) Hfresh) as Hnext.
  destruct (next_file orig.*1) as [[passed file] rest]. cbn [app] in Hnext. cbn beta iota zeta in Hnext.
  destruct file as [f|]; destruct Hnext as [Hstr Hst].
  - rewrite <-Hcat in Hstr.
    destruct (process_items_spec C U chunks img orig _ vd man HC Hh Hs HU Hsmall Hstr)
      as (img' & st' & man' & -> & Hh' & Hext & (Hf & Hi & Hr)).
    bsimpl. rewrite Hf, Hi. cbn. eexists _, _, _. split; [done|]. split; [done|]. split; [done|].
    by rewrite app_nil_r.
  - assert (chunks = []) as ->.
    { destruct Hs as [|c chunks [Hne _] _]; [done|]. rewrite Hstr in Hcat. csimpl. cbn in Hcat.
      by apply app_nil in Hcat as [? _]. }
    destruct Hst as (Hf & Hi & Hr). cbn in *. rewrite Hi. eexists _, _, _. split; [done|].
    split; [done|]. split; [done|]. by rewrite app_nil_r.
Qed.

(** C8: [process_chunks] describes every file exactly.  Given the files of a build and their
    contents, and any partition of the concatenated contents into chunks, it succeeds (no
    unwrap, assertion or overflow panics), and the chunk list of every file resolves, in the
    resulting store, to exactly the content of that file: chunks that hold several files, files
    that span several chunks and empty files included.  Inode numbers, metadata and the store's
    older blobs are untouched. *)
Theorem process_chunks_correct (C : Compression) (U : bytes -> Prop) (chunks : list ChunkData)
    (img : Img) (orig : list (File * bytes)) (vd : VerityData) (man : ImageManifest) :
  C = Noop \/ C = Zstd -> healthy U img -> Forall sound_chunk chunks ->
  Forall (fun c => U (stored_form C (cd_data c)).1) chunks ->
  Forall (fun fd => len fd.2 < 2 ^ 63)%N orig -> Forall fresh orig ->
  concat (cd_data <$> chunks) = concat orig.*2 ->
  exists img' files' vd' man',
    process_chunks C img (Ok <$> chunks) orig.*1 vd man = Ok (img', files', vd', man') /\
    healthy U img' /\ image_extends img img' /\ Forall2 (rendered img') files' orig.
Proof.
  intros HC Hh Hs HU Hsmall Hfresh Hcat.
  destruct (process_chunks_spec C U chunks img orig vd man HC Hh Hs HU Hsmall Hfresh Hcat)
    as (img' & files' & man' & Heq & Hrest). by eexists _, _, _, _.
Qed.

End process_chunks.
