(* ===== verification/Verity.v ===== *)
(** fs-verity: [enable_fs_verity] of [builder.rs], and what the checks of [oci.rs] guarantee to a
    reader that opens an image with a root hash. *)

From S2P Require Import Prelude Errors RustStd Capnp Format Digest InodeTable Compression Oci Reader Chunks.

(** ** Effects on the store

    Sealing a file changes the store, and stays when a later step fails. *)

Definition store_bind {I A B} (c : Image I * Result A) (k : Image I -> A -> Image I * Result B)
  : Image I * Result B :=
  match c with
  | (s, Ok a) => k s a
  | (s, Err e) => (s, Err e)
  | (s, Panic) => (s, Panic)
  | (s, Diverged) => (s, Diverged)
  end.

Section enable.
Context {P : Profile} {R : OsRead} {ZS : ZstdSeekable}.
Context {H : Hex} {SH : Sha256} {V : FsVerity} {D : OciDigest} {OD : OciDir} {W : CapnpWire}.

Abbreviation Img := (Image oci_index).

Definition set_blob (oci : Img) (name : bytes) (f : BlobFile) : Img :=
  mkImage (<[name := f]> (img_blobs oci)) (img_index oci).

(** [enable_verity_for_file] on an open blob; the file as the call leaves it. *)
Definition enable_verity_for_file (oci : Img) (name : bytes) (file : BlobFile) : Img * Result BlobFile :=
  let '(file, r) := fsverity_enable file in
  let oci := set_blob oci name file in
  match r with
  | Err e => if decide (io_kind e = AlreadyExists) then (oci, Ok file) else (oci, Err (IOError e))
  | _ => (oci, Ok file)
  end.

(** [enable_and_check_verity_for_file]. *)
Definition enable_and_check_verity_for_file (oci : Img) (name : bytes) (file : BlobFile)
    (expected : bytes) : Img * Result () :=
  store_bind (enable_verity_for_file oci name file) (fun oci file => (oci, check_fs_verity file expected)).

(** The loop over the verity data. *)
Fixpoint enable_blobs (oci : Img) (l : list (bytes * bytes)) : Img * Result () :=
  match l with
  | [] => (oci, Ok ())
  | (content_addressed_file, verity_hash) :: l =>
      let name := Digest_to_string (Digest_new content_addressed_file) in
      match img_blobs oci !! name with
      | None => (oci, Err (IOError (OsError (errno_code ENOENT))))
      | Some fd =>
          store_bind (enable_and_check_verity_for_file oci name fd verity_hash)
            (fun oci _ => enable_blobs oci l)
      end
  end.

(** [enable_fs_verity]. *)
Definition enable_fs_verity (oci : Img) (tag manifest_root_hash : bytes) : Img * Result () :=
  store_bind (oci, image_manifest_digest oci tag) (fun oci manifest_name =>
  store_bind (oci, get_image_manifest_fd oci tag) (fun oci manifest_fd =>
  store_bind (oci, map_err HexError (hex_decode manifest_root_hash)) (fun oci root_hash =>
  store_bind (enable_and_check_verity_for_file oci manifest_name manifest_fd root_hash) (fun oci _ =>
  store_bind (oci, PuzzleFS_open oci tag None) (fun oci _ =>
  store_bind (oci, open_rootfs_blob oci tag None) (fun oci rootfs =>
  store_bind (oci, pfs_rootfs_digest oci tag) (fun oci rootfs_name =>
  store_bind (oci, get_pfs_rootfs oci tag None) (fun oci rootfs_fd =>
  store_bind (oci, get_pfs_rootfs_verity oci tag) (fun oci rootfs_verity =>
  store_bind (enable_and_check_verity_for_file oci rootfs_name rootfs_fd rootfs_verity) (fun oci _ =>
  store_bind (oci, find_manifest oci tag) (fun oci manifest =>
  let config_digest := d_digest (im_config manifest) in
  store_bind (oci, ok_or (img_blobs oci !! config_digest) (IOError (OsError (errno_code ENOENT))))
    (fun oci config =>
  store_bind (enable_verity_for_file oci config_digest config) (fun oci _ =>
  store_bind (oci, get_verity_data rootfs) (fun oci verity_data =>
  enable_blobs oci (btree_iter verity_data))))))))))))))).

(** ** Sealed stores *)

(** What the kernel guarantees: a measurement is the digest of the data it was taken of. *)
Definition sealed_ok (img : Img) : Prop :=
  map_Forall (fun _ f => forall m, bf_verity f = Some m -> m = fs_verity_sha256 (bf_data f)) (img_blobs img).

(** [img2] is [img1] with more files sealed. *)
Definition seals (img1 img2 : Img) : Prop :=
  img_index img1 = img_index img2 /\
  (forall name, bf_data <$> img_blobs img1 !! name = bf_data <$> img_blobs img2 !! name) /\
  (forall name f m, img_blobs img1 !! name = Some f -> bf_verity f = Some m ->
     exists f2, img_blobs img2 !! name = Some f2 /\ bf_verity f2 = Some m).

#[export] Instance seals_preorder : PreOrder seals.
Proof.
  split.
  - intros img. split; [done|]. split; [done|]. eauto.
  - intros a b c (H1 & H2 & H3) (H4 & H5 & H6). split; [congruence|]. split; [congruence|].
    intros name f m Hf Hm. destruct (H3 _ _ _ Hf Hm) as (f2 & Hf2 & Hm2). eauto.
Qed.

Lemma seals_lookup img1 img2 name f :
  seals img1 img2 -> img_blobs img1 !! name = Some f ->
  exists f2, img_blobs img2 !! name = Some f2 /\ bf_data f2 = bf_data f.
Proof.
  intros (_ & Hd & _) Hf. specialize (Hd name). rewrite Hf in Hd.
  destruct (img_blobs img2 !! name) as [f2|]; [|done]. exists f2. split; [done|]. by injection Hd.
Qed.

Lemma seals_data_extends img1 img2 : seals img1 img2 -> data_extends img1 img2.
Proof. intros Hs. split; [apply Hs|]. intros name f Hf. by eapply seals_lookup. Qed.

(** The file is measured in the store, and the measurement is [e]. *)
Definition measured (img : Img) (name e : bytes) : Prop :=
  exists f, img_blobs img !! name = Some f /\ bf_verity f = Some e /\ len e = SHA256_BLOCK_SIZE.

Lemma measured_seals img1 img2 name e : seals img1 img2 -> measured img1 name e -> measured img2 name e.
Proof.
  intros (_ & _ & Hs) (f & Hf & Hm & Hl). destruct (Hs _ _ _ Hf Hm) as (f2 & Hf2 & Hm2). by exists f2.
Qed.

Lemma enable_verity_for_file_ok oci name file oci' file' :
  img_blobs oci !! name = Some file -> enable_verity_for_file oci name file = (oci', Ok file') ->
  seals oci oci' /\ img_blobs oci' !! name = Some file'.
Proof.
  intros Hf. unfold enable_verity_for_file, fsverity_enable.
  assert (seals oci (set_blob oci name file)) as Hsame.
  { assert (set_blob oci name file = oci) as ->; [|done]. unfold set_blob. rewrite insert_id by done. by destruct oci. }
  destruct (negb verity_supported); cbn beta iota zeta.
  { case_decide; [|done]. intros [= <- <-]. split; [done|]. cbn. by rewrite lookup_insert_eq. }
  destruct (bf_verity file) as [m|] eqn:Hv.
  - case_decide; [|done]. intros [= <- <-]. split; [done|]. cbn. by rewrite lookup_insert_eq.
  - intros [= <- <-]. split; [|cbn; by rewrite lookup_insert_eq]. split; [done|]. split.
    + intros n. cbn. destruct (decide (n = name)) as [->|].
      * by rewrite Hf, lookup_insert_eq.
      * by rewrite lookup_insert_ne.
    + intros n f m Hn Hm. cbn. destruct (decide (n = name)) as [->|]; [congruence|].
      rewrite lookup_insert_ne by done. eauto.
Qed.

Lemma enable_and_check_ok oci name file e oci' :
  img_blobs oci !! name = Some file ->
  enable_and_check_verity_for_file oci name file e = (oci', Ok ()) ->
  seals oci oci' /\ measured oci' name e.
Proof.
  intros Hf. unfold enable_and_check_verity_for_file.
  destruct (enable_verity_for_file oci name file) as [o r] eqn:He. destruct r as [file'| | |]; try done.
  cbn. intros [= <- Hc]. destruct (enable_verity_for_file_ok _ _ _ _ _ Hf He) as [Hs Hf'].
  split; [done|]. apply check_fs_verity_ok in Hc as [Hl Hm]. by exists file'.
Qed.

Lemma enable_blobs_ok l oci oci' :
  enable_blobs oci l = (oci', Ok ()) ->
  seals oci oci' /\ Forall (fun kv => measured oci' (hex_encode kv.1) kv.2) l.
Proof.
  revert oci. induction l as [|[k v] l IH]; intros oci; cbn [enable_blobs]; [by intros [= <-]|].
  destruct (img_blobs oci !! _) as [fd|] eqn:Hfd; [|done].
  destruct (enable_and_check_verity_for_file oci _ fd v) as [o r] eqn:He.
  destruct r as [[]| | |]; try done. cbn. intros Hr. destruct (enable_and_check_ok _ _ _ _ _ Hfd He) as [Hs Hm].
  destruct (IH o Hr) as [Hs2 Hall]. split; [by transitivity o|]. constructor; [|done].
  by eapply measured_seals.
Qed.

Lemma store_bind_ok_inv {I A B} (c : Image I * Result A) (k : Image I -> A -> Image I * Result B) s b :
  store_bind c k = (s, Ok b) -> exists s1 a, c = (s1, Ok a) /\ k s1 a = (s, Ok b).
Proof. destruct c as [s1 []]; cbn; [eauto | done..]. Qed.

(** ** Opening a sealed image *)

Context {ODL : OciDirOk OD}.

Lemma find_manifest_seals img1 img2 tag m :
  seals img1 img2 -> find_manifest img1 tag = Ok m -> find_manifest img2 tag = Ok m.
Proof.
  intros Hs (o & Ho & Hm)%bind_ok_inv. destruct o as [m'|]; [|done]. injection Hm as ->.
  unfold find_manifest. by rewrite (find_manifest_extends img1 img2 tag m (seals_data_extends _ _ Hs) Ho).
Qed.

Lemma image_manifest_digest_seals img1 img2 tag n :
  seals img1 img2 -> image_manifest_digest img1 tag = Ok n -> image_manifest_digest img2 tag = Ok n.
Proof.
  intros Hs (o & Ho & Hm)%bind_ok_inv. destruct o as [d|]; [|done].
  unfold image_manifest_digest. by rewrite (find_descriptor_extends img1 img2 tag d (seals_data_extends _ _ Hs) Ho).
Qed.

Lemma pfs_rootfs_digest_seals img1 img2 tag n :
  seals img1 img2 -> pfs_rootfs_digest img1 tag = Ok n -> pfs_rootfs_digest img2 tag = Ok n.
Proof.
  intros Hs (m & Hm & Hr)%bind_ok_inv. unfold pfs_rootfs_digest.
  by rewrite (find_manifest_seals _ _ _ _ Hs Hm).
Qed.

Lemma get_pfs_rootfs_verity_seals img1 img2 tag v :
  seals img1 img2 -> get_pfs_rootfs_verity img1 tag = Ok v -> get_pfs_rootfs_verity img2 tag = Ok v.
Proof.
  intros Hs (m & Hm & Hr)%bind_ok_inv. unfold get_pfs_rootfs_verity.
  by rewrite (find_manifest_seals _ _ _ _ Hs Hm).
Qed.

Lemma open_raw_blob_measured img name e :
  measured img name e -> exists f, img_blobs img !! name = Some f /\ open_raw_blob img name (Some e) = Ok f.
Proof.
  intros (f & Hf & Hm & Hl). exists f. split; [done|]. unfold open_raw_blob. rewrite Hf. cbn [ok_or]. bsimpl.
  by rewrite (proj2 (check_fs_verity_ok f e)).
Qed.

(** Once the manifest and the rootfs are measured, the checked open reads what the unchecked one
    read before sealing. *)
Lemma open_rootfs_blob_sealed img img' tag reader mname root rname rverity :
  open_rootfs_blob img tag None = Ok reader -> seals img img' ->
  image_manifest_digest img tag = Ok mname -> measured img' mname root ->
  pfs_rootfs_digest img tag = Ok rname -> get_pfs_rootfs_verity img tag = Ok rverity ->
  measured img' rname rverity ->
  open_rootfs_blob img' tag (Some root) = Ok reader.
Proof.
  intros Hopen Hs Hmn Hmm Hrn Hrv Hrm. unfold open_rootfs_blob, get_pfs_rootfs in *.
  cbn [mbind outcome_bind] in Hopen. rewrite Hrn in Hopen. cbn [mbind outcome_bind] in Hopen.
  unfold open_raw_blob in Hopen. destruct (img_blobs img !! rname) as [rf|] eqn:Hrf; [|done].
  cbn [ok_or mbind outcome_bind map_err] in Hopen.
  unfold get_image_manifest_fd. rewrite (image_manifest_digest_seals _ _ _ _ Hs Hmn). bsimpl.
  destruct Hmm as (mf & Hmf & Hmv & Hml).
  assert (open_raw_blob img' mname None = Ok mf) as -> by (unfold open_raw_blob; by rewrite Hmf).
  cbn [map_err]. bsimpl. rewrite (proj2 (check_fs_verity_ok mf root)) by done. bsimpl.
  rewrite (get_pfs_rootfs_verity_seals _ _ _ _ Hs Hrv). bsimpl.
  rewrite (pfs_rootfs_digest_seals _ _ _ _ Hs Hrn). bsimpl.
  destruct (open_raw_blob_measured _ _ _ Hrm) as (f & Hf & ->). cbn [map_err]. bsimpl.
  destruct (seals_lookup _ _ _ _ Hs Hrf) as (f2 & Hf2 & Hd). rewrite Hf in Hf2. injection Hf2 as ->.
  by rewrite Hd.
Qed.

Lemma btree_iter_elem m k v : (k, v) ∈ btree_iter m <-> m !! k = Some v.
Proof. unfold btree_iter. by rewrite merge_sort_Permutation, elem_of_map_to_list. Qed.

(** C19: sealing makes the image openable with its root hash.  When [enable_fs_verity] succeeds, no
    blob's data has changed, the same image can afterwards be opened with the root hash checked,
    all the way from the manifest to the metadata blob, and every chunk listed in the metadata
    passes the check that each read performs. *)
Theorem enable_fs_verity_opens (oci oci' : Img) (tag hash : bytes) :
  enable_fs_verity oci tag hash = (oci', Ok ()) ->
  seals oci oci' /\
  exists root pfs vd, hex_decode hash = Ok root /\ PuzzleFS_open oci' tag (Some root) = Ok pfs /\
    pfs_verity_data pfs = Some vd /\
    forall chunk, is_Some (vd !! br_digest chunk) -> verified oci' (pfs_verity_data pfs) chunk.
Proof.
  intros He. unfold enable_fs_verity in He.
  apply store_bind_ok_inv in He as (o1 & mname & [= <- Hmn] & He).
  apply store_bind_ok_inv in He as (o2 & mfd & [= <- Hmfd] & He).
  apply store_bind_ok_inv in He as (o3 & root & [= <- Hroot] & He). apply map_err_ok_inv in Hroot.
  unfold get_image_manifest_fd in Hmfd. rewrite Hmn in Hmfd. apply map_err_ok_inv in Hmfd.
  apply store_bind_ok_inv in He as (o4 & [] & Hman & He).
  unfold open_raw_blob in Hmfd. destruct (img_blobs oci !! mname) as [mf|] eqn:Hmf; [|done]. injection Hmfd as ->.
  destruct (enable_and_check_ok _ _ _ _ _ Hmf Hman) as [Hs4 Hm4]. clear Hman.
  apply store_bind_ok_inv in He as (o5 & pfs0 & [= <- Hpfs0] & He).
  apply store_bind_ok_inv in He as (o6 & reader & [= <- Hreader] & He).
  apply store_bind_ok_inv in He as (o7 & rname & [= <- Hrn] & He).
  apply store_bind_ok_inv in He as (o8 & rfd & [= <- Hrfd] & He).
  apply store_bind_ok_inv in He as (o9 & rverity & [= <- Hrv] & He).
  unfold get_pfs_rootfs in Hrfd. rewrite Hrn in Hrfd. apply map_err_ok_inv in Hrfd.
  unfold open_raw_blob in Hrfd. destruct (img_blobs o4 !! rname) as [rf|] eqn:Hrf; [|done]. injection Hrfd as ->.
  apply store_bind_ok_inv in He as (o10 & [] & Hren & He).
  destruct (enable_and_check_ok _ _ _ _ _ Hrf Hren) as [Hs10 Hm10]. clear Hren.
  apply store_bind_ok_inv in He as (o11 & manifest & [= <- Hmanifest] & He).
  apply store_bind_ok_inv in He as (o12 & config & [= <- Hcfg] & He).
  destruct (img_blobs o10 !! d_digest (im_config manifest)) as [cf|] eqn:Hcf; [|done]. injection Hcfg as ->.
  apply store_bind_ok_inv in He as (o13 & config' & Hcen & He).
  destruct (enable_verity_for_file_ok _ _ _ _ _ Hcf Hcen) as [Hs13 _]. clear Hcen.
  apply store_bind_ok_inv in He as (o14 & vd & [= <- Hvd] & He).
  apply enable_blobs_ok in He as [Hs Hall].
  assert (seals o10 oci') as Hs10' by (by transitivity o13).
  assert (seals o4 oci') as Hs4' by (by transitivity o10).
  split; [by transitivity o4|]. exists root, (mkPuzzleFS oci' reader (Some vd) (Some root)), vd.
  split; [done|]. split; [|split; [done|]].
  - unfold PuzzleFS_open in *.
    rewrite (open_rootfs_blob_sealed o4 oci' tag reader mname root rname rverity Hreader Hs4'
               (image_manifest_digest_seals _ _ _ _ Hs4 Hmn) (measured_seals _ _ _ _ Hs4' Hm4) Hrn Hrv
               (measured_seals _ _ _ _ Hs10' Hm10)).
    rewrite Hreader in Hpfs0. cbn [mbind outcome_bind] in *.
    apply bind_ok_inv in Hpfs0 as (ver & Hver & Hpfs0). rewrite Hver. bsimpl.
    destruct (negb _); [by rewrite Hver in Hpfs0|]. by rewrite Hvd.
  - intros chunk [e Hce]. rewrite Forall_forall in Hall.
    destruct (Hall (br_digest chunk, e)) as (f & Hf & Hm & Hl); [by apply btree_iter_elem|].
    by exists f, e.
Qed.

(** ** What a verified read guarantees *)

Lemma open_raw_blob_verified img name e f :
  open_raw_blob img name (Some e) = Ok f ->
  img_blobs img !! name = Some f /\ len e = SHA256_BLOCK_SIZE /\ bf_verity f = Some e /\
  open_raw_blob img name None = Ok f.
Proof.
  unfold open_raw_blob. destruct (img_blobs img !! name) as [f0|]; [|done]. cbn [ok_or mbind outcome_bind].
  intros ([] & [Hl Hm]%map_err_ok_inv%check_fs_verity_ok & [= ->])%bind_ok_inv. done.
Qed.

(** C16: verified reads return only data that was measured.  When an image is read with verity data,
    a successful read of a chunk implies that the metadata lists a measurement for the chunk's
    blob, that fs-verity is enabled on the blob with that measurement, and that what was read is
    what an unchecked read of the blob gives; so the blob is byte for byte any data the listed
    measurement was taken of, unless that data collides with a blob of the store.  A blob that is
    missing from the metadata, not sealed, or sealed with other contents is refused. *)
Theorem fill_from_chunk_verified (img : Img) (chunk : BlobRef) (addl n : N) (vd : VerityData) (out : bytes) :
  sealed_ok img -> fill_from_chunk img chunk addl n (Some vd) = Ok out ->
  exists e f, vd !! br_digest chunk = Some e /\ img_blobs img !! hex_encode (br_digest chunk) = Some f /\
    bf_verity f = Some e /\ e = fs_verity_sha256 (bf_data f) /\
    fill_from_chunk img chunk addl n None = Ok out /\
    forall good, e = fs_verity_sha256 good ->
      (forall f, f ∈ (map_to_list (img_blobs img)).*2 ->
         fs_verity_sha256 (bf_data f) = fs_verity_sha256 good -> bf_data f = good) ->
      bf_data f = good.
Proof.
  intros Hsealed. unfold fill_from_chunk, Digest_try_from_BlobRef. bsimpl. cbn [underlying digest_bytes].
  destruct (vd !! br_digest chunk) as [e|] eqn:Hvd; [|done]. cbn [ok_or]. bsimpl. intros Hread.
  assert (exists f, open_raw_blob img (hex_encode (br_digest chunk)) (Some e) = Ok f /\
    (if br_compressed chunk
     then read_blob Zstd img (mkDigest (br_digest chunk)) None (add_w u64_bits (br_offset chunk) addl) n
     else read_blob Noop img (mkDigest (br_digest chunk)) None (add_w u64_bits (br_offset chunk) addl) n) = Ok out)
    as (f & Hf & Hout).
  { unfold read_blob, open_compressed_blob, Digest_to_string in *. cbn [digest_bytes] in *.
    destruct (open_raw_blob img _ (Some e)) as [f| | |] eqn:Hf; [|by destruct (br_compressed chunk)..].
    exists f. split; [done|]. by rewrite (proj2 (proj2 (proj2 (open_raw_blob_verified _ _ _ _ Hf)))). }
  destruct (open_raw_blob_verified _ _ _ _ Hf) as (Hf0 & _ & Hm & _). exists e, f. do 3 (split; [done|]).
  pose proof (Hsealed _ _ Hf0 e Hm) as He. split; [done|]. split; [done|]. intros good -> Hinj. apply Hinj; [|done].
  apply list_elem_of_fmap. exists (hex_encode (br_digest chunk), f). split; [done|]. by apply elem_of_map_to_list.
Qed.

(** C26: opening with a root hash fails closed.  [PuzzleFS::open] with a manifest hash succeeds only
    if the kernel's measurement of the manifest blob equals that hash and the measurement of the
    metadata blob equals the hash in the manifest's annotation; the metadata the reader uses is read
    from that blob, and the verity data later reads are checked against is the one in it. *)
Theorem PuzzleFS_open_verified (img : Img) (tag root : bytes) (pfs : PuzzleFS) :
  PuzzleFS_open img tag (Some root) = Ok pfs ->
  exists mname rname rverity f vd, image_manifest_digest img tag = Ok mname /\ measured img mname root /\
    pfs_rootfs_digest img tag = Ok rname /\ get_pfs_rootfs_verity img tag = Ok rverity /\
    img_blobs img !! rname = Some f /\ bf_verity f = Some rverity /\ len rverity = SHA256_BLOCK_SIZE /\
    RootfsReader_open (bf_data f) = Ok (pfs_rootfs pfs) /\
    get_verity_data (pfs_rootfs pfs) = Ok vd /\ pfs_verity_data pfs = Some vd /\ pfs_oci pfs = img.
Proof.
  unfold PuzzleFS_open. intros (reader & Hopen & Hr)%bind_ok_inv.
  apply bind_ok_inv in Hr as (ver & Hver & Hr). destruct (negb _); [by rewrite Hver in Hr|].
  apply bind_ok_inv in Hr as (ovd & Hovd & Hr). injection Hr as <-. cbn [pfs_rootfs pfs_verity_data].
  destruct (get_verity_data reader) as [vd| | |] eqn:Hvd; try done. injection Hovd as <-.
  unfold open_rootfs_blob in Hopen. apply bind_ok_inv in Hopen as (orv & Horv & Hopen).
  apply bind_ok_inv in Horv as (mf & Hmf & Horv). apply bind_ok_inv in Horv as ([] & Hc & Horv).
  destruct (get_pfs_rootfs_verity img tag) as [rverity| | |] eqn:Hrv; try done. injection Horv as <-.
  apply bind_ok_inv in Hmf as (mname & Hmn & Hmf%map_err_ok_inv).
  apply bind_ok_inv in Hopen as (rf & Hrf & Hread). apply bind_ok_inv in Hrf as (rname & Hrn & Hrf%map_err_ok_inv).
  exists mname, rname, rverity, rf, vd. split; [done|]. split.
  { unfold open_raw_blob in Hmf. destruct (img_blobs img !! mname) as [f|] eqn:Hf; [|done]. injection Hmf as ->.
    apply check_fs_verity_ok in Hc as [Hl Hm]. by exists mf. }
  do 2 (split; [done|]). by destruct (open_raw_blob_verified _ _ _ _ Hrf) as (? & ? & ? & _).
Qed.

(** ** The digest [put_blob] announces *)

Context {SL : Sha256Ok SH} {HL : HexOk H} {DL : OciDigestOk D}.
Context {RF : OsReadFull R} {ZSL : ZstdSeekableOk ZS} {VL : FsVerityOk V}.

(** Sealing a file that is not sealed and checking it against [e]. *)
Lemma enable_and_check_new img name data e :
  verity_supported = true -> len e = SHA256_BLOCK_SIZE ->
  (enable_and_check_verity_for_file img name (mkBlobFile data None) e).2
  = if decide (fs_verity_sha256 data = e) then Ok () else Err (InvalidFsVerityData (VerityMismatch e (fs_verity_sha256 data))).
Proof.
  intros Hs Hl. unfold enable_and_check_verity_for_file, enable_verity_for_file, fsverity_enable. rewrite Hs. cbn.
  unfold check_fs_verity, fsverity_measure. rewrite Hl, N.eqb_refl. cbn.
  case_decide as Hd; [rewrite bool_decide_eq_false_2 | rewrite bool_decide_eq_true_2]; [done|by intros []|done|].
  intros ->. by apply Hd.
Qed.

(** C36: the fs-verity digest [put_blob] returns is right exactly when it should be.  The digest
    announced is that of the compressor's output.  The blob [put_blob] has written is that output
    when there is no compression or the data shrank; when [Zstd] does not make the data smaller, the
    blob is the uncompressed data.  So sealing the blob and checking it against the announced digest,
    which is what enabling fs-verity on the image does, fails with a mismatch in that last case,
    unless the two digests happen to be the same, and succeeds otherwise. *)
Theorem put_blob_verity_digest (C : Compression) (img img' : Img) (buf c v : bytes)
    (man man' : ImageManifest) (mt : PuzzleFSMediaType) (desc : Descriptor) (compressed : bool) (n : N) :
  C = Noop \/ C = Zstd -> (len buf < 2 ^ 63)%N -> verity_supported = true ->
  put_blob C img buf man mt = Ok (img', man', (desc, v, compressed)) ->
  img_blobs img !! d_digest desc = None -> compress_buf buf = Ok (c, n) ->
  exists f, img_blobs img' !! d_digest desc = Some f /\ v = fs_verity_sha256 c /\
    bf_data f = (if negb c_is_noop && (len buf <=? len c)%N then buf else c) /\
    (enable_and_check_verity_for_file img' (d_digest desc) f v).2
    = if decide (fs_verity_sha256 (bf_data f) = v) then Ok ()
      else Err (InvalidFsVerityData (VerityMismatch v (fs_verity_sha256 (bf_data f)))).
Proof.
  intros HC Hlen Hs Hput Hnone Hc. pose proof (compression_ok_of C HC) as HCok.
  destruct (put_blob_ok_inv C img buf man mt img' man' desc v compressed Hlen Hput)
    as (_ & _ & _ & _ & (c' & Hc' & ->) & f & Hf & Hnew & _). rewrite (Hnew Hnone) in Hf.
  assert (c' = c) as -> by congruence. assert (n = len buf) as -> by congruence.
  eexists. split; [exact Hf|]. split; [done|]. split; [|by apply enable_and_check_new].
  cbn [bf_data]. unfold stored_form. rewrite Hc. by destruct (_ && _).
Qed.

End enable.
