(* ===== verification/Builder.v ===== *)
(** [builder.rs]: building the first layer of an image from a directory tree, adding a layer that
    describes the difference to an existing image, and writing the metadata blob.

    The [walkdir] crate and the iteration order of [HashMap] are interfaces. *)

From S2P Require Import Prelude Errors RustStd Capnp Format Digest InodeTable Compression Oci Reader FsStream Chunks.

(** ** Host metadata *)

Section additional.
Context {F : HostFs}.

(** [InodeAdditional::get_xattrs]; [xattr::get] on a listed attribute is unwrapped. *)
Definition get_xattrs (p : Path) : io_Result (list Xattr) :=
  keys ← xattr_list p;
  mapM (fun xa => value ← xattr_get p xa; val ← unwrap value; Ok (mkXattr xa val)) keys.

(** [InodeAdditional::new]. *)
Definition InodeAdditional_new (p : Path) (md : Metadata) : io_Result (option InodeAdditional) :=
  symlink_target ← (if md_is_symlink md then Some <$> fs_read_link p else Ok None);
  xattrs ← get_xattrs p;
  match symlink_target, xattrs with
  | None, [] => Ok None
  | _, _ => Ok (Some (mkAdditional xattrs symlink_target))
  end.

End additional.

(** ** Data of the builder *)

(** [struct Dir]. *)
Record Dir := mkDir {
  bd_ino : N;
  bd_dir_list : DirList;
  bd_md : Metadata;
  bd_additional : option InodeAdditional
}.

(** [struct Other]. *)
Record Other := mkOther { bo_ino : N; bo_md : Metadata; bo_additional : option InodeAdditional }.

(** [Dir::add_entry]. *)
Definition Dir_add_entry (self : Dir) (name : bytes) (ino : N) : Dir :=
  mkDir (bd_ino self)
    (mkDirList (dl_look_below (bd_dir_list self)) (dl_entries (bd_dir_list self) ++ [mkDirEnt ino name]))
    (bd_md self) (bd_additional self).

(** The options [walker] sets on a [WalkDir]. *)
Record WalkOptions := mkWalkOptions {
  wo_root : Path;
  wo_contents_first : bool;
  wo_follow_links : bool;
  wo_same_file_system : bool;
  wo_sort_by : bytes -> bytes -> bool
}.

(** [walkdir]: the entries an iterator with a [filter_entry] predicate yields. *)
Class WalkDir := walkdir_filter_entry : WalkOptions -> (Path -> bool) -> list (io_Result Path).

Definition walker (rootfs : Path) : WalkOptions := mkWalkOptions rootfs false false true bytes_leb.

(** [HashMap::into_values]: the values in some order. *)
Class HashOrder := hash_into_values : gmap N Dir -> list Dir.
Class HashOrderOk (HO : HashOrder) :=
  hash_into_values_perm m : hash_into_values m ≡ₚ (map_to_list m).*2.

(** The local variables of [build_delta] that its loops update. *)
Record Build := mkBuild {
  b_dirs : gmap N Dir;
  b_files : list File;
  b_others : list Other;
  b_pfs_inodes : list Inode;
  b_fs_stream : FilesystemStream;
  b_host_to_pfs : gmap N N;
  b_next_ino : N
}.

Definition set_dirs (b : Build) (dirs : gmap N Dir) : Build :=
  mkBuild dirs (b_files b) (b_others b) (b_pfs_inodes b) (b_fs_stream b) (b_host_to_pfs b) (b_next_ino b).
Definition set_next_ino (b : Build) (n : N) : Build :=
  mkBuild (b_dirs b) (b_files b) (b_others b) (b_pfs_inodes b) (b_fs_stream b) (b_host_to_pfs b) n.
Definition set_host_to_pfs (b : Build) (m : gmap N N) : Build :=
  mkBuild (b_dirs b) (b_files b) (b_others b) (b_pfs_inodes b) (b_fs_stream b) m (b_next_ino b).
Definition push_inode (b : Build) (i : Inode) : Build :=
  mkBuild (b_dirs b) (b_files b) (b_others b) (b_pfs_inodes b ++ [i]) (b_fs_stream b) (b_host_to_pfs b) (b_next_ino b).
Definition push_file (b : Build) (p : Path) (f : File) : Build :=
  mkBuild (b_dirs b) (b_files b ++ [f]) (b_others b) (b_pfs_inodes b) (FilesystemStream_push (b_fs_stream b) p)
    (b_host_to_pfs b) (b_next_ino b).
Definition push_other (b : Build) (o : Other) : Build :=
  mkBuild (b_dirs b) (b_files b) (b_others b ++ [o]) (b_pfs_inodes b) (b_fs_stream b) (b_host_to_pfs b) (b_next_ino b).

Section build.
Context {P : Profile} {R : OsRead} {ZS : ZstdSeekable} {NS : NixStat}.
Context {H : Hex} {SH : Sha256} {V : FsVerity} {D : OciDigest} {OD : OciDir} {W : CapnpWire}.
Context {F : HostFs} {CD : StreamCDC} {WD : WalkDir} {HO : HashOrder}.

Abbreviation Img := (Image oci_index).

(** [serialize_metadata]. *)
Definition serialize_metadata (rootfs : Rootfs) : Result bytes :=
  capnp_rootfs ← Rootfs_fill_capnp rootfs default_Rootfs;
  write_message capnp_rootfs.

(** The closure [rootfs_relative]. *)
Definition rootfs_relative (rootfs p : Path) : Result Path :=
  rel ← unwrap (strip_prefix rootfs p);
  Ok (path_join_path [RootDir] rel).

(** [lookup_existing]. *)
Definition lookup_existing (existing : option PuzzleFS) (p : Path) : Result (option Inode) :=
  match existing with
  | Some pfs => PuzzleFS_lookup pfs p
  | None => Ok None
  end.

(** The loop that adds whiteouts for the entries a directory has lost. *)
Fixpoint add_whiteouts (host_ino : N) (new_names : list bytes) (existing_dirents : list DirEnt)
    (b : Build) : Result Build :=
  match existing_dirents with
  | [] => Ok b
  | dir_ent :: rest =>
      if existsb (fun new => bool_decide (new = de_name dir_ent)) new_names then
        add_whiteouts host_ino new_names rest b
      else
        this_dir ← ok_or (b_dirs b !! host_ino) (from_errno ENOENT);
        let b := push_inode b (new_whiteout (de_ino dir_ent)) in
        let this_dir := Dir_add_entry this_dir (de_name dir_ent) (de_ino dir_ent) in
        add_whiteouts host_ino new_names rest (set_dirs b (<[host_ino := this_dir]> (b_dirs b)))
  end.

(** The end of the loop body for one entry: render what is known of the inode. *)
Definition render_entry (path : Path) (md : Metadata) (cur_ino : N) (b : Build) : Result Build :=
  let b := set_host_to_pfs b (<[md_ino md := cur_ino]> (b_host_to_pfs b)) in
  additional ← map_err IOError (InodeAdditional_new path md);
  Ok (if md_is_dir md then
        set_dirs b (<[md_ino md := mkDir cur_ino (mkDirList false []) md additional]> (b_dirs b))
      else if md_is_file md then push_file b path (mkFile cur_ino [] md additional)
      else push_other b (mkOther cur_ino md additional)).

(** The body of the loop over [new_dirents]. *)
Definition process_entry (rootfs : Path) (existing : option PuzzleFS) (dir : Path) (name : bytes)
    (b : Build) : Result Build :=
  let path := path_join dir name in
  md ← map_err IOError (symlink_metadata path);
  existing_inode ← match existing with
                   | Some pfs =>
                       puzzlefs_path ← rootfs_relative rootfs path;
                       PuzzleFS_lookup pfs puzzlefs_path
                   | None => Ok None
                   end;
  '(cur_ino, b) ← match existing_inode with
                  | Some ex => Ok (i_ino ex, b)
                  | None =>
                      let next := b_next_ino b in
                      next_ino ← add_w u64_bits next 1;
                      Ok (next, set_next_ino b next_ino)
                  end;
  if negb (cur_ino =? 1)%N then
    let the_ino := default cur_ino (b_host_to_pfs b !! md_ino md) in
    parent_path ← ok_or (path_parent path) (IOError (CustomError OtherKind));
    parent_md ← map_err IOError (symlink_metadata parent_path);
    parent ← ok_or (b_dirs b !! md_ino parent_md) (IOError (CustomError OtherKind));
    let parent := Dir_add_entry parent (default [] (file_name path)) the_ino in
    let b := set_dirs b (<[md_ino parent_md := parent]> (b_dirs b)) in
    if bool_decide (is_Some (b_host_to_pfs b !! md_ino md)) then Ok b
    else render_entry path md cur_ino b
  else render_entry path md cur_ino b.

Fixpoint process_entries (rootfs : Path) (existing : option PuzzleFS) (dir : Path)
    (names : list bytes) (b : Build) : Result Build :=
  match names with
  | [] => Ok b
  | name :: names =>
      b ← process_entry rootfs existing dir name b;
      process_entries rootfs existing dir names b
  end.

(** [fs::read_dir(p)?.collect()?] followed by the sort on file names. *)
Definition sorted_dirents (p : Path) : io_Result (list bytes) :=
  entries ← fs_read_dir p;
  names ← mapM (fun e => e) entries;
  Ok (merge_sort bytes_le names).

(** The body of the loop over the directories. *)
Definition process_dir (rootfs : Path) (existing : option PuzzleFS) (dir : io_Result Path)
    (b : Build) : Result Build :=
  d ← map_err IOError dir;
  dir_path ← rootfs_relative rootfs d;
  ex ← lookup_existing existing dir_path;
  let existing_dirents :=
    match ex with
    | Some ex => match i_mode ex with Mode_Dir dir_list => dl_entries dir_list | _ => [] end
    | None => []
    end in
  new_dirents ← map_err IOError (sorted_dirents d);
  this_metadata ← map_err IOError (symlink_metadata d);
  _ ← ok_or (b_dirs b !! md_ino this_metadata) (from_errno ENOENT);
  let new_names := (fun name => default [] (file_name (path_join d name))) <$> new_dirents in
  b ← add_whiteouts (md_ino this_metadata) new_names existing_dirents b;
  process_entries rootfs existing d new_dirents b.

Fixpoint process_dirs (rootfs : Path) (existing : option PuzzleFS) (dirs : list (io_Result Path))
    (b : Build) : Result Build :=
  match dirs with
  | [] => Ok b
  | dir :: dirs =>
      b ← process_dir rootfs existing dir b;
      process_dirs rootfs existing dirs b
  end.

(** The closure of [filter_entry]: directories, and entries whose metadata cannot be read. *)
Definition keep_dirs (p : Path) : bool :=
  match symlink_metadata p with Ok md => md_is_dir md | _ => true end.

(** Everything up to the chunking: the tree is read and inode numbers are assigned. *)
Definition scan_tree (rootfs : Path) (existing : option PuzzleFS) : Result Build :=
  next_ino ← match existing with
             | Some pfs => max ← PuzzleFS_max_inode pfs; add_w u64_bits max 1
             | None => Ok 2%N
             end;
  let rootfs_dirs := walkdir_filter_entry (walker rootfs) keep_dirs in
  root_metadata ← map_err IOError (symlink_metadata rootfs);
  root_additional ← map_err IOError (InodeAdditional_new rootfs root_metadata);
  let dirs := {[ md_ino root_metadata := mkDir 1 (mkDirList false []) root_metadata root_additional ]} in
  process_dirs rootfs existing rootfs_dirs
    (mkBuild dirs [] [] [] FilesystemStream_new ∅ next_ino).

Definition ino_le (a b : Inode) : Prop := (i_ino a <= i_ino b)%N.
#[export] Instance ino_le_dec : RelDecision ino_le.
Proof. intros a b. unfold ino_le. apply _. Defined.

(** The inodes of a layer: whiteouts, directories, files, others, sorted by number. *)
Definition render_layer (b : Build) (files : list File) : Result (list Inode) :=
  dirs ← mapM (fun d => map_err IOError (new_dir (bd_ino d) (bd_md d) (bd_dir_list d) (bd_additional d)))
           (hash_into_values (b_dirs b));
  files ← mapM (fun f => map_err IOError (new_file (f_ino f) (f_md f) (f_chunks f) (f_additional f))) files;
  others ← mapM (fun o => map_err IOError (new_other (bo_ino o) (bo_md o) (bo_additional o))) (b_others b);
  Ok (merge_sort ino_le (b_pfs_inodes b ++ dirs ++ files ++ others)).

(** [build_delta::<C>]: the store, the inodes, the verity data and the manifest. *)
Definition build_delta (C : Compression) (rootfs : Path) (oci : Img) (existing : option PuzzleFS)
    (verity_data : VerityData) (image_manifest : ImageManifest)
  : Result (Img * list Inode * VerityData * ImageManifest) :=
  b ← scan_tree rootfs existing;
  let fcdc := stream_cdc (b_fs_stream b) MIN_CHUNK_SIZE AVG_CHUNK_SIZE MAX_CHUNK_SIZE in
  '(oci, files, verity_data, image_manifest) ←
    process_chunks C oci fcdc (b_files b) verity_data image_manifest;
  pfs_inodes ← render_layer b files;
  Ok (oci, pfs_inodes, verity_data, image_manifest).

(** [build_initial_rootfs::<C>]. *)
Definition build_initial_rootfs (C : Compression) (rootfs : Path) (oci : Img) (tag : bytes)
  : Result (Img * Descriptor) :=
  '(oci, image_manifest) ← get_empty_manifest oci;
  '(oci, inodes, verity_data, image_manifest) ← build_delta C rootfs oci None ∅ image_manifest;
  rootfs_buf ← serialize_metadata (mkRootfs [inodes] verity_data PUZZLEFS_IMAGE_MANIFEST_VERSION);
  '(oci, image_manifest, (rootfs_descriptor, _, _)) ←
    put_blob Noop oci rootfs_buf image_manifest MT_Rootfs;
  '(oci, _) ← oci_insert_manifest oci image_manifest (Some tag);
  Ok (oci, rootfs_descriptor).

(** The new layer goes on top, unless some layer already equals it. *)
Definition insert_layer (metadatas : list (list Inode)) (inodes : list Inode) : list (list Inode) :=
  if existsb (fun x => bool_decide (x = inodes)) metadatas then metadatas else inodes :: metadatas.

(** [add_rootfs_delta::<C>]. *)
Definition add_rootfs_delta (C : Compression) (rootfs_path : Path) (oci : Img) (tag base_layer : bytes)
  : Result (Descriptor * Img) :=
  '(oci, image_manifest) ← get_empty_manifest oci;
  pfs ← PuzzleFS_open oci base_layer None;
  reader ← open_rootfs_blob oci base_layer None;
  rootfs ← Rootfs_try_from reader;
  '(oci, inodes, verity_data, image_manifest) ← build_delta C rootfs_path oci (Some pfs) ∅ image_manifest;
  let rootfs := mkRootfs (insert_layer (rf_metadatas rootfs) inodes)
                  (verity_data ∪ rf_fs_verity_data rootfs) (rf_manifest_version rootfs) in
  rootfs_buf ← serialize_metadata rootfs;
  '(oci, image_manifest, (rootfs_descriptor, _, _)) ←
    put_blob Noop oci rootfs_buf image_manifest MT_Rootfs;
  '(oci, _) ← oci_insert_manifest oci image_manifest (Some tag);
  Ok (rootfs_descriptor, oci).

End build.
