(* ===== verification/BuildFacts.v ===== *)
(** Facts about [builder.rs]: the whiteouts of a delta, and inode numbers: those of a first layer
    are distinct, so that the layer can be searched. *)

From S2P Require Import Prelude Errors RustStd Capnp Format Digest InodeTable Compression Oci Reader FsStream Chunks Builder.

(** ** Sorting by inode number *)

#[export] Instance ino_le_total : Total ino_le.
Proof. intros a b. unfold ino_le. lia. Qed.
#[export] Instance ino_le_trans : Transitive ino_le.
Proof. intros a b c. unfold ino_le. lia. Qed.

Lemma sorted_nodup_lt (l : list Inode) :
  StronglySorted ino_le l -> NoDup (i_ino <$> l) -> StronglySorted N.lt (i_ino <$> l).
Proof.
  induction 1 as [|x l Hs IH Hall]; intros Hnd; csimpl; [constructor|].
  apply NoDup_cons in Hnd as [Hx Hnd]. constructor; [by apply IH|].
  apply Forall_fmap, Forall_forall. intros y Hy. rewrite Forall_forall in Hall.
  specialize (Hall y Hy). unfold ino_le in Hall. cbn.
  assert (i_ino x ≠ i_ino y) by (intros Heq; apply Hx; rewrite Heq; by apply list_elem_of_fmap_2). lia.
Qed.

Lemma merge_sort_inos (l : list Inode) :
  NoDup (i_ino <$> l) -> StronglySorted N.lt (i_ino <$> merge_sort ino_le l).
Proof.
  intros Hnd. apply sorted_nodup_lt; [apply StronglySorted_merge_sort; apply _|].
  by rewrite merge_sort_Permutation.
Qed.

(** ** Inode numbers of a first layer *)

Definition dir_inos (m : gmap N Dir) : list N := (fun kd => bd_ino kd.2) <$> map_to_list m.

(** The numbers in use, whiteouts included. *)
Definition inos (b : Build) : list N :=
  dir_inos (b_dirs b) ++ (f_ino <$> b_files b) ++ (bo_ino <$> b_others b) ++ (i_ino <$> b_pfs_inodes b).

Lemma dir_inos_insert m k d :
  exists rest, dir_inos (<[k := d]> m) ≡ₚ bd_ino d :: rest /\
    match m !! k with
    | None => rest = dir_inos m
    | Some d0 => dir_inos m ≡ₚ bd_ino d0 :: rest
    end.
Proof.
  unfold dir_inos. destruct (m !! k) as [d0|] eqn:Hk.
  - exists ((fun kd => bd_ino kd.2) <$> map_to_list (delete k m)).
    rewrite <-insert_delete_eq, map_to_list_insert by apply lookup_delete_eq.
    split; [done|]. rewrite <-(insert_delete_id m k d0) at 1 by done.
    by rewrite map_to_list_insert by apply lookup_delete_eq.
  - exists ((fun kd => bd_ino kd.2) <$> map_to_list m). by rewrite map_to_list_insert by done.
Qed.

(** Numbers are distinct, handed out already, and there is at least one directory. *)
Record numbered (b : Build) : Prop := {
  numbered_nodup : NoDup (inos b);
  numbered_range : Forall (fun n => n < b_next_ino b)%N (inos b);
  numbered_next : (2 <= b_next_ino b)%N;
  numbered_dirs : b_dirs b ≠ ∅
}.

Section numbering.
Context {P : Profile} {R : OsRead} {ZS : ZstdSeekable} {NS : NixStat}.
Context {H : Hex} {SH : Sha256} {V : FsVerity} {D : OciDigest} {OD : OciDir} {W : CapnpWire}.
Context {F : HostFs} {CD : StreamCDC} {WD : WalkDir} {HO : HashOrder}.

(** Replacing a directory by one with the same number. *)
Lemma numbered_update_dir b k d d0 :
  numbered b -> b_dirs b !! k = Some d0 -> bd_ino d = bd_ino d0 ->
  numbered (set_dirs b (<[k := d]> (b_dirs b))).
Proof.
  intros [Hnd Hr Hn Hd] Hk Hino. destruct (dir_inos_insert (b_dirs b) k d) as (rest & Hi & Hold).
  rewrite Hk in Hold. assert (inos (set_dirs b (<[k := d]> (b_dirs b))) ≡ₚ inos b) as Hp.
  { unfold inos. cbn [b_dirs set_dirs b_files b_others b_pfs_inodes]. by rewrite Hi, Hold, Hino. }
  split; try done; try (by rewrite Hp). cbn. apply insert_non_empty.
Qed.

(** A fresh number: the next one is used by nothing. *)
Lemma numbered_fresh b n :
  numbered b -> (b_next_ino b < n)%N -> numbered (set_next_ino b n) /\ b_next_ino b ∉ inos b.
Proof.
  intros [Hnd Hr Hn Hd] Hlt. split.
  - split; try done; cbn [b_next_ino set_next_ino]; [|lia].
    eapply Forall_impl; [exact Hr|]. cbn. intros; lia.
  - intros Hin. rewrite Forall_forall in Hr. specialize (Hr _ Hin). lia.
Qed.

Lemma numbered_add_dir b k d :
  numbered b -> (bd_ino d < b_next_ino b)%N -> bd_ino d ∉ inos b ->
  numbered (set_dirs b (<[k := d]> (b_dirs b))).
Proof.
  intros [Hnd Hr Hn Hd] Hrange Hfresh. destruct (dir_inos_insert (b_dirs b) k d) as (rest & Hi & Hold).
  assert (exists l, inos b ≡ₚ l ++ rest ++ (f_ino <$> b_files b) ++ (bo_ino <$> b_others b) ++ (i_ino <$> b_pfs_inodes b))
    as (l & Hl).
  { unfold inos. destruct (b_dirs b !! k) as [d0|].
    - exists [bd_ino d0]. by rewrite Hold.
    - exists []. by rewrite Hold. }
  rewrite Hl in Hnd, Hr, Hfresh. apply NoDup_app in Hnd as (_ & _ & Hnd).
  apply Forall_app in Hr as [_ Hr]. apply not_elem_of_app in Hfresh as [_ Hfresh].
  split; try done; cbn [b_next_ino set_dirs b_dirs]; [| |apply insert_non_empty];
    unfold inos; cbn [b_dirs set_dirs b_files b_others b_pfs_inodes]; rewrite Hi; cbn [app].
  - by apply NoDup_cons.
  - by constructor.
Qed.

Lemma numbered_perm_cons b b' n :
  numbered b -> inos b' ≡ₚ n :: inos b -> b_next_ino b' = b_next_ino b ->
  b_dirs b' = b_dirs b -> (n < b_next_ino b)%N -> n ∉ inos b -> numbered b'.
Proof.
  intros [Hnd Hr Hn Hd] Hp Hnext Hdirs Hrange Hfresh. split; rewrite ?Hp, ?Hnext, ?Hdirs; try done.
  - by apply NoDup_cons.
  - by constructor.
Qed.

Lemma render_entry_numbered path md n b b' :
  numbered b -> (n < b_next_ino b)%N -> n ∉ inos b ->
  render_entry path md n b = Ok b' -> numbered b' /\ b_next_ino b' = b_next_ino b.
Proof.
  intros Hb Hrange Hfresh (additional & _ & Hr)%bind_ok_inv. injection Hr as <-.
  set (b0 := set_host_to_pfs b _). assert (numbered b0) as Hb0 by (by destruct Hb).
  change (n ∉ inos b0) in Hfresh. change (n < b_next_ino b0)%N in Hrange.
  destruct (md_is_dir md); [|destruct (md_is_file md)]; (split; [|done]).
  - by apply (numbered_add_dir b0 (md_ino md) (mkDir n (mkDirList false []) md additional)).
  - eapply numbered_perm_cons; [exact Hb0 | | done..]. unfold inos. cbn.
    rewrite fmap_app. cbn. solve_Permutation.
  - eapply numbered_perm_cons; [exact Hb0 | | done..]. unfold inos. cbn.
    rewrite fmap_app. cbn. solve_Permutation.
Qed.

(** What the base image has at a path of the host tree. *)
Definition base_inode (existing : option PuzzleFS) (rootfs p : Path) : option Inode :=
  match existing with
  | Some pfs =>
      match rootfs_relative rootfs p with
      | Ok rel => match PuzzleFS_lookup pfs rel with Ok r => r | _ => None end
      | _ => None
      end
  | None => None
  end.

(** The number an entry is given if it is not a link to something already seen, and the next one. *)
Definition entry_number (existing : option PuzzleFS) (rootfs p : Path) (b : Build) : N * N :=
  match base_inode existing rootfs p with
  | Some i => (i_ino i, b_next_ino b)
  | None => (b_next_ino b, b_next_ino b + 1)%N
  end.

(** The two ways an entry is entered: as a link to a number already given, or under its own. *)
Lemma process_entry_inv rootfs existing d name b b' :
  (b_next_ino b + 1 < 2 ^ 64)%N -> (entry_number existing rootfs (path_join d name) b).1 ≠ 1%N ->
  process_entry rootfs existing d name b = Ok b' ->
  let path := path_join d name in
  let '(n0, next) := entry_number existing rootfs path b in
  exists md parent_path mdd pd, symlink_metadata path = Ok md /\ path_parent path = Some parent_path /\
    symlink_metadata parent_path = Ok mdd /\ b_dirs b !! md_ino mdd = Some pd /\
    let link n := set_dirs (set_next_ino b next)
                    (<[md_ino mdd := Dir_add_entry pd (default [] (file_name path)) n]> (b_dirs b)) in
    match b_host_to_pfs b !! md_ino md with
    | Some n => b' = link n
    | None => render_entry path md n0 (link n0) = Ok b'
    end.
Proof.
  intros Hlt Hne. unfold process_entry. intros (md & Hmd%map_err_ok_inv & Hr)%bind_ok_inv.
  apply bind_ok_inv in Hr as (ex & Hex & Hr). cbv zeta.
  assert (ex = base_inode existing rootfs (path_join d name)) as ->.
  { unfold base_inode. destruct existing as [pfs|]; [|by injection Hex as <-].
    apply bind_ok_inv in Hex as (rel & Hrel & Hl). by rewrite Hrel, Hl. }
  unfold entry_number in *. set (path := path_join d name) in *.
  assert (exists n0 next, (match base_inode existing rootfs path with
            | Some i => (i_ino i, b_next_ino b) | None => (b_next_ino b, (b_next_ino b + 1)%N) end) = (n0, next) /\
          (match base_inode existing rootfs path with
            | Some ex => Ok (i_ino ex, b)
            | None => next_ino ← add_w u64_bits (b_next_ino b) 1; Ok (b_next_ino b, set_next_ino b next_ino)
            end) = Ok (n0, set_next_ino b next) :> Result (N * Build)) as (n0 & next & Hn & Hcur).
  { destruct (base_inode existing rootfs path) as [i|].
    - exists (i_ino i), (b_next_ino b). split; [done|]. by destruct b.
    - eexists _, _. split; [done|]. by rewrite add_w_ok by word_lia. }
  rewrite Hn in *. rewrite Hcur in Hr. cbn [mbind outcome_bind fst] in Hr, Hne.
  rewrite (proj2 (N.eqb_neq _ _) Hne) in Hr. cbn [negb] in Hr.
  apply bind_ok_inv in Hr as (pp & Hpp & Hr). destruct (path_parent path) as [pp'|]; [|done]. injection Hpp as ->.
  apply bind_ok_inv in Hr as (mdd & Hmdd%map_err_ok_inv & Hr).
  apply bind_ok_inv in Hr as (pd & Hpd & Hr). cbn [set_next_ino b_dirs b_host_to_pfs] in *.
  destruct (b_dirs b !! md_ino mdd) as [pd'|] eqn:Hk; [|done]. injection Hpd as ->.
  exists md, pp, mdd, pd. do 4 (split; [done|]).
  cbn [set_dirs b_host_to_pfs] in Hr. destruct (b_host_to_pfs b !! md_ino md) as [n|] eqn:Hh;
    case_bool_decide as Hs; cbn in Hs; rewrite ?Hh in Hs.
  - by injection Hr as <-.
  - destruct Hs. by eexists.
  - by destruct Hs.
  - exact Hr.
Qed.

(** Replacing a directory by one with the same number does not change the numbers. *)
Lemma inos_update_dir b k d d0 next :
  b_dirs b !! k = Some d0 -> bd_ino d = bd_ino d0 ->
  inos (set_dirs (set_next_ino b next) (<[k := d]> (b_dirs b))) ≡ₚ inos b.
Proof.
  intros Hk Hino. destruct (dir_inos_insert (b_dirs b) k d) as (rest & Hi & Hold). rewrite Hk in Hold.
  unfold inos. cbn [b_dirs set_dirs set_next_ino b_files b_others b_pfs_inodes]. by rewrite Hi, Hold, Hino.
Qed.

Lemma process_entry_numbered rootfs existing dir name b b' :
  numbered b -> (b_next_ino b + 1 < 2 ^ 64)%N ->
  (forall i md, base_inode existing rootfs (path_join dir name) = Some i -> symlink_metadata (path_join dir name) = Ok md ->
     (i_ino i ≠ 1 /\ i_ino i < b_next_ino b)%N /\ (b_host_to_pfs b !! md_ino md = None -> i_ino i ∉ inos b)) ->
  process_entry rootfs existing dir name b = Ok b' ->
  numbered b' /\ (b_next_ino b <= b_next_ino b' <= b_next_ino b + 1)%N.
Proof.
  intros Hb Hlt Hbase Hr. pose proof (numbered_next _ Hb) as Hge. set (path := path_join dir name) in *.
  destruct (symlink_metadata path) as [md| | |] eqn:Hmd;
    [|unfold process_entry in Hr; fold path in Hr; by rewrite Hmd in Hr..].
  assert (exists n0 next, entry_number existing rootfs path b = (n0, next) /\ (n0 ≠ 1 /\ n0 < next)%N /\
            (b_next_ino b <= next <= b_next_ino b + 1)%N /\ (b_host_to_pfs b !! md_ino md = None -> n0 ∉ inos b))
    as (n0 & next & Hn & Hn0 & Hnext & Hfresh).
  { unfold entry_number. destruct (base_inode existing rootfs path) as [i|].
    - destruct (Hbase i md eq_refl eq_refl) as [Hrange Hf]. exists (i_ino i), (b_next_ino b). split; [done|]. split; [done|].
      split; [lia|done].
    - eexists _, _. split; [done|]. split; [lia|]. split; [lia|]. intros _ Hin.
      pose proof (numbered_range _ Hb) as Hrange. rewrite Forall_forall in Hrange. specialize (Hrange _ Hin). lia. }
  apply process_entry_inv in Hr; [|done|fold path; rewrite Hn; cbn; lia]. fold path in Hr. cbv zeta in Hr. rewrite Hn in Hr.
  destruct Hr as (md' & pp & mdd & pd & Hmd' & _ & _ & Hpd & Hr). assert (md' = md) as -> by congruence.
  assert (forall n, numbered (set_dirs (set_next_ino b next)
            (<[md_ino mdd := Dir_add_entry pd (default [] (file_name path)) n]> (b_dirs b)))) as Hlink.
  { intros n. pose proof (inos_update_dir b (md_ino mdd) (Dir_add_entry pd (default [] (file_name path)) n) pd next Hpd eq_refl) as Hp.
    split; rewrite ?Hp; [apply Hb| |cbn; lia|apply insert_non_empty].
    eapply Forall_impl; [apply (numbered_range _ Hb)|]. cbn. intros; lia. }
  destruct (b_host_to_pfs b !! md_ino md) as [n|]; [by subst b'|].
  apply render_entry_numbered in Hr as [Hb' Hn']; [split; [done|]; rewrite Hn'; cbn; lia|apply Hlink|cbn; lia|].
  rewrite (inos_update_dir b (md_ino mdd) (Dir_add_entry pd (default [] (file_name path)) n0) pd next Hpd eq_refl). by apply Hfresh.
Qed.

Lemma process_entries_numbered rootfs dir names b b' :
  numbered b -> (b_next_ino b + N.of_nat (length names) < 2 ^ 64)%N ->
  process_entries rootfs None dir names b = Ok b' ->
  numbered b' /\ (b_next_ino b' <= b_next_ino b + N.of_nat (length names))%N.
Proof.
  revert b. induction names as [|name names IH]; intros b Hb Hn; cbn [process_entries length] in *.
  - intros [= <-]. split; [done | lia].
  - intros (b1 & H1 & H2)%bind_ok_inv. apply process_entry_numbered in H1 as [Hb1 Hn1]; [|done|lia|done].
    apply IH in H2 as [Hb2 Hn2]; [|done|lia]. split; [done | lia].
Qed.

(** The number of entries of the directories walked. *)
Definition entry_count (dirs : list (io_Result Path)) : N :=
  foldr (fun d n => match d with
                    | Ok p => match sorted_dirents p with Ok l => (len l + n)%N | _ => n end
                    | _ => n
                    end) 0%N dirs.

Lemma process_dirs_numbered rootfs dirs b b' :
  numbered b -> (b_next_ino b + entry_count dirs < 2 ^ 64)%N ->
  process_dirs rootfs None dirs b = Ok b' -> numbered b'.
Proof.
  revert b. induction dirs as [|dir dirs IH]; intros b Hb Hn; cbn [process_dirs].
  - by intros [= <-].
  - intros (b1 & H1 & H2)%bind_ok_inv. unfold process_dir in H1.
    apply bind_ok_inv in H1 as (d & Hd & H1). apply map_err_ok_inv in Hd as ->.
    apply bind_ok_inv in H1 as (dp & _ & H1). cbn [lookup_existing mbind outcome_bind] in H1.
    apply bind_ok_inv in H1 as (names & Hnames & H1). apply map_err_ok_inv in Hnames.
    apply bind_ok_inv in H1 as (md & _ & H1). apply bind_ok_inv in H1 as (this & _ & H1).
    cbn [add_whiteouts mbind outcome_bind] in H1. cbn [entry_count foldr] in Hn. rewrite Hnames in Hn.
    fold (entry_count dirs) in Hn.
    apply process_entries_numbered in H1 as [Hb1 Hn1]; [|done | unfold len in Hn; lia].
    eapply IH; [exact Hb1| |exact H2]. unfold len in Hn. lia.
Qed.

Lemma root_numbered md add :
  numbered (mkBuild {[ md_ino md := mkDir 1 (mkDirList false []) md add ]} [] [] [] FilesystemStream_new ∅ 2).
Proof.
  split; cbn [b_next_ino b_pfs_inodes b_dirs inos b_files b_others]; try done.
  - unfold inos, dir_inos. cbn. rewrite map_to_list_singleton. cbn. apply NoDup_singleton.
  - unfold inos, dir_inos. cbn. rewrite map_to_list_singleton. cbn. apply Forall_singleton. lia.
Qed.

Lemma scan_tree_numbered rootfs b :
  (2 + entry_count (walkdir_filter_entry (walker rootfs) keep_dirs) < 2 ^ 64)%N ->
  scan_tree rootfs None = Ok b -> numbered b.
Proof.
  intros Hn. unfold scan_tree. cbn [mbind outcome_bind].
  intros (md & _ & Hr)%bind_ok_inv. apply bind_ok_inv in Hr as (add & _ & Hr).
  eapply process_dirs_numbered; [apply root_numbered|done|exact Hr].
Qed.

(** ** Rendering keeps the numbers *)

Lemma new_dir_ino d i :
  map_err IOError (new_dir (bd_ino d) (bd_md d) (bd_dir_list d) (bd_additional d)) = Ok i -> i_ino i = bd_ino d.
Proof. unfold new_dir. destruct (negb _); [done|]. by intros [= <-]. Qed.

Lemma new_file_ino f i :
  map_err IOError (new_file (f_ino f) (f_md f) (f_chunks f) (f_additional f)) = Ok i -> i_ino i = f_ino f.
Proof. unfold new_file. destruct (negb _); [done|]. by intros [= <-]. Qed.

Lemma new_other_ino o i :
  map_err IOError (new_other (bo_ino o) (bo_md o) (bo_additional o)) = Ok i -> i_ino i = bo_ino o.
Proof.
  intros Hi%map_err_ok_inv. unfold new_other in Hi. apply bind_ok_inv in Hi as (m & _ & Hi).
  by injection Hi as <-.
Qed.

Lemma mapM_inos {A} (f : A -> Result Inode) (g : A -> N) l k :
  (forall x i, f x = Ok i -> i_ino i = g x) -> mapM f l = Ok k -> i_ino <$> k = g <$> l.
Proof.
  intros Hfg Hm%mapM_ok_inv. induction Hm as [|x i l k Hx _ IH]; csimpl; [done|].
  by rewrite IH, (Hfg x i Hx).
Qed.

Lemma render_layer_sorted `{!HashOrderOk HO} b files l :
  numbered b -> f_ino <$> files = f_ino <$> b_files b -> render_layer b files = Ok l -> sorted_layer l.
Proof.
  intros Hb Hf. unfold render_layer.
  intros (ds & Hds & Hr)%bind_ok_inv. apply bind_ok_inv in Hr as (fs & Hfs & Hr).
  apply bind_ok_inv in Hr as (os & Hos & Hr). injection Hr as <-.
  apply (mapM_inos _ bd_ino _ _ new_dir_ino) in Hds. apply (mapM_inos _ f_ino _ _ new_file_ino) in Hfs.
  apply (mapM_inos _ bo_ino _ _ new_other_ino) in Hos.
  assert (i_ino <$> (b_pfs_inodes b ++ ds ++ fs ++ os) ≡ₚ inos b) as Hp.
  { rewrite !fmap_app, Hds, Hfs, Hos, Hf, hash_into_values_perm. unfold inos, dir_inos.
    rewrite <-list_fmap_compose. unfold compose. solve_Permutation. }
  split.
  - intros Hnil. apply (numbered_dirs _ Hb), map_to_list_empty_iff, (fmap_nil_inv (fun kd => bd_ino kd.2)).
    apply (proj1 (app_nil _ ((f_ino <$> b_files b) ++ (bo_ino <$> b_others b) ++ (i_ino <$> b_pfs_inodes b)))), Permutation_nil_r.
    fold (dir_inos (b_dirs b)). fold (inos b). rewrite <-Hp, <-(merge_sort_Permutation ino_le (b_pfs_inodes b ++ ds ++ fs ++ os)).
    by rewrite Hnil.
  - apply merge_sort_inos. rewrite Hp. apply Hb.
Qed.

(** ** Chunking keeps the files in place *)

Definition file_head (f : File) : N * Metadata * option InodeAdditional := (f_ino f, f_md f, f_additional f).

Definition state_files (st : ChunkState) : list File :=
  cs_passed st ++ option_list (cs_file st) ++ cs_iter st.

Lemma next_file_files l : let '(p, f, r) := next_file l in p ++ option_list f ++ r = l.
Proof.
  induction l as [|f l IH]; simpl; [done|]. destruct (0 <? md_len (f_md f))%N; [done|].
  destruct (next_file l) as [[p g] r]. cbn. by rewrite IH.
Qed.

Lemma use_chunk_files fuel digest comp length used st st' broke :
  use_chunk fuel digest comp length used st = Ok (st', broke) ->
  file_head <$> state_files st' = file_head <$> state_files st.
Proof.
  revert used st. induction fuel as [|fuel IH]; intros used st; cbn [use_chunk]; [done|].
  destruct (used <? length)%N; [|by intros [= <- <-]].
  destruct (cs_file st) as [f|] eqn:Hf; [|done]. cbn [unwrap mbind outcome_bind].
  intros (a & _ & (c & _ & (u & _ & (v & _ & Hr)%bind_ok_inv)%bind_ok_inv)%bind_ok_inv)%bind_ok_inv.
  set (f' := push_chunk f _) in Hr. assert (file_head f' = file_head f) as Hh by done.
  destruct (v =? md_len (f_md f'))%N.
  - pose proof (next_file_files (cs_iter st)) as Hnf. destruct (next_file (cs_iter st)) as [[p g] r].
    assert (file_head <$> state_files (mkChunkState (cs_passed st ++ f' :: p) g r 0)
            = file_head <$> state_files st) as Heq.
    { unfold state_files. cbn [cs_passed cs_file cs_iter]. rewrite Hf, <-Hnf, <-app_assoc.
      cbn [option_list app]. by rewrite !fmap_app, !fmap_cons, Hh, !fmap_app. }
    destruct g; [|by injection Hr as <- <-]. apply IH in Hr. congruence.
  - apply IH in Hr. rewrite Hr. unfold state_files. cbn [cs_passed cs_file cs_iter]. rewrite Hf.
    by rewrite !fmap_app.
Qed.

Lemma process_items_files C items img st vd man img' st' vd' man' rest :
  process_items C items img st vd man = Ok (img', st', vd', man', rest) ->
  file_head <$> state_files st' = file_head <$> state_files st.
Proof.
  revert img st vd man. induction items as [|item items IH]; intros img st vd man; cbn [process_items].
  - by intros [= <- <- <- <- <-].
  - destruct item as [c| | |]; [|done..].
    intros ([[i1 m1] [[desc v] comp]] & _ & Hr)%bind_ok_inv.
    apply bind_ok_inv in Hr as (dg & _ & Hr). apply bind_ok_inv in Hr as ([st1 broke] & Hu & Hr).
    apply use_chunk_files in Hu. destruct broke; [by injection Hr as <- <- <- <- <-|].
    apply IH in Hr. congruence.
Qed.

Lemma process_chunks_files C img items files vd man img' files' vd' man' :
  process_chunks C img items files vd man = Ok (img', files', vd', man') ->
  file_head <$> files' = file_head <$> files.
Proof.
  unfold process_chunks. pose proof (next_file_files files) as Hnf.
  destruct (next_file files) as [[p g] r].
  intros ([[[[i1 st] v1] m1] rest] & Hp & Hr)%bind_ok_inv. apply bind_ok_inv in Hr as ([] & _ & Hr).
  injection Hr as <- <- <- <-. apply process_items_files in Hp. rewrite <-Hnf. exact Hp.
Qed.

(** Distinct numbers in the scan make a layer that can be searched. *)
Lemma build_delta_sorted `{!HashOrderOk HO} (C : Compression) (rootfs : Path) (existing : option PuzzleFS)
    (img img' : Image oci_index) (vd vd' : VerityData) (man man' : ImageManifest) (l : list Inode) (b : Build) :
  scan_tree rootfs existing = Ok b -> numbered b ->
  build_delta C rootfs img existing vd man = Ok (img', l, vd', man') -> sorted_layer l.
Proof.
  intros Hb Hn. unfold build_delta. rewrite Hb. bsimpl.
  intros ([[[i1 fs] v1] m1] & Hp & Hr)%bind_ok_inv. apply bind_ok_inv in Hr as (inodes & Hl & Hr).
  injection Hr as <- <- <- <-. eapply render_layer_sorted; [exact Hn| |exact Hl].
  apply process_chunks_files in Hp. apply (f_equal (fmap (fun h => h.1.1))) in Hp.
  by rewrite <-!list_fmap_compose in Hp.
Qed.

Lemma build_delta_initial_spec `{!HashOrderOk HO} (C : Compression) (rootfs : Path)
    (img img' : Image oci_index) (vd vd' : VerityData) (man man' : ImageManifest) (l : list Inode) :
  (2 + entry_count (walkdir_filter_entry (walker rootfs) keep_dirs) < 2 ^ 64)%N ->
  build_delta C rootfs img None vd man = Ok (img', l, vd', man') -> sorted_layer l.
Proof.
  intros Hn Hd. pose proof Hd as (b & Hb & _)%bind_ok_inv.
  eapply build_delta_sorted; [exact Hb|by eapply scan_tree_numbered|exact Hd].
Qed.

(** C22: the first layer of an image is fit for binary search.  Whatever the directory tree, its
    hard links and the order in which the hash map hands out directories, a successful build
    gives every inode a number of its own and writes a non-empty layer in strictly increasing
    order of numbers, as long as there are fewer than 2^64 entries. *)
Theorem build_delta_initial_sorted `{!HashOrderOk HO} (C : Compression) (rootfs : Path)
    (img img' : Image oci_index) (vd vd' : VerityData) (man man' : ImageManifest) (l : list Inode) :
  (2 + entry_count (walkdir_filter_entry (walker rootfs) keep_dirs) < 2 ^ 64)%N ->
  build_delta C rootfs img None vd man = Ok (img', l, vd', man') -> sorted_layer l.
Proof. exact (build_delta_initial_spec C rootfs img img' vd vd' man man' l). Qed.

End numbering.
