(* ===== verification/BuildEnd.v ===== *)
(** From a host tree to an opened image: the files of a build keep their contents, and what
    [build_initial_rootfs] writes, [PuzzleFS::open] reads. *)

From S2P Require Import Prelude Errors RustStd Capnp Format Digest InodeTable Compression Oci Reader FsStream Chunks Builder BuildFacts.

Section build_end.
Context {P : Profile} {R : OsRead} {ZS : ZstdSeekable} {NS : NixStat}.
Context {H : Hex} {SH : Sha256} {V : FsVerity} {D : OciDigest} {OD : OciDir} {W : CapnpWire}.
Context {F : HostFs} {CD : StreamCDC} {WD : WalkDir} {HO : HashOrder}.

Abbreviation Img := (Image oci_index).

(** ** What a scan records *)

(** [f] was made from the regular file at [p]. *)
Definition file_of (p : Path) (f : File) : Prop :=
  symlink_metadata p = Ok (f_md f) /\ md_is_file (f_md f) = true /\ f_chunks f = [] /\
  InodeAdditional_new p (f_md f) = Ok (f_additional f).

Record scanned (b : Build) : Prop := {
  scanned_files : exists paths, b_fs_stream b = stream_of paths /\ Forall2 file_of paths (b_files b);
  scanned_dirs : map_Forall (fun _ d => md_is_dir (bd_md d) = true) (b_dirs b);
  scanned_others : Forall (fun o => md_is_dir (bo_md o) = false /\ md_is_file (bo_md o) = false) (b_others b);
  scanned_whiteouts : Forall (fun i => i_mode i = Mode_Wht) (b_pfs_inodes b)
}.

Lemma scanned_add_entry b k d name ino :
  scanned b -> b_dirs b !! k = Some d -> scanned (set_dirs b (<[k := Dir_add_entry d name ino]> (b_dirs b))).
Proof.
  intros [Hf Hd Ho Hw] Hk. split; try done. cbn. apply map_Forall_insert_2; [|done]. by apply (Hd _ _ Hk).
Qed.

Lemma stream_of_snoc paths p : stream_of (paths ++ [p]) = FilesystemStream_push (stream_of paths) p.
Proof. unfold stream_of. by rewrite foldl_app. Qed.

Lemma render_entry_scanned path md n b b' :
  scanned b -> symlink_metadata path = Ok md -> render_entry path md n b = Ok b' -> scanned b'.
Proof.
  intros [(paths & Hs & Hf) Hd Ho Hw] Hmd (additional & Ha & Hr)%bind_ok_inv. apply map_err_ok_inv in Ha.
  injection Hr as <-. destruct (md_is_dir md) eqn:Hdir; [|destruct (md_is_file md) eqn:Hfile].
  - split; try done; [by exists paths|]. cbn. by apply map_Forall_insert_2.
  - split; try done. cbn. exists (paths ++ [path]). rewrite stream_of_snoc, Hs. split; [done|].
    apply Forall2_app; [done|]. by constructor.
  - split; try done; [by exists paths|]. cbn. apply Forall_app. by split; [|apply Forall_singleton].
Qed.

Lemma process_entry_scanned rootfs existing dir name b b' :
  scanned b -> process_entry rootfs existing dir name b = Ok b' -> scanned b'.
Proof.
  intros Hb. unfold process_entry. intros (md & Hmd & Hr)%bind_ok_inv. apply map_err_ok_inv in Hmd.
  apply bind_ok_inv in Hr as (ex & _ & Hr). apply bind_ok_inv in Hr as ([cur b1] & Hcur & Hr).
  assert (scanned b1) as Hb1.
  { destruct ex; [by injection Hcur as <- <-|]. apply bind_ok_inv in Hcur as (n & _ & Hcur).
    injection Hcur as <- <-. by destruct Hb. }
  destruct (negb (cur =? 1)%N); [|by eapply render_entry_scanned].
  apply bind_ok_inv in Hr as (pp & _ & Hr). apply bind_ok_inv in Hr as (pmd & _ & Hr).
  apply bind_ok_inv in Hr as (parent & Hpar & Hr).
  destruct (b_dirs b1 !! md_ino pmd) as [p0|] eqn:Hp0; [|done]. injection Hpar as <-.
  match type of Hr with context [Dir_add_entry p0 ?nm ?i] =>
    pose proof (scanned_add_entry b1 (md_ino pmd) p0 nm i Hb1 Hp0) as Hb2 end.
  case_bool_decide; [by injection Hr as <- | by eapply render_entry_scanned].
Qed.

Lemma process_entries_scanned rootfs existing dir names b b' :
  scanned b -> process_entries rootfs existing dir names b = Ok b' -> scanned b'.
Proof.
  revert b. induction names as [|name names IH]; intros b Hb; cbn [process_entries]; [by intros [= <-]|].
  intros (b1 & H1%process_entry_scanned & H2)%bind_ok_inv; [by eapply IH | done].
Qed.

Lemma add_whiteouts_scanned k names dirents b b' :
  scanned b -> add_whiteouts k names dirents b = Ok b' -> scanned b'.
Proof.
  revert b. induction dirents as [|e dirents IH]; intros b Hb; cbn [add_whiteouts]; [by intros [= <-]|].
  destruct (existsb _ _); [by apply IH|]. intros (d & Hd & Hr)%bind_ok_inv.
  destruct (b_dirs b !! k) as [d0|] eqn:Hk; [|done]. injection Hd as <-.
  eapply IH; [|exact Hr]. apply (scanned_add_entry (push_inode b (new_whiteout (de_ino e))) k d0); [|done].
  destruct Hb. split; try done. cbn. apply Forall_app. by split; [|apply Forall_singleton].
Qed.

Lemma process_dirs_scanned rootfs existing dirs b b' :
  scanned b -> process_dirs rootfs existing dirs b = Ok b' -> scanned b'.
Proof.
  revert b. induction dirs as [|dir dirs IH]; intros b Hb; cbn [process_dirs]; [by intros [= <-]|].
  intros (b1 & H1 & H2)%bind_ok_inv. eapply IH; [|exact H2]. unfold process_dir in H1.
  do 6 (apply bind_ok_inv in H1 as (? & _ & H1)). apply bind_ok_inv in H1 as (b2 & Hw & H1).
  eapply process_entries_scanned; [|exact H1]. by eapply add_whiteouts_scanned.
Qed.

Lemma scan_tree_scanned rootfs existing b md :
  symlink_metadata rootfs = Ok md -> md_is_dir md = true -> scan_tree rootfs existing = Ok b -> scanned b.
Proof.
  intros Hmd Hdir. unfold scan_tree. intros (n & _ & Hr)%bind_ok_inv. rewrite Hmd in Hr.
  cbn [map_err mbind outcome_bind] in Hr. apply bind_ok_inv in Hr as (add & _ & Hr).
  eapply process_dirs_scanned; [|exact Hr]. split; cbn; try done.
  - exists []. split; [done | constructor].
  - by apply map_Forall_singleton.
Qed.

(** ** Contents *)

(** Regular files can be read and have the length their metadata says. *)
Definition host_consistent : Prop :=
  forall p md, symlink_metadata p = Ok md -> md_is_file md = true ->
    exists data, fs_open p = Ok data /\ md_len md = len data /\ (len data < 2 ^ 63)%N.

Lemma scanned_contents paths files :
  host_consistent -> Forall2 file_of paths files ->
  exists datas, Forall2 (fun p d => fs_open p = Ok d) paths datas /\
    Forall fresh (zip files datas) /\ Forall (fun fd => len fd.2 < 2 ^ 63)%N (zip files datas) /\
    (zip files datas).*1 = files /\ (zip files datas).*2 = datas.
Proof.
  intros Hh. induction 1 as [|p f paths files (Hmd & Hfile & Hc & _) _ IH].
  { exists []. by repeat split; constructor. }
  destruct IH as (datas & Ho & Hfr & Hs & H1 & H2). destruct (Hh p (f_md f) Hmd Hfile) as (d & Hd & Hl & Hlt).
  exists (d :: datas). csimpl. split; [by constructor|]. split; [by constructor|].
  split; [by constructor|]. by rewrite H1, H2.
Qed.

Lemma render_layer_ok `{!HashOrderOk HO} b files :
  scanned b -> Forall (fun f => md_is_file (f_md f) = true) files ->
  exists l, render_layer b files = Ok l /\
    forall f, f ∈ files -> new_inode (f_ino f) (f_md f) (Mode_File (f_chunks f)) (f_additional f) ∈ l.
Proof.
  intros [_ Hd Ho _] Hf. unfold render_layer.
  rewrite (mapM_ok_map _ (fun d => new_inode (bd_ino d) (bd_md d) (Mode_Dir (bd_dir_list d)) (bd_additional d))).
  2: { intros d Hin. rewrite hash_into_values_perm in Hin. apply list_elem_of_fmap in Hin as ([k d'] & -> & Hin).
       apply elem_of_map_to_list in Hin. specialize (Hd _ _ Hin). cbn in *. unfold new_dir. by rewrite Hd. }
  bsimpl. rewrite (mapM_ok_map _ (fun f => new_inode (f_ino f) (f_md f) (Mode_File (f_chunks f)) (f_additional f))).
  2: { intros f Hin. rewrite Forall_forall in Hf. specialize (Hf f Hin). cbn in Hf. unfold new_file. by rewrite Hf. }
  bsimpl. assert (exists os, mapM (fun o => map_err IOError (new_other (bo_ino o) (bo_md o) (bo_additional o)))
                    (b_others b) = Ok os) as (os & ->).
  { induction Ho as [|o others [Ho1 Ho2] _ IH]; [by exists []|]. destruct IH as (os & Hos).
    assert (exists i, map_err IOError (new_other (bo_ino o) (bo_md o) (bo_additional o)) = Ok i) as (i & Hi).
    { unfold new_other. rewrite Ho1, Ho2. unfold md_is_symlink. repeat destruct (md_is _ _); cbn; by eauto. }
    exists (i :: os). by apply mapM_cons_ok. }
  bsimpl. eexists. split; [done|]. intros f Hin. rewrite merge_sort_Permutation, !elem_of_app.
  right. right. left. apply list_elem_of_fmap. by exists f.
Qed.

Context {SL : Sha256Ok SH} {HL : HexOk H} {DL : OciDigestOk D}.
Context {RF : OsReadFull R} {ZSL : ZstdSeekableOk ZS} {CDL : StreamCDCOk CD} {HOL : HashOrderOk HO}.

(** The paths a stream reads from. *)
Definition stream_paths (s : FilesystemStream) : list Path := rl_file <$> reader_chain s.

Lemma stream_paths_of paths : stream_paths (stream_of paths) = paths.
Proof.
  unfold stream_paths, stream_of. rewrite stream_of_chain. cbn. rewrite <-list_fmap_compose. unfold compose. cbn.
  apply list_fmap_id.
Qed.

(** The file [f] of scan [b] is in layer [l], and its chunks hold what the host file at one of the
    paths the chunker was given holds. *)
Definition file_in_layer (b : Build) (img : Img) (l : list Inode) (f : File) : Prop :=
  exists p data chunks, p ∈ stream_paths (b_fs_stream b) /\ symlink_metadata p = Ok (f_md f) /\ fs_open p = Ok data /\
    InodeAdditional_new p (f_md f) = Ok (f_additional f) /\ (len data < 2 ^ 63)%N /\
    new_inode (f_ino f) (f_md f) (Mode_File chunks) (f_additional f) ∈ l /\
    file_content img None chunks data.

Lemma build_delta_spec (C : Compression) U rootfs img existing vd man b md :
  C = Noop \/ C = Zstd -> host_consistent ->
  symlink_metadata rootfs = Ok md -> md_is_dir md = true -> scan_tree rootfs existing = Ok b ->
  healthy U img ->
  Forall (fun c => match c with Ok c => U (stored_form C (cd_data c)).1 | _ => True end)
    (stream_cdc (b_fs_stream b) MIN_CHUNK_SIZE AVG_CHUNK_SIZE MAX_CHUNK_SIZE) ->
  exists img' l vd' man', build_delta C rootfs img existing vd man = Ok (img', l, vd', man') /\
    healthy U img' /\ image_extends img img' /\ forall f, f ∈ b_files b -> file_in_layer b img' l f.
Proof.
  intros HC Hhost Hmd Hdir Hscan Hh HU. pose proof (scan_tree_scanned _ _ _ _ Hmd Hdir Hscan) as Hsc.
  destruct (scanned_files _ Hsc) as (paths & Hstream & Hfiles).
  destruct (scanned_contents paths (b_files b) Hhost Hfiles) as (datas & Hopen & Hfresh & Hsmall & Hz1 & Hz2).
  destruct (stream_cdc_partition (b_fs_stream b) (concat datas)) as (chunks & Hcdc & Hcat & Hsound).
  { rewrite Hstream. by apply stream_of_pending. }
  rewrite Hcdc, Forall_fmap in HU.
  destruct (process_chunks_spec C U chunks img (zip (b_files b) datas) vd man HC Hh Hsound HU Hsmall Hfresh)
    as (img' & files' & man' & Hpc & Hh' & Hext & Hrend); [by rewrite Hz2|]. rewrite Hz1 in Hpc.
  assert (Forall (fun f => md_is_file (f_md f) = true) files') as Hisf.
  { apply Forall_forall. intros f Hf. apply list_elem_of_lookup in Hf as [k Hk].
    destruct (Forall2_lookup_l _ _ _ _ _ Hrend Hk) as ([f0 d] & Hk0 & ((_ & Hm & _) & _)). cbn in Hm.
    apply lookup_zip_Some in Hk0 as [Hk0 _]. destruct (Forall2_lookup_r _ _ _ _ _ Hfiles Hk0) as (p & _ & Hp).
    rewrite Hm. apply Hp. }
  destruct (render_layer_ok b files' Hsc Hisf) as (l & Hl & Hin).
  exists img', l, (foldl (chunk_verity C) vd chunks), man'. unfold build_delta. rewrite Hscan. bsimpl.
  rewrite Hcdc, Hpc. bsimpl. rewrite Hl. bsimpl. do 3 (split; [done|]).
  intros f Hf. apply list_elem_of_lookup in Hf as [k Hk].
  destruct (Forall2_lookup_r _ _ _ _ _ Hfiles Hk) as (p & Hp & Hpf).
  destruct (Forall2_lookup_l _ _ _ _ _ Hopen Hp) as (data & Hd & Hdo).
  assert (zip (b_files b) datas !! k = Some (f, data)) as Hz by (by apply lookup_zip_Some).
  destruct (Forall2_lookup_r _ _ _ _ _ Hrend Hz) as (f' & Hf' & (Hsame & Hcont)). cbn in Hsame, Hcont.
  exists p, data, (f_chunks f'). destruct Hsame as (Hi & Hm & Ha).
  split; [rewrite Hstream, stream_paths_of; by eapply list_elem_of_lookup_2|].
  split; [apply Hpf|]. split; [done|]. split; [apply Hpf|]. split.
  { rewrite Forall_lookup in Hsmall. by apply (Hsmall k (f, data)). }
  split; [|done]. rewrite <-Hi, <-Hm, <-Ha. apply Hin. by eapply list_elem_of_lookup_2.
Qed.

(** A build keeps the contents of every file.  If the host can be scanned, [build_delta]
    (for a first layer or a delta) succeeds, and for every regular file the scan recorded, the
    new layer has an inode with the number, owner, permission bits and extended attributes of
    that file whose chunks hold, in the resulting store, exactly the bytes of the host file. *)
Theorem build_delta_contents (C : Compression) (U : bytes -> Prop) (rootfs : Path) (img : Img)
    (existing : option PuzzleFS) (vd : VerityData) (man : ImageManifest) (b : Build) (md : Metadata) :
  C = Noop \/ C = Zstd -> host_consistent ->
  symlink_metadata rootfs = Ok md -> md_is_dir md = true -> scan_tree rootfs existing = Ok b ->
  healthy U img ->
  Forall (fun c => match c with Ok c => U (stored_form C (cd_data c)).1 | _ => True end)
    (stream_cdc (b_fs_stream b) MIN_CHUNK_SIZE AVG_CHUNK_SIZE MAX_CHUNK_SIZE) ->
  exists img' l vd' man', build_delta C rootfs img existing vd man = Ok (img', l, vd', man') /\
    image_extends img img' /\ forall f, f ∈ b_files b -> file_in_layer b img' l f.
Proof.
  intros HC Hhost Hmd Hdir Hscan Hh HU.
  destruct (build_delta_spec C U rootfs img existing vd man b md HC Hhost Hmd Hdir Hscan Hh HU)
    as (img' & l & vd' & man' & ? & _ & ? & ?). by exists img', l, vd', man'.
Qed.

(** ** Publishing and opening *)

Context {WL : CapnpWireOk W} {ODL : OciDirOk OD}.

(** A metadata blob put as the rootfs of a tagged manifest is what opening the tag reads. *)
Lemma publish_opens U img man r buf tag img2 man2 desc v comp img3 d :
  wf_rootfs r -> rf_manifest_version r = PUZZLEFS_IMAGE_MANIFEST_VERSION ->
  serialize_metadata r = Ok buf -> (len buf < 2 ^ 63)%N -> healthy U img -> U buf ->
  put_blob Noop img buf man MT_Rootfs = Ok (img2, man2, (desc, v, comp)) ->
  oci_insert_manifest img2 man2 (Some tag) = Ok (img3, d) ->
  exists pfs, PuzzleFS_open img3 tag None = Ok pfs /\ represents (pfs_rootfs pfs) r /\
    pfs_oci pfs = img3 /\ pfs_verity_data pfs = None /\ data_kept img img3.
Proof.
  intros Hwf Hver Hser Hlen Hh HU Hput Hins. apply bind_ok_inv in Hser as (m & Hm & Hbuf).
  assert (stored_form Noop buf = (buf, false)) as Hsf by (unfold stored_form; by rewrite noop_compress_buf).
  destruct (put_blob_healthy Noop U img buf man MT_Rootfs (or_introl eq_refl) Hlen Hh)
    as (img2' & man2' & desc' & v' & comp' & Hput' & _ & [Hsub _] & _ & _ & Hmt & Hlay & _ & _ & (f & Hf & Hfd));
    [by rewrite Hsf|].
  rewrite Hput in Hput'. injection Hput' as <- <- <- <- <-. rewrite Hsf in Hfd. cbn in Hfd.
  destruct (insert_manifest_ok img2 man2 tag img3 d Hins) as (Hsub3 & Hfind & _).
  destruct (RootfsReader_open_represents r m buf Hm Hbuf) as (reader & Hopen & Hrep).
  exists (mkPuzzleFS img3 reader None None). split; [|split; [done|]; split; [done|]; split; [done|];
    transitivity img2; [by apply subseteq_data_kept|done]].
  unfold PuzzleFS_open, open_rootfs_blob, get_pfs_rootfs, pfs_rootfs_digest, find_manifest, find_rootfs_desc. bsimpl.
  rewrite Hfind. bsimpl. cbn [ok_or]. bsimpl. rewrite Hlay. cbn [List.find].
  rewrite bool_decide_eq_true_2 by (by rewrite Hmt). cbn [ok_or]. bsimpl.
  destruct (Hsub3 _ _ Hf) as (f3 & Hf3 & Hfd3).
  unfold open_raw_blob. rewrite Hf3. cbn [ok_or]. bsimpl. cbn [map_err]. bsimpl. rewrite Hfd3, Hfd, Hopen. bsimpl. rewrite (get_manifest_version_represents reader r Hrep Hwf). bsimpl.
  by rewrite Hver, N.eqb_refl.
Qed.

(** ** Deltas *)

(** Looking a number up in a stack with one more layer on top. *)
Lemma visible_cons l ls ino :
  visible (l :: ls) ino
  = match layer_map l !! ino with
    | Some i => match i_mode i with Mode_Wht => None | _ => Some i end
    | None => visible ls ino
    end.
Proof.
  unfold visible. cbn [overlay foldr]. destruct (layer_map l !! ino) as [i|] eqn:Hi.
  - by rewrite (lookup_union_Some_l _ _ _ _ Hi).
  - by rewrite lookup_union_r.
Qed.

(** An inode of the topmost layer is what a lookup finds. *)
Lemma find_in_top_layer pfs r l ls i :
  represents (pfs_rootfs pfs) r -> searchable r -> rf_metadatas r = l :: ls -> i ∈ l ->
  PuzzleFS_find_inode pfs (i_ino i) = match i_mode i with Mode_Wht => Err (from_errno ENOENT) | _ => Ok i end.
Proof.
  intros Hrep Hs Hl Hi. unfold PuzzleFS_find_inode. rewrite (RootfsReader_find_inode_spec _ _ _ Hrep Hs), Hl, visible_cons.
  destruct Hs as [_ Hs]. rewrite Hl in Hs. apply Forall_cons in Hs as [Hs _].
  rewrite (proj2 (layer_map_lookup l (i_ino i) i Hs)) by done. by destruct (i_mode i).
Qed.

(** What lookups see after [insert_layer]. *)
Definition stacked (ls : list (list Inode)) (l : list Inode) (ino : N) : option Inode :=
  if bool_decide (l ∈ ls) then visible ls ino
  else match layer_map l !! ino with
       | Some i => match i_mode i with Mode_Wht => None | _ => Some i end
       | None => visible ls ino
       end.

Lemma insert_layer_elem ls l :
  insert_layer ls l = if bool_decide (l ∈ ls) then ls else l :: ls.
Proof.
  unfold insert_layer. destruct (existsb _ ls) eqn:He.
  - apply existsb_exists in He as (x & Hx & Heq%bool_decide_eq_true). subst x.
    rewrite bool_decide_eq_true_2; [done|]. by apply list_elem_of_In.
  - rewrite bool_decide_eq_false_2; [done|]. intros Hin%list_elem_of_In.
    assert (existsb (fun x => bool_decide (x = l)) ls = true) as Ht; [|congruence].
    apply existsb_exists. exists l. by rewrite bool_decide_eq_true_2.
Qed.

(** A successful delta is published, and the new tag opens as the stack with the new layer. *)
Lemma delta_opens (C : Compression) (U : bytes -> Prop) (rootfs : Path) (img0 img img1 : Img)
    (tag base : bytes) (man man1 : ImageManifest) (pfs : PuzzleFS) (r : Rootfs) (l : list Inode)
    (vd : VerityData) (buf : bytes) :
  get_empty_manifest img0 = Ok (img, man) -> PuzzleFS_open img base None = Ok pfs ->
  represents (pfs_rootfs pfs) r -> rf_manifest_version r = PUZZLEFS_IMAGE_MANIFEST_VERSION -> wf_rootfs r ->
  build_delta C rootfs img (Some pfs) ∅ man = Ok (img1, l, vd, man1) ->
  let r' := mkRootfs (insert_layer (rf_metadatas r) l) (vd ∪ rf_fs_verity_data r) (rf_manifest_version r) in
  wf_rootfs r' -> serialize_metadata r' = Ok buf -> (len buf < 2 ^ 63)%N -> healthy U img1 -> U buf ->
  (forall img2 man2, exists img3 d, oci_insert_manifest img2 man2 (Some tag) = Ok (img3, d)) ->
  exists desc img3 pfs', add_rootfs_delta C rootfs img0 tag base = Ok (desc, img3) /\
    PuzzleFS_open img3 tag None = Ok pfs' /\ represents (pfs_rootfs pfs') r' /\ pfs_oci pfs' = img3 /\
    pfs_verity_data pfs' = None /\ data_kept img1 img3.
Proof.
  intros Hman Hopen Hrep Hver Hwf Hdelta r' Hs Hser Hlen Hh HU Hins.
  destruct (put_blob_healthy Noop U img1 buf man1 MT_Rootfs (or_introl eq_refl) Hlen Hh)
    as (img2 & man2 & desc & v & comp & Hput & _); [unfold stored_form; by rewrite noop_compress_buf|].
  destruct (Hins img2 man2) as (img3 & d & Hi).
  destruct (publish_opens U img1 man1 r' buf tag img2 man2 desc v comp img3 d Hs Hver Hser Hlen Hh HU Hput Hi)
    as (pfs' & Hopen' & Hrep' & Hoci & Hvd & Hsub).
  exists desc, img3, pfs'. split; [|done].
  unfold add_rootfs_delta. rewrite Hman. bsimpl. rewrite Hopen. bsimpl.
    unfold PuzzleFS_open in Hopen. apply bind_ok_inv in Hopen as (reader & Hr & Hopen). rewrite Hr. bsimpl.
    apply bind_ok_inv in Hopen as (version & Hv & Hopen). destruct (negb _); [by rewrite Hv in Hopen|].
    injection Hopen as Heq. rewrite <-Heq in Hrep. cbn [pfs_rootfs] in Hrep. rewrite <-Heq in Hdelta.
    rewrite (Rootfs_try_from_represents reader r Hrep Hwf). bsimpl. rewrite <-Heq, Hdelta. bsimpl.
    fold r'. rewrite Hser. bsimpl. rewrite Hput. bsimpl. by rewrite Hi.
Qed.


End build_end.
