(* ===== verification/BuildType.v ===== *)
(** What a build writes is well formed: within the 32-bit limits of the format, the metadata of a
    layer can be encoded and decodes to itself. *)

From S2P Require Import Prelude Errors RustStd Capnp Format Digest InodeTable Compression Oci Reader FsStream Chunks Builder BuildFacts BuildEnd.

(** The counts the format stores in 32 bits. *)
Definition inode_in_limits (i : Inode) : Prop :=
  match i_mode i with
  | Mode_Dir d => (len (dl_entries d) < 2 ^ u32_bits)%N
  | Mode_File chunks => (len chunks < 2 ^ u32_bits)%N
  | _ => True
  end /\
  match i_additional i with Some a => (len (ia_xattrs a) < 2 ^ u32_bits)%N | None => True end.

Definition in_limits (l : list Inode) (vd : VerityData) : Prop :=
  (len l < 2 ^ u32_bits)%N /\ Forall inode_in_limits l /\ (N.of_nat (size vd) < 2 ^ u32_bits)%N.

(** Digests are 32 bytes. *)
Definition chunks_wf (chunks : list FileChunk) : Prop := Forall (fun c => wf_blob (fc_blob c)) chunks.
Definition verity_digests_wf (vd : VerityData) : Prop :=
  map_Forall (fun d v => len d = SHA256_BLOCK_SIZE /\ len v = SHA256_BLOCK_SIZE) vd.
Definition file_chunks_wf (f : File) : Prop := chunks_wf (f_chunks f).
Definition digests_wf (i : Inode) : Prop := match i_mode i with Mode_File chunks => chunks_wf chunks | _ => True end.

Lemma in_limits_wf l vd v :
  in_limits l vd -> Forall digests_wf l -> verity_digests_wf vd -> wf_rootfs (mkRootfs [l] vd v).
Proof.
  intros (Hlen & Hl & Hvd) Hd Hv. split; [done|]. split; [|by split]. apply Forall_singleton. split; [done|].
  rewrite Forall_forall in *. intros i Hi. destruct (Hl i Hi) as [Hm Ha]. split; [|done].
  specialize (Hd i Hi). unfold digests_wf in Hd. by destruct (i_mode i).
Qed.

Lemma wf_in_limits l vd v : wf_rootfs (mkRootfs [l] vd v) -> in_limits l vd.
Proof.
  intros (_ & [[Hlen Hl] _]%Forall_cons & [Hvd _]). split; [done|]. split; [|done].
  eapply Forall_impl; [exact Hl|]. intros i [Hm Ha]. split; [|done]. by destruct (i_mode i); try apply Hm.
Qed.

Section build_type.
Context {P : Profile} {R : OsRead} {ZS : ZstdSeekable} {NS : NixStat}.
Context {H : Hex} {SH : Sha256} {V : FsVerity} {D : OciDigest} {OD : OciDir} {W : CapnpWire}.
Context {F : HostFs} {CD : StreamCDC} {WD : WalkDir} {HO : HashOrder}.
Context {HL : HexOk H} {VL : FsVerityOk V}.

Abbreviation Img := (Image oci_index).

Lemma use_chunk_wf fuel digest comp length used st st' broke :
  len digest = SHA256_BLOCK_SIZE -> Forall file_chunks_wf (state_files st) ->
  use_chunk fuel digest comp length used st = Ok (st', broke) -> Forall file_chunks_wf (state_files st').
Proof.
  intros Hd. revert used st. induction fuel as [|fuel IH]; intros used st Hst; cbn [use_chunk]; [done|].
  destruct (used <? length)%N; [|by intros [= <- <-]].
  unfold state_files in Hst. destruct (cs_file st) as [f|] eqn:Hf; [|done]. cbn [unwrap mbind outcome_bind].
  intros (a & _ & (c & _ & (u & _ & (v & _ & Hr)%bind_ok_inv)%bind_ok_inv)%bind_ok_inv)%bind_ok_inv.
  apply Forall_app in Hst as [Hp [Hff Hi]%Forall_cons].
  set (f' := push_chunk f _) in Hr. assert (file_chunks_wf f') as Hf' by (apply Forall_app; by split; [|apply Forall_singleton]).
  destruct (v =? md_len (f_md f'))%N.
  - pose proof (next_file_files (cs_iter st)) as Hnf. destruct (next_file (cs_iter st)) as [[p g] r].
    assert (Forall file_chunks_wf (state_files (mkChunkState (cs_passed st ++ f' :: p) g r 0))) as Hw.
    { unfold state_files. cbn [cs_passed cs_file cs_iter]. rewrite <-app_assoc. apply Forall_app. split; [done|].
      cbn [app]. constructor; [done|]. by rewrite Hnf. }
    destruct g; [by eapply IH|by injection Hr as <- <-].
  - eapply IH; [|exact Hr]. apply Forall_app. split; [done|]. by constructor.
Qed.

Lemma put_blob_verity_len C img buf man mt img' man' desc v comp :
  put_blob C img buf man mt = Ok (img', man', (desc, v, comp)) -> len v = SHA256_BLOCK_SIZE.
Proof.
  unfold put_blob. intros ([c u] & _ & Hr)%bind_ok_inv. destruct (if _ : bool then _ else _) as [fd cb].
  cbn [get_fs_verity_digest mbind outcome_bind] in Hr. apply bind_ok_inv in Hr as (dg & _ & Hr).
  apply bind_ok_inv in Hr as (img1 & _ & Hr). injection Hr as _ _ _ <- _. apply fs_verity_len.
Qed.

Lemma process_items_wf C items img st vd man img' st' vd' man' rest :
  Forall file_chunks_wf (state_files st) -> verity_digests_wf vd ->
  process_items C items img st vd man = Ok (img', st', vd', man', rest) ->
  Forall file_chunks_wf (state_files st') /\ verity_digests_wf vd'.
Proof.
  revert img st vd man. induction items as [|item items IH]; intros img st vd man Hst Hvd; cbn [process_items].
  - by intros [= <- <- <- <- <-].
  - destruct item as [c| | |]; [|done..].
    intros ([[i1 m1] [[desc v] comp]] & Hput & Hr)%bind_ok_inv. apply put_blob_verity_len in Hput.
    apply bind_ok_inv in Hr as (dg & Hdg%map_err_ok_inv & Hr). apply bind_ok_inv in Hdg as (d & Hd%hex_to_slice_len & Hdg).
    injection Hdg as <-. cbn [underlying digest_bytes] in Hr.
    apply bind_ok_inv in Hr as ([st1 broke] & Hu & Hr). apply use_chunk_wf in Hu; [|done..].
    assert (verity_digests_wf (<[d := v]> vd)) as Hvd1 by by apply map_Forall_insert_2.
    destruct broke; [by injection Hr as <- <- <- <- <- | by eapply IH].
Qed.

Lemma process_chunks_wf C img items files vd man img' files' vd' man' :
  Forall file_chunks_wf files -> verity_digests_wf vd ->
  process_chunks C img items files vd man = Ok (img', files', vd', man') ->
  Forall file_chunks_wf files' /\ verity_digests_wf vd'.
Proof.
  unfold process_chunks. pose proof (next_file_files files) as Hnf. destruct (next_file files) as [[p g] r].
  intros Hf Hvd ([[[[i1 st] v1] m1] rest] & Hp & Hr)%bind_ok_inv. apply bind_ok_inv in Hr as ([] & _ & Hr).
  injection Hr as <- <- <- <-. eapply process_items_wf; [|done|exact Hp]. unfold state_files. cbn. by rewrite Hnf.
Qed.

Lemma mapM_digests {A} (f : A -> Result Inode) l k :
  (forall x i, x ∈ l -> f x = Ok i -> digests_wf i) -> mapM f l = Ok k -> Forall digests_wf k.
Proof.
  intros Hf Hm%mapM_ok_inv. apply Forall_forall. intros i (n & Hi)%list_elem_of_lookup.
  destruct (Forall2_lookup_r _ _ _ _ _ Hm Hi) as (x & Hx & Hxi). eapply Hf; [|done]. by eapply list_elem_of_lookup_2.
Qed.

Lemma render_layer_digests b files l :
  Forall (fun i => i_mode i = Mode_Wht) (b_pfs_inodes b) -> Forall file_chunks_wf files ->
  render_layer b files = Ok l -> Forall digests_wf l.
Proof.
  intros Hw Hf. unfold render_layer.
  intros (ds & Hds & Hr)%bind_ok_inv. apply bind_ok_inv in Hr as (fs & Hfs & Hr).
  apply bind_ok_inv in Hr as (os & Hos & Hr). injection Hr as <-.
  rewrite (merge_sort_Permutation ino_le). repeat (apply Forall_app; split).
  - eapply Forall_impl; [exact Hw|]. intros i Hi. unfold digests_wf. by rewrite Hi.
  - eapply mapM_digests; [|exact Hds]. intros d i _ Hi%map_err_ok_inv. unfold new_dir in Hi.
    destruct (negb _); [done|]. by injection Hi as <-.
  - eapply mapM_digests; [|exact Hfs]. intros f i Hin Hi%map_err_ok_inv. unfold new_file in Hi.
    destruct (negb _); [done|]. injection Hi as <-. rewrite Forall_forall in Hf. by apply Hf.
  - eapply mapM_digests; [|exact Hos]. intros o i _ Hi%map_err_ok_inv. unfold new_other in Hi.
    apply bind_ok_inv in Hi as (m & Hm & Hi). injection Hi as <-. unfold digests_wf. cbn.
    repeat (case_match; simplify_eq; try done).
Qed.

Lemma build_delta_digests C rootfs img existing vd man img' l vd' man' md :
  symlink_metadata rootfs = Ok md -> md_is_dir md = true -> verity_digests_wf vd ->
  build_delta C rootfs img existing vd man = Ok (img', l, vd', man') ->
  Forall digests_wf l /\ verity_digests_wf vd'.
Proof.
  intros Hmd Hdir Hvd. unfold build_delta. intros (b & Hb & Hr)%bind_ok_inv.
  apply bind_ok_inv in Hr as ([[[i1 files] v1] m1] & Hp & Hr). apply bind_ok_inv in Hr as (l1 & Hl & Hr).
  injection Hr as <- <- <- <-. destruct (scan_tree_scanned _ _ _ _ Hmd Hdir Hb) as [(paths & _ & Hf) _ _ Hw].
  apply process_chunks_wf in Hp as [Hfiles Hvd']; [|clear -Hf|done].
  - split; [by eapply render_layer_digests|done].
  - induction Hf as [|p f paths files (_ & _ & Hc & _) _ IH]; constructor; [|done].
    unfold file_chunks_wf, chunks_wf. rewrite Hc. constructor.
Qed.

(** C23: a build writes well-formed metadata.  If a build of a directory, the first one or a delta,
    succeeds and its counts are within the 32 bits the format has for them, then the layer is well
    formed (every chunk reference and every key and value of the verity data is a SHA-256 digest of
    32 bytes), it can be encoded, and decoding the message gives the layer and the verity data back. *)
Theorem build_delta_well_formed (C : Compression) (rootfs : Path) (img img' : Img) (existing : option PuzzleFS)
    (man man' : ImageManifest) (l : list Inode) (vd : VerityData) (md : Metadata) :
  symlink_metadata rootfs = Ok md -> md_is_dir md = true ->
  build_delta C rootfs img existing ∅ man = Ok (img', l, vd, man') -> in_limits l vd ->
  let r := mkRootfs [l] vd PUZZLEFS_IMAGE_MANIFEST_VERSION in
  wf_rootfs r /\ exists m, Rootfs_fill_capnp r default_Rootfs = Ok m /\ Rootfs_from_capnp m = Ok r.
Proof.
  intros Hmd Hdir Hb Hlim r. destruct (build_delta_digests _ _ _ _ _ _ _ _ _ _ _ Hmd Hdir (map_Forall_empty _) Hb) as [Hl Hvd].
  assert (wf_rootfs r) as Hwf by by apply in_limits_wf. split; [done|]. by apply Rootfs_fill_from.
Qed.

End build_type.
