(* ===== verification/Delta.v ===== *)
(** Facts about a delta: the whiteouts it writes, and how inode numbers taken over from the base
    image collide when hard links change. *)

From S2P Require Import Prelude Errors RustStd Capnp Format Digest InodeTable Compression Oci Reader FsStream Chunks Builder BuildFacts BuildEnd.

Section delta.
Context {P : Profile} {R : OsRead} {ZS : ZstdSeekable} {NS : NixStat}.
Context {H : Hex} {SH : Sha256} {V : FsVerity} {D : OciDigest} {OD : OciDir} {W : CapnpWire}.
Context {F : HostFs} {CD : StreamCDC} {WD : WalkDir} {HO : HashOrder}.

(** ** Whiteouts *)

(** The entries of the base directory whose names are gone. *)
Definition lost (new_names : list bytes) (dirents : list DirEnt) : list DirEnt :=
  filter (fun e => de_name e ∉ new_names) dirents.

Definition add_entries (d : Dir) (l : list DirEnt) : Dir :=
  mkDir (bd_ino d) (mkDirList (dl_look_below (bd_dir_list d)) (dl_entries (bd_dir_list d) ++ l)) (bd_md d) (bd_additional d).

(** The state after the whiteouts of a directory. *)
Definition with_whiteouts (k : N) (d : Dir) (l : list DirEnt) (b : Build) : Build :=
  mkBuild (<[k := add_entries d l]> (b_dirs b)) (b_files b) (b_others b)
    (b_pfs_inodes b ++ (new_whiteout ∘ de_ino <$> l)) (b_fs_stream b) (b_host_to_pfs b) (b_next_ino b).

Lemma existsb_name name (l : list bytes) : existsb (fun new => bool_decide (new = name)) l = bool_decide (name ∈ l).
Proof.
  induction l as [|x l IH]; [done|]. cbn. rewrite IH.
  repeat case_bool_decide; subst; cbn; try done; set_solver.
Qed.

Lemma add_whiteouts_spec k names dirents b d :
  b_dirs b !! k = Some d ->
  add_whiteouts k names dirents b = Ok (with_whiteouts k d (lost names dirents) b).
Proof.
  revert b d. induction dirents as [|e dirents IH]; intros b d Hk; cbn [add_whiteouts].
  - unfold with_whiteouts, add_entries, lost. cbn. rewrite !app_nil_r, insert_id; [by destruct b|].
    rewrite Hk. by destruct d as [? [] ? ?].
  - rewrite existsb_name. unfold lost. rewrite filter_cons. case_bool_decide as Hin.
    + rewrite decide_False by (by intros ?). by apply IH.
    + rewrite decide_True by done. rewrite Hk. cbn [ok_or mbind outcome_bind].
      erewrite IH by (cbn; apply lookup_insert_eq). unfold with_whiteouts, add_entries. cbn.
      rewrite insert_insert_eq, <-!app_assoc. by destruct e.
Qed.

(** The whiteouts of a delta are exact.  For a directory of the base image, the delta gets one
    whiteout inode and one directory entry, with the number and name of the base image, for every
    entry whose name the host directory no longer has, in order, and none for the others; nothing
    else of the state changes. *)
Theorem add_whiteouts_exact (host_ino : N) (new_names : list bytes) (dirents : list DirEnt) (b : Build) (d : Dir) :
  b_dirs b !! host_ino = Some d ->
  add_whiteouts host_ino new_names dirents b
  = Ok (mkBuild
          (<[host_ino := mkDir (bd_ino d)
               (mkDirList (dl_look_below (bd_dir_list d))
                  (dl_entries (bd_dir_list d) ++ filter (fun e => de_name e ∉ new_names) dirents))
               (bd_md d) (bd_additional d)]> (b_dirs b))
          (b_files b) (b_others b)
          (b_pfs_inodes b ++ ((fun e => new_whiteout (de_ino e)) <$> filter (fun e => de_name e ∉ new_names) dirents))
          (b_fs_stream b) (b_host_to_pfs b) (b_next_ino b)).
Proof. intros Hk. by apply add_whiteouts_spec. Qed.

(** ** Hard links between an image and a delta *)

(** What a scan has recorded is not taken back. *)
Definition grows (b b' : Build) : Prop :=
  b_pfs_inodes b ⊆ b_pfs_inodes b' /\ b_files b ⊆ b_files b'.

Lemma grows_trans b1 b2 b3 : grows b1 b2 -> grows b2 b3 -> grows b1 b3.
Proof. intros [? ?] [? ?]. split; by etransitivity. Qed.

Lemma render_entry_grows path md n b b' : render_entry path md n b = Ok b' -> grows b b'.
Proof.
  intros (add & _ & Hr)%bind_ok_inv. injection Hr as <-. destruct (md_is_dir md); [done|].
  destruct (md_is_file md); [|done]. split; [done|]. by apply list_subseteq_app_l.
Qed.

Lemma process_entry_grows rootfs existing dir name b b' : process_entry rootfs existing dir name b = Ok b' -> grows b b'.
Proof.
  unfold process_entry. intros (md & _ & Hr)%bind_ok_inv. apply bind_ok_inv in Hr as (ex & _ & Hr).
  apply bind_ok_inv in Hr as ([cur b1] & Hcur & Hr).
  assert (grows b b1) as Hb1.
  { destruct ex; [by injection Hcur as <- <-|]. apply bind_ok_inv in Hcur as (n & _ & Hcur). by injection Hcur as <- <-. }
  destruct (negb (cur =? 1)%N); [|by eapply grows_trans, render_entry_grows].
  do 3 (apply bind_ok_inv in Hr as (? & _ & Hr)). case_bool_decide; [by injection Hr as <-|].
  apply render_entry_grows in Hr. by eapply grows_trans.
Qed.

Lemma process_entries_grows rootfs existing dir names b b' : process_entries rootfs existing dir names b = Ok b' -> grows b b'.
Proof.
  revert b. induction names as [|name names IH]; intros b; cbn [process_entries]; [by intros [= <-]|].
  intros (b1 & H1%process_entry_grows & H2%IH)%bind_ok_inv. by eapply grows_trans.
Qed.

(** The entries the base image has for a directory. *)
Definition base_entries (ex : option Inode) : list DirEnt :=
  match ex with
  | Some ex => match i_mode ex with Mode_Dir dir_list => dl_entries dir_list | _ => [] end
  | None => []
  end.

Lemma process_dir_inv rootfs existing d b b' :
  process_dir rootfs existing (Ok d) b = Ok b' ->
  exists rel ex names md dr, rootfs_relative rootfs d = Ok rel /\ lookup_existing existing rel = Ok ex /\
    sorted_dirents d = Ok names /\ symlink_metadata d = Ok md /\ b_dirs b !! md_ino md = Some dr /\
    process_entries rootfs existing d names
      (with_whiteouts (md_ino md) dr
         (lost ((fun name => default [] (file_name (path_join d name))) <$> names) (base_entries ex)) b) = Ok b'.
Proof.
  unfold process_dir. cbn [map_err mbind outcome_bind].
  intros (rel & Hrel & (ex & Hex & (names & Hnames%map_err_ok_inv & (md & Hmd%map_err_ok_inv & Hr)%bind_ok_inv)%bind_ok_inv)%bind_ok_inv)%bind_ok_inv.
  apply bind_ok_inv in Hr as (dr & Hdr & Hr). destruct (b_dirs b !! md_ino md) as [dr'|] eqn:Hk; [|done]. injection Hdr as ->.
  rewrite (add_whiteouts_spec _ _ _ _ dr Hk) in Hr. cbn [mbind outcome_bind] in Hr. exists rel, ex, names, md, dr. auto 10.
Qed.

Lemma process_dirs_grows rootfs existing dirs b b' : process_dirs rootfs existing dirs b = Ok b' -> grows b b'.
Proof.
  revert b. induction dirs as [|dir dirs IH]; intros b; cbn [process_dirs]; [by intros [= <-]|].
  intros (b1 & H1 & H2%IH)%bind_ok_inv. eapply grows_trans; [|exact H2]. destruct dir as [d| | |]; try done.
  destruct (process_dir_inv _ _ _ _ _ H1) as (rel & ex & names & md & dr & _ & _ & _ & _ & _ & Hp%process_entries_grows).
  eapply grows_trans; [|exact Hp]. split; [|done]. by apply list_subseteq_app_l.
Qed.

(** A host inode becomes known only through an entry that has it. *)
Lemma process_entry_known rootfs existing dir name b b' k :
  process_entry rootfs existing dir name b = Ok b' -> b_host_to_pfs b !! k = None ->
  (forall md, symlink_metadata (path_join dir name) = Ok md -> md_ino md ≠ k) -> b_host_to_pfs b' !! k = None.
Proof.
  unfold process_entry. intros (md & Hmd%map_err_ok_inv & Hr)%bind_ok_inv Hk Hne. specialize (Hne md Hmd).
  apply bind_ok_inv in Hr as (ex & _ & Hr). apply bind_ok_inv in Hr as ([cur b1] & Hcur & Hr).
  assert (b_host_to_pfs b1 !! k = None) as Hk1.
  { destruct ex; [by injection Hcur as <- <-|]. apply bind_ok_inv in Hcur as (n & _ & Hcur). by injection Hcur as <- <-. }
  assert (forall b2, b_host_to_pfs b2 = b_host_to_pfs b1 -> render_entry (path_join dir name) md cur b2 = Ok b' ->
            b_host_to_pfs b' !! k = None) as Hrender.
  { intros b2 Heq (add & _ & Hr')%bind_ok_inv. injection Hr' as <-.
    assert (<[md_ino md := cur]> (b_host_to_pfs b2) !! k = None) as Hi by (rewrite lookup_insert_ne, Heq; done).
    destruct (md_is_dir md); [done|]. by destruct (md_is_file md). }
  destruct (negb (cur =? 1)%N); [|by eapply Hrender].
  do 3 (apply bind_ok_inv in Hr as (? & _ & Hr)). case_bool_decide; [by injection Hr as <-|]. by eapply Hrender, Hr.
Qed.

(** An entry that the base image has under some number keeps that number. *)
Lemma process_entry_existing rootfs pfs dir name b b' rel i md :
  process_entry rootfs (Some pfs) dir name b = Ok b' ->
  rootfs_relative rootfs (path_join dir name) = Ok rel -> PuzzleFS_lookup pfs rel = Ok (Some i) -> i_ino i ≠ 1%N ->
  symlink_metadata (path_join dir name) = Ok md -> md_is_file md = true -> md_is_dir md = false ->
  b_host_to_pfs b !! md_ino md = None ->
  exists f, f ∈ b_files b' /\ f_ino f = i_ino i /\ f_md f = md.
Proof.
  unfold process_entry. intros Hr Hrel Hl Hne Hmd Hfile Hdir Hk. rewrite Hmd, Hrel in Hr. cbn [map_err mbind outcome_bind] in Hr.
  rewrite Hl in Hr. cbn [mbind outcome_bind] in Hr. rewrite (proj2 (N.eqb_neq _ _) Hne) in Hr. cbn [negb] in Hr.
  do 3 (apply bind_ok_inv in Hr as (? & _ & Hr)). rewrite bool_decide_eq_false_2 in Hr.
  2:{ cbn. rewrite Hk. by intros []. }
  apply bind_ok_inv in Hr as (add & _ & Hr). injection Hr as <-. rewrite Hdir, Hfile. cbn.
  eexists. split; [apply elem_of_app; right; by left|]. done.
Qed.

Lemma process_entries_existing rootfs pfs dir names name b b' rel i md :
  process_entries rootfs (Some pfs) dir names b = Ok b' -> name ∈ names ->
  rootfs_relative rootfs (path_join dir name) = Ok rel -> PuzzleFS_lookup pfs rel = Ok (Some i) -> i_ino i ≠ 1%N ->
  symlink_metadata (path_join dir name) = Ok md -> md_is_file md = true -> md_is_dir md = false ->
  b_host_to_pfs b !! md_ino md = None ->
  (forall name' md', name' ∈ names -> name' ≠ name -> symlink_metadata (path_join dir name') = Ok md' -> md_ino md' ≠ md_ino md) ->
  exists f, f ∈ b_files b' /\ f_ino f = i_ino i /\ f_md f = md.
Proof.
  intros Hr Hin Hrel Hl Hne Hmd Hfile Hdir. revert b Hr Hin. induction names as [|n names IH]; intros b Hr Hin Hk Honly.
  { by apply not_elem_of_nil in Hin. }
  cbn [process_entries] in Hr. apply bind_ok_inv in Hr as (b1 & H1 & H2). destruct (decide (n = name)) as [->|Hn].
  - destruct (process_entry_existing _ _ _ _ _ _ _ _ _ H1 Hrel Hl Hne Hmd Hfile Hdir Hk) as (f & Hf & ?).
    exists f. split; [|done]. by apply process_entries_grows in H2 as [_ Hsub]; apply Hsub.
  - apply elem_of_cons in Hin as [->|Hin]; [done|]. eapply (IH b1); [done|done| |].
    + eapply process_entry_known; [exact H1|done|]. intros md' Hmd'. eapply Honly; [by left|done|done].
    + intros name' md' Hin'. apply Honly. by right.
Qed.

(** C27: a delta that removes one of several hard links loses the others.  Inode numbers are taken
    over from the base image by path, and a whiteout hides a number, not a name.  When the base
    image has two entries of the same number (hard links) in directory [d], the host has removed one
    and kept the other, then the delta gets both a whiteout and an inode of that number: the layer
    is not sorted strictly any more, and a lookup of the number may find either of the two. *)
Theorem delta_unlink_collides (rootfs d : Path) (rest : list (io_Result Path)) (pfs : PuzzleFS) (b b' : Build)
    (rel relname : Path) (ex i : Inode) (dir_list : DirList) (gone : DirEnt) (names : list bytes) (name : bytes) (md : Metadata) :
  process_dirs rootfs (Some pfs) (Ok d :: rest) b = Ok b' ->
  rootfs_relative rootfs d = Ok rel -> PuzzleFS_lookup pfs rel = Ok (Some ex) -> i_mode ex = Mode_Dir dir_list ->
  sorted_dirents d = Ok names -> gone ∈ dl_entries dir_list ->
  de_name gone ∉ (fun name => default [] (file_name (path_join d name))) <$> names -> name ∈ names ->
  rootfs_relative rootfs (path_join d name) = Ok relname -> PuzzleFS_lookup pfs relname = Ok (Some i) ->
  i_ino i = de_ino gone -> i_ino i ≠ 1%N ->
  symlink_metadata (path_join d name) = Ok md -> md_is_file md = true -> md_is_dir md = false ->
  b_host_to_pfs b !! md_ino md = None ->
  (forall name' md', name' ∈ names -> name' ≠ name -> symlink_metadata (path_join d name') = Ok md' -> md_ino md' ≠ md_ino md) ->
  new_whiteout (i_ino i) ∈ b_pfs_inodes b' /\ exists f, f ∈ b_files b' /\ f_ino f = i_ino i /\ f_md f = md.
Proof.
  intros Hrun Hrel Hex Hmode Hnames Hgone Hlost Hin Hreln Hl Hnum Hne Hmd Hfile Hdir Hk Honly.
  cbn [process_dirs] in Hrun. apply bind_ok_inv in Hrun as (b1 & H1 & [Hw Hf]%process_dirs_grows).
  destruct (process_dir_inv _ _ _ _ _ H1) as (rel' & ex' & names' & mdd & dr & Hrel' & Hex' & Hnames' & Hmdd & Hdr & Hp).
  assert (rel' = rel) as -> by congruence. assert (names' = names) as -> by congruence.
  cbn [lookup_existing] in Hex'. assert (ex' = Some ex) as -> by congruence. cbn [base_entries] in Hp. rewrite Hmode in Hp. split.
  - apply Hw. apply process_entries_grows in Hp as [Hw' _]. apply Hw'. cbn. apply elem_of_app. right.
    apply list_elem_of_fmap. exists gone. split; [cbn; by rewrite Hnum|]. by apply list_elem_of_filter.
  - destruct (process_entries_existing _ _ _ _ _ _ _ _ _ _ Hp Hin Hreln Hl Hne Hmd Hfile Hdir Hk Honly) as (f & Hff & ?).
    exists f. auto.
Qed.

End delta.
