(* ===== verification/BuildTree.v ===== *)
(** What a scan records of a directory tree, for a first layer or a delta: after [scan_tree] every
    path of the tree has a number and a record, and numbers are equal only for hard links.

    The host side is a specification of its own ([host_lookup]); the assumptions on [walkdir] and on
    the inode numbers of the host are collected in [host_tree]. *)

From stdpp Require Import functions.
From S2P Require Import Prelude Errors RustStd Capnp Format Digest InodeTable Compression Oci Reader FsStream Chunks Builder BuildFacts BuildEnd Delta.

Lemma path_join_inj p q n m :
  p ≠ [] -> q ≠ [] -> valid_name n -> valid_name m -> path_join p n = path_join q m -> p = q /\ n = m.
Proof.
  intros Hp Hq Hn Hm. rewrite !path_join_name by done. intros [-> Heq]%app_inj_tail. by injection Heq.
Qed.

Lemma path_parent_join p n : p ≠ [] -> valid_name n -> path_parent (path_join p n) = Some p.
Proof.
  intros Hp Hn. rewrite path_join_name by done. unfold path_parent.
  by rewrite last_snoc, List.removelast_last.
Qed.

Lemma file_name_join p n : p ≠ [] -> valid_name n -> file_name (path_join p n) = Some n.
Proof. intros Hp Hn. rewrite path_join_name by done. unfold file_name. by rewrite last_snoc. Qed.

Section build_tree.
Context {P : Profile} {R : OsRead} {ZS : ZstdSeekable} {NS : NixStat}.
Context {H : Hex} {SH : Sha256} {V : FsVerity} {D : OciDigest} {OD : OciDir} {W : CapnpWire}.
Context {F : HostFs} {CD : StreamCDC} {WD : WalkDir} {HO : HashOrder}.

Abbreviation Img := (Image oci_index).

(** ** The host's side *)

(** The host path that a list of names leads to, starting at [p]. *)
Fixpoint host_lookup (p : Path) (names : list bytes) : option Path :=
  match names with
  | [] => Some p
  | name :: names =>
      match symlink_metadata p, sorted_dirents p with
      | Ok md, Ok l => if md_is_dir md && bool_decide (name ∈ l) then host_lookup (path_join p name) names else None
      | _, _ => None
      end
  end.

(** A path of the tree: a directory that is walked, or an entry of one. *)
Definition tree_path (dirs : list Path) (p : Path) : Prop :=
  p ∈ dirs \/ exists d names name, d ∈ dirs /\ sorted_dirents d = Ok names /\ name ∈ names /\ p = path_join d name.

(** [dirs] are the directories of a tree: the walk yields each once, with all subdirectories, and
    an inode number stands for one file (hard links), or for one directory. *)
Record host_tree (rootfs : Path) (dirs : list Path) : Prop := {
  ht_root : rootfs ∈ dirs;
  ht_not_empty : rootfs ≠ [];
  ht_walk : walkdir_filter_entry (walker rootfs) keep_dirs = Ok <$> dirs;
  ht_nodup : NoDup dirs;
  ht_below d : d ∈ dirs -> exists rel, d = rootfs ++ rel;
  ht_dir d : d ∈ dirs -> exists md, symlink_metadata d = Ok md /\ md_is_dir md = true;
  ht_names d names : d ∈ dirs -> sorted_dirents d = Ok names -> NoDup names /\ Forall valid_name names;
  ht_closed d names name md :
    d ∈ dirs -> sorted_dirents d = Ok names -> name ∈ names ->
    symlink_metadata (path_join d name) = Ok md -> md_is_dir md = true -> path_join d name ∈ dirs;
  ht_inode p q mdp mdq :
    tree_path dirs p -> tree_path dirs q -> symlink_metadata p = Ok mdp -> symlink_metadata q = Ok mdq ->
    md_ino mdp = md_ino mdq ->
    mdp = mdq /\ InodeAdditional_new p mdp = InodeAdditional_new q mdq /\ fs_open p = fs_open q /\
    (md_is_dir mdp = true -> p = q)
}.

(** ** The base image's side *)

(** The number the base image has for a path. *)
Definition base_number (existing : option PuzzleFS) (rootfs p : Path) : option N := i_ino <$> base_inode existing rootfs p.

(** The entries a directory has lost since the base image. *)
Definition lost_of (existing : option PuzzleFS) (rootfs d : Path) : list DirEnt :=
  match sorted_dirents d with
  | Ok names => lost names (base_entries (base_inode existing rootfs d))
  | _ => []
  end.

(** The first number a scan hands out. *)
Definition first_number (existing : option PuzzleFS) : Result N :=
  match existing with
  | Some pfs => max ← PuzzleFS_max_inode pfs; add_w u64_bits max 1
  | None => Ok 2%N
  end.

(** Numbers taken over from the base image do not collide: they are in the range of the base image,
    two paths of the tree have the same one only if they are links to one file, and a number whose
    name is gone stands for nothing else. *)
Record no_collisions (existing : option PuzzleFS) (rootfs : Path) (dirs : list Path) (next0 : N) : Prop := {
  nc_next : (2 <= next0)%N;
  nc_base p n : tree_path dirs p -> p ≠ rootfs -> base_number existing rootfs p = Some n -> (n ≠ 1 /\ n < next0)%N;
  nc_links p q n mdp mdq :
    tree_path dirs p -> tree_path dirs q -> p ≠ rootfs -> q ≠ rootfs ->
    base_number existing rootfs p = Some n -> base_number existing rootfs q = Some n ->
    symlink_metadata p = Ok mdp -> symlink_metadata q = Ok mdq -> md_ino mdp = md_ino mdq;
  nc_lost d e : d ∈ dirs -> e ∈ lost_of existing rootfs d -> (de_ino e ≠ 1 /\ de_ino e < next0)%N;
  nc_lost_nodup d : d ∈ dirs -> NoDup (de_ino <$> lost_of existing rootfs d);
  nc_lost_once d d' e e' :
    d ∈ dirs -> d' ∈ dirs -> e ∈ lost_of existing rootfs d -> e' ∈ lost_of existing rootfs d' -> de_ino e = de_ino e' -> d = d';
  nc_lost_base d e p :
    d ∈ dirs -> e ∈ lost_of existing rootfs d -> tree_path dirs p -> p ≠ rootfs -> base_number existing rootfs p ≠ Some (de_ino e)
}.

Lemma no_collisions_first rootfs dirs : no_collisions None rootfs dirs 2.
Proof.
  assert (forall d, lost_of None rootfs d = []) as Hl by (intros d; unfold lost_of; by destruct (sorted_dirents d)).
  split; try done; intros d; rewrite ?Hl; try (intros; constructor).
  all: intros; repeat match goal with He : _ ∈ [] |- _ => by apply not_elem_of_nil in He end.
Qed.

(** ** What a scan has recorded of the tree *)

Section scan.
Context (rootfs : Path) (dirs : list Path) (HT : host_tree rootfs dirs).
Context (existing : option PuzzleFS) (next0 : N) (NC : no_collisions existing rootfs dirs next0).

Abbreviation base_number := (base_number existing rootfs).
Abbreviation lost_of := (lost_of existing rootfs).

Definition number (b : Build) (p : Path) (n : N) : Prop :=
  p = rootfs /\ n = 1%N \/
  p ≠ rootfs /\ exists md, symlink_metadata p = Ok md /\ b_host_to_pfs b !! md_ino md = Some n.

(** The entry [e] of directory [p] has the number of the file it names. *)
Definition entry_ok (b : Build) (p : Path) (e : DirEnt) : Prop :=
  exists md, symlink_metadata (path_join p (de_name e)) = Ok md /\ b_host_to_pfs b !! md_ino md = Some (de_ino e).

(** The entry [e] of directory [p] stands for a name that is gone. *)
Definition stale_ok (b : Build) (p : Path) (e : DirEnt) : Prop :=
  e ∈ lost_of p /\ new_whiteout (de_ino e) ∈ b_pfs_inodes b.

(** What is recorded for [p] under the number [n]; [ents] gives, for every directory, the names
    entered so far. *)
Definition recorded (ents : Path -> list bytes) (b : Build) (p : Path) (n : N) : Prop :=
  exists md add, symlink_metadata p = Ok md /\ InodeAdditional_new p md = Ok add /\
    if md_is_dir md then
      exists stale entries, b_dirs b !! md_ino md = Some (mkDir n (mkDirList false (stale ++ entries)) md add) /\
        Forall (stale_ok b p) stale /\ de_name <$> entries = ents p /\ Forall (entry_ok b p) entries
    else if md_is_file md then mkFile n [] md add ∈ b_files b
    else mkOther n md add ∈ b_others b.

Definition seen (ents : Path -> list bytes) (p : Path) : Prop :=
  p = rootfs \/ exists d name, d ∈ dirs /\ name ∈ ents d /\ p = path_join d name.

(** Where the number of a path comes from. *)
Definition given (b : Build) (p : Path) (n : N) : Prop :=
  base_number p = Some n \/ (next0 <= n < b_next_ino b)%N.

(** The state of a scan; the whiteouts of the directories [whited] have been added. *)
Record tree_inv (whited : list Path) (ents : Path -> list bytes) (b : Build) : Prop := {
  ti_recorded p : seen ents p -> exists n, number b p n /\ recorded ents b p n;
  ti_numbers k n : b_host_to_pfs b !! k = Some n ->
    exists p md, seen ents p /\ p ≠ rootfs /\ symlink_metadata p = Ok md /\ md_ino md = k /\ given b p n;
  ti_inj k1 k2 n : b_host_to_pfs b !! k1 = Some n -> b_host_to_pfs b !! k2 = Some n -> k1 = k2;
  ti_dirs k d : b_dirs b !! k = Some d -> exists p md, seen ents p /\ symlink_metadata p = Ok md /\ md_ino md = k;
  ti_names d : d ∈ dirs -> ents d ≠ [] -> exists names, sorted_dirents d = Ok names /\ ents d ⊆ names;
  ti_unseen p : ents p ≠ [] -> seen ents p;
  ti_stream p : p ∈ stream_paths (b_fs_stream b) -> seen ents p;
  ti_next : (next0 <= b_next_ino b)%N;
  ti_numbered : numbered b;
  ti_inos n : n ∈ inos b ->
    n = 1%N \/ (exists k, b_host_to_pfs b !! k = Some n) \/
    exists d e, d ∈ whited /\ d ∈ dirs /\ e ∈ lost_of d /\ de_ino e = n;
  ti_stale d : d ∈ whited -> d ∈ dirs ->
    exists md dr, symlink_metadata d = Ok md /\ b_dirs b !! md_ino md = Some dr /\ lost_of d ⊆ dl_entries (bd_dir_list dr)
}.

Lemma entry_ok_mono b b' p e :
  b_host_to_pfs b ⊆ b_host_to_pfs b' -> entry_ok b p e -> entry_ok b' p e.
Proof. intros Hs (md & Hmd & Hk). exists md. split; [done|]. by eapply lookup_weaken. Qed.

Lemma stale_ok_mono b b' p e : b_pfs_inodes b ⊆ b_pfs_inodes b' -> stale_ok b p e -> stale_ok b' p e.
Proof. intros Hs [? ?]. split; auto. Qed.

Lemma number_mono b b' p n : b_host_to_pfs b ⊆ b_host_to_pfs b' -> number b p n -> number b' p n.
Proof. intros Hs [?|(? & md & Hmd & Hk)]; [by left|]. right. split; [done|]. exists md. split; [done|]. by eapply lookup_weaken. Qed.

Lemma given_mono b b' p n : (b_next_ino b <= b_next_ino b')%N -> given b p n -> given b' p n.
Proof. intros Hle [?|?]; [by left|]. right. lia. Qed.

(** What is recorded of [p] stays when its directory record is left alone. *)
Lemma recorded_mono ents ents' b b' p n :
  b_host_to_pfs b ⊆ b_host_to_pfs b' -> b_files b ⊆ b_files b' -> b_others b ⊆ b_others b' ->
  b_pfs_inodes b ⊆ b_pfs_inodes b' -> ents' p = ents p ->
  (forall md, symlink_metadata p = Ok md -> md_is_dir md = true -> b_dirs b' !! md_ino md = b_dirs b !! md_ino md) ->
  recorded ents b p n -> recorded ents' b' p n.
Proof.
  intros Hh Hf Ho Hi He Hd (md & add & Hmd & Ha & Hr). exists md, add. do 2 (split; [done|]).
  destruct (md_is_dir md) eqn:Hdir; [|destruct (md_is_file md); auto].
  destruct Hr as (stale & entries & Hk & Hs & Hn & Hall). exists stale, entries. rewrite (Hd md), He by done. split; [done|].
  split; [|split; [done|]]; eapply Forall_impl; [exact Hs| |exact Hall|]; intros e;
    [by apply stale_ok_mono | by apply entry_ok_mono].
Qed.

Lemma dirs_not_empty d : d ∈ dirs -> d ≠ [].
Proof. intros (rel & ->)%(ht_below _ _ HT) [Heq _]%app_nil. by apply (ht_not_empty _ _ HT). Qed.

Lemma join_not_root d name : d ∈ dirs -> valid_name name -> path_join d name ≠ rootfs.
Proof.
  intros Hd Hn. rewrite path_join_name by auto using dirs_not_empty.
  apply (ht_below _ _ HT) in Hd as (rel & ->). intros Heq%(f_equal length). rewrite !length_app in Heq. cbn in Heq. lia.
Qed.

Lemma ents_valid whited ents b d name : tree_inv whited ents b -> d ∈ dirs -> name ∈ ents d -> valid_name name.
Proof.
  intros Hb Hd Hn. destruct (ti_names _ _ _ Hb d Hd) as (names & Hnames & Hsub); [by intros Hnil; rewrite Hnil in Hn; inversion Hn|].
  destruct (ht_names _ _ HT d names Hd Hnames) as [_ Hv]. rewrite Forall_forall in Hv. auto.
Qed.

Lemma seen_tree_path whited ents b p : tree_inv whited ents b -> seen ents p -> tree_path dirs p.
Proof.
  intros Hb [->|(d & name & Hd & Hn & ->)]; [left; apply HT|]. right.
  destruct (ti_names _ _ _ Hb d Hd) as (names & Hnames & Hsub); [by intros Hnil; rewrite Hnil in Hn; inversion Hn|].
  exists d, names, name. auto.
Qed.

Lemma seen_mono ents d names p :
  ents d ⊆ names -> seen ents p -> seen (<[d := names]> ents) p.
Proof.
  intros Hs [->|(d' & name & Hd & Hn & ->)]; [by left|]. right. exists d', name. split; [done|]. split; [|done].
  destruct (decide (d' = d)) as [->|]; [rewrite fn_lookup_insert | rewrite fn_lookup_insert_ne by done]; auto.
Qed.

(** An entry that has not been entered is not seen. *)
Lemma not_seen_yet whited ents b d name :
  tree_inv whited ents b -> d ∈ dirs -> valid_name name -> name ∉ ents d ->
  ~ seen ents (path_join d name).
Proof.
  intros Hb Hd Hv Hn [Heq|(d' & name' & Hd' & Hn' & Heq)]; [by eapply join_not_root|].
  apply path_join_inj in Heq as [-> ->]; eauto using dirs_not_empty, ents_valid.
Qed.

(** A walked directory that has a record has been seen. *)
Lemma dir_seen whited ents b d md :
  tree_inv whited ents b -> d ∈ dirs -> symlink_metadata d = Ok md -> is_Some (b_dirs b !! md_ino md) ->
  seen ents d.
Proof.
  intros Hb Hd Hmd [dr Hk]. destruct (ti_dirs _ _ _ Hb _ _ Hk) as (p & mdp & Hp & Hmdp & Hino).
  destruct (ht_dir _ _ HT d Hd) as (md' & Hmd' & Hdir). assert (md' = md) as -> by congruence.
  destruct (ht_inode _ _ HT d p md mdp) as (_ & _ & _ & Heq); [by left|by eapply seen_tree_path|done|done|done|].
  by rewrite (Heq Hdir).
Qed.

(** The record of a directory to which one entry is added. *)
Lemma recorded_add_entry ents b b' d name n mdd pd md ino :
  symlink_metadata d = Ok mdd -> md_is_dir mdd = true -> recorded ents b d n -> b_dirs b !! md_ino mdd = Some pd ->
  b_dirs b' !! md_ino mdd = Some (Dir_add_entry pd name ino) -> b_host_to_pfs b ⊆ b_host_to_pfs b' ->
  b_pfs_inodes b ⊆ b_pfs_inodes b' ->
  symlink_metadata (path_join d name) = Ok md -> b_host_to_pfs b' !! md_ino md = Some ino ->
  recorded (<[d := ents d ++ [name]]> ents) b' d n.
Proof.
  intros Hmdd Hdir (mdd' & add & Hmd' & Ha & Hr) Hpd Hpd' Hh Hi Hmd Hino. assert (mdd' = mdd) as -> by congruence.
  rewrite Hdir in Hr. destruct Hr as (stale & entries & Hk & Hs & Hn & Hall). rewrite Hk in Hpd. injection Hpd as <-.
  exists mdd, add. do 2 (split; [done|]). rewrite Hdir. exists stale, (entries ++ [mkDirEnt ino name]).
  rewrite app_assoc. split; [exact Hpd'|]. split; [eapply Forall_impl; [exact Hs|]; intros e; by apply stale_ok_mono|].
  rewrite fn_lookup_insert, fmap_app, Hn. split; [done|].
  apply Forall_app. split; [|apply Forall_singleton; by exists md].
  eapply Forall_impl; [exact Hall|]. intros e. by apply entry_ok_mono.
Qed.

(** What entering [name] in [d] does to the state, in both cases. *)
Record entered (b b' : Build) (ents : Path -> list bytes) (d : Path) (name : bytes) (md mdd : Metadata) (ino : N) : Prop := {
  en_h2p : b_host_to_pfs b ⊆ b_host_to_pfs b';
  en_files : b_files b ⊆ b_files b';
  en_others : b_others b ⊆ b_others b';
  en_inodes : b_pfs_inodes b' = b_pfs_inodes b;
  en_next : (b_next_ino b <= b_next_ino b')%N;
  en_numbered : numbered b';
  en_parent : exists pd, b_dirs b !! md_ino mdd = Some pd /\
                b_dirs b' !! md_ino mdd = Some (Dir_add_entry pd name ino);
  en_number : b_host_to_pfs b' !! md_ino md = Some ino;
  en_recorded : recorded (<[d := ents d ++ [name]]> ents) b' (path_join d name) ino;
  en_dirs k : k ≠ md_ino mdd -> k ≠ md_ino md \/ md_is_dir md = false -> b_dirs b' !! k = b_dirs b !! k;
  en_stream p : p ∈ stream_paths (b_fs_stream b') -> p ∈ stream_paths (b_fs_stream b) \/ p = path_join d name;
  en_new k n : b_host_to_pfs b' !! k = Some n ->
    b_host_to_pfs b !! k = Some n \/
    k = md_ino md /\ (base_number (path_join d name) = Some n \/ n = b_next_ino b /\ (n < b_next_ino b')%N);
  en_inos n : n ∈ inos b' -> n ∈ inos b \/ exists k, b_host_to_pfs b' !! k = Some n
}.

Lemma seen_insert ents d name p :
  seen (<[d := ents d ++ [name]]> ents) p -> seen ents p \/ p = path_join d name.
Proof.
  intros [->|(d' & name' & Hd' & Hn & ->)]; [by left; left|].
  destruct (decide (d' = d)) as [->|Hne]; [rewrite fn_lookup_insert in Hn | rewrite fn_lookup_insert_ne in Hn by done].
  - apply elem_of_app in Hn as [Hn| ->%list_elem_of_singleton]; [|by right]. left; right. eauto.
  - left; right. eauto.
Qed.

Lemma tree_inv_entered whited ents d name b b' md mdd ino names :
  tree_inv whited ents b -> d ∈ dirs -> sorted_dirents d = Ok names -> name ∈ names -> ents d ⊆ names ->
  name ∉ ents d -> symlink_metadata (path_join d name) = Ok md -> symlink_metadata d = Ok mdd ->
  entered b b' ents d name md mdd ino ->
  tree_inv whited (<[d := ents d ++ [name]]> ents) b'.
Proof.
  intros Hb Hd Hnames Hin Hsub Hnew Hmd Hmdd [Hh Hf Ho Hi Hnext Hnumd (pd & Hpd & Hpd') Hnum Hrec Hdirs Hstream Hnewn Hinos].
  destruct (ht_names _ _ HT d names Hd Hnames) as [_ Hall]. rewrite Forall_forall in Hall. pose proof (Hall _ Hin) as Hv.
  destruct (ht_dir _ _ HT d Hd) as (mdd' & Hmdd' & Hdird). assert (mdd' = mdd) as -> by congruence.
  assert (tree_path dirs (path_join d name)) as Htp by (right; by exists d, names, name).
  assert (path_join d name ≠ rootfs) as Hnr by by apply join_not_root.
  assert (seen (<[d := ents d ++ [name]]> ents) (path_join d name)) as Hseen.
  { right. exists d, name. rewrite fn_lookup_insert. split; [done|]. split; [|done]. apply elem_of_app. right. by left. }
  assert (forall p, seen ents p -> seen (<[d := ents d ++ [name]]> ents) p) as Hmono.
  { intros p. apply seen_mono. intros x Hx. apply elem_of_app. by left. }
  constructor.
  - intros p [Hp| ->]%seen_insert.
    + destruct (ti_recorded _ _ _ Hb p Hp) as (n & Hn & Hr). exists n. split; [by eapply number_mono|].
      destruct (decide (p = d)) as [->|Hne]; [eapply (recorded_add_entry ents b b' d name n mdd pd md ino); try done; by rewrite Hi|].
      eapply recorded_mono; [done..|by rewrite Hi|by apply fn_lookup_insert_ne| |exact Hr].
      intros mdp Hmdp Hdirp. apply Hdirs.
      * intros Heq. apply Hne. by eapply (ht_inode _ _ HT p d mdp mdd); [by eapply seen_tree_path|by left|..].
      * left. intros Heq. eapply not_seen_yet; [exact Hb|exact Hd|exact Hv|exact Hnew|].
        replace (path_join d name) with p; [done|].
        by eapply (ht_inode _ _ HT p _ mdp md); [by eapply seen_tree_path|done|..].
    + exists ino. split; [|done]. right. eauto.
  - intros k n Hk. apply Hnewn in Hk as [Hk|[-> Hg]].
    + destruct (ti_numbers _ _ _ Hb k n Hk) as (p & mdp & Hp & ? & ? & ? & Hg). exists p, mdp.
      eauto 10 using given_mono.
    + exists (path_join d name), md. do 4 (split; [done|]). destruct Hg as [?|[-> ?]]; [by left|right].
      pose proof (ti_next _ _ _ Hb). lia.
  - intros k1 k2 n H1 H2. apply Hnewn in H1, H2.
    assert (forall k, b_host_to_pfs b !! k = Some n ->
              (base_number (path_join d name) = Some n \/ n = b_next_ino b /\ (n < b_next_ino b')%N) -> k = md_ino md) as Hcross.
    { intros k Hk Hg. destruct (ti_numbers _ _ _ Hb k n Hk) as (p & mdp & Hp & Hpr & Hmdp & <- & Hgp).
      assert (tree_path dirs p) as Htpp by by eapply seen_tree_path.
      pose proof (ti_next _ _ _ Hb). destruct Hg as [Hg|[-> _]], Hgp as [Hgp|Hgp].
      - by eapply (nc_links _ _ _ _ NC p (path_join d name)).
      - apply (nc_base _ _ _ _ NC) in Hg; [lia|done..].
      - apply (nc_base _ _ _ _ NC) in Hgp; [lia|done..].
      - lia. }
    destruct H1 as [H1|[-> H1]], H2 as [H2|[-> H2]]; [by eapply (ti_inj _ _ _ Hb)|by apply Hcross|symmetry; by apply Hcross|done].
  - intros k dr Hk. destruct (decide (k = md_ino md)) as [->|Hkm]; [by exists (path_join d name), md|].
    destruct (decide (k = md_ino mdd)) as [->|Hkd].
    + destruct (ti_dirs _ _ _ Hb _ _ Hpd) as (p & mdp & Hp & ? & ?). exists p, mdp. auto.
    + rewrite Hdirs in Hk by auto. destruct (ti_dirs _ _ _ Hb _ _ Hk) as (p & mdp & Hp & ? & ?). exists p, mdp. auto.
  - intros d' Hd'. destruct (decide (d' = d)) as [->|Hne]; [|rewrite fn_lookup_insert_ne by done; by apply Hb].
    rewrite fn_lookup_insert. intros _. exists names. split; [done|].
    intros x [Hx| ->%list_elem_of_singleton]%elem_of_app; auto.
  - intros p. destruct (decide (p = d)) as [->|Hne].
    + intros _. apply Hmono. by eapply dir_seen.
    + rewrite fn_lookup_insert_ne by done. intros Hp. by apply Hmono, Hb.
  - intros p [Hp| ->]%Hstream; [|done]. by apply Hmono, (ti_stream _ _ _ Hb).
  - pose proof (ti_next _ _ _ Hb). lia.
  - done.
  - intros n [Hn|?]%Hinos; [|auto]. apply (ti_inos _ _ _ Hb) in Hn as [?|[(k & Hk)|?]]; auto.
    right; left. exists k. by eapply lookup_weaken.
  - intros p Hw Hp. destruct (ti_stale _ _ _ Hb p Hw Hp) as (mdp & dr & Hmdp & Hdr & Hst). exists mdp.
    destruct (decide (p = d)) as [->|Hne].
    + assert (mdp = mdd) as -> by congruence. assert (dr = pd) as -> by congruence. exists (Dir_add_entry pd name ino).
      do 2 (split; [done|]). intros e He. cbn. apply elem_of_app. auto.
    + destruct (ht_dir _ _ HT p Hp) as (mdp' & Hmdp' & Hdirp). assert (mdp' = mdp) as -> by congruence.
      exists dr. split; [done|]. split; [|done]. rewrite Hdirs; [done| |].
      * intros Heq. apply Hne. by eapply (ht_inode _ _ HT p d mdp mdd); [by left|by left|..].
      * left. intros Heq. eapply not_seen_yet; [exact Hb|exact Hd|exact Hv|exact Hnew|].
        replace (path_join d name) with p; [by eapply dir_seen|]. by eapply (ht_inode _ _ HT p _ mdp md); [by left|done|..].
Qed.

(** A second link to a file: it was recorded at the first one, and it is not a directory. *)
Lemma recorded_link whited ents b path md n :
  tree_inv whited ents b -> tree_path dirs path -> ~ seen ents path ->
  symlink_metadata path = Ok md -> b_host_to_pfs b !! md_ino md = Some n ->
  md_is_dir md = false /\
  exists add, InodeAdditional_new path md = Ok add /\
    if md_is_file md then mkFile n [] md add ∈ b_files b else mkOther n md add ∈ b_others b.
Proof.
  intros Hb Htp Hun Hmd Hk. destruct (ti_numbers _ _ _ Hb _ _ Hk) as (q & mdq & Hq & Hqr & Hmdq & Hino & _).
  destruct (ht_inode _ _ HT q path mdq md) as (-> & Hadd & _ & Hdir); [by eapply seen_tree_path|done..|].
  assert (md_is_dir md = false) as Hnd. { destruct (md_is_dir md); [|done]. by rewrite (Hdir eq_refl) in Hq. }
  split; [done|]. destruct (ti_recorded _ _ _ Hb q Hq) as (n' & Hn & mdq' & add & Hmdq' & Ha & Hr).
  assert (mdq' = md) as -> by congruence. rewrite Hnd in Hr. rewrite <-Hadd.
  destruct Hn as [[? _]|(_ & mdq' & Hmd' & Hk')]; [done|]. assert (mdq' = md) as -> by congruence.
  assert (n' = n) as -> by congruence. eauto.
Qed.

Lemma join_not_self d name : d ∈ dirs -> valid_name name -> path_join d name ≠ d.
Proof.
  intros Hd Hv. rewrite path_join_name by auto using dirs_not_empty. intros Heq%(f_equal length).
  rewrite length_app in Heq. cbn in Heq. lia.
Qed.

Lemma render_entry_inos path md n b b' : render_entry path md n b = Ok b' -> inos b' ⊆ n :: inos b.
Proof.
  intros (add & _ & Hr)%bind_ok_inv. injection Hr as <-. unfold inos.
  destruct (md_is_dir md); [|destruct (md_is_file md)]; cbn.
  - destruct (dir_inos_insert (b_dirs b) (md_ino md) (mkDir n (mkDirList false []) md add)) as (rest & Hi & Hold).
    intros x Hx. rewrite Hi in Hx. cbn in Hx. apply elem_of_cons. apply elem_of_cons in Hx as [->|Hx]; [by left|right].
    apply elem_of_app in Hx as [Hx|Hx]; apply elem_of_app; [left|by right].
    destruct (b_dirs b !! md_ino md); [rewrite Hold; by right | by rewrite <-Hold].
  - rewrite fmap_app. cbn. set_solver.
  - rewrite fmap_app. cbn. set_solver.
Qed.

Lemma base_number_some p i : base_inode existing rootfs p = Some i -> base_number p = Some (i_ino i).
Proof. intros Hi. change ((i_ino <$> base_inode existing rootfs p) = Some (i_ino i)). by rewrite Hi. Qed.

(** The number the base image has for a file that has not been met is not in use. *)
Lemma base_number_unused whited ents b p md n :
  tree_inv whited ents b -> tree_path dirs p -> p ≠ rootfs -> base_number p = Some n ->
  symlink_metadata p = Ok md -> b_host_to_pfs b !! md_ino md = None -> n ∉ inos b.
Proof.
  intros Hb Htp Hpr Hn Hmd Hk Hin. destruct (nc_base _ _ _ _ NC p n Htp Hpr Hn) as [Hn1 Hn2].
  apply (ti_inos _ _ _ Hb) in Hin as [->|[(k & Hk')|(d & e & _ & Hd & He & <-)]]; [lia| |].
  - destruct (ti_numbers _ _ _ Hb k n Hk') as (q & mdq & Hq & Hqr & Hmdq & <- & [Hg|Hg]); [|lia].
    assert (md_ino mdq = md_ino md) as Heq by (eapply (nc_links _ _ _ _ NC q p); eauto using seen_tree_path). congruence.
  - by eapply (nc_lost_base _ _ _ _ NC d e p).
Qed.

(** The two ways an entry of the tree is entered. *)
Lemma tree_entry_inv whited ents d name b b' names :
  tree_inv whited ents b -> d ∈ dirs -> sorted_dirents d = Ok names -> name ∈ names ->
  (b_next_ino b + 1 < 2 ^ 64)%N -> process_entry rootfs existing d name b = Ok b' ->
  exists md mdd pd n0 next, symlink_metadata (path_join d name) = Ok md /\ symlink_metadata d = Ok mdd /\
    b_dirs b !! md_ino mdd = Some pd /\ (b_next_ino b <= next)%N /\
    (base_number (path_join d name) = Some n0 \/ n0 = b_next_ino b /\ (n0 < next)%N) /\
    numbered b' /\ (b_next_ino b <= b_next_ino b' <= b_next_ino b + 1)%N /\
    let link n := set_dirs (set_next_ino b next) (<[md_ino mdd := Dir_add_entry pd name n]> (b_dirs b)) in
    match b_host_to_pfs b !! md_ino md with
    | Some n => b' = link n
    | None => render_entry (path_join d name) md n0 (link n0) = Ok b'
    end.
Proof.
  intros Hb Hd Hnames Hin Hlt Hrun.
  destruct (ht_names _ _ HT d names Hd Hnames) as [_ Hall]. rewrite Forall_forall in Hall. pose proof (Hall _ Hin) as Hv. clear Hall.
  pose proof (dirs_not_empty d Hd) as Hne. assert (path_join d name ≠ rootfs) as Hnr by by apply join_not_root.
  assert (tree_path dirs (path_join d name)) as Htp by (right; by exists d, names, name).
  pose proof (ti_next _ _ _ Hb) as Hge. pose proof (nc_next _ _ _ _ NC) as Hge2.
  assert (forall i, base_inode existing rootfs (path_join d name) = Some i -> (i_ino i ≠ 1 /\ i_ino i < next0)%N) as Hbase.
  { intros i Hi. apply (nc_base _ _ _ _ NC (path_join d name)); [done..|]. by apply base_number_some. }
  destruct (process_entry_numbered rootfs existing d name b b') as [Hnum Hnext]; [apply Hb|done| |done|].
  { intros i md Hi Hmd. specialize (Hbase i Hi). split; [lia|]. intros Hk.
    eapply base_number_unused; eauto using base_number_some. }
  apply process_entry_inv in Hrun; [|done|].
  2:{ unfold entry_number. destruct (base_inode existing rootfs (path_join d name)) as [i|]; [specialize (Hbase i eq_refl)|]; cbn; lia. }
  cbv zeta in Hrun. destruct (entry_number existing rootfs (path_join d name) b) as [n0 next] eqn:Hen.
  rewrite path_parent_join, file_name_join in Hrun by done. cbn [default] in Hrun.
  destruct Hrun as (md & pp & mdd & pd & Hmd & [= <-] & Hmdd & Hpd & Hr).
  exists md, mdd, pd, n0, next. do 3 (split; [done|]).
  unfold entry_number in Hen. destruct (base_inode existing rootfs (path_join d name)) as [i|] eqn:Hi; simplify_eq.
  - split; [lia|]. split; [left; by apply base_number_some|]. done.
  - split; [lia|]. split; [right; split; [done|lia]|]. done.
Qed.

Lemma tree_step whited ents d name b b' names :
  tree_inv whited ents b -> d ∈ dirs -> sorted_dirents d = Ok names -> name ∈ names -> ents d ⊆ names ->
  name ∉ ents d -> (b_next_ino b + 1 < 2 ^ 64)%N -> process_entry rootfs existing d name b = Ok b' ->
  tree_inv whited (<[d := ents d ++ [name]]> ents) b' /\ (b_next_ino b' <= b_next_ino b + 1)%N.
Proof.
  intros Hb Hd Hnames Hin Hsub Hnew Hlt Hrun.
  destruct (tree_entry_inv _ _ _ _ _ _ _ Hb Hd Hnames Hin Hlt Hrun)
    as (md & mdd & pd & n0 & next & Hmd & Hmdd & Hpd & Hnx & Hn0 & Hnumd & Hnext & Hr). cbv zeta in Hr. split; [|lia].
  destruct (ht_names _ _ HT d names Hd Hnames) as [_ Hall]. rewrite Forall_forall in Hall. pose proof (Hall _ Hin) as Hv. clear Hall.
  assert (tree_path dirs (path_join d name)) as Htp by (right; by exists d, names, name).
  pose proof (not_seen_yet _ _ _ _ _ Hb Hd Hv Hnew) as Hunseen.
  pose proof (fun n => inos_update_dir b (md_ino mdd) (Dir_add_entry pd name n) pd next Hpd eq_refl) as Hinos.
  destruct (b_host_to_pfs b !! md_ino md) as [n|] eqn:Hk.
  - subst b'. eapply (tree_inv_entered whited ents d name b _ md mdd n names); try done.
    destruct (recorded_link _ _ _ _ _ _ Hb Htp Hunseen Hmd Hk) as (Hnd & add & Ha & Hrec).
    constructor; try done.
    + exists pd. cbn. by rewrite lookup_insert_eq.
    + exists md, add. by rewrite Hnd.
    + intros k Hne _. cbn. by rewrite lookup_insert_ne.
    + auto.
    + auto.
    + intros x. rewrite Hinos. auto.
  - pose proof (render_entry_inos _ _ _ _ _ Hr) as Hsubi.
    apply bind_ok_inv in Hr as (add & Ha%map_err_ok_inv & Hr). injection Hr as Hb1.
    eapply (tree_inv_entered whited ents d name b b' md mdd n0 names); try done.
    assert (md_is_dir md = true -> md_ino md ≠ md_ino mdd) as Hne.
    { intros Hdir Heq. apply (join_not_self d name Hd Hv).
      by apply (ht_inode _ _ HT _ d md mdd); [done|left|..]. }
    assert (ents (path_join d name) = []) as Hempty.
    { destruct (ents (path_join d name)) eqn:He; [done|]. destruct Hunseen. apply (ti_unseen _ _ _ Hb). by rewrite He. }
    assert (b_host_to_pfs b' = <[md_ino md := n0]> (b_host_to_pfs b)) as Hh2p.
    { subst b'. destruct (md_is_dir md); [|destruct (md_is_file md)]; done. }
    assert (b_next_ino b' = next) as Hnexteq.
    { subst b'. destruct (md_is_dir md); [|destruct (md_is_file md)]; done. }
    assert (forall k n, b_host_to_pfs b' !! k = Some n -> b_host_to_pfs b !! k = Some n \/
              k = md_ino md /\ (base_number (path_join d name) = Some n \/ n = b_next_ino b /\ (n < b_next_ino b')%N)) as Hnewn.
    { rewrite Hh2p, Hnexteq. intros k n [[<- <-]|[_ ?]]%lookup_insert_Some; auto. }
    assert (forall n, n ∈ inos b' -> n ∈ inos b \/ exists k, b_host_to_pfs b' !! k = Some n) as Hin'.
    { intros n [->|Hn]%Hsubi%elem_of_cons; [right; exists (md_ino md); by rewrite Hh2p, lookup_insert_eq|].
      left. by rewrite Hinos in Hn. }
    assert (recorded (<[d := ents d ++ [name]]> ents) b' (path_join d name) n0) as Hrec.
    { exists md, add. do 2 (split; [done|]). subst b'. destruct (md_is_dir md); [|destruct (md_is_file md)].
      - exists [], []. cbn. rewrite lookup_insert_eq, fn_lookup_insert_ne, Hempty by (intros ?; by eapply join_not_self). done.
      - cbn. apply elem_of_app. right. by left.
      - cbn. apply elem_of_app. right. by left. }
    constructor; try done; rewrite ?Hh2p.
    + by apply insert_subseteq.
    + subst b'. destruct (md_is_dir md); [|destruct (md_is_file md)]; try done. by apply list_subseteq_app_l.
    + subst b'. destruct (md_is_dir md); [|destruct (md_is_file md)]; try done. by apply list_subseteq_app_l.
    + subst b'. destruct (md_is_dir md); [|destruct (md_is_file md)]; done.
    + lia.
    + exists pd. split; [done|]. subst b'. destruct (md_is_dir md); [|destruct (md_is_file md)]; cbn;
        rewrite ?lookup_insert_ne, ?lookup_insert_eq by auto; done.
    + by rewrite lookup_insert_eq.
    + intros k Hk1 Hk2. subst b'. destruct (md_is_dir md); [|destruct (md_is_file md)]; cbn;
        rewrite ?lookup_insert_ne; try done; try (by destruct Hk2).
    + subst b'. destruct (md_is_dir md); [|destruct (md_is_file md)]; cbn; auto.
      unfold stream_paths. cbn. rewrite fmap_app. intros p [Hp| ->%list_elem_of_singleton]%elem_of_app; auto.
Qed.

(** ** Whiteouts of a directory *)

Lemma whiteout_inos k dr l b :
  b_dirs b !! k = Some dr -> inos (with_whiteouts k dr l b) ≡ₚ inos b ++ (de_ino <$> l).
Proof.
  intros Hk. destruct (dir_inos_insert (b_dirs b) k (add_entries dr l)) as (rest & Hi & Hold). rewrite Hk in Hold.
  unfold inos, with_whiteouts. cbn [b_dirs b_files b_others b_pfs_inodes]. rewrite Hi, Hold, fmap_app.
  rewrite <-(list_fmap_compose _ i_ino). cbn [bd_ino add_entries]. unfold compose. cbn. solve_Permutation.
Qed.

Lemma lost_unused whited ents b d e :
  tree_inv whited ents b -> d ∈ dirs -> d ∉ whited -> e ∈ lost_of d -> de_ino e ∉ inos b.
Proof.
  intros Hb Hd Hnew He Hin. destruct (nc_lost _ _ _ _ NC d e Hd He) as [Hn1 Hn2].
  apply (ti_inos _ _ _ Hb) in Hin as [Heq|[(k & Hk)|(d' & e' & Hd' & Hdd' & He' & Heq)]]; [lia| |].
  - destruct (ti_numbers _ _ _ Hb k _ Hk) as (q & mdq & Hq & Hqr & _ & _ & [Hg|Hg]); [|lia].
    by eapply (nc_lost_base _ _ _ _ NC d e q); eauto using seen_tree_path.
  - assert (d' = d) as ->; [|done]. by eapply (nc_lost_once _ _ _ _ NC d' d e' e).
Qed.

Lemma tree_whiteouts whited ents d md dr b :
  tree_inv whited ents b -> d ∈ dirs -> d ∉ whited -> ents d = [] ->
  symlink_metadata d = Ok md -> b_dirs b !! md_ino md = Some dr ->
  tree_inv (d :: whited) ents (with_whiteouts (md_ino md) dr (lost_of d) b).
Proof.
  intros Hb Hd Hnew Hempty Hmd Hdr. destruct (ht_dir _ _ HT d Hd) as (md' & Hmd' & Hdir). assert (md' = md) as -> by congruence.
  assert (seen ents d) as Hseen by by eapply dir_seen.
  pose proof (whiteout_inos (md_ino md) dr (lost_of d) b Hdr) as Hinos.
  assert (b_pfs_inodes b ⊆ b_pfs_inodes (with_whiteouts (md_ino md) dr (lost_of d) b)) as Hsub by by apply list_subseteq_app_l.
  constructor; try apply Hb.
  - intros p Hp. destruct (ti_recorded _ _ _ Hb p Hp) as (n & Hn & Hr). exists n. split; [done|].
    destruct (decide (p = d)) as [->|Hne].
    + destruct Hr as (md' & add & Hmd'' & Ha & Hr). assert (md' = md) as -> by congruence. rewrite Hdir in Hr.
      destruct Hr as (stale & entries & Hk & Hs & Hnames & Hall). rewrite Hdr in Hk. injection Hk as ->.
      rewrite Hempty in Hnames. apply fmap_nil_inv in Hnames as ->. rewrite app_nil_r in *.
      exists md, add. do 2 (split; [done|]). rewrite Hdir. exists (stale ++ lost_of d), [].
      cbn. rewrite lookup_insert_eq, app_nil_r. split; [done|]. split; [|by rewrite Hempty].
      apply Forall_app. split; [eapply Forall_impl; [exact Hs|]; intros e; by apply stale_ok_mono|].
      apply Forall_forall. intros e He. split; [done|]. cbn. apply elem_of_app. right.
      apply list_elem_of_fmap. by exists e.
    + apply (recorded_mono ents ents b); try done. intros mdp Hmdp Hdirp. cbn. apply lookup_insert_ne.
      intros Heq. apply Hne. by eapply (ht_inode _ _ HT p d mdp md); [by eapply seen_tree_path|by left|..].
  - intros k dr' Hk. cbn in Hk. destruct (decide (k = md_ino md)) as [->|Hkm]; [by exists d, md|].
    rewrite lookup_insert_ne in Hk by done. by apply (ti_dirs _ _ _ Hb _ _ Hk).
  - pose proof (ti_numbered _ _ _ Hb) as [Hnd Hr Hn2 Hdd]. split; rewrite ?Hinos; cbn; try done; [| |apply insert_non_empty].
    + apply NoDup_app. split; [done|]. split; [|by apply (nc_lost_nodup _ _ _ _ NC)].
      intros x Hx (e & -> & He)%list_elem_of_fmap. by eapply lost_unused.
    + apply Forall_app. split; [done|]. apply Forall_fmap, Forall_forall. intros e He. cbn.
      pose proof (nc_lost _ _ _ _ NC d e Hd He). pose proof (ti_next _ _ _ Hb). lia.
  - intros n. rewrite Hinos. intros [Hn|(e & -> & He)%list_elem_of_fmap]%elem_of_app.
    + apply (ti_inos _ _ _ Hb) in Hn as [?|[?|(d' & e & Hd' & ?)]]; auto. right; right. exists d', e. split; [by right|done].
    + right; right. exists d, e. split; [by left|done].
  - intros p Hw Hp. destruct (decide (p = d)) as [->|Hne].
    + exists md, (add_entries dr (lost_of d)). split; [done|]. split; [cbn; apply lookup_insert_eq|]. by apply list_subseteq_app_r.
    + apply elem_of_cons in Hw as [?|Hw]; [done|]. destruct (ti_stale _ _ _ Hb p Hw Hp) as (mdp & drp & Hmdp & Hdrp & Hst).
      exists mdp, drp. split; [done|]. split; [|done]. cbn. rewrite lookup_insert_ne; [done|]. intros Heq. apply Hne. symmetry.
      by eapply (ht_inode _ _ HT d p md mdp); [by left|by left|..].
Qed.

(** ** The loops *)

Lemma tree_steps whited ents d todo b b' names :
  tree_inv whited ents b -> d ∈ dirs -> sorted_dirents d = Ok names -> names = ents d ++ todo ->
  (b_next_ino b + N.of_nat (length todo) < 2 ^ 64)%N -> process_entries rootfs existing d todo b = Ok b' ->
  exists ents', tree_inv whited ents' b' /\ ents' d = names /\ (forall p, p ≠ d -> ents' p = ents p) /\
    (b_next_ino b' <= b_next_ino b + N.of_nat (length todo))%N.
Proof.
  intros Hb Hd Hnames. destruct (ht_names _ _ HT d names Hd Hnames) as [Hnd _].
  revert ents b Hb. induction todo as [|name todo IH]; intros ents b Hb Heq Hlt; cbn [process_entries length] in *.
  - intros [= <-]. exists ents. rewrite app_nil_r in Heq. split; [done|]. split; [done|]. split; [done|lia].
  - intros (b1 & H1 & H2)%bind_ok_inv.
    assert (name ∉ ents d) as Hnew.
    { rewrite Heq in Hnd. apply NoDup_app in Hnd as (_ & Hdisj & _). intros Hin. apply (Hdisj _ Hin). by left. }
    assert (name ∈ names) as Hin. { rewrite Heq. apply elem_of_app. right. by left. }
    assert (ents d ⊆ names) as Hsub. { rewrite Heq. by apply list_subseteq_app_l. }
    destruct (tree_step whited ents d name b b1 names Hb Hd Hnames Hin Hsub Hnew ltac:(lia) H1) as [Hstep Hn1].
    destruct (IH _ _ Hstep) as (ents' & Hinv & Hents & Hother & Hn2); [|lia|done|].
    + by rewrite fn_lookup_insert, <-app_assoc.
    + exists ents'. do 2 (split; [done|]). split; [|lia]. intros p Hp. rewrite Hother by done. by apply fn_lookup_insert_ne.
Qed.

(** The names the code compares with are those of the directory. *)
Lemma new_names d names :
  d ∈ dirs -> sorted_dirents d = Ok names -> (fun name => default [] (file_name (path_join d name))) <$> names = names.
Proof.
  intros Hd Hnames. destruct (ht_names _ _ HT d names Hd Hnames) as [_ Hall]. pose proof (dirs_not_empty d Hd).
  clear Hnames. induction Hall as [|n names Hn _ IH]; [done|]. rewrite fmap_cons, file_name_join by done. cbn [default]. by f_equal.
Qed.

Lemma base_lookup d rel ex :
  rootfs_relative rootfs d = Ok rel -> lookup_existing existing rel = Ok ex -> base_inode existing rootfs d = ex.
Proof.
  unfold lookup_existing, base_inode. intros Hrel Hex. destruct existing as [pfs|]; [|by injection Hex as <-].
  by rewrite Hrel, Hex.
Qed.

Lemma tree_dirs whited ents todo b b' :
  tree_inv whited ents b -> (forall d, d ∈ todo -> d ∈ dirs /\ d ∉ whited) -> NoDup todo ->
  (forall d, d ∈ todo -> ents d = []) -> (b_next_ino b + entry_count (Ok <$> todo) < 2 ^ 64)%N ->
  process_dirs rootfs existing (Ok <$> todo) b = Ok b' ->
  exists whited' ents', tree_inv whited' ents' b' /\ (forall d, d ∈ todo -> sorted_dirents d = Ok (ents' d)) /\
    (forall d, d ∉ todo -> ents' d = ents d) /\ todo ++ whited ⊆ whited'.
Proof.
  intros Hb Hdirs Hnd. revert whited ents b Hb Hdirs. induction Hnd as [|d todo Hnotin Hnd IH]; intros whited ents b Hb Hdirs He Hlt.
  - cbn. intros [= <-]. exists whited, ents. split; [done|]. split; [|done]. by intros d ?%not_elem_of_nil.
  - rewrite fmap_cons. cbn [process_dirs]. intros (b1 & H1 & H2)%bind_ok_inv.
    destruct (Hdirs d) as [Hd Hdw]; [by left|].
    destruct (process_dir_inv _ _ _ _ _ H1) as (rel & ex & names & md & dr & Hrel & Hex & Hnames & Hmd & Hdr & Hp).
    rewrite (new_names d names Hd Hnames), <-(base_lookup d rel ex Hrel Hex) in Hp.
    assert (lost names (base_entries (base_inode existing rootfs d)) = lost_of d) as Hl.
    { unfold build_tree.lost_of. by rewrite Hnames. }
    rewrite Hl in Hp. rewrite fmap_cons in Hlt. cbn [entry_count foldr] in Hlt. rewrite Hnames in Hlt.
    fold (entry_count (Ok <$> todo)) in Hlt. unfold len in Hlt.
    pose proof (tree_whiteouts whited ents d md dr b Hb Hd Hdw (He d ltac:(by left)) Hmd Hdr) as Hb0.
    destruct (tree_steps (d :: whited) ents d names _ b1 names Hb0 Hd Hnames) as (ents1 & Hb1 & Hd1 & Ho1 & Hn1);
      [by rewrite He by by left|cbn; lia|done|]. cbn [b_next_ino with_whiteouts] in Hn1.
    destruct (IH (d :: whited) ents1 b1 Hb1) as (whited' & ents' & Hb' & Htodo & Hrest & Hw); [| | |exact H2|].
    + intros d' Hd'. destruct (Hdirs d') as [? ?]; [by right|]. split; [done|]. apply not_elem_of_cons. split; [by intros ->|done].
    + intros d' Hd'. rewrite Ho1; [apply He; by right|]. by intros ->.
    + lia.
    + exists whited', ents'. split; [done|]. split.
      * intros d' [->|Hd']%elem_of_cons; [|auto]. by rewrite Hrest, Hd1.
      * split; [|set_solver]. intros d' [Hne Hnot]%not_elem_of_cons. by rewrite Hrest, Ho1.
Qed.

Lemma tree_start md add :
  symlink_metadata rootfs = Ok md -> InodeAdditional_new rootfs md = Ok add ->
  tree_inv [] (fun _ => []) (mkBuild {[ md_ino md := mkDir 1 (mkDirList false []) md add ]} [] [] [] FilesystemStream_new ∅ next0).
Proof.
  intros Hmd Hadd. destruct (ht_dir _ _ HT rootfs (ht_root _ _ HT)) as (md' & Hmd' & Hdir). assert (md' = md) as -> by congruence.
  assert (seen (fun _ => []) rootfs) as Hroot by by left.
  assert (inos (mkBuild {[ md_ino md := mkDir 1 (mkDirList false []) md add ]} [] [] [] FilesystemStream_new ∅ next0) = [1%N]) as Hinos.
  { unfold inos, dir_inos. cbn. by rewrite map_to_list_singleton. }
  pose proof (nc_next _ _ _ _ NC).
  constructor; cbn.
  - intros p [->|(d & name & _ & Hin & _)]; [|inversion Hin]. exists 1%N. split; [by left|].
    exists md, add. rewrite Hdir. do 2 (split; [done|]). exists [], []. cbn. by rewrite lookup_singleton_eq.
  - intros k n Hk. by rewrite lookup_empty in Hk.
  - intros k1 k2 n Hk. by rewrite lookup_empty in Hk.
  - intros k d [<- _]%lookup_singleton_Some. by exists rootfs, md.
  - done.
  - done.
  - by intros p ?%not_elem_of_nil.
  - done.
  - split; rewrite ?Hinos; cbn; try done; [apply NoDup_singleton|apply Forall_singleton; lia].
  - intros n. rewrite Hinos. intros ->%list_elem_of_singleton. by left.
  - by intros d ?%not_elem_of_nil.
Qed.

(** After a scan every name of every directory is entered. *)
Lemma scan_tree_records b :
  first_number existing = Ok next0 -> (next0 + entry_count (Ok <$> dirs) < 2 ^ 64)%N -> scan_tree rootfs existing = Ok b ->
  exists whited ents, tree_inv whited ents b /\ (forall d, d ∈ dirs -> sorted_dirents d = Ok (ents d)) /\ dirs ⊆ whited.
Proof.
  intros Hnext Hlt. unfold scan_tree. fold (first_number existing). rewrite Hnext. cbn [mbind outcome_bind]. rewrite (ht_walk _ _ HT).
  intros (md & Hmd%map_err_ok_inv & Hr)%bind_ok_inv. apply bind_ok_inv in Hr as (add & Hadd%map_err_ok_inv & Hr).
  eapply (tree_dirs [] (fun _ => [])) in Hr as (whited & ents & Hb & Hents & _ & Hw);
    [exists whited, ents; rewrite app_nil_r in Hw; done|by apply tree_start| |apply HT|done|exact Hlt].
  intros d Hd. split; [done|]. apply not_elem_of_nil.
Qed.

(** A directory that is seen is walked. *)
Lemma seen_dir whited ents b p md :
  tree_inv whited ents b -> seen ents p -> symlink_metadata p = Ok md -> md_is_dir md = true -> p ∈ dirs.
Proof.
  intros Hb Hp Hmd Hdir. destruct (seen_tree_path _ _ _ _ Hb Hp) as [?|(d & names & name & Hd & Hn & Hin & ->)]; [done|].
  by eapply (ht_closed _ _ HT).
Qed.

(** Numbers are those of the host, up to renaming: two paths have the same number exactly if they
    are links to the same file. *)
Lemma number_links whited ents b p q n m mdp mdq :
  tree_inv whited ents b -> seen ents p -> seen ents q ->
  number b p n -> number b q m -> symlink_metadata p = Ok mdp -> symlink_metadata q = Ok mdq ->
  n = m <-> md_ino mdp = md_ino mdq.
Proof.
  intros Hb Hp Hq Hn Hm Hmdp Hmdq. destruct (ht_dir _ _ HT rootfs (ht_root _ _ HT)) as (mdr & Hmdr & Hdir).
  assert (forall x mdx k, seen ents x -> x ≠ rootfs -> symlink_metadata x = Ok mdx -> b_host_to_pfs b !! md_ino mdx = Some k ->
            k ≠ 1%N /\ md_ino mdx ≠ md_ino mdr) as Hroot.
  { intros x mdx k Hx Hne Hmdx Hk. split.
    { destruct (ti_numbers _ _ _ Hb _ _ Hk) as (y & mdy & Hy & Hyr & _ & _ & [Hg|Hg]); [|pose proof (nc_next _ _ _ _ NC); lia].
      apply (nc_base _ _ _ _ NC) in Hg; [lia|by eapply seen_tree_path|done]. }
    intros Heq.
    destruct (ht_inode _ _ HT rootfs x mdr mdx) as (_ & _ & _ & Heq'); [left; apply HT|by eapply seen_tree_path|done..|].
    by destruct Hne, Heq'. }
  destruct Hn as [[-> ->]|(Hpr & mdp' & Hmdp' & Hkp)], Hm as [[-> ->]|(Hqr & mdq' & Hmdq' & Hkq)].
  - split; [|done]. intros _. congruence.
  - assert (mdq' = mdq) as -> by congruence. assert (mdr = mdp) as -> by congruence.
    destruct (Hroot q mdq m Hq Hqr Hmdq Hkq). split; congruence.
  - assert (mdp' = mdp) as -> by congruence. assert (mdr = mdq) as -> by congruence.
    destruct (Hroot p mdp n Hp Hpr Hmdp Hkp). split; congruence.
  - assert (mdp' = mdp) as -> by congruence. assert (mdq' = mdq) as -> by congruence. split.
    + intros ->. by eapply (ti_inj _ _ _ Hb).
    + congruence.
Qed.

End scan.
End build_tree.
