(* ===== verification/Reproducible.v ===== *)
(** Reproducible builds: two directory trees with the same contents, on two hosts, at two paths, with
    other inode numbers, other orders of their directory listings and other orders of the hash map,
    make the same image.

    The two runs of the builder are related step by step: [orel] relates the outcomes of two
    computations, [twins] the states of two scans. *)

From S2P Require Import Prelude Errors RustStd Capnp Format Digest InodeTable Compression Oci Reader FsStream Chunks Builder BuildFacts BuildEnd Delta BuildTree.

(** ** Outcomes of two runs *)

Definition orel {E A B} (R : A -> B -> Prop) (x : outcome E A) (y : outcome E B) : Prop :=
  match x, y with
  | Ok a, Ok b => R a b
  | Err e, Err e' => e = e'
  | Panic, Panic | Diverged, Diverged => True
  | _, _ => False
  end.

Lemma orel_bind {E A B A' B'} (R : A -> B -> Prop) (R' : A' -> B' -> Prop) (x : outcome E A) y f g :
  orel R x y -> (forall a b, R a b -> orel R' (f a) (g b)) -> orel R' (x ≫= f) (y ≫= g).
Proof. destruct x, y; cbn; naive_solver. Qed.

Lemma orel_eq {E A} (x y : outcome E A) : orel eq x y <-> x = y.
Proof. split; [|intros ->; by destruct y]. destruct x, y; cbn; naive_solver. Qed.

Lemma orel_map_err {E E' A B} (h : E -> E') (R : A -> B -> Prop) x y : orel R x y -> orel R (map_err h x) (map_err h y).
Proof. destruct x, y; cbn; naive_solver. Qed.

Lemma orel_ok_or {E A B} (R : A -> B -> Prop) x y (e : E) : option_Forall2 R x y -> orel R (ok_or x e) (ok_or y e).
Proof. by destruct 1. Qed.

Lemma orel_mono {E A B} (R R' : A -> B -> Prop) (x : outcome E A) y : (forall a b, R a b -> R' a b) -> orel R x y -> orel R' x y.
Proof. destruct x, y; cbn; auto. Qed.

Lemma orel_mapM {E A B A' B'} (R : A -> B -> Prop) (R' : A' -> B' -> Prop) (f : A -> outcome E A') g l k :
  Forall2 R l k -> (forall a b, R a b -> orel R' (f a) (g b)) -> orel (Forall2 R') (mapM f l) (mapM g k).
Proof.
  induction 1 as [|a b l k Hab _ IH]; intros Hfg; cbn; [constructor|].
  eapply orel_bind; [by apply Hfg|]. intros a' b' Ha'. eapply orel_bind; [by apply IH|]. intros ? ? ?. by constructor.
Qed.

(** ** Metadata that differs only in what an image does not have *)

Record same_md (md1 md2 : Metadata) : Prop := {
  sm_mode : md_mode md1 = md_mode md2;
  sm_uid : md_uid md1 = md_uid md2;
  sm_gid : md_gid md1 = md_gid md2;
  sm_rdev : md_rdev md1 = md_rdev md2;
  sm_len : md_is_file md1 = true -> md_len md1 = md_len md2
}.

Lemma same_md_is md1 md2 ty : same_md md1 md2 -> md_is ty md1 = md_is ty md2.
Proof. intros [Hm _ _ _ _]. unfold md_is. by rewrite Hm. Qed.

Lemma same_new_inode ino md1 md2 m add : same_md md1 md2 -> new_inode ino md1 m add = new_inode ino md2 m add.
Proof. intros [Hm Hu Hg _ _]. unfold new_inode. by rewrite Hm, Hu, Hg. Qed.

Definition same_dir (d1 d2 : Dir) : Prop :=
  bd_ino d1 = bd_ino d2 /\ bd_dir_list d1 = bd_dir_list d2 /\ same_md (bd_md d1) (bd_md d2) /\ bd_additional d1 = bd_additional d2.
Definition twin_file (f1 f2 : File) : Prop :=
  f_ino f1 = f_ino f2 /\ f_chunks f1 = f_chunks f2 /\ same_md (f_md f1) (f_md f2) /\ md_len (f_md f1) = md_len (f_md f2) /\
  f_additional f1 = f_additional f2.
Definition same_other (o1 o2 : Other) : Prop :=
  bo_ino o1 = bo_ino o2 /\ same_md (bo_md o1) (bo_md o2) /\ bo_additional o1 = bo_additional o2.

Section reproducible.
Context {P : Profile} {R : OsRead} {ZS : ZstdSeekable} {NS : NixStat}.
Context {H : Hex} {SH : Sha256} {V : FsVerity} {D : OciDigest} {OD : OciDir} {W : CapnpWire}.

(** ** Chunking looks at the lengths only *)

Definition twin_state (st1 st2 : ChunkState) : Prop :=
  Forall2 twin_file (cs_passed st1) (cs_passed st2) /\ option_Forall2 twin_file (cs_file st1) (cs_file st2) /\
  Forall2 twin_file (cs_iter st1) (cs_iter st2) /\ cs_used st1 = cs_used st2.

Lemma next_file_twins l1 l2 :
  Forall2 twin_file l1 l2 ->
  let '(p1, f1, r1) := next_file l1 in let '(p2, f2, r2) := next_file l2 in
  Forall2 twin_file p1 p2 /\ option_Forall2 twin_file f1 f2 /\ Forall2 twin_file r1 r2.
Proof.
  induction 1 as [|f1 f2 l1 l2 Hf Hl IH]; cbn [next_file]; [split_and!; constructor|].
  pose proof Hf as (_ & _ & _ & Hlen & _). rewrite <-Hlen. destruct (_ <? _)%N; [split_and!; [done|by constructor|done]|].
  destruct (next_file l1) as [[p1 g1] r1], (next_file l2) as [[p2 g2] r2]. destruct IH as (? & ? & ?). split_and!; try done. by constructor.
Qed.

Lemma push_chunk_twins f1 f2 c : twin_file f1 f2 -> twin_file (push_chunk f1 c) (push_chunk f2 c).
Proof. intros (Hi & Hc & Hm & Hl & Ha). unfold push_chunk, twin_file. cbn. by rewrite Hc. Qed.

Lemma use_chunk_twins fuel digest comp length used st1 st2 :
  twin_state st1 st2 ->
  orel (fun r1 r2 => twin_state r1.1 r2.1 /\ r1.2 = r2.2) (use_chunk fuel digest comp length used st1)
    (use_chunk fuel digest comp length used st2).
Proof.
  revert used st1 st2. induction fuel as [|fuel IH]; intros used st1 st2 Hst; [done|]. cbn [use_chunk].
  destruct (used <? length)%N; [|done]. pose proof Hst as (Hp & Hf & Hi & Hu).
  eapply orel_bind with (R := twin_file); [destruct Hf; done|]. intros f1 f2 Hff. pose proof Hff as (_ & _ & _ & Hlen & _).
  rewrite <-Hlen, <-Hu. eapply orel_bind; [by apply orel_eq|]. intros ? b2 ->. eapply orel_bind; [by apply orel_eq|]. intros ? b3 ->.
  pose proof (fun c => push_chunk_twins f1 f2 c Hff) as Hpush.
  do 2 (eapply orel_bind; [by apply orel_eq|]; intros ? ? ->). cbn [f_md push_chunk]. rewrite <-Hlen.
  destruct (_ =? _)%N; [|apply IH; split_and!; cbn; try done; by constructor].
  pose proof (next_file_twins _ _ Hi) as Hn. destruct (next_file (cs_iter st1)) as [[p1 g1] r1], (next_file (cs_iter st2)) as [[p2 g2] r2].
  destruct Hn as (Hp' & Hg & Hr).
  assert (Forall2 twin_file (cs_passed st1 ++ push_chunk f1 (mkFileChunk (mkBlobRef digest used comp) (N.min b2 b3)) :: p1)
                            (cs_passed st2 ++ push_chunk f2 (mkFileChunk (mkBlobRef digest used comp) (N.min b2 b3)) :: p2)).
  { apply Forall2_app; [done|]. constructor; [apply Hpush|done]. }
  destruct Hg; [apply IH|split; [|done]]; (split_and!; cbn; try done; by constructor).
Qed.

Lemma process_items_twins C items img st1 st2 vd man :
  twin_state st1 st2 ->
  orel (fun '(i1, s1, v1, m1, r1) '(i2, s2, v2, m2, r2) => i1 = i2 /\ twin_state s1 s2 /\ v1 = v2 /\ m1 = m2 /\ r1 = r2)
    (process_items C items img st1 vd man) (process_items C items img st2 vd man).
Proof.
  revert img st1 st2 vd man. induction items as [|c items IH]; intros img st1 st2 vd man Hst; cbn [process_items]; [done|].
  destruct c as [c| | |]; try done. eapply orel_bind; [by apply orel_eq|]. intros [[i m] [[d v] comp]] ? <-.
  eapply orel_bind; [by apply orel_eq|]. intros digest ? <-.
  assert (List.length (cs_iter st1) = List.length (cs_iter st2)) as -> by (by eapply Forall2_length, Hst).
  eapply orel_bind; [by apply use_chunk_twins|]. intros [s1 b1] [s2 b2] [Hs Hb]. cbn in Hs, Hb. subst b2.
  destruct b1; [done|]. by apply IH.
Qed.

Lemma process_chunks_twins C img items l1 l2 vd man :
  Forall2 twin_file l1 l2 ->
  orel (fun '(i1, f1, v1, m1) '(i2, f2, v2, m2) => i1 = i2 /\ Forall2 twin_file f1 f2 /\ v1 = v2 /\ m1 = m2)
    (process_chunks C img items l1 vd man) (process_chunks C img items l2 vd man).
Proof.
  intros Hl. unfold process_chunks. pose proof (next_file_twins _ _ Hl) as Hn.
  destruct (next_file l1) as [[p1 f1] r1], (next_file l2) as [[p2 f2] r2]. destruct Hn as (Hp & Hf & Hr).
  eapply orel_bind; [by apply process_items_twins|].
  intros [[[[i1 s1] v1] m1] rest1] [[[[i2 s2] v2] m2] rest2] (<- & (Hp' & Hf' & Hi' & _) & <- & <- & <-).
  eapply orel_bind; [by apply orel_eq|]. intros _ _ _. split_and!; try done.
  repeat apply Forall2_app; try done. destruct Hf'; [by apply Forall2_cons|constructor].
Qed.

(** ** Two hosts *)

Context {F1 : HostFs} {WD1 : WalkDir} {F2 : HostFs} {WD2 : WalkDir}.

Definition at_ (root : Path) (names : list bytes) : Path := root ++ (Normal <$> names).

(** Attributes are recorded in the order of the host's listing, so that a file whose attributes two
    hosts list in different orders is recorded differently. *)
Lemma get_xattrs_order {F : HostFs} p xs : get_xattrs (F := F) p = Ok xs -> xattr_list p = Ok (xa_key <$> xs).
Proof.
  unfold get_xattrs. intros (keys & -> & Hxs)%bind_ok_inv. f_equal. revert xs Hxs.
  induction keys as [|k keys IH]; intros xs; cbn; [by intros [= <-]|].
  intros (x & Hx & Hr)%bind_ok_inv. apply bind_ok_inv in Hx as (value & _ & Hx). apply bind_ok_inv in Hx as (val & _ & [= <-]).
  apply bind_ok_inv in Hr as (xs' & Hxs' & [= <-]). cbn. f_equal. by apply IH.
Qed.

Lemma get_xattrs_order_matters {F F' : HostFs} p p' xs xs' :
  get_xattrs (F := F) p = Ok xs -> get_xattrs (F := F') p' = Ok xs' ->
  xattr_list (HostFs := F) p ≠ xattr_list (HostFs := F') p' -> xs ≠ xs'.
Proof. intros Hx Hx' Hne ->. apply Hne. by rewrite (get_xattrs_order _ _ Hx), (get_xattrs_order _ _ Hx'). Qed.

(** The tree at [r1] on the first host and the tree at [r2] on the second have the same contents: at
    the same names below the roots there are files of the same mode, owner, device and length, with
    the same data, link target and extended attributes, listed in the same order, or the same errors;
    hard links are the same; listings of directories have the same names in any order.  The walks go
    through the same directories, sorted by name.

    The order of the attributes is part of the contents, because [get_xattrs] records them in the order
    in which the host lists them ([get_xattrs_order_matters]), unlike directory entries, which are sorted. *)
Record same_contents (r1 r2 : Path) (dirs : list (list bytes)) : Prop := {
  sc_root1 : r1 ≠ [];
  sc_root2 : r2 ≠ [];
  sc_walk1 : walkdir_filter_entry (WalkDir := WD1) (walker r1) (keep_dirs (F := F1)) = (fun names => Ok (at_ r1 names)) <$> dirs;
  sc_walk2 : walkdir_filter_entry (WalkDir := WD2) (walker r2) (keep_dirs (F := F2)) = (fun names => Ok (at_ r2 names)) <$> dirs;
  sc_md names : orel same_md (symlink_metadata (HostFs := F1) (at_ r1 names)) (symlink_metadata (HostFs := F2) (at_ r2 names));
  sc_links names names' md1 md1' md2 md2' :
    symlink_metadata (HostFs := F1) (at_ r1 names) = Ok md1 -> symlink_metadata (HostFs := F1) (at_ r1 names') = Ok md1' ->
    symlink_metadata (HostFs := F2) (at_ r2 names) = Ok md2 -> symlink_metadata (HostFs := F2) (at_ r2 names') = Ok md2' ->
    md_ino md1 = md_ino md1' <-> md_ino md2 = md_ino md2';
  sc_open names : fs_open (HostFs := F1) (at_ r1 names) = fs_open (HostFs := F2) (at_ r2 names);
  sc_read_link names : fs_read_link (HostFs := F1) (at_ r1 names) = fs_read_link (HostFs := F2) (at_ r2 names);
  sc_xattr_list names : xattr_list (HostFs := F1) (at_ r1 names) = xattr_list (HostFs := F2) (at_ r2 names);
  sc_xattr_get names key : xattr_get (HostFs := F1) (at_ r1 names) key = xattr_get (HostFs := F2) (at_ r2 names) key;
  sc_read_dir names :
    orel (fun l1 l2 => exists n1 n2, l1 = Ok <$> n1 /\ l2 = Ok <$> n2 /\ n1 ≡ₚ n2 /\ Forall valid_name n1)
      (fs_read_dir (HostFs := F1) (at_ r1 names)) (fs_read_dir (HostFs := F2) (at_ r2 names))
}.

Section scan.
Context (r1 r2 : Path) (dirs : list (list bytes)) (HS : same_contents r1 r2 dirs).

Lemma get_xattrs_same names : get_xattrs (F := F1) (at_ r1 names) = get_xattrs (F := F2) (at_ r2 names).
Proof.
  unfold get_xattrs. rewrite (sc_xattr_list _ _ _ HS). apply orel_eq. eapply orel_bind; [by apply orel_eq|]. intros l ? <-.
  apply orel_eq. induction l as [|k l IH]; [done|]. cbn. rewrite (sc_xattr_get _ _ _ HS). by rewrite IH.
Qed.

Lemma additional_same names md1 md2 :
  same_md md1 md2 -> InodeAdditional_new (F := F1) (at_ r1 names) md1 = InodeAdditional_new (F := F2) (at_ r2 names) md2.
Proof.
  intros Hm. unfold InodeAdditional_new, md_is_symlink. by rewrite (same_md_is _ _ _ Hm), (sc_read_link _ _ _ HS), get_xattrs_same.
Qed.

Lemma mapM_id_ok {E A} (l : list A) : mapM (fun e => e) (Ok (E := E) <$> l) = Ok l.
Proof. induction l as [|a l IH]; [done|]. cbn. by rewrite IH. Qed.

Lemma sorted_dirents_same names :
  orel (fun l1 l2 => l1 = l2 /\ Forall valid_name l1) (sorted_dirents (F := F1) (at_ r1 names)) (sorted_dirents (F := F2) (at_ r2 names)).
Proof.
  unfold sorted_dirents. eapply orel_bind; [apply (sc_read_dir _ _ _ HS)|]. intros l1 l2 (n1 & n2 & -> & -> & Hp & Hv).
  rewrite !mapM_id_ok. cbn. split.
  - apply (StronglySorted_unique bytes_le); try (apply StronglySorted_merge_sort; apply _). by rewrite !merge_sort_Permutation.
  - by rewrite merge_sort_Permutation.
Qed.

(** ** Two scans *)

(** The host numbers of one file on the two hosts. *)
Definition key (k1 k2 : N) : Prop :=
  exists names md1 md2, symlink_metadata (HostFs := F1) (at_ r1 names) = Ok md1 /\
    symlink_metadata (HostFs := F2) (at_ r2 names) = Ok md2 /\ k1 = md_ino md1 /\ k2 = md_ino md2.

Lemma key_inj k1 k2 k1' k2' : key k1 k2 -> key k1' k2' -> k1 = k1' <-> k2 = k2'.
Proof.
  intros (n & md1 & md2 & H1 & H2 & -> & ->) (n' & md1' & md2' & H1' & H2' & -> & ->). by eapply (sc_links _ _ _ HS).
Qed.

Record twins (b1 b2 : Build) : Prop := {
  tw_next : b_next_ino b1 = b_next_ino b2;
  tw_inodes : b_pfs_inodes b1 = b_pfs_inodes b2;
  tw_numbers k1 k2 : key k1 k2 -> b_host_to_pfs b1 !! k1 = b_host_to_pfs b2 !! k2;
  tw_dirs k1 k2 : key k1 k2 -> option_Forall2 same_dir (b_dirs b1 !! k1) (b_dirs b2 !! k2);
  tw_dom1 k : is_Some (b_dirs b1 !! k) -> exists k2, key k k2;
  tw_dom2 k : is_Some (b_dirs b2 !! k) -> exists k1, key k1 k;
  tw_files : Forall2 twin_file (b_files b1) (b_files b2);
  tw_others : Forall2 same_other (b_others b1) (b_others b2);
  tw_stream : exists paths, b_fs_stream b1 = stream_of (at_ r1 <$> paths) /\ b_fs_stream b2 = stream_of (at_ r2 <$> paths)
}.

Lemma key_lookup_insert {A} (m1 m2 : gmap N A) k1 k2 k1' k2' a1 a2 (Q : option A -> option A -> Prop) :
  key k1 k2 -> key k1' k2' -> Q (Some a1) (Some a2) -> Q (m1 !! k1') (m2 !! k2') -> Q (<[k1 := a1]> m1 !! k1') (<[k2 := a2]> m2 !! k2').
Proof.
  intros Hk Hk' Ha Hm. pose proof (key_inj _ _ _ _ Hk Hk') as Hinj. destruct (decide (k1 = k1')) as [->|Hne].
  - rewrite (proj1 Hinj eq_refl). by rewrite !lookup_insert_eq.
  - rewrite !lookup_insert_ne by tauto. done.
Qed.

Lemma twins_insert_dir b1 b2 k1 k2 d1 d2 :
  twins b1 b2 -> key k1 k2 -> same_dir d1 d2 ->
  twins (set_dirs b1 (<[k1 := d1]> (b_dirs b1))) (set_dirs b2 (<[k2 := d2]> (b_dirs b2))).
Proof.
  intros [Hn Hi Hh Hd Ho1 Ho2 Hf Hot Hs] Hk Hdd. split; cbn; try done.
  - intros k1' k2' Hk'. apply (key_lookup_insert _ _ k1 k2); [done|done|by constructor|auto].
  - intros k. destruct (decide (k = k1)) as [->|]; [eauto|]. rewrite lookup_insert_ne by done. auto.
  - intros k. destruct (decide (k = k2)) as [->|]; [eauto|]. rewrite lookup_insert_ne by done. auto.
Qed.

Lemma at_join names name root : root ≠ [] -> valid_name name -> path_join (at_ root names) name = at_ root (names ++ [name]).
Proof.
  intros Hr Hn. unfold at_. rewrite path_join_name, fmap_app, app_assoc; [done| |done]. by destruct root.
Qed.

Lemma at_relative root names : rootfs_relative root (at_ root names) = Ok (path_join_path [RootDir] (Normal <$> names)).
Proof. unfold rootfs_relative, at_. by rewrite strip_prefix_app. Qed.

Lemma render_entry_twins names md1 md2 n b1 b2 :
  symlink_metadata (HostFs := F1) (at_ r1 names) = Ok md1 -> symlink_metadata (HostFs := F2) (at_ r2 names) = Ok md2 ->
  same_md md1 md2 -> twins b1 b2 ->
  orel twins (render_entry (F := F1) (at_ r1 names) md1 n b1) (render_entry (F := F2) (at_ r2 names) md2 n b2).
Proof.
  intros H1 H2 Hm Hb. unfold render_entry. rewrite (additional_same names md1 md2 Hm).
  eapply orel_bind; [by apply orel_eq|]. intros add ? <-. cbn [orel].
  assert (key (md_ino md1) (md_ino md2)) as Hk by (by exists names, md1, md2).
  assert (twins (set_host_to_pfs b1 (<[md_ino md1 := n]> (b_host_to_pfs b1)))
                (set_host_to_pfs b2 (<[md_ino md2 := n]> (b_host_to_pfs b2)))) as Hb'.
  { destruct Hb as [Hn Hi Hh Hd Ho1 Ho2 Hf Hot Hs]. split; cbn; try done. intros k1 k2 Hk'.
    apply (key_lookup_insert _ _ (md_ino md1) (md_ino md2)); auto. }
  unfold md_is_dir, md_is_file. rewrite <-!(same_md_is _ _ _ Hm). destruct (md_is S_IFDIR md1).
  - by apply twins_insert_dir.
  - destruct Hb' as [Hn Hi Hh Hd Ho1 Ho2 Hf Hot (paths & Hs1 & Hs2)]. destruct (md_is S_IFREG md1) eqn:Hfile; split; cbn; try done.
    + apply Forall2_app; [done|]. constructor; [|done]. split_and!; try done. by apply Hm.
    + exists (paths ++ [names]). cbn in Hs1, Hs2. rewrite !fmap_app, Hs1, Hs2. by rewrite <-!stream_of_snoc.
    + apply Forall2_app; [done|]. by constructor.
    + eauto.
Qed.

Lemma number_twins ex b1 b2 :
  twins b1 b2 ->
  orel (fun x y => x.1 = y.1 /\ twins x.2 y.2)
    (match ex with Some e => Ok (i_ino e, b1) | None => let next := b_next_ino b1 in n ← add_w u64_bits next 1; Ok (next, set_next_ino b1 n) end)
    (match ex with Some e => Ok (i_ino e, b2) | None => let next := b_next_ino b2 in n ← add_w u64_bits next 1; Ok (next, set_next_ino b2 n) end
     : Result (N * Build)).
Proof.
  intros Hb. destruct ex as [e|]; [done|]. cbn zeta. rewrite <-(tw_next _ _ Hb). eapply orel_bind; [by apply orel_eq|].
  intros n ? <-. cbn. split; [done|]. destruct Hb. by split.
Qed.

Lemma metadata_twins names :
  orel (fun md1 md2 => same_md md1 md2 /\ symlink_metadata (HostFs := F1) (at_ r1 names) = Ok md1 /\
                       symlink_metadata (HostFs := F2) (at_ r2 names) = Ok md2)
    (map_err IOError (symlink_metadata (HostFs := F1) (at_ r1 names))) (map_err IOError (symlink_metadata (HostFs := F2) (at_ r2 names))).
Proof.
  apply orel_map_err. pose proof (sc_md _ _ _ HS names) as Hm.
  destruct (symlink_metadata (HostFs := F1) (at_ r1 names)), (symlink_metadata (HostFs := F2) (at_ r2 names)); cbn in *; auto.
Qed.

Lemma process_entry_twins existing names name b1 b2 :
  valid_name name -> twins b1 b2 ->
  orel twins (process_entry (F := F1) r1 existing (at_ r1 names) name b1) (process_entry (F := F2) r2 existing (at_ r2 names) name b2).
Proof.
  intros Hname Hb. pose proof (sc_root1 _ _ _ HS) as Hr1. pose proof (sc_root2 _ _ _ HS) as Hr2.
  assert (at_ r1 names ≠ []) as Hn1 by (unfold at_; by destruct r1). assert (at_ r2 names ≠ []) as Hn2 by (unfold at_; by destruct r2).
  unfold process_entry. cbn zeta. rewrite !path_parent_join, !file_name_join by done. cbn [ok_or default]. bsimpl.
  rewrite !at_join by done. eapply orel_bind; [apply metadata_twins|].
  intros md1 md2 (Hm & H1 & H2). eapply orel_bind with (R := eq).
  { destruct existing; [|done]. rewrite !at_relative. apply orel_eq. done. }
  intros ex ? <-. eapply orel_bind; [by apply number_twins|]. clear b1 b2 Hb. intros [n b1] [n' b2] [Heq Hb]. cbn in Heq, Hb. subst n'.
  destruct (negb (n =? 1)%N); [|by apply render_entry_twins].
  eapply orel_bind; [apply metadata_twins|]. intros pd1 pd2 (_ & Hp1 & Hp2).
  assert (key (md_ino pd1) (md_ino pd2)) as Hpk by (by exists names, pd1, pd2).
  eapply orel_bind; [apply orel_ok_or; by apply (tw_dirs _ _ Hb)|]. intros d1 d2 (Hi & Hl & Hdm & Ha).
  assert (key (md_ino md1) (md_ino md2)) as Hk by (by exists (names ++ [name]), md1, md2).
  cbn [b_host_to_pfs set_dirs]. rewrite (tw_numbers _ _ Hb _ _ Hk).
  match goal with |- orel _ (if _ then Ok ?c1 else _) (if _ then Ok ?c2 else _) => assert (twins c1 c2) as Hb' end.
  { apply twins_insert_dir; [done|done|]. unfold Dir_add_entry. split_and!; cbn; try done. by rewrite Hl. }
  destruct (bool_decide _); [done|]. by apply render_entry_twins.
Qed.

Lemma process_entries_twins existing names l b1 b2 :
  Forall valid_name l -> twins b1 b2 ->
  orel twins (process_entries (F := F1) r1 existing (at_ r1 names) l b1) (process_entries (F := F2) r2 existing (at_ r2 names) l b2).
Proof.
  intros Hl. revert b1 b2. induction Hl as [|name l Hn _ IH]; intros b1 b2 Hb; [done|]. cbn [process_entries].
  eapply orel_bind; [by apply process_entry_twins|]. auto.
Qed.

Lemma add_whiteouts_twins k1 k2 new old b1 b2 :
  key k1 k2 -> twins b1 b2 -> orel twins (add_whiteouts k1 new old b1) (add_whiteouts k2 new old b2).
Proof.
  intros Hk. revert b1 b2. induction old as [|e old IH]; intros b1 b2 Hb; [done|]. cbn [add_whiteouts].
  destruct (existsb _ _); [by apply IH|]. eapply orel_bind; [apply orel_ok_or; by apply (tw_dirs _ _ Hb)|].
  intros d1 d2 (Hi & Hl & Hdm & Ha). apply IH.
  assert (twins (push_inode b1 (new_whiteout (de_ino e))) (push_inode b2 (new_whiteout (de_ino e)))) as Hb'.
  { destruct Hb as [Hn Hp]. split; cbn; try done. by rewrite Hp. }
  apply (twins_insert_dir _ _ _ _ _ _ Hb' Hk). unfold Dir_add_entry. split_and!; cbn; try done. by rewrite Hl.
Qed.

Lemma new_names_at root names l :
  root ≠ [] -> Forall valid_name l -> (fun name => default [] (file_name (path_join (at_ root names) name))) <$> l = l.
Proof.
  intros Hr Hl. assert (at_ root names ≠ []) by (unfold at_; by destruct root). induction Hl as [|name l Hn _ IH]; [done|].
  cbn. by rewrite file_name_join, IH.
Qed.

Lemma process_dir_twins existing names b1 b2 :
  twins b1 b2 ->
  orel twins (process_dir (F := F1) r1 existing (Ok (at_ r1 names)) b1) (process_dir (F := F2) r2 existing (Ok (at_ r2 names)) b2).
Proof.
  intros Hb. unfold process_dir. cbn [map_err]. bsimpl. rewrite !at_relative. bsimpl.
  eapply orel_bind; [by apply orel_eq|]. intros ex ? <-. cbn zeta.
  eapply orel_bind; [apply orel_map_err, sorted_dirents_same|]. intros l ? [<- Hl].
  eapply orel_bind; [apply metadata_twins|]. intros md1 md2 (Hm & H1 & H2).
  assert (key (md_ino md1) (md_ino md2)) as Hk by (by exists names, md1, md2).
  eapply orel_bind; [apply orel_ok_or; by apply (tw_dirs _ _ Hb)|]. intros _ _ _.
  rewrite !new_names_at; try done; try apply HS.
  eapply orel_bind; [by apply add_whiteouts_twins|]. intros c1 c2 Hc. by apply process_entries_twins.
Qed.

Lemma process_dirs_twins existing l b1 b2 :
  twins b1 b2 ->
  orel twins (process_dirs (F := F1) r1 existing ((fun names => Ok (at_ r1 names)) <$> l) b1)
    (process_dirs (F := F2) r2 existing ((fun names => Ok (at_ r2 names)) <$> l) b2).
Proof.
  revert b1 b2. induction l as [|names l IH]; intros b1 b2 Hb; [done|]. cbn.
  eapply orel_bind; [by apply process_dir_twins|]. auto.
Qed.

Lemma at_nil root : at_ root [] = root.
Proof. unfold at_. by rewrite app_nil_r. Qed.

Lemma start_twins md1 md2 add n :
  symlink_metadata (HostFs := F1) r1 = Ok md1 -> symlink_metadata (HostFs := F2) r2 = Ok md2 -> same_md md1 md2 ->
  twins (mkBuild {[ md_ino md1 := mkDir 1 (mkDirList false []) md1 add ]} [] [] [] FilesystemStream_new ∅ n)
        (mkBuild {[ md_ino md2 := mkDir 1 (mkDirList false []) md2 add ]} [] [] [] FilesystemStream_new ∅ n).
Proof.
  intros H1 H2 Hm. assert (key (md_ino md1) (md_ino md2)) as Hk by (exists [], md1, md2; by rewrite !at_nil).
  split; cbn; try done.
  - intros k1 k2 Hk'. rewrite <-!insert_empty. apply (key_lookup_insert _ _ (md_ino md1) (md_ino md2)); [done|done|by do 2 constructor|].
    rewrite !lookup_empty. constructor.
  - intros k [d Hd%lookup_singleton_Some]. destruct Hd as [<- _]. eauto.
  - intros k [d Hd%lookup_singleton_Some]. destruct Hd as [<- _]. eauto.
  - by exists [].
Qed.

Lemma scan_tree_twins existing :
  orel twins (scan_tree (F := F1) (WD := WD1) r1 existing) (scan_tree (F := F2) (WD := WD2) r2 existing).
Proof.
  unfold scan_tree. cbn zeta. eapply orel_bind; [by apply orel_eq|]. intros n ? <-.
  rewrite (sc_walk1 _ _ _ HS), (sc_walk2 _ _ _ HS).
  eapply orel_bind; [pose proof (metadata_twins []) as Hm; rewrite !at_nil in Hm; exact Hm|]. intros md1 md2 (Hm & H1 & H2).
  pose proof (additional_same [] md1 md2 Hm) as Ha. rewrite !at_nil in Ha. rewrite Ha.
  eapply orel_bind; [by apply orel_eq|]. intros add ? <-. by apply process_dirs_twins, start_twins.
Qed.

(** ** Numbers of two scans *)

Lemma dir_inos_inj m k k' d d' :
  NoDup (dir_inos m) -> m !! k = Some d -> m !! k' = Some d' -> bd_ino d = bd_ino d' -> k = k'.
Proof.
  intros Hn Hk Hk' Heq. apply elem_of_map_to_list, list_elem_of_lookup in Hk as [i Hi]. apply elem_of_map_to_list, list_elem_of_lookup in Hk' as [j Hj].
  assert (i = j) as ->; [|congruence]. apply (NoDup_lookup (dir_inos m) _ _ (bd_ino d) Hn); unfold dir_inos; rewrite list_lookup_fmap.
  - by rewrite Hi.
  - rewrite Hj. cbn. by rewrite Heq.
Qed.

Lemma dir_inos_elem m n : n ∈ dir_inos m <-> exists k d, m !! k = Some d /\ n = bd_ino d.
Proof.
  unfold dir_inos. rewrite list_elem_of_fmap. split.
  - intros ([k d] & -> & Hd%elem_of_map_to_list). eauto.
  - intros (k & d & Hd & ->). exists (k, d). split; [done|]. by apply elem_of_map_to_list.
Qed.

Lemma twin_dir b1 b2 k d2 :
  twins b1 b2 -> b_dirs b2 !! k = Some d2 -> exists k1 d1, key k1 k /\ b_dirs b1 !! k1 = Some d1 /\ same_dir d1 d2.
Proof.
  intros Hb Hd. destruct (tw_dom2 _ _ Hb k) as [k1 Hk]; [by eexists|]. pose proof (tw_dirs _ _ Hb _ _ Hk) as Hs.
  rewrite Hd in Hs. inversion Hs as [d1 ? Hdd E1 E2|]; subst. eauto.
Qed.

Lemma twin_dir_inos b1 b2 :
  twins b1 b2 -> NoDup (dir_inos (b_dirs b1)) -> NoDup (dir_inos (b_dirs b2)) /\ dir_inos (b_dirs b2) ⊆ dir_inos (b_dirs b1).
Proof.
  intros Hb Hn. split.
  - apply NoDup_fmap_2_strong; [|apply NoDup_map_to_list]. intros [k d] [k' d'] Hk%elem_of_map_to_list Hk'%elem_of_map_to_list Heq. cbn in Heq.
    destruct (twin_dir _ _ _ _ Hb Hk) as (k1 & d1 & Hkk & Hd1 & Hi & _), (twin_dir _ _ _ _ Hb Hk') as (k1' & d1' & Hkk' & Hd1' & Hi' & _).
    assert (k1 = k1') as Hk1 by (apply (dir_inos_inj _ _ _ _ _ Hn Hd1 Hd1'); congruence).
    apply (key_inj _ _ _ _ Hkk Hkk') in Hk1 as ->. congruence.
  - intros n (k & d & Hd & ->)%dir_inos_elem. destruct (twin_dir _ _ _ _ Hb Hd) as (k1 & d1 & _ & Hd1 & Hi & _).
    apply dir_inos_elem. eauto.
Qed.

Lemma twins_numbered b1 b2 : twins b1 b2 -> numbered b1 -> numbered b2.
Proof.
  intros Hb [Hn Hr Hx Hd]. unfold inos in Hn, Hr. apply NoDup_app in Hn as (Hn & Hdis & Hrest). apply Forall_app in Hr as [Hr1 Hr2].
  destruct (twin_dir_inos _ _ Hb Hn) as [Hn2 Hsub].
  assert (f_ino <$> b_files b2 = f_ino <$> b_files b1) as Hf.
  { symmetry. apply list_eq_Forall2, Forall2_fmap. eapply Forall2_impl; [apply (tw_files _ _ Hb)|]. by intros ? ? [? _]. }
  assert (bo_ino <$> b_others b2 = bo_ino <$> b_others b1) as Ho.
  { symmetry. apply list_eq_Forall2, Forall2_fmap. eapply Forall2_impl; [apply (tw_others _ _ Hb)|]. by intros ? ? [? _]. }
  split.
  - unfold inos. rewrite Hf, Ho, <-(tw_inodes _ _ Hb). apply NoDup_app. split_and!; [done| |done]. intros n Hin. auto.
  - unfold inos. rewrite Hf, Ho, <-(tw_inodes _ _ Hb), <-(tw_next _ _ Hb). apply Forall_app. split; [|done]. rewrite Forall_forall in *. auto.
  - by rewrite <-(tw_next _ _ Hb).
  - intros He. apply Hd, map_empty. intros k. destruct (b_dirs b1 !! k) as [d|] eqn:Hk; [|done].
    destruct (tw_dom1 _ _ Hb k) as [k2 Hkk]; [by eexists|]. pose proof (tw_dirs _ _ Hb _ _ Hkk) as Hs. rewrite Hk, He, lookup_empty in Hs. inversion Hs.
Qed.

(** ** Two layers *)

Definition dir_inode (d : Dir) : Inode := new_inode (bd_ino d) (bd_md d) (Mode_Dir (bd_dir_list d)) (bd_additional d).

Lemma same_dir_inode d1 d2 : same_dir d1 d2 -> dir_inode d1 = dir_inode d2.
Proof. intros (Hi & Hl & Hm & Ha). unfold dir_inode. rewrite Hi, Hl, Ha. by apply same_new_inode. Qed.

Lemma dir_inode_nodup b : numbered b -> NoDup (dir_inode <$> (map_to_list (b_dirs b)).*2).
Proof.
  intros [Hn _ _ _]. unfold inos in Hn. apply NoDup_app in Hn as (Hn & _ & _). unfold dir_inos in Hn.
  apply (NoDup_fmap_1 i_ino). by rewrite <-!list_fmap_compose.
Qed.

Lemma dir_inode_elem b i : i ∈ dir_inode <$> (map_to_list (b_dirs b)).*2 <-> exists k d, b_dirs b !! k = Some d /\ i = dir_inode d.
Proof.
  rewrite list_elem_of_fmap. setoid_rewrite list_elem_of_fmap. split.
  - intros (d & -> & [k d'] & -> & Hd%elem_of_map_to_list). eauto.
  - intros (k & d & Hd & ->). exists d. split; [done|]. exists (k, d). split; [done|]. by apply elem_of_map_to_list.
Qed.

Lemma twin_dirs b1 b2 :
  twins b1 b2 -> numbered b1 -> numbered b2 ->
  dir_inode <$> (map_to_list (b_dirs b1)).*2 ≡ₚ dir_inode <$> (map_to_list (b_dirs b2)).*2.
Proof.
  intros Hb H1 H2. apply NoDup_Permutation; [by apply dir_inode_nodup..|]. intros i. rewrite !dir_inode_elem. split.
  - intros (k & d & Hd & ->). destruct (tw_dom1 _ _ Hb k) as [k2 Hk]; [by eexists|]. pose proof (tw_dirs _ _ Hb _ _ Hk) as Hs.
    rewrite Hd in Hs. inversion Hs as [? d2 Hdd E1 E2|]; subst. exists k2, d2. auto using same_dir_inode.
  - intros (k & d & Hd & ->). destruct (twin_dir _ _ _ _ Hb Hd) as (k1 & d1 & _ & Hd1 & Hs). exists k1, d1. eauto using eq_sym, same_dir_inode.
Qed.

Context {HO1 HO2 : HashOrder} {HOL1 : HashOrderOk HO1} {HOL2 : HashOrderOk HO2}.

Lemma render_dirs {F : HostFs} {HO : HashOrder} {HOL : HashOrderOk HO} b :
  scanned b ->
  exists dirs, mapM (fun d => map_err IOError (new_dir (bd_ino d) (bd_md d) (bd_dir_list d) (bd_additional d))) (hash_into_values (b_dirs b))
               = Ok dirs /\ dirs ≡ₚ dir_inode <$> (map_to_list (b_dirs b)).*2.
Proof.
  intros Hs. exists (dir_inode <$> hash_into_values (b_dirs b)). split; [|by rewrite hash_into_values_perm].
  apply mapM_ok_map. intros d Hin. rewrite hash_into_values_perm in Hin. apply list_elem_of_fmap in Hin as ([k d'] & -> & Hin).
  apply elem_of_map_to_list in Hin. pose proof (scanned_dirs _ Hs _ _ Hin) as Hd. cbn in *. unfold new_dir. by rewrite Hd.
Qed.

Lemma sorted_inos (l : list Inode) : StronglySorted N.lt (i_ino <$> l) -> StronglySorted (fun i j => i_ino i < i_ino j)%N l.
Proof.
  induction l as [|i l IH]; [constructor|]. cbn. intros [Hl Hi]%StronglySorted_inv. constructor; [by apply IH|]. by rewrite Forall_fmap in Hi.
Qed.

Lemma sorted_layer_unique l1 l2 : sorted_layer l1 -> sorted_layer l2 -> l1 ≡ₚ l2 -> l1 = l2.
Proof.
  intros [_ H1%sorted_inos] [_ H2%sorted_inos]. intros Hp. refine (StronglySorted_unique_strong _ _ _ _ H1 H2 Hp).
  intros x y _ _ Hxy Hyx. lia.
Qed.

Lemma render_files_twins l1 l2 :
  Forall2 twin_file l1 l2 ->
  mapM (fun f => map_err IOError (new_file (f_ino f) (f_md f) (f_chunks f) (f_additional f))) l1
  = mapM (fun f => map_err IOError (new_file (f_ino f) (f_md f) (f_chunks f) (f_additional f))) l2.
Proof.
  intros Hl. apply orel_eq, (orel_mono (Forall2 eq)); [intros ? ?; apply list_eq_Forall2|]. apply (orel_mapM _ _ _ _ _ _ Hl).
  intros f1 f2 (Hi & Hc & Hm & _ & Ha). apply orel_eq. unfold new_file, md_is_file. rewrite (same_md_is _ _ _ Hm), Hi, Hc, Ha.
  by rewrite (same_new_inode _ _ _ _ _ Hm).
Qed.

Lemma render_others_twins l1 l2 :
  Forall2 same_other l1 l2 ->
  mapM (fun o => map_err IOError (new_other (bo_ino o) (bo_md o) (bo_additional o))) l1
  = mapM (fun o => map_err IOError (new_other (bo_ino o) (bo_md o) (bo_additional o))) l2.
Proof.
  intros Hl. apply orel_eq, (orel_mono (Forall2 eq)); [intros ? ?; apply list_eq_Forall2|]. apply (orel_mapM _ _ _ _ _ _ Hl).
  intros o1 o2 (Hi & Hm & Ha). apply orel_eq. unfold new_other, md_is_file, md_is_dir, md_is_symlink.
  rewrite !(same_md_is _ _ _ Hm), (sm_rdev _ _ Hm), Hi, Ha. f_equal. apply orel_eq. eapply orel_bind; [by apply orel_eq|].
  intros m ? <-. apply orel_eq. by rewrite (same_new_inode _ _ _ _ _ Hm).
Qed.

Lemma render_layer_twins b1 b2 files1 files2 :
  twins b1 b2 -> scanned (F := F1) b1 -> scanned (F := F2) b2 -> numbered b1 -> numbered b2 -> Forall2 twin_file files1 files2 ->
  f_ino <$> files1 = f_ino <$> b_files b1 -> f_ino <$> files2 = f_ino <$> b_files b2 ->
  render_layer (HO := HO1) b1 files1 = render_layer (HO := HO2) b2 files2.
Proof.
  intros Hb Hs1 Hs2 Hn1 Hn2 Hf Hi1 Hi2.
  pose proof (render_layer_sorted (HO := HO1) b1 files1) as Hl1. pose proof (render_layer_sorted (HO := HO2) b2 files2) as Hl2.
  apply orel_eq. cut (orel Permutation (render_layer (HO := HO1) b1 files1) (render_layer (HO := HO2) b2 files2)).
  { destruct (render_layer b1 files1), (render_layer b2 files2); cbn; try done. intros Hp. apply sorted_layer_unique; auto. }
  unfold render_layer. destruct (render_dirs (HO := HO1) b1 Hs1) as (d1 & -> & Hd1), (render_dirs (HO := HO2) b2 Hs2) as (d2 & -> & Hd2).
  bsimpl. rewrite (render_files_twins _ _ Hf), (render_others_twins _ _ (tw_others _ _ Hb)).
  eapply orel_bind; [by apply orel_eq|]. intros files ? <-. eapply orel_bind; [by apply orel_eq|]. intros others ? <-. cbn.
  rewrite !merge_sort_Permutation, Hd1, Hd2, (twin_dirs _ _ Hb Hn1 Hn2). by rewrite (tw_inodes _ _ Hb).
Qed.

(** ** Two builds *)

Context {CD1 CD2 : StreamCDC}.

(** The chunker looks at nothing but what its source delivers. *)
Definition same_chunker : Prop :=
  forall ps1 ps2, Forall2 (fun p q => fs_open (HostFs := F1) p = fs_open (HostFs := F2) q) ps1 ps2 ->
    stream_cdc (StreamCDC := CD1) (stream_of ps1) MIN_CHUNK_SIZE AVG_CHUNK_SIZE MAX_CHUNK_SIZE
    = stream_cdc (StreamCDC := CD2) (stream_of ps2) MIN_CHUNK_SIZE AVG_CHUNK_SIZE MAX_CHUNK_SIZE.

Context (HC : same_chunker).
Context (Hroot : exists md, symlink_metadata (HostFs := F1) r1 = Ok md /\ md_is_dir md = true).

Lemma root_dir2 : exists md, symlink_metadata (HostFs := F2) r2 = Ok md /\ md_is_dir md = true.
Proof.
  destruct Hroot as (md & Hmd & Hd). pose proof (sc_md _ _ _ HS []) as Hm. rewrite !at_nil, Hmd in Hm.
  destruct (symlink_metadata (HostFs := F2) r2) as [md2| | |]; try done. exists md2. split; [done|]. unfold md_is_dir in *.
  by rewrite <-(same_md_is _ _ _ Hm).
Qed.

Lemma same_stream b1 b2 :
  twins b1 b2 ->
  stream_cdc (StreamCDC := CD1) (b_fs_stream b1) MIN_CHUNK_SIZE AVG_CHUNK_SIZE MAX_CHUNK_SIZE
  = stream_cdc (StreamCDC := CD2) (b_fs_stream b2) MIN_CHUNK_SIZE AVG_CHUNK_SIZE MAX_CHUNK_SIZE.
Proof.
  intros Hb. destruct (tw_stream _ _ Hb) as (paths & -> & ->). apply HC. apply Forall2_fmap, Forall_Forall2_diag, Forall_true.
  apply (sc_open _ _ _ HS).
Qed.

(** The layer, the blobs, the verity data and the manifest of two builds on the same base are equal
    if the numbers of the scan are distinct. *)
Lemma build_delta_twins C img existing vd man :
  (forall b, scan_tree (F := F1) (WD := WD1) r1 existing = Ok b -> numbered b) ->
  build_delta (F := F1) (CD := CD1) (WD := WD1) (HO := HO1) C r1 img existing vd man
  = build_delta (F := F2) (CD := CD2) (WD := WD2) (HO := HO2) C r2 img existing vd man.
Proof.
  intros Hn. destruct Hroot as (md1 & Hmd1 & Hd1), root_dir2 as (md2 & Hmd2 & Hd2).
  pose proof (fun b => scan_tree_scanned (F := F1) (WD := WD1) r1 existing b _ Hmd1 Hd1) as Hs1.
  pose proof (fun b => scan_tree_scanned (F := F2) (WD := WD2) r2 existing b _ Hmd2 Hd2) as Hs2.
  apply orel_eq. unfold build_delta. pose proof (scan_tree_twins existing) as Hsc.
  destruct (scan_tree (F := F1) r1 existing) as [b1| | |], (scan_tree (F := F2) r2 existing) as [b2| | |]; try done.
  cbn in Hsc. bsimpl. cbn zeta. pose proof (twins_numbered _ _ Hsc (Hn _ eq_refl)) as Hn2. rewrite (same_stream _ _ Hsc).
  pose proof (process_chunks_twins C img (stream_cdc (StreamCDC := CD2) (b_fs_stream b2) MIN_CHUNK_SIZE AVG_CHUNK_SIZE MAX_CHUNK_SIZE)
    _ _ vd man (tw_files _ _ Hsc)) as Hp.
  destruct (process_chunks C img _ (b_files b1) vd man) as [[[[i1 f1] v1] m1]| | |] eqn:E1,
           (process_chunks C img _ (b_files b2) vd man) as [[[[i2 f2] v2] m2]| | |] eqn:E2; try done.
  destruct Hp as (<- & Hf & <- & <-). bsimpl.
  rewrite (render_layer_twins b1 b2 f1 f2); auto; [by apply orel_eq| |].
  - apply process_chunks_files in E1. apply (f_equal (fmap (fun h => h.1.1))) in E1. by rewrite <-!list_fmap_compose in E1.
  - apply process_chunks_files in E2. apply (f_equal (fmap (fun h => h.1.1))) in E2. by rewrite <-!list_fmap_compose in E2.
Qed.

End scan.

(** ** Two images *)

Context {HO1 HO2 : HashOrder} {HOL1 : HashOrderOk HO1} {HOL2 : HashOrderOk HO2}.
Context {CD1 CD2 : StreamCDC} (HC : same_chunker (CD1 := CD1) (CD2 := CD2)).

(** C5: builds are reproducible.  Two directory trees with the same contents, on two hosts that list the
    extended attributes of a file in the same order, make the same image: [build_initial_rootfs] has the same outcome for both, down to the last blob of the
    store, the index, the descriptor of the metadata and the error if there is one.  Neither the
    paths of the trees, nor the host's inode numbers, nor the order in which directories are listed,
    nor the order of the builder's hash map has any influence. *)
Theorem build_reproducible (C : Compression) (r1 r2 : Path) (dirs : list (list bytes)) (img : Image oci_index) (tag : bytes) :
  same_contents r1 r2 dirs -> (exists md, symlink_metadata (HostFs := F1) r1 = Ok md /\ md_is_dir md = true) ->
  (2 + entry_count (F := F1) (walkdir_filter_entry (WalkDir := WD1) (walker r1) (keep_dirs (F := F1))) < 2 ^ 64)%N ->
  build_initial_rootfs (F := F1) (CD := CD1) (WD := WD1) (HO := HO1) C r1 img tag
  = build_initial_rootfs (F := F2) (CD := CD2) (WD := WD2) (HO := HO2) C r2 img tag.
Proof.
  intros HS Hroot Hcount. apply orel_eq. unfold build_initial_rootfs. eapply orel_bind; [by apply orel_eq|]. intros [i m] ? <-.
  rewrite (build_delta_twins _ _ _ HS HC Hroot) by (intros b Hb; by eapply (scan_tree_numbered (F := F1) (WD := WD1))).
  by apply orel_eq.
Qed.

(** So are deltas: a tree that is built on top of an image makes the same image on both hosts if the
    numbers taken over from the base image do not collide. *)
Theorem delta_reproducible (C : Compression) (r1 r2 : Path) (dirs : list (list bytes)) (img : Image oci_index) (tag base : bytes) :
  same_contents r1 r2 dirs -> host_tree (F := F1) (WD := WD1) r1 (at_ r1 <$> dirs) ->
  (forall img' man pfs next, get_empty_manifest img = Ok (img', man) -> PuzzleFS_open img' base None = Ok pfs -> first_number (Some pfs) = Ok next ->
     no_collisions (F := F1) (Some pfs) r1 (at_ r1 <$> dirs) next /\
     (next + entry_count (F := F1) (Ok <$> (at_ r1 <$> dirs)) < 2 ^ 64)%N) ->
  add_rootfs_delta (F := F1) (CD := CD1) (WD := WD1) (HO := HO1) C r1 img tag base
  = add_rootfs_delta (F := F2) (CD := CD2) (WD := WD2) (HO := HO2) C r2 img tag base.
Proof.
  intros HS HT Hnc. apply orel_eq. unfold add_rootfs_delta. destruct (get_empty_manifest img) as [[i m]| | |] eqn:Hman; try done. bsimpl.
  destruct (PuzzleFS_open i base None) as [pfs| | |] eqn:Hopen; try done. bsimpl.
  eapply orel_bind; [by apply orel_eq|]. intros rd ? <-. eapply orel_bind; [by apply orel_eq|]. intros rootfs ? <-.
  rewrite (build_delta_twins _ _ _ HS HC).
  - by apply orel_eq.
  - apply (ht_dir _ _ HT), HT.
  - intros b Hb. destruct (first_number (Some pfs)) as [next| | |] eqn:Hfirst; unfold scan_tree in Hb; fold (first_number (Some pfs)) in Hb;
      rewrite Hfirst in Hb; try done. destruct (Hnc i m pfs next eq_refl Hopen Hfirst) as [NC Hcount].
    assert (scan_tree (F := F1) (WD := WD1) r1 (Some pfs) = Ok b) as Hscan
      by (unfold scan_tree; fold (first_number (Some pfs)); by rewrite Hfirst).
    destruct (scan_tree_records _ _ HT _ _ NC b Hfirst Hcount Hscan) as (w & e & Hinv & _). apply Hinv.
Qed.

End reproducible.
