(* ===== verification/BuildImage.v ===== *)
(** From a directory tree to an opened image: what [build_initial_rootfs] writes, [PuzzleFS::open]
    reads, and looking up any path in the image gives what the host has there.  The lookups in a
    layer on top of others ([delta_of_tree]) are those a delta needs too. *)

From S2P Require Import Prelude Errors RustStd Capnp Format Digest InodeTable Compression Oci Reader FsStream Chunks Builder BuildFacts BuildEnd BuildType BuildTree.

Section build_image.
Context {P : Profile} {R : OsRead} {ZS : ZstdSeekable} {NS : NixStat}.
Context {H : Hex} {SH : Sha256} {V : FsVerity} {D : OciDigest} {OD : OciDir} {W : CapnpWire}.
Context {F : HostFs} {CD : StreamCDC} {WD : WalkDir} {HO : HashOrder}.
Context {SL : Sha256Ok SH} {HL : HexOk H} {VL : FsVerityOk V} {DL : OciDigestOk D}.
Context {RF : OsReadFull R} {ZSL : ZstdSeekableOk ZS} {CDL : StreamCDCOk CD} {HOL : HashOrderOk HO}.
Context {WL : CapnpWireOk W} {ODL : OciDirOk OD}.

Abbreviation Img := (Image oci_index).

(** ** A first build *)

(** A first build of [rootfs] into [img0] under [tag]: the tree can be scanned, the hash does not
    collide on the data that is stored ([U]), the index is writable, and the counts are within the
    limits of the format. *)
Record first_build (C : Compression) (U : bytes -> Prop) (rootfs : Path) (img0 img img1 : Img) (tag : bytes)
    (man man1 : ImageManifest) (b : Build) (l : list Inode) (vd : VerityData) (buf : bytes) : Prop := {
  fb_compression : C = Noop \/ C = Zstd;
  fb_host : host_consistent;
  fb_root : exists md, symlink_metadata rootfs = Ok md /\ md_is_dir md = true;
  fb_scan : scan_tree rootfs None = Ok b;
  fb_count : (2 + entry_count (walkdir_filter_entry (walker rootfs) keep_dirs) < 2 ^ 64)%N;
  fb_manifest : get_empty_manifest img0 = Ok (img, man);
  fb_healthy : healthy U img;
  fb_chunks : Forall (fun c => match c with Ok c => U (stored_form C (cd_data c)).1 | _ => True end)
                (stream_cdc (b_fs_stream b) MIN_CHUNK_SIZE AVG_CHUNK_SIZE MAX_CHUNK_SIZE);
  fb_delta : build_delta C rootfs img None ∅ man = Ok (img1, l, vd, man1);
  fb_limits : in_limits l vd;
  fb_written : serialize_metadata (mkRootfs [l] vd PUZZLEFS_IMAGE_MANIFEST_VERSION) = Ok buf;
  fb_buf : (len buf < 2 ^ 63)%N /\ U buf;
  fb_insert img2 man2 : exists img3 d, oci_insert_manifest img2 man2 (Some tag) = Ok (img3, d)
}.

(** The image opens, and its inode table is the layer that was built. *)
Lemma build_opens C U rootfs img0 img img1 tag man man1 b l vd buf :
  first_build C U rootfs img0 img img1 tag man man1 b l vd buf ->
  exists img3 desc pfs, build_initial_rootfs C rootfs img0 tag = Ok (img3, desc) /\
    PuzzleFS_open img3 tag None = Ok pfs /\ pfs_oci pfs = img3 /\ pfs_verity_data pfs = None /\
    represents (pfs_rootfs pfs) (mkRootfs [l] vd PUZZLEFS_IMAGE_MANIFEST_VERSION) /\
    searchable (mkRootfs [l] vd PUZZLEFS_IMAGE_MANIFEST_VERSION) /\
    (forall i, i ∈ l -> i_mode i ≠ Mode_Wht -> PuzzleFS_find_inode pfs (i_ino i) = Ok i) /\
    (forall n, new_whiteout n ∈ l -> PuzzleFS_find_inode pfs n = Err (from_errno ENOENT)) /\
    forall f, f ∈ b_files b -> file_in_layer b img3 l f.
Proof.
  intros [HC Hhost (md & Hmd & Hdir) Hscan Hcount Hman Hh HU Hdelta Hlim Hser [Hlen HUbuf] Hins].
  destruct (build_delta_spec C U rootfs img None ∅ man b md HC Hhost Hmd Hdir Hscan Hh HU)
    as (img1' & l' & vd' & man' & Hdelta' & Hh1 & _ & Hfiles).
  rewrite Hdelta in Hdelta'. injection Hdelta' as <- <- <- <-.
  pose proof (build_delta_initial_spec C rootfs img img1 ∅ vd man man1 l Hcount Hdelta) as Hsorted.
  assert (wf_rootfs (mkRootfs [l] vd PUZZLEFS_IMAGE_MANIFEST_VERSION)) as Hwf.
  { destruct (build_delta_digests _ _ _ _ _ _ _ _ _ _ _ Hmd Hdir (map_Forall_empty _) Hdelta). by apply in_limits_wf. }
  destruct (put_blob_healthy Noop U img1 buf man1 MT_Rootfs (or_introl eq_refl) Hlen Hh1)
    as (img2 & man2 & desc & v & comp & Hput & _); [unfold stored_form; by rewrite noop_compress_buf|].
  destruct (Hins img2 man2) as (img3 & d & Hi).
  destruct (publish_opens U img1 man1 _ buf tag img2 man2 desc v comp img3 d Hwf eq_refl Hser Hlen Hh1 HUbuf Hput Hi)
    as (pfs & Hopen & Hrep & Hoci & Hvd & Hsub).
  exists img3, desc, pfs. split.
  { unfold build_initial_rootfs. rewrite Hman. bsimpl. rewrite Hdelta. bsimpl. rewrite Hser. bsimpl.
    rewrite Hput. bsimpl. by rewrite Hi. }
  assert (searchable (mkRootfs [l] vd PUZZLEFS_IMAGE_MANIFEST_VERSION)) as Hs by (split; [done|]; by apply Forall_singleton).
  pose proof (fun i => find_in_top_layer pfs _ l [] i Hrep Hs eq_refl) as Hfind.
  do 5 (split; [done|]). split; [|split].
  - intros i Hin Hmode. rewrite (Hfind i Hin). by destruct (i_mode i).
  - intros n Hin. exact (Hfind _ Hin).
  - intros f Hf. destruct (Hfiles f Hf) as (p & data & chunks & Hst & Hp & Hd & Ha & Hsmall & Hin & Hc).
    exists p, data, chunks. do 6 (split; [done|]). by eapply file_content_mono.
Qed.

(** ** The layer holds what the scan recorded *)

Lemma build_delta_layer C rootfs img existing vd man img' l vd' man' b :
  scan_tree rootfs existing = Ok b -> build_delta C rootfs img existing vd man = Ok (img', l, vd', man') ->
  b_pfs_inodes b ⊆ l /\
  (forall k d, b_dirs b !! k = Some d ->
     new_inode (bd_ino d) (bd_md d) (Mode_Dir (bd_dir_list d)) (bd_additional d) ∈ l) /\
  (forall o, o ∈ b_others b -> exists i, new_other (bo_ino o) (bo_md o) (bo_additional o) = Ok i /\ i ∈ l).
Proof.
  intros Hscan. unfold build_delta. rewrite Hscan. bsimpl. intros ([[[i1 files] v1] m1] & _ & Hr)%bind_ok_inv.
  apply bind_ok_inv in Hr as (l1 & Hl & Hr). injection Hr as _ <- _ _.
  apply bind_ok_inv in Hl as (ds & Hds & Hr). apply bind_ok_inv in Hr as (fs & _ & Hr).
  apply bind_ok_inv in Hr as (os & Hos & Hr). injection Hr as <-. split; [|split].
  - intros i Hi. rewrite merge_sort_Permutation, elem_of_app. auto.
  - intros k d Hk. destruct (mapM_elem _ _ _ d Hds) as (i & Hi%map_err_ok_inv & Hin).
    { rewrite hash_into_values_perm. apply list_elem_of_fmap. exists (k, d). by rewrite elem_of_map_to_list. }
    unfold new_dir in Hi. destruct (negb _); [done|]. injection Hi as <-.
    rewrite merge_sort_Permutation, !elem_of_app. auto.
  - intros o Ho. destruct (mapM_elem _ _ _ o Hos Ho) as (i & Hi%map_err_ok_inv & Hin). exists i. split; [done|].
    rewrite merge_sort_Permutation, !elem_of_app. auto.
Qed.

(** What an inode that is not a directory has of the host file at [p]: for a regular file, what its
    chunks hold and reading it returns; for anything else the kind and the device numbers. *)
Definition mirrors_leaf (pfs : PuzzleFS) (p : Path) (md : Metadata) (add : option InodeAdditional) (inode : Inode) : Prop :=
  if md_is_file md then
    exists chunks data, fs_open p = Ok data /\ i_mode inode = Mode_File chunks /\
      file_content (pfs_oci pfs) (pfs_verity_data pfs) chunks data /\
      forall offset out, (offset + len out + len data < 2 ^ 64)%N ->
        file_read (pfs_oci pfs) inode offset out (pfs_verity_data pfs)
        = Ok (splice 0 (slice offset (len out) data) out, N.min (len out) (len data - offset))
  else new_other (i_ino inode) md add = Ok inode.

(** The inode mirrors the host file at [p]: owner, permission bits, extended attributes and link
    target; for a directory the sorted names. *)
Definition mirrors (pfs : PuzzleFS) (p : Path) (inode : Inode) : Prop :=
  exists md add, symlink_metadata p = Ok md /\ InodeAdditional_new p md = Ok add /\
    inode = new_inode (i_ino inode) md (i_mode inode) add /\
    if md_is_dir md then
      exists names entries, sorted_dirents p = Ok names /\ i_mode inode = Mode_Dir (mkDirList false entries) /\
        de_name <$> entries = names
    else mirrors_leaf pfs p md add inode.

(** In a delta a directory has, before those names, entries for the names [gone] since the base
    image; their inodes cannot be found. *)
Definition mirrors_over (gone : Path -> list DirEnt) (pfs : PuzzleFS) (p : Path) (inode : Inode) : Prop :=
  exists md add, symlink_metadata p = Ok md /\ InodeAdditional_new p md = Ok add /\
    inode = new_inode (i_ino inode) md (i_mode inode) add /\
    if md_is_dir md then
      exists names stale entries, sorted_dirents p = Ok names /\
        i_mode inode = Mode_Dir (mkDirList false (stale ++ entries)) /\ de_name <$> entries = names /\
        (forall e, e ∈ stale <-> e ∈ gone p) /\
        Forall (fun e => de_name e ∉ names /\ PuzzleFS_find_inode pfs (de_ino e) = Err (from_errno ENOENT)) stale
    else mirrors_leaf pfs p md add inode.

Lemma mirrors_over_exact gone pfs p inode : gone p = [] -> mirrors_over gone pfs p inode -> mirrors pfs p inode.
Proof.
  intros Hg (md & add & Hmd & Ha & Hs & Hcase). exists md, add. do 3 (split; [done|]).
  destruct (md_is_dir md); [|done]. destruct Hcase as (names & stale & entries & Hn & Hm & He & Hsub & _).
  rewrite Hg in Hsub. assert (stale = []) as -> by (apply list_nil_subseteq; intros e; apply Hsub). eauto.
Qed.

(** The image opened as [pfs] is that of the tree at [rootfs]: a path leads to the same file in both,
    and numbers are equal for links to one file. *)
Definition same_links (rootfs : Path) (pfs : PuzzleFS) : Prop :=
  forall names names' p q mdp mdq inode inode',
    host_lookup rootfs names = Some p -> host_lookup rootfs names' = Some q ->
    symlink_metadata p = Ok mdp -> symlink_metadata q = Ok mdq ->
    PuzzleFS_lookup pfs (image_path names) = Ok (Some inode) -> PuzzleFS_lookup pfs (image_path names') = Ok (Some inode') ->
    i_ino inode = i_ino inode' <-> md_ino mdp = md_ino mdq.

Record image_of_tree (rootfs : Path) (pfs : PuzzleFS) : Prop := {
  io_lookup names :
    match host_lookup rootfs names with
    | Some p => exists inode, PuzzleFS_lookup pfs (image_path names) = Ok (Some inode) /\ mirrors pfs p inode
    | None => PuzzleFS_lookup pfs (image_path names) = Ok None
    end;
  io_links : same_links rootfs pfs
}.

(** The same with whiteouts: a path that is not there may be reported as an error. *)
Record delta_of_tree (gone : Path -> list DirEnt) (rootfs : Path) (pfs : PuzzleFS) : Prop := {
  do_lookup names :
    match host_lookup rootfs names with
    | Some p => exists inode, PuzzleFS_lookup pfs (image_path names) = Ok (Some inode) /\ mirrors_over gone pfs p inode
    | None => PuzzleFS_lookup pfs (image_path names) = Ok None \/
              PuzzleFS_lookup pfs (image_path names) = Err (from_errno ENOENT)
    end;
  do_links : same_links rootfs pfs
}.

(** ** Looking up a path *)

Section lookup.
Context (rootfs : Path) (dirs : list Path) (HT : host_tree rootfs dirs).
Context (existing : option PuzzleFS) (next0 : N) (NC : no_collisions existing rootfs dirs next0).
Context (whited : list Path) (ents : Path -> list bytes) (b : Build) (Hb : tree_inv rootfs dirs existing next0 whited ents b).
Context (Hents : forall d, d ∈ dirs -> sorted_dirents d = Ok (ents d)) (Hwhited : dirs ⊆ whited).
Context (l : list Inode) (pfs : PuzzleFS).
Context (Hfind : forall i, i ∈ l -> i_mode i ≠ Mode_Wht -> PuzzleFS_find_inode pfs (i_ino i) = Ok i).
Context (Hgone : forall n, new_whiteout n ∈ l -> PuzzleFS_find_inode pfs n = Err (from_errno ENOENT)).
Context (Hwht : b_pfs_inodes b ⊆ l).
Context (Hdirs : forall k d, b_dirs b !! k = Some d ->
                   new_inode (bd_ino d) (bd_md d) (Mode_Dir (bd_dir_list d)) (bd_additional d) ∈ l).
Context (Hothers : forall o, o ∈ b_others b -> exists i, new_other (bo_ino o) (bo_md o) (bo_additional o) = Ok i /\ i ∈ l).
Context (Hfiles : forall f, f ∈ b_files b -> file_in_layer b (pfs_oci pfs) l f).
Context (Hverity : pfs_verity_data pfs = None).

Abbreviation gone := (lost_of existing rootfs).
Abbreviation seen := (seen rootfs dirs).

Lemma new_other_shape ino md add i :
  new_other ino md add = Ok i ->
  i = new_inode ino md (i_mode i) add /\ i_mode i ≠ Mode_Wht /\ forall dl, i_mode i ≠ Mode_Dir dl.
Proof.
  unfold new_other. intros (m & Hm & Hi)%bind_ok_inv. injection Hi as <-. split; [done|]. cbn.
  repeat (case_match; simplify_eq; try done).
Qed.

(** The entries of a directory: those of names that are gone, then those of the names there are. *)
Definition dir_shape (p : Path) (dl : DirList) : Prop :=
  p ∈ dirs /\ exists stale entries, dl_entries dl = stale ++ entries /\ de_name <$> entries = ents p /\
    Forall (entry_ok b p) entries /\ stale ⊆ gone p /\
    Forall (fun e => de_name e ∉ ents p /\ PuzzleFS_find_inode pfs (de_ino e) = Err (from_errno ENOENT)) stale.

(** The inode of a path that was seen. *)
Lemma seen_inode p n :
  seen ents p -> recorded rootfs existing ents b p n ->
  exists inode, PuzzleFS_find_inode pfs n = Ok inode /\ i_ino inode = n /\ mirrors_over gone pfs p inode /\
    (forall dl, i_mode inode = Mode_Dir dl -> dir_shape p dl).
Proof.
  intros Hp (md & add & Hmd & Ha & Hr). unfold mirrors_over, mirrors_leaf.
  destruct (md_is_dir md) eqn:Hdir; [|destruct (md_is_file md) eqn:Hfile].
  - destruct Hr as (stale & entries & Hk & Hs & Hn & Hall). pose proof (Hfind _ (Hdirs _ _ Hk) ltac:(done)) as Hf.
    assert (p ∈ dirs) as Hpd by by eapply seen_dir. rewrite Forall_forall in Hs.
    assert (stale ⊆ gone p) as Hsub by by intros e [? _]%Hs.
    assert (Forall (fun e => de_name e ∉ ents p /\ PuzzleFS_find_inode pfs (de_ino e) = Err (from_errno ENOENT)) stale) as Hst.
    { apply Forall_forall. intros e [Hl Hw]%Hs. split; [|by apply Hgone, Hwht].
      unfold lost_of in Hl. rewrite (Hents p Hpd) in Hl. by apply list_elem_of_filter in Hl as [? _]. }
    assert (forall e, e ∈ stale <-> e ∈ gone p) as Hsame.
    { intros e. split; [apply Hsub|]. intros He. destruct (ti_stale _ _ _ _ _ _ _ Hb p (Hwhited _ Hpd) Hpd) as (md' & dr & Hmd' & Hdr & Hlost).
      assert (md' = md) as -> by congruence. rewrite Hk in Hdr. injection Hdr as <-. pose proof (Hlost _ He) as Hin.
      cbn in Hin. apply elem_of_app in Hin as [?|Hin]; [done|]. unfold lost_of in He. rewrite (Hents p Hpd) in He.
      apply list_elem_of_filter in He as [He _]. destruct He. rewrite <-Hn. by apply list_elem_of_fmap_2. }
    eexists. split; [exact Hf|]. split; [done|]. split.
    + exists md, add. rewrite Hdir. do 3 (split; [done|]). exists (ents p), stale, entries. auto 10.
    + intros dl [= <-]. split; [done|]. exists stale, entries. auto 10.
  - destruct (Hfiles _ Hr) as (q & data & chunks & Hq & Hmdq & Hopen & Haq & _ & Hin & Hc).
    pose proof (Hfind _ Hin ltac:(done)) as Hf. eexists. split; [exact Hf|]. split; [done|]. split; [|done].
    exists md, add. rewrite Hdir, Hfile. do 3 (split; [done|]). exists chunks, data.
    apply (ti_stream _ _ _ _ _ _ _ Hb) in Hq.
    destruct (ht_inode _ _ HT p q md md) as (_ & _ & Heq & _); [by eapply seen_tree_path..|done|done|done|].
    split; [congruence|]. split; [done|]. rewrite Hverity. split; [done|]. intros offset out Hov. by apply (file_read_spec _ None _ chunks data).
  - destruct (Hothers _ Hr) as (i & Hi & Hin). destruct (new_other_shape _ _ _ _ Hi) as (Hshape & Hw & Hd).
    assert (i_ino i = n) as Hino by by rewrite Hshape.
    exists i. rewrite <-Hino at 1. split; [by apply Hfind|]. split; [done|]. split; [|by intros dl ?%Hd].
    exists md, add. rewrite Hdir, Hfile, Hino. split; [done|]. split; [done|]. split; [done|exact Hi].
Qed.

(** What a lookup of a missing path returns: an error only where something is gone. *)
Definition missing (r : Result (option Inode)) : Prop :=
  r = Ok None \/ r = Err (from_errno ENOENT) /\ exists d, d ∈ dirs /\ gone d ≠ [].

Lemma find_stale entries stale name :
  List.find (fun e => bool_decide (de_name e = name)) (stale ++ entries)
  = match List.find (fun e => bool_decide (de_name e = name)) stale with
    | Some e => Some e
    | None => List.find (fun e => bool_decide (de_name e = name)) entries
    end.
Proof. induction stale as [|e stale IH]; [done|]. cbn. by destruct (bool_decide _). Qed.

Lemma find_name_none name (entries : list DirEnt) :
  name ∉ de_name <$> entries -> List.find (fun e => bool_decide (de_name e = name)) entries = None.
Proof.
  intros Hn. destruct (List.find _ entries) as [e|] eqn:Hf; [|done].
  apply find_some in Hf as [He%list_elem_of_In <-%bool_decide_eq_true]. destruct Hn. by apply list_elem_of_fmap_2.
Qed.

Lemma lookup_path names p n inode :
  seen ents p -> number rootfs b p n -> recorded rootfs existing ents b p n -> PuzzleFS_find_inode pfs n = Ok inode ->
  match host_lookup p names with
  | Some q => exists m inode', seen ents q /\ number rootfs b q m /\ i_ino inode' = m /\ mirrors_over gone pfs q inode' /\
                tree_path dirs q /\ lookup_from (PuzzleFS_find_inode pfs) inode (Normal <$> names) = Ok (Some inode')
  | None => missing (lookup_from (PuzzleFS_find_inode pfs) inode (Normal <$> names))
  end.
Proof.
  revert p n inode. induction names as [|name names IH]; intros p n inode Hp Hn Hrec Hinode;
    destruct (seen_inode p n Hp Hrec) as (i & Hi & Hino & Hmir & Hentries);
    rewrite Hi in Hinode; injection Hinode as <-; cbn [host_lookup].
  - exists n, i. eauto 10 using seen_tree_path.
  - destruct Hmir as (md & add & Hmd & Ha & _ & Hcase). rewrite Hmd, fmap_cons. cbn [lookup_from].
    destruct (md_is_dir md) eqn:Hdir; cbn [andb].
    2:{ assert (forall dl, i_mode i ≠ Mode_Dir dl) as Hnd.
        { intros dl (Hpd & _)%Hentries. destruct (ht_dir _ _ HT p Hpd) as (md' & Hmd' & ?). congruence. }
        destruct (sorted_dirents p); destruct (i_mode i); try (by left); by edestruct Hnd. }
    destruct Hcase as (names' & stale0 & entries0 & Hsorted & Hmode & _). rewrite Hsorted, Hmode.
    destruct (Hentries _ Hmode) as (Hpd & stale & entries & Heq & Hnames & Hall & Hsub & Hst).
    rewrite Heq, find_stale. assert (names' = ents p) as -> by (rewrite (Hents p Hpd) in Hsorted; congruence).
    rewrite Forall_forall in Hst. case_bool_decide as Hin.
    + rewrite (find_name_none name stale).
      2:{ intros (e & -> & [He _]%Hst)%list_elem_of_fmap. done. }
      destruct (List.find _ entries) as [e|] eqn:Hfe.
      2:{ rewrite <-Hnames in Hin. apply list_elem_of_fmap in Hin as (e & -> & He).
          by apply list_elem_of_In, (find_none _ _ Hfe), bool_decide_eq_false in He. }
      apply find_some in Hfe as [He%list_elem_of_In Hname%bool_decide_eq_true]. subst name.
      rewrite Forall_forall in Hall. destruct (Hall e He) as (md' & Hmd' & Hk).
      assert (seen ents (path_join p (de_name e))) as Hq by (right; eauto).
      destruct (ti_recorded _ _ _ _ _ _ _ Hb _ Hq) as (m & Hm & Hrm).
      assert (m = de_ino e) as ->.
      { destruct Hm as [[Hroot _]|(_ & md'' & Hmd'' & Hk')]; [|congruence].
        destruct (join_not_root rootfs dirs HT p (de_name e) Hpd); [|done]. by eapply ents_valid. }
      destruct (seen_inode _ _ Hq Hrm) as (i' & Hi' & _). rewrite Hi'. cbn [mbind outcome_bind]. by eapply IH.
    + rewrite (find_name_none name entries) by by rewrite Hnames. destruct (List.find _ stale) as [e|] eqn:Hfe; [|by left].
      apply find_some in Hfe as [He%list_elem_of_In _]. destruct (Hst e He) as [_ ->]. right. split; [done|].
      exists p. split; [done|]. intros Hnil. apply Hsub in He. rewrite Hnil in He. by apply not_elem_of_nil in He.
Qed.

(** The lookups of the whole tree. *)
Lemma tree_lookups :
  same_links rootfs pfs /\
  forall names,
    match host_lookup rootfs names with
    | Some p => exists inode, PuzzleFS_lookup pfs (image_path names) = Ok (Some inode) /\ mirrors_over gone pfs p inode /\
                  (p ∈ dirs \/ forall md, symlink_metadata p = Ok md -> md_is_dir md = false)
    | None => missing (PuzzleFS_lookup pfs (image_path names))
    end.
Proof.
  assert (seen ents rootfs) as Hroot by by left.
  destruct (ti_recorded _ _ _ _ _ _ _ Hb rootfs Hroot) as (n & Hn & Hrec).
  destruct (seen_inode rootfs n Hroot Hrec) as (root & Hfindroot & Hino & _ & _).
  assert (n = 1%N) as -> by by destruct Hn as [[_ ?]|[? _]].
  assert (forall names, PuzzleFS_lookup pfs (image_path names) = lookup_from (PuzzleFS_find_inode pfs) root (Normal <$> names)) as Heq.
  { intros names. unfold PuzzleFS_lookup, image_path. by rewrite Hfindroot. }
  pose proof (fun names => lookup_path names _ _ _ Hroot Hn Hrec Hfindroot) as Hlook. split.
  - intros names names' p q mdp mdq inode inode' Hp Hq Hmdp Hmdq Hi Hi'. rewrite Heq in Hi, Hi'.
    pose proof (Hlook names) as H1. pose proof (Hlook names') as H2.
    rewrite Hp in H1. rewrite Hq in H2.
    destruct H1 as (m1 & i1 & Hs1 & Hn1 & <- & _ & _ & Hr1), H2 as (m2 & i2 & Hs2 & Hn2 & <- & _ & _ & Hr2).
    assert (i1 = inode) as -> by congruence. assert (i2 = inode') as -> by congruence.
    by eapply (number_links rootfs dirs HT existing next0 NC whited ents b p q).
  - intros names. rewrite Heq. specialize (Hlook names). destruct (host_lookup rootfs names) as [p|]; [|done].
    destruct Hlook as (m & inode & Hs & _ & _ & Hmir & _ & Hr). exists inode. split; [done|]. split; [done|].
    destruct (symlink_metadata p) as [md| | |] eqn:Hmd; [|by right..]. destruct (md_is_dir md) eqn:Hdir.
    + left. by eapply seen_dir.
    + right. by intros md' [= <-].
Qed.

Lemma lookups_delta : delta_of_tree gone rootfs pfs.
Proof.
  destruct tree_lookups as [Hlinks Hlook]. split; [|done]. intros names. specialize (Hlook names).
  destruct (host_lookup rootfs names) as [p|].
  - destruct Hlook as (inode & ? & ? & _). eauto.
  - destruct Hlook as [?|[? _]]; auto.
Qed.

Lemma lookups_exact : (forall d, d ∈ dirs -> gone d = []) -> image_of_tree rootfs pfs.
Proof.
  intros Hno. destruct tree_lookups as [Hlinks Hlook]. split; [|done]. intros names. specialize (Hlook names).
  destruct (host_lookup rootfs names) as [p|].
  - destruct Hlook as (inode & ? & Hmir & Hp). exists inode. split; [done|]. destruct Hp as [Hp|Hp].
    + eapply mirrors_over_exact; [|exact Hmir]. by apply Hno.
    + destruct Hmir as (md & add & Hmd & Ha & Hs & Hcase). exists md, add. do 3 (split; [done|]).
      by rewrite (Hp md Hmd) in Hcase |- *.
  - destruct Hlook as [?|[_ (d & Hd & Hne)]]; [done|]. by destruct Hne; apply Hno.
Qed.

End lookup.

Lemma first_build_image C U rootfs dirs img0 img img1 tag man man1 b l vd buf :
  first_build C U rootfs img0 img img1 tag man man1 b l vd buf -> host_tree rootfs dirs ->
  exists img3 desc pfs, build_initial_rootfs C rootfs img0 tag = Ok (img3, desc) /\
    PuzzleFS_open img3 tag None = Ok pfs /\ pfs_verity_data pfs = None /\
    represents (pfs_rootfs pfs) (mkRootfs [l] vd PUZZLEFS_IMAGE_MANIFEST_VERSION) /\
    searchable (mkRootfs [l] vd PUZZLEFS_IMAGE_MANIFEST_VERSION) /\ image_of_tree rootfs pfs.
Proof.
  intros HF HT. destruct (build_opens _ _ _ _ _ _ _ _ _ _ _ _ _ HF) as (img3 & desc & pfs & Hbuild & Hopen & Hoci & Hvd & Hrep & Hs & Hfind & Hgone & Hfiles).
  pose proof (fb_count _ _ _ _ _ _ _ _ _ _ _ _ _ HF) as Hcount. rewrite (ht_walk _ _ HT) in Hcount.
  pose proof (no_collisions_first rootfs dirs) as NC.
  destruct (scan_tree_records rootfs dirs HT None 2 NC b eq_refl Hcount (fb_scan _ _ _ _ _ _ _ _ _ _ _ _ _ HF)) as (whited & ents & Hb & Hents & Hwh).
  destruct (build_delta_layer _ _ _ _ _ _ _ _ _ _ _ (fb_scan _ _ _ _ _ _ _ _ _ _ _ _ _ HF) (fb_delta _ _ _ _ _ _ _ _ _ _ _ _ _ HF))
    as (Hwht & Hdirs & Hothers). subst img3.
  exists (pfs_oci pfs), desc, pfs. do 5 (split; [done|]). eapply lookups_exact; eauto.
  intros d Hd. unfold lost_of. by rewrite Hents.
Qed.

(** C1: the image of a directory tree is that tree.  Build an image of a directory tree and open it
    again: the build succeeds, the tag opens, and looking up any path in the image gives what the
    host has at that path.  Nothing is found where the host has nothing; otherwise the inode has the
    owner, permission bits, extended attributes and link target of the host file, a directory has
    the names of the host directory in sorted order, a device its numbers, and reading any range of
    a regular file returns exactly those bytes of the host file.  Two paths have the same inode
    number exactly if they are links to the same host file.  The assumptions are those on the
    environment ([first_build]) and on the walk and the inode numbers of the host ([host_tree]). *)
Theorem build_open_tree (C : Compression) (U : bytes -> Prop) (rootfs : Path) (dirs : list Path) (img0 img img1 : Img)
    (tag : bytes) (man man1 : ImageManifest) (b : Build) (l : list Inode) (vd : VerityData) (buf : bytes) :
  first_build C U rootfs img0 img img1 tag man man1 b l vd buf -> host_tree rootfs dirs ->
  exists img3 desc pfs, build_initial_rootfs C rootfs img0 tag = Ok (img3, desc) /\
    PuzzleFS_open img3 tag None = Ok pfs /\ image_of_tree rootfs pfs.
Proof.
  intros HF HT. destruct (first_build_image _ _ _ _ _ _ _ _ _ _ _ _ _ _ HF HT) as (img3 & desc & pfs & ? & ? & _ & _ & _ & ?). eauto 10.
Qed.

End build_image.
