(* ===== verification/Partial.v ===== *)
(** What a build leaves in the store when it fails: the operations of [oci.rs] and [builder.rs] that
    write to the store, with the store as they leave it on every path.

    A blob is written in place, so that a write that fails may leave the beginning of it.  What is
    left by a call of the [ocidir] crate that fails, and how a write fails, are interfaces. *)

From S2P Require Import Prelude Errors RustStd Capnp Format Digest InodeTable Compression Oci Reader FsStream Chunks Verity Builder.

(** ** Interfaces *)

(** [Dir::write] of [cap_std] on a path of the blob directory: what is in the file afterwards, nothing
    if it was not made, and the error if there is one. *)
Class BlobWrite := blob_write : gmap bytes BlobFile -> bytes -> bytes -> option bytes * option io_error.
Class BlobWriteOk (BW : BlobWrite) := {
  blob_write_done blobs path data left : blob_write blobs path data = (left, None) -> left = Some data;
  blob_write_begun blobs path data part e : blob_write blobs path data = (Some part, Some e) -> part `prefix_of` data
}.

(** What calls of [ocidir] that fail leave: perhaps more blobs, or a blob replaced by one with the same
    data, and the same index, which is replaced at the very end. *)
Class OciDirFail `{OciDir} := {
  left_by_new_empty_manifest : Image oci_index -> Image oci_index;
  left_by_insert_manifest : Image oci_index -> ImageManifest -> option bytes -> Image oci_index
}.
Class OciDirFailOk `{OciDir} (OF : OciDirFail) := {
  left_by_new_empty_manifest_ok img : data_extends img (left_by_new_empty_manifest img);
  left_by_insert_manifest_ok img m tag : data_extends img (left_by_insert_manifest img m tag)
}.

Section partial.
Context {P : Profile} {R : OsRead} {ZS : ZstdSeekable} {NS : NixStat}.
Context {H : Hex} {SH : Sha256} {V : FsVerity} {D : OciDigest} {OD : OciDir} {W : CapnpWire}.
Context {BW : BlobWrite} {OF : OciDirFail}.

Abbreviation Img := (Image oci_index).

(** ** Operations *)

(** A call that gives the new store only when it succeeds, and the store it leaves otherwise. *)
Definition keep {A} (left : Img) (r : Result (Img * A)) : Img * Result A :=
  match r with
  | Ok (img, a) => (img, Ok a)
  | Err e => (left, Err e)
  | Panic => (left, Panic)
  | Diverged => (left, Diverged)
  end.

Definition empty_manifest_kept (self : Img) : Img * Result ImageManifest :=
  keep (left_by_new_empty_manifest self) (get_empty_manifest self).

Definition insert_manifest_kept (self : Img) (m : ImageManifest) (tag : option bytes) : Img * Result Descriptor :=
  keep (left_by_insert_manifest self m tag) (oci_insert_manifest self m tag).

(** [self.0.dir().write(&path, final_data)?]. *)
Definition write_blob (self : Img) (path final_data : bytes) : Img * Result () :=
  let '(part, e) := blob_write (img_blobs self) path final_data in
  let self := match part with Some data => set_blob self path (mkBlobFile data None) | None => self end in
  (self, match e with Some e => Err (IOError e) | None => Ok () end).

(** [Image::put_blob::<C>]. *)
Definition put_blob_kept (C : Compression) (self : Img) (buf : bytes) (image_manifest : ImageManifest)
    (media_type : PuzzleFSMediaType) : Img * Result (ImageManifest * (Descriptor * bytes * bool)) :=
  store_bind (self, map_err IOError (compress_buf buf)) (fun self '(compressed_data, uncompressed_size) =>
  let compressed_blob := negb c_is_noop in
  let compressed_size := len compressed_data in
  let final_size := N.min compressed_size uncompressed_size in
  let '(final_data, compressed_blob) :=
    if compressed_blob && (uncompressed_size <=? compressed_size)%N then (buf, false)
    else (compressed_data, compressed_blob) in
  let digest := sha256 final_data in
  let media_type_with_extension := append_extension (media_type_name media_type) in
  let digest_string := bstr "sha256:" ++ hex_encode digest in
  store_bind (self, get_fs_verity_digest compressed_data) (fun self fs_verity_digest =>
  store_bind (self, image_digest_from_str digest_string) (fun self image_digest =>
  let annotations :=
    if bool_decide (media_type_name media_type = PUZZLEFS_ROOTFS) then
      Some {[ VERITY_ROOT_HASH_ANNOTATION := hex_encode fs_verity_digest ]}
    else None in
  let descriptor := mkDescriptor media_type_with_extension final_size image_digest annotations in
  let path := d_digest descriptor in
  store_bind (match img_blobs self !! path with
              | Some file =>
                  (self, if bool_decide (sha256 (bf_data file) ≠ digest) then Err (IOError (CustomError AlreadyExists)) else Ok ())
              | None => write_blob self path final_data
              end) (fun self _ =>
  let layers :=
    if bool_decide (media_type_name media_type = PUZZLEFS_ROOTFS) then
      descriptor :: im_layers image_manifest
    else im_layers image_manifest ++ [descriptor] in
  (self, Ok (mkManifest (im_config image_manifest) layers, (descriptor, fs_verity_digest, compressed_blob))))))).

(** The ['outer] loop of [process_chunks]. *)
Fixpoint process_items_kept (C : Compression) (items : list (io_Result ChunkData)) (oci : Img)
    (st : ChunkState) (verity_data : VerityData) (image_manifest : ImageManifest)
  : Img * Result (ChunkState * VerityData * ImageManifest * list (io_Result ChunkData)) :=
  match items with
  | [] => (oci, Ok (st, verity_data, image_manifest, []))
  | Ok chunk :: items =>
      store_bind (put_blob_kept C oci (cd_data chunk) image_manifest MT_Chunk)
        (fun oci '(image_manifest, (desc, fs_verity_digest, compressed)) =>
      store_bind (oci, map_err HexError (Digest_try_from_str (d_digest desc))) (fun oci digest =>
      let digest := underlying digest in
      let verity_data := <[digest := fs_verity_digest]> verity_data in
      store_bind (oci, use_chunk (2 + length (cs_iter st)) digest compressed (cd_length chunk) 0 st) (fun oci '(st, broke) =>
      if broke : bool then (oci, Ok (st, verity_data, image_manifest, items))
      else process_items_kept C items oci st verity_data image_manifest)))
  | _ :: _ => (oci, Panic)
  end.

(** [process_chunks::<C>]. *)
Definition process_chunks_kept (C : Compression) (oci : Img) (chunker : list (io_Result ChunkData))
    (files : list File) (verity_data : VerityData) (image_manifest : ImageManifest)
  : Img * Result (list File * VerityData * ImageManifest) :=
  let '(passed, file, rest) := next_file files in
  store_bind (process_items_kept C chunker oci (mkChunkState passed file rest 0) verity_data image_manifest)
    (fun oci '(st, verity_data, image_manifest, chunker) =>
  store_bind (oci, assert_ (match chunker with [] => true | _ => false end)) (fun oci _ =>
  (oci, Ok (cs_passed st ++ option_list (cs_file st) ++ cs_iter st, verity_data, image_manifest)))).

Section tree.
Context {F : HostFs} {CD : StreamCDC} {WD : WalkDir} {HO : HashOrder}.

(** [build_delta::<C>]. *)
Definition build_delta_kept (C : Compression) (rootfs : Path) (oci : Img) (existing : option PuzzleFS)
    (verity_data : VerityData) (image_manifest : ImageManifest)
  : Img * Result (list Inode * VerityData * ImageManifest) :=
  store_bind (oci, scan_tree rootfs existing) (fun oci b =>
  let fcdc := stream_cdc (b_fs_stream b) MIN_CHUNK_SIZE AVG_CHUNK_SIZE MAX_CHUNK_SIZE in
  store_bind (process_chunks_kept C oci fcdc (b_files b) verity_data image_manifest)
    (fun oci '(files, verity_data, image_manifest) =>
  store_bind (oci, render_layer b files) (fun oci pfs_inodes =>
  (oci, Ok (pfs_inodes, verity_data, image_manifest))))).

(** The end of both builds: the metadata blob and the manifest with its tag. *)
Definition publish_kept (oci : Img) (rootfs : Rootfs) (image_manifest : ImageManifest) (tag : bytes) : Img * Result Descriptor :=
  store_bind (oci, serialize_metadata rootfs) (fun oci rootfs_buf =>
  store_bind (put_blob_kept Noop oci rootfs_buf image_manifest MT_Rootfs)
    (fun oci '(image_manifest, (rootfs_descriptor, _, _)) =>
  store_bind (insert_manifest_kept oci image_manifest (Some tag)) (fun oci _ =>
  (oci, Ok rootfs_descriptor)))).

(** [build_initial_rootfs::<C>]. *)
Definition build_initial_rootfs_kept (C : Compression) (rootfs : Path) (oci : Img) (tag : bytes) : Img * Result Descriptor :=
  store_bind (empty_manifest_kept oci) (fun oci image_manifest =>
  store_bind (build_delta_kept C rootfs oci None ∅ image_manifest) (fun oci '(inodes, verity_data, image_manifest) =>
  publish_kept oci (mkRootfs [inodes] verity_data PUZZLEFS_IMAGE_MANIFEST_VERSION) image_manifest tag)).

(** [add_rootfs_delta::<C>]. *)
Definition add_rootfs_delta_kept (C : Compression) (rootfs_path : Path) (oci : Img) (tag base_layer : bytes)
  : Img * Result Descriptor :=
  store_bind (empty_manifest_kept oci) (fun oci image_manifest =>
  store_bind (oci, PuzzleFS_open oci base_layer None) (fun oci pfs =>
  store_bind (oci, open_rootfs_blob oci base_layer None) (fun oci reader =>
  store_bind (oci, Rootfs_try_from reader) (fun oci rootfs =>
  store_bind (build_delta_kept C rootfs_path oci (Some pfs) ∅ image_manifest) (fun oci '(inodes, verity_data, image_manifest) =>
  publish_kept oci (mkRootfs (insert_layer (rf_metadatas rootfs) inodes) (verity_data ∪ rf_fs_verity_data rootfs)
                      (rf_manifest_version rootfs)) image_manifest tag))))).

End tree.

(** ** The outcome is that of a store on which no write fails *)

Definition write_error (e : io_error) : Prop :=
  exists blobs path data part, blob_write blobs path data = (part, Some e).

(** [k] stopped at a write that failed, or it is what [r] computes; [sh] takes the store out of the
    result. *)
Definition agrees {A X} (sh : X -> Img * A) (k : Img * Result A) (r : Result X) : Prop :=
  (exists e, write_error e /\ k.2 = Err (IOError e)) \/ (x ← r; Ok (sh x)) = (a ← k.2; Ok (k.1, a)).

Lemma agrees_bind {A B X Y} sh sh' (k : Img * Result A) (r : Result X) (f : Img -> A -> Img * Result B) (g : X -> Result Y) :
  agrees sh k r -> (forall x, agrees sh' (f (sh x).1 (sh x).2) (g x)) -> agrees sh' (store_bind k f) (r ≫= g).
Proof.
  intros [(e & He & Hk)|Hk] Hf; [left; exists e; split; [done|]; destruct k as [img [a| | |]]; by simplify_eq/=|].
  destruct k as [img [a|e| |]], r as [x|e'| |]; cbn in Hk; simplify_eq; try by right. specialize (Hf x). by rewrite Hk in Hf.
Qed.

Lemma agrees_pure {A B Y} sh (img : Img) (x : Result A) (f : Img -> A -> Img * Result B) (g : A -> Result Y) :
  (forall a, agrees sh (f img a) (g a)) -> agrees sh (store_bind (img, x) f) (x ≫= g).
Proof. intros Hf. destruct x as [a|e| |]; cbn; [apply Hf|by right..]. Qed.

Lemma agrees_keep {A} (img : Img) (r : Result (Img * A)) : agrees id (keep img r) r.
Proof. right. by destruct r as [[? ?]| | |]. Qed.

Lemma agrees_ok {A X} (sh : X -> Img * A) (img : Img) (a : A) (x : X) : sh x = (img, a) -> agrees sh (img, Ok a) (Ok x).
Proof. intros Hx. right. cbn. by rewrite Hx. Qed.

Context {BWL : BlobWriteOk BW}.

Lemma write_blob_agrees (self : Img) path data :
  agrees (fun img => (img, ())) (write_blob self path data)
    (Ok (mkImage (<[path := mkBlobFile data None]> (img_blobs self)) (img_index self))).
Proof.
  unfold write_blob. destruct (blob_write _ _ _) as [part [e|]] eqn:Hw.
  - left. exists e. split; [|done]. by exists (img_blobs self), path, data, part.
  - apply blob_write_done in Hw as ->. by right.
Qed.

Lemma put_blob_agrees C img buf man mt :
  agrees (fun '(i, m, r) => (i, (m, r))) (put_blob_kept C img buf man mt) (put_blob C img buf man mt).
Proof.
  unfold put_blob_kept, put_blob. apply agrees_pure. intros [c u]. cbn zeta.
  destruct (if negb c_is_noop && (u <=? len c)%N then (buf, false) else (c, negb c_is_noop)) as [final comp].
  do 2 (apply agrees_pure; intros ?). eapply (agrees_bind (fun img => (img, ()))).
  - cbn [d_digest]. destruct (img_blobs img !! _); [|apply write_blob_agrees]. right. by destruct (bool_decide _).
  - intros img'. by apply agrees_ok.
Qed.

Lemma process_items_agrees C items img st vd man :
  agrees (fun '(i, s, v, m, l) => (i, (s, v, m, l))) (process_items_kept C items img st vd man) (process_items C items img st vd man).
Proof.
  revert img st vd man. induction items as [|[c| | |] items IH]; intros img st vd man; cbn [process_items process_items_kept];
    [by apply agrees_ok| |by right..].
  eapply agrees_bind; [apply put_blob_agrees|]. intros [[img' man'] [[desc v] comp]]. cbn [fst snd].
  apply agrees_pure. intros digest. apply agrees_pure. intros [st' []]; [by apply agrees_ok|apply IH].
Qed.

Lemma process_chunks_agrees C img items files vd man :
  agrees (fun '(i, f, v, m) => (i, (f, v, m))) (process_chunks_kept C img items files vd man) (process_chunks C img items files vd man).
Proof.
  unfold process_chunks_kept, process_chunks. destruct (next_file files) as [[passed file] rest].
  eapply agrees_bind; [apply process_items_agrees|]. intros [[[[img' st] vd'] man'] left]. cbn [fst snd].
  apply agrees_pure. intros []. by apply agrees_ok.
Qed.

Section tree_agrees.
Context {F : HostFs} {CD : StreamCDC} {WD : WalkDir} {HO : HashOrder}.

Lemma build_delta_agrees C rootfs img existing vd man :
  agrees (fun '(i, l, v, m) => (i, (l, v, m))) (build_delta_kept C rootfs img existing vd man) (build_delta C rootfs img existing vd man).
Proof.
  unfold build_delta_kept, build_delta. apply agrees_pure. intros b. eapply agrees_bind; [apply process_chunks_agrees|].
  intros [[[img' files] vd'] man']. cbn [fst snd]. apply agrees_pure. intros l. by apply agrees_ok.
Qed.

Lemma publish_agrees {X} (sh : X -> Img * Descriptor) (ok : Img * Descriptor -> X) img rootfs man tag :
  (forall p, sh (ok p) = p) ->
  agrees sh (publish_kept img rootfs man tag)
    (buf ← serialize_metadata rootfs;
     '(img, man, (desc, _, _)) ← put_blob Noop img buf man MT_Rootfs;
     '(img, _) ← oci_insert_manifest img man (Some tag);
     Ok (ok (img, desc))).
Proof.
  intros Hok. unfold publish_kept. apply agrees_pure. intros buf. eapply agrees_bind; [apply put_blob_agrees|].
  intros [[img' man'] [[desc v] comp]]. cbn [fst snd]. eapply agrees_bind; [apply agrees_keep|].
  intros [img'' d]. cbn [id fst snd]. by apply agrees_ok.
Qed.

Lemma build_initial_rootfs_agrees C rootfs img tag :
  agrees id (build_initial_rootfs_kept C rootfs img tag) (build_initial_rootfs C rootfs img tag).
Proof.
  unfold build_initial_rootfs_kept, build_initial_rootfs. eapply agrees_bind; [apply agrees_keep|].
  intros [img' man]. cbn [id fst snd]. eapply agrees_bind; [apply build_delta_agrees|].
  intros [[[img1 l] vd] man1]. cbn [fst snd]. by apply (publish_agrees _ id).
Qed.

Lemma add_rootfs_delta_agrees C rootfs img tag base :
  agrees (fun '(d, i) => (i, d)) (add_rootfs_delta_kept C rootfs img tag base) (add_rootfs_delta C rootfs img tag base).
Proof.
  unfold add_rootfs_delta_kept, add_rootfs_delta. eapply agrees_bind; [apply agrees_keep|].
  intros [img' man]. cbn [id fst snd]. do 3 (apply agrees_pure; intros ?). eapply agrees_bind; [apply build_delta_agrees|].
  intros [[[img1 l] vd] man1]. cbn [fst snd]. apply (publish_agrees _ (fun p => (p.2, p.1))). by intros [].
Qed.

End tree_agrees.
(** ** Whatever happens, blobs are only added, and the index changes only at the very end *)

#[local] Instance image_extends_preorder : PreOrder (@image_extends oci_index).
Proof.
  split; [done|]. intros a b c [H1 H2] [H3 H4]. split; [by etrans|congruence].
Qed.

Lemma store_bind_extends {A B} (img : Img) (k : Img * Result A) (f : Img -> A -> Img * Result B) :
  image_extends img k.1 -> (forall s a, image_extends s (f s a).1) -> image_extends img (store_bind k f).1.
Proof. intros Hk Hf. destruct k as [s [a| | |]]; cbn in *; [|done..]. etrans; [done|]. apply Hf. Qed.

Lemma write_blob_extends (self : Img) path data : img_blobs self !! path = None -> image_extends self (write_blob self path data).1.
Proof.
  intros Hp. unfold write_blob. destruct (blob_write _ _ _) as [[part|] e]; [|done]. split; [by apply insert_subseteq|done].
Qed.

Lemma put_blob_kept_extends C img buf man mt : image_extends img (put_blob_kept C img buf man mt).1.
Proof.
  apply store_bind_extends; [done|]. intros s [c u]. cbn zeta.
  destruct (if negb c_is_noop && (u <=? len c)%N then (buf, false) else (c, negb c_is_noop)) as [final comp].
  do 2 (apply store_bind_extends; [done|]; intros ? ?). apply store_bind_extends; [|done]. cbn [d_digest].
  destruct (img_blobs _ !! _) eqn:Hf; [done|by apply write_blob_extends].
Qed.

Lemma process_items_kept_extends C items img st vd man : image_extends img (process_items_kept C items img st vd man).1.
Proof.
  revert img st vd man. induction items as [|[c| | |] items IH]; intros img st vd man; cbn [process_items_kept]; try done.
  apply store_bind_extends; [apply put_blob_kept_extends|]. intros s [m [[d v] comp]].
  do 2 (apply store_bind_extends; [done|]; intros ? ?). destruct a0 as [st' []]; [done|apply IH].
Qed.

Section tree_extends.
Context {F : HostFs} {CD : StreamCDC} {WD : WalkDir} {HO : HashOrder} {OFL : OciDirFailOk OF} {ODL : OciDirOk OD}.

Lemma build_delta_kept_extends C rootfs img existing vd man : image_extends img (build_delta_kept C rootfs img existing vd man).1.
Proof.
  apply store_bind_extends; [done|]. intros s b. apply store_bind_extends.
  - unfold process_chunks_kept. destruct (next_file (b_files b)) as [[passed file] rest].
    apply store_bind_extends; [apply process_items_kept_extends|]. intros ? [[[? ?] ?] ?]. by apply store_bind_extends.
  - intros ? [[? ?] ?]. by apply store_bind_extends.
Qed.

Lemma empty_manifest_kept_extends img : data_extends img (empty_manifest_kept img).1.
Proof.
  unfold empty_manifest_kept, get_empty_manifest. destruct (oci_new_empty_manifest img) as [[img' m]| | |] eqn:He; cbn.
  - by apply new_empty_manifest_ok in He as [_ ?].
  - apply left_by_new_empty_manifest_ok.
  - apply left_by_new_empty_manifest_ok.
  - apply left_by_new_empty_manifest_ok.
Qed.

End tree_extends.

(** ** A write that fails *)

Context {SL : Sha256Ok SH} {HL : HexOk H} {DL : OciDigestOk D}.

(** What [put_blob] does to the store. *)
Lemma put_blob_kept_eq (C : Compression) `{!CompressionOk C} img buf man mt :
  (len buf < 2 ^ 63)%N ->
  let final := (stored_form C buf).1 in let name := hex_encode (sha256 final) in
  exists r, put_blob_kept C img buf man mt =
    store_bind (match img_blobs img !! name with
                | Some file => (img, if bool_decide (sha256 (bf_data file) ≠ sha256 final) then Err (IOError (CustomError AlreadyExists)) else Ok ())
                | None => write_blob img name final
                end) (fun img' _ => (img', Ok r)).
Proof.
  intros Hlen. destruct (compress_reads_as buf Hlen) as (c & Hc & _). unfold put_blob_kept, stored_form. rewrite Hc.
  cbn [map_err store_bind]. destruct (negb c_is_noop && (len buf <=? len c)%N); cbn beta iota zeta;
    unfold get_fs_verity_digest; cbn [store_bind]; rewrite image_digest_from_sha256 by apply sha256_len; cbn [store_bind d_digest fst]; by eexists.
Qed.

(** The beginning of a blob that a failing write leaves under the name of the whole blob. *)
Lemma put_blob_truncates (C : Compression) `{!CompressionOk C} img buf man mt part e :
  let final := (stored_form C buf).1 in let name := hex_encode (sha256 final) in
  (len buf < 2 ^ 63)%N -> img_blobs img !! name = None -> blob_write (img_blobs img) name final = (Some part, Some e) ->
  put_blob_kept C img buf man mt = (set_blob img name (mkBlobFile part None), Err (IOError e)).
Proof.
  intros final name Hlen Hnone Hw. destruct (put_blob_kept_eq C img buf man mt Hlen) as (r & ->). fold final name.
  rewrite Hnone. unfold write_blob. by rewrite Hw.
Qed.

(** From then on that data cannot be stored. *)
Lemma put_blob_kept_foreign (C : Compression) `{!CompressionOk C} img buf man mt f :
  let final := (stored_form C buf).1 in let name := hex_encode (sha256 final) in
  (len buf < 2 ^ 63)%N -> img_blobs img !! name = Some f -> sha256 (bf_data f) ≠ sha256 final ->
  put_blob_kept C img buf man mt = (img, Err (IOError (CustomError AlreadyExists))).
Proof.
  intros final name Hlen Hf Hne. destruct (put_blob_kept_eq C img buf man mt Hlen) as (r & ->). fold final name.
  by rewrite Hf, bool_decide_true.
Qed.

End partial.
