(* ===== verification/History.v ===== *)
(** Published images: what the commands do to the images a store already has. *)

From S2P Require Import Prelude Errors RustStd Capnp Format Digest InodeTable Compression Oci Reader FsStream Chunks Verity Builder BuildFacts BuildTree BuildImage Partial.

(** A published image, the tag [t], as one store and a later one have it: no data of a blob is removed
    or changed, and the tag names the same manifest.  Nothing is said of seals: [ocidir] may replace a
    sealed manifest by an unsealed file with the same data. *)
Record stays `{OciDir} (t : bytes) (img1 img2 : Image oci_index) : Prop := {
  stays_blob : data_kept img1 img2;
  stays_manifest m : oci_find_manifest_with_tag img1 t = Ok (Some m) -> oci_find_manifest_with_tag img2 t = Ok (Some m);
  stays_descriptor d :
    oci_find_manifest_descriptor_with_tag img1 t = Ok (Some d) -> oci_find_manifest_descriptor_with_tag img2 t = Ok (Some d)
}.

#[export] Instance stays_preorder `{OciDir} t : PreOrder (stays t).
Proof.
  split; [intros img; by split|]. intros a b c [H1 H2 H3] [H4 H5 H6]. split; [by etrans|auto..].
Qed.

Section history.
Context {P : Profile} {R : OsRead} {ZS : ZstdSeekable} {NS : NixStat}.
Context {H : Hex} {SH : Sha256} {V : FsVerity} {D : OciDigest} {OD : OciDir} {W : CapnpWire}.

Abbreviation Img := (Image oci_index).

(** ** Reading a later store *)

Section later.
Context (t : bytes) (img1 img2 : Img) (HS : stays t img1 img2).

Lemma open_raw_blob_later name f :
  open_raw_blob img1 name None = Ok f -> exists f', open_raw_blob img2 name None = Ok f' /\ bf_data f' = bf_data f.
Proof.
  unfold open_raw_blob. destruct (img_blobs img1 !! name) as [f1|] eqn:Hf; [|done]. cbn [ok_or]. bsimpl.
  intros [= ->]. destruct (stays_blob _ _ _ HS _ _ Hf) as (f' & -> & Hd). by exists f'.
Qed.

Lemma read_blob_later C digest pos n out :
  read_blob C img1 digest None pos n = Ok out -> read_blob C img2 digest None pos n = Ok out.
Proof.
  unfold read_blob, open_compressed_blob. intros (blob & Hb%map_err_ok_inv & Hr)%bind_ok_inv.
  apply bind_ok_inv in Hb as (f & Hf & Hb). destruct (open_raw_blob_later _ _ Hf) as (f' & -> & Hd).
  bsimpl. rewrite Hd, Hb. cbn [map_err]. bsimpl. exact Hr.
Qed.

Lemma fill_from_chunk_later chunk addl n out :
  fill_from_chunk img1 chunk addl n None = Ok out -> fill_from_chunk img2 chunk addl n None = Ok out.
Proof.
  unfold fill_from_chunk. intros (digest & -> & Hr)%bind_ok_inv. bsimpl.
  destruct (br_compressed chunk); by apply read_blob_later.
Qed.

(** The computation goes on in both stores with the same value. *)
Ltac follow Hr := let Hx := fresh in apply bind_ok_inv in Hr as (? & Hx & Hr); rewrite Hx; try rewrite Hx in Hr;
  cbn [mbind outcome_bind] in Hr |- *.

Lemma file_read_loop_later offset end_ chunks fo bo data r :
  file_read_loop img1 None offset end_ chunks fo bo data = Ok r -> file_read_loop img2 None offset end_ chunks fo bo data = Ok r.
Proof.
  revert fo bo data. induction chunks as [|c chunks IH]; intros fo bo data; cbn [file_read_loop]; [done|].
  destruct (end_ <? fo)%N; [done|]. intros Hr. follow Hr. destruct (_ <? offset)%N; [by apply IH|].
  follow Hr. follow Hr. follow Hr. follow Hr. follow Hr. apply bind_ok_inv in Hr as (out & Hout & Hr).
  rewrite (fill_from_chunk_later _ _ _ _ Hout). bsimpl. follow Hr. follow Hr. by apply IH.
Qed.

Lemma file_read_later inode offset data r :
  file_read img1 inode offset data None = Ok r -> file_read img2 inode offset data None = Ok r.
Proof.
  unfold file_read. destruct (i_mode inode); try done. intros Hr. follow Hr. by apply file_read_loop_later.
Qed.

Lemma find_manifest_later m : find_manifest img1 t = Ok m -> find_manifest img2 t = Ok m.
Proof.
  unfold find_manifest. intros ([m'|] & Hm & Hr)%bind_ok_inv; [|done]. by rewrite (stays_manifest _ _ _ HS _ Hm).
Qed.

Lemma get_pfs_rootfs_later f :
  get_pfs_rootfs img1 t None = Ok f -> exists f', get_pfs_rootfs img2 t None = Ok f' /\ bf_data f' = bf_data f.
Proof.
  unfold get_pfs_rootfs, pfs_rootfs_digest. intros (digest & Hd & Hf%map_err_ok_inv)%bind_ok_inv.
  apply bind_ok_inv in Hd as (m & Hm & Hd). rewrite (find_manifest_later _ Hm). bsimpl. rewrite Hd. bsimpl.
  destruct (open_raw_blob_later _ _ Hf) as (f' & -> & Hd'). by exists f'.
Qed.

Lemma PuzzleFS_open_later pfs :
  PuzzleFS_open img1 t None = Ok pfs -> PuzzleFS_open img2 t None = Ok (mkPuzzleFS img2 (pfs_rootfs pfs) None None) /\
    pfs_oci pfs = img1 /\ pfs_verity_data pfs = None.
Proof.
  unfold PuzzleFS_open, open_rootfs_blob. bsimpl. intros (reader & (f & Hf & Hr)%bind_ok_inv & Ho)%bind_ok_inv.
  destruct (get_pfs_rootfs_later _ Hf) as (f' & -> & Hd). bsimpl. rewrite Hd, Hr. bsimpl. follow Ho.
  destruct (negb _); [done|]. by injection Ho as <-.
Qed.

End later.

(** ** What a command does to the store *)

Lemma data_stays `{!OciDirOk OD} t img1 img2 : data_extends img1 img2 -> stays t img1 img2.
Proof.
  intros He. split; [apply He|..].
  - intros m. by apply find_manifest_extends.
  - intros d. by apply find_descriptor_extends.
Qed.

Lemma extends_stays `{!OciDirOk OD} t img1 img2 : image_extends img1 img2 -> stays t img1 img2.
Proof. intros He. by apply data_stays, image_extends_data. Qed.

Section builds.
Context {BW : BlobWrite} {OF : OciDirFail} {OFL : OciDirFailOk OF} {ODL : OciDirOk OD}.

(** The tag is given to the new image only if the manifest is inserted. *)
Definition published (tag : bytes) (r : Result Descriptor) : list bytes := match r with Ok _ => [tag] | _ => [] end.

Lemma insert_manifest_kept_stays t img m tag :
  t ∉ published tag (insert_manifest_kept img m (Some tag)).2 -> stays t img (insert_manifest_kept img m (Some tag)).1.
Proof.
  unfold insert_manifest_kept. destruct (oci_insert_manifest img m (Some tag)) as [[img' d]|e| |] eqn:Hi; cbn.
  2-4: intros _; apply data_stays, left_by_insert_manifest_ok.
  intros Ht%not_elem_of_cons. destruct (insert_manifest_ok _ _ _ _ _ Hi) as (Hsub & _).
  destruct (insert_manifest_other _ _ _ _ _ _ Hi (proj1 Ht)) as [Hm Hd]. by split.
Qed.

Lemma publish_kept_stays t img rootfs man tag :
  t ∉ published tag (publish_kept img rootfs man tag).2 -> stays t img (publish_kept img rootfs man tag).1.
Proof.
  unfold publish_kept. destruct (serialize_metadata rootfs) as [buf| | |]; cbn [store_bind]; [|done..].
  pose proof (put_blob_kept_extends Noop img buf man MT_Rootfs) as He%(extends_stays t).
  destruct (put_blob_kept Noop img buf man MT_Rootfs) as [img1 [[man1 [[desc v] comp]]| | |]]; cbn [store_bind]; [|done..].
  intros Ht. etrans; [exact He|]. pose proof (insert_manifest_kept_stays t img1 man1 tag) as Hs.
  destruct (insert_manifest_kept img1 man1 (Some tag)) as [img2 [d| | |]]; cbn in *; auto.
Qed.

Section tree.
Context {F : HostFs} {CD : StreamCDC} {WD : WalkDir} {HO : HashOrder}.

Lemma build_initial_rootfs_stays t C rootfs img tag :
  t ∉ published tag (build_initial_rootfs_kept C rootfs img tag).2 -> stays t img (build_initial_rootfs_kept C rootfs img tag).1.
Proof.
  unfold build_initial_rootfs_kept. pose proof (empty_manifest_kept_extends img) as He%(data_stays t).
  destruct (empty_manifest_kept img) as [img1 [man| | |]]; cbn [store_bind]; [|done..].
  pose proof (build_delta_kept_extends C rootfs img1 None ∅ man) as Hb%(extends_stays t).
  destruct (build_delta_kept C rootfs img1 None ∅ man) as [img2 [[[l vd] man2]| | |]]; cbn [store_bind]; [|intros _; by etrans..].
  intros Ht. etrans; [exact He|]. etrans; [exact Hb|]. by apply publish_kept_stays.
Qed.

Lemma add_rootfs_delta_stays t C rootfs img tag base :
  t ∉ published tag (add_rootfs_delta_kept C rootfs img tag base).2 -> stays t img (add_rootfs_delta_kept C rootfs img tag base).1.
Proof.
  unfold add_rootfs_delta_kept. pose proof (empty_manifest_kept_extends img) as He%(data_stays t).
  destruct (empty_manifest_kept img) as [img1 [man| | |]]; cbn [store_bind]; [|done..].
  destruct (PuzzleFS_open img1 base None) as [pfs| | |]; cbn [store_bind]; [|done..].
  destruct (open_rootfs_blob img1 base None) as [reader| | |]; cbn [store_bind]; [|done..].
  destruct (Rootfs_try_from reader) as [rf| | |]; cbn [store_bind]; [|done..].
  pose proof (build_delta_kept_extends C rootfs img1 (Some pfs) ∅ man) as Hb%(extends_stays t).
  destruct (build_delta_kept C rootfs img1 (Some pfs) ∅ man) as [img2 [[[l vd] man2]| | |]]; cbn [store_bind]; [|intros _; by etrans..].
  intros Ht. etrans; [exact He|]. etrans; [exact Hb|]. by apply publish_kept_stays.
Qed.

End tree.
End builds.

(** Sealing only seals, also when it fails half way. *)
Lemma store_bind_seals {A B} (img : Img) (c : Img * Result A) (k : Img -> A -> Img * Result B) :
  seals img c.1 -> (forall s a, c = (s, Ok a) -> seals s (k s a).1) -> seals img (store_bind c k).1.
Proof. intros Hc Hk. destruct c as [s [a| | |]]; cbn in *; [|done..]. etrans; [done|]. by apply Hk. Qed.

Lemma enable_verity_for_file_seals (img : Img) name f :
  img_blobs img !! name = Some f -> seals img (enable_verity_for_file img name f).1.
Proof.
  intros Hf. destruct (enable_verity_for_file img name f) as [img' [f'| | |]] eqn:He; cbn.
  { by destruct (enable_verity_for_file_ok _ _ _ _ _ Hf He). }
  all: unfold enable_verity_for_file, fsverity_enable in He.
  all: destruct (negb verity_supported); [|destruct (bf_verity f)]; try case_decide; try done; injection He as <- _;
    unfold set_blob; rewrite insert_id by done; by destruct img.
Qed.

Lemma enable_and_check_seals (img : Img) name f e :
  img_blobs img !! name = Some f -> seals img (enable_and_check_verity_for_file img name f e).1.
Proof. intros Hf. apply store_bind_seals; [by apply enable_verity_for_file_seals|done]. Qed.

Lemma enable_blobs_seals l (img : Img) : seals img (enable_blobs img l).1.
Proof.
  revert img. induction l as [|[k v] l IH]; intros img; cbn [enable_blobs]; [done|].
  destruct (img_blobs img !! _) as [fd|] eqn:Hfd; [|done].
  apply store_bind_seals; [by apply enable_and_check_seals|]. intros. apply IH.
Qed.

Lemma enable_fs_verity_seals (img : Img) tag hash : seals img (enable_fs_verity img tag hash).1.
Proof.
  unfold enable_fs_verity.
  apply store_bind_seals; [done|]. intros ? mname [= <- Hmn]. apply store_bind_seals; [done|]. intros ? mfd [= <- Hfd].
  apply store_bind_seals; [done|]. intros ? root [= <- Hroot].
  unfold get_image_manifest_fd in Hfd. rewrite Hmn in Hfd. apply map_err_ok_inv in Hfd.
  unfold open_raw_blob in Hfd. destruct (img_blobs img !! mname) as [mf|] eqn:Hmf; [|done]. injection Hfd as <-.
  apply store_bind_seals; [by apply enable_and_check_seals|]. intros img1 [] _.
  do 2 (apply store_bind_seals; [done|]; intros ? ? [= <- _]).
  apply store_bind_seals; [done|]. intros ? rname [= <- Hrn]. apply store_bind_seals; [done|]. intros ? rfd [= <- Hfd].
  unfold get_pfs_rootfs in Hfd. rewrite Hrn in Hfd. apply map_err_ok_inv in Hfd.
  unfold open_raw_blob in Hfd. destruct (img_blobs img1 !! rname) as [rf|] eqn:Hrf; [|done]. injection Hfd as <-.
  apply store_bind_seals; [done|]. intros ? rv [= <- _].
  apply store_bind_seals; [by apply enable_and_check_seals|]. intros img2 [] _.
  apply store_bind_seals; [done|]. intros ? man [= <- _]. apply store_bind_seals; [done|]. intros ? cf [= <- Hcf].
  destruct (img_blobs img2 !! d_digest (im_config man)) as [cf'|] eqn:Hcf'; [|done]. injection Hcf as <-.
  apply store_bind_seals; [by apply enable_verity_for_file_seals|]. intros img3 ? _.
  apply store_bind_seals; [done|]. intros ? vd [= <- _]. apply enable_blobs_seals.
Qed.

(** ** Histories *)

Context {BW : BlobWrite} {OF : OciDirFail}.

(** A command on the store, with the tags it publishes: a first build or a delta, of any tree, and
    sealing an image, whatever comes of it. *)
Inductive command : Img -> list bytes -> Img -> Prop :=
| cmd_build (F : HostFs) (CD : StreamCDC) (WD : WalkDir) (HO : HashOrder) C rootfs img tag img' r :
    build_initial_rootfs_kept C rootfs img tag = (img', r) -> command img (published tag r) img'
| cmd_delta (F : HostFs) (CD : StreamCDC) (WD : WalkDir) (HO : HashOrder) C rootfs img tag base img' r :
    add_rootfs_delta_kept C rootfs img tag base = (img', r) -> command img (published tag r) img'
| cmd_enable_fs_verity img tag hash img' r :
    enable_fs_verity img tag hash = (img', r) -> command img [] img'.

Inductive history : Img -> list bytes -> Img -> Prop :=
| no_command img : history img [] img
| next_command img tags img1 tags' img2 : command img tags img1 -> history img1 tags' img2 -> history img (tags ++ tags') img2.

Context {ODL : OciDirOk OD} {OFL : OciDirFailOk OF}.

Lemma command_stays t img tags img' : command img tags img' -> t ∉ tags -> stays t img img'.
Proof.
  intros [F CD WD HO C rootfs img0 tag img1 r Hb|F CD WD HO C rootfs img0 tag base img1 r Hb|img0 tag hash img1 r Hb] Ht.
  - pose proof (build_initial_rootfs_stays (F := F) t C rootfs img0 tag) as Hs. rewrite Hb in Hs. by apply Hs.
  - pose proof (add_rootfs_delta_stays (F := F) t C rootfs img0 tag base) as Hs. rewrite Hb in Hs. by apply Hs.
  - apply data_stays, seals_data_extends. pose proof (enable_fs_verity_seals img0 tag hash) as Hs. by rewrite Hb in Hs.
Qed.

Lemma history_stays t img tags img' : history img tags img' -> t ∉ tags -> stays t img img'.
Proof.
  induction 1 as [img|img tags img1 tags' img2 Hc Hh IH]; [done|]. rewrite not_elem_of_app. intros [Ht Ht'].
  etrans; [by eapply command_stays|by apply IH].
Qed.

(** What a reader that does not check a root hash sees of an image in a later store. *)
Definition reads_later (t : bytes) (pfs : PuzzleFS) (img : Img) : Prop :=
  exists pfs', PuzzleFS_open img t None = Ok pfs' /\
    (forall ino, PuzzleFS_find_inode pfs' ino = PuzzleFS_find_inode pfs ino) /\
    (forall p, PuzzleFS_lookup pfs' p = PuzzleFS_lookup pfs p) /\
    (forall inode offset data r, file_read (pfs_oci pfs) inode offset data (pfs_verity_data pfs) = Ok r ->
       file_read (pfs_oci pfs') inode offset data (pfs_verity_data pfs') = Ok r).

Lemma stays_reads_later t img img' pfs : stays t img img' -> PuzzleFS_open img t None = Ok pfs -> reads_later t pfs img'.
Proof.
  intros HS Ho. destruct (PuzzleFS_open_later t img img' HS pfs Ho) as (Ho' & Hi & Hv). unfold reads_later.
  rewrite Hi, Hv. eexists. split; [exact Ho'|]. do 2 (split; [done|]). intros inode offset data r. by apply (file_read_later t).
Qed.

(** C11: published images do not change.  Whatever is built into a store afterwards, first images and
    deltas of any trees, with any compression, and whatever is sealed, and however these commands
    fail, in the middle of writing a blob too: as long as the tag itself is not published again by a
    command that succeeds, an image that could be opened can be opened, with the
    same inode table, so that every lookup has the same outcome, and every read of a file that
    succeeded returns the same bytes.  This is about opening without a root hash: whether a manifest
    that was sealed is still sealed is up to [ocidir], which may write it again. *)
Theorem published_images_stay (t : bytes) (img img' : Img) (tags : list bytes) (pfs : PuzzleFS) :
  history img tags img' -> t ∉ tags -> PuzzleFS_open img t None = Ok pfs ->
  exists pfs', PuzzleFS_open img' t None = Ok pfs' /\
    (forall ino, PuzzleFS_find_inode pfs' ino = PuzzleFS_find_inode pfs ino) /\
    (forall p, PuzzleFS_lookup pfs' p = PuzzleFS_lookup pfs p) /\
    (forall inode offset data r, file_read (pfs_oci pfs) inode offset data (pfs_verity_data pfs) = Ok r ->
       file_read (pfs_oci pfs') inode offset data (pfs_verity_data pfs') = Ok r).
Proof. intros Hh Ht. by apply stays_reads_later, (history_stays t _ _ _ Hh). Qed.

(** ** A write that fails half way *)

#[local] Instance bytes_infinite : Infinite bytes := list_infinite (H := populate x00).

Context {SL : Sha256Ok SH} {HL : HexOk H} {DL : OciDigestOk D} {RF : OsReadFull R} {ZSL : ZstdSeekableOk ZS}.

(** C37: a blob that was written half way cannot be written again.  Blobs are written in place, under
    the name of the whole: if the write fails and leaves a beginning of the data, with another hash,
    then after whatever commands storing that data fails with [AlreadyExists].  A build that ran out
    of space, say, cannot be repeated when there is space again, because nothing removes the file. *)
Theorem truncated_blob_sticks (C : Compression) (img img' : Img) (buf part : bytes) (e : io_error) (tags : list bytes)
    (man man' : ImageManifest) (mt mt' : PuzzleFSMediaType) :
  C = Noop \/ C = Zstd -> (len buf < 2 ^ 63)%N ->
  img_blobs img !! hex_encode (sha256 (stored_form C buf).1) = None ->
  blob_write (img_blobs img) (hex_encode (sha256 (stored_form C buf).1)) (stored_form C buf).1 = (Some part, Some e) ->
  sha256 part ≠ sha256 (stored_form C buf).1 ->
  history (put_blob_kept C img buf man mt).1 tags img' ->
  (put_blob_kept C img buf man mt).2 = Err (IOError e) /\
  put_blob_kept C img' buf man' mt' = (img', Err (IOError (CustomError AlreadyExists))).
Proof.
  intros HC Hlen Hnone Hw Hne. pose proof (compression_ok_of C HC) as CL.
  rewrite (put_blob_truncates C img buf man mt part e Hlen Hnone Hw). cbn [fst snd]. intros Hh. split; [done|].
  pose proof (history_stays (base.fresh tags) _ _ _ Hh (infinite_is_fresh tags)) as Hs.
  destruct (stays_blob _ _ _ Hs (hex_encode (sha256 (stored_form C buf).1)) (mkBlobFile part None)) as (f & Hf & Hd).
  { cbn. apply lookup_insert_eq. }
  eapply put_blob_kept_foreign; [exact CL|exact Hlen|exact Hf|]. by rewrite Hd.
Qed.

End history.
