(* ===== verification/ImageTree.v ===== *)
(** The tree that an image of a directory tree is: its paths, its directories, and that a walk of it
    ends. *)

From S2P Require Import Prelude Errors RustStd Capnp Format Digest InodeTable Compression Oci Reader Walk FsStream Chunks Builder BuildFacts BuildEnd BuildTree BuildImage.

Section image_tree.
Context {P : Profile} {R : OsRead} {ZS : ZstdSeekable} {NS : NixStat}.
Context {H : Hex} {SH : Sha256} {V : FsVerity} {D : OciDigest} {OD : OciDir} {W : CapnpWire}.
Context {F : HostFs} {WD : WalkDir}.

(** ** Parts of an inode *)

Lemma permission_bits md : cast_w u16_bits (N.land (md_mode md) 4095) = N.land (md_mode md) 4095.
Proof.
  apply cast_w_small. change 4095%N with (N.ones 12). rewrite N.land_ones. eapply N.lt_trans; [apply N.mod_lt|]; done.
Qed.

Lemma additional_parts p md add :
  InodeAdditional_new p md = Ok add ->
  get_xattrs p = Ok (match add with Some x => ia_xattrs x | None => [] end) /\
  (md_is_symlink md = true -> exists dest, fs_read_link p = Ok dest /\ (add ≫= ia_symlink_target) = Some dest).
Proof.
  unfold InodeAdditional_new. intros (link & Hlink & (xs & Hxs & Hr)%bind_ok_inv)%bind_ok_inv. rewrite Hxs.
  destruct (md_is_symlink md).
  - destruct (fs_read_link p) as [dest| | |]; try done. injection Hlink as <-. injection Hr as <-. split; [done|]. eauto.
  - injection Hlink as <-. by destruct xs; injection Hr as <-.
Qed.

(** The inode a lookup returns was found under its number. *)
Lemma lookup_found pfs names i :
  PuzzleFS_lookup pfs (image_path names) = Ok (Some i) -> exists n, PuzzleFS_find_inode pfs n = Ok i.
Proof.
  destruct names as [|n names _] using rev_ind.
  - unfold PuzzleFS_lookup, image_path. intros (root & Hr & [= ->])%bind_ok_inv. eauto.
  - intros (d & dl & e & _ & _ & _ & _ & Hf)%lookup_snoc. eauto.
Qed.

Lemma lookup_number pfs names i :
  PuzzleFS_lookup pfs (image_path names) = Ok (Some i) -> PuzzleFS_find_inode pfs (i_ino i) = Ok i.
Proof.
  intros (n & Hf)%lookup_found. pose proof (RootfsReader_find_inode_number _ _ _ Hf) as ->. exact Hf.
Qed.

(** ** Paths of the tree *)

Section tree.
Context (rootfs : Path) (dirs : list Path) (HT : host_tree rootfs dirs).

Lemma host_lookup_snoc p names n :
  host_lookup p (names ++ [n]) = match host_lookup p names with Some q => host_lookup q [n] | None => None end.
Proof.
  revert p. induction names as [|name names IH]; intros p; [done|]. cbn [host_lookup app].
  destruct (symlink_metadata p), (sorted_dirents p); try done. destruct (_ && _); [|done]. apply IH.
Qed.

Lemma host_lookup_step p n q :
  host_lookup p [n] = Some q ->
  exists md l, symlink_metadata p = Ok md /\ md_is_dir md = true /\ sorted_dirents p = Ok l /\ n ∈ l /\ q = path_join p n.
Proof.
  cbn [host_lookup]. destruct (symlink_metadata p) as [md| | |]; try done. destruct (sorted_dirents p) as [l| | |]; try done.
  destruct (md_is_dir md) eqn:?; [|done]. case_bool_decide; [|done]. intros [= <-]. eauto 10.
Qed.

Lemma host_lookup_tree names p :
  host_lookup rootfs names = Some p ->
  p = rootfs ++ (Normal <$> names) /\ tree_path dirs p /\
  (forall md, symlink_metadata p = Ok md -> md_is_dir md = true -> p ∈ dirs).
Proof.
  pose proof (ht_root _ _ HT) as Hroot. revert p. induction names as [|n names IH] using rev_ind; intros p.
  - intros [= <-]. rewrite app_nil_r. split; [done|]. split; [by left|done].
  - rewrite host_lookup_snoc. destruct (host_lookup rootfs names) as [q|]; [|done].
    intros (md & l & Hmd & Hdir & Hl & Hn & ->)%host_lookup_step. destruct (IH q eq_refl) as (Hq & _ & Hd).
    specialize (Hd md Hmd Hdir). destruct (ht_names _ _ HT q l Hd Hl) as [_ Hv]. rewrite Forall_forall in Hv.
    assert (q ≠ []) as Hne by (intros ->; pose proof (ht_not_empty _ _ HT); by destruct rootfs).
    split.
    { rewrite path_join_name by auto. by rewrite Hq, fmap_app, app_assoc. }
    split; [right; eauto 10|]. intros md' Hmd' Hdir'. by eapply ht_closed.
Qed.

Context (pfs : PuzzleFS) (HI : image_of_tree rootfs pfs).

(** A path of the image is a path of the tree. *)
Lemma image_host names inode :
  PuzzleFS_lookup pfs (image_path names) = Ok (Some inode) ->
  exists p, host_lookup rootfs names = Some p /\ mirrors pfs p inode.
Proof.
  intros Hl. pose proof (io_lookup _ _ HI names) as Hn. destruct (host_lookup rootfs names) as [p|].
  - destruct Hn as (i & Hi & Hm). exists p. split; [done|]. congruence.
  - congruence.
Qed.

Lemma image_dir names inode dl :
  PuzzleFS_lookup pfs (image_path names) = Ok (Some inode) -> i_mode inode = Mode_Dir dl ->
  exists p md, host_lookup rootfs names = Some p /\ p ∈ dirs /\ symlink_metadata p = Ok md /\ md_is_dir md = true /\
    sorted_dirents p = Ok (de_name <$> dl_entries dl).
Proof.
  intros Hl Hm. destruct (image_host _ _ Hl) as (p & Hp & md & add & Hmd & _ & _ & Hcase). unfold mirrors_leaf in Hcase.
  destruct (md_is_dir md) eqn:Hdir; [|destruct (md_is_file md)].
  - destruct Hcase as (names' & entries & Hs & Hm' & <-). rewrite Hm in Hm'. injection Hm' as ->.
    destruct (host_lookup_tree _ _ Hp) as (_ & _ & Hd). exists p, md. split; [done|]. split; [by eapply Hd|]. done.
  - destruct Hcase as (chunks & data & _ & Hm' & _). congruence.
  - apply new_other_shape in Hcase as (_ & _ & Hno). by destruct (Hno dl).
Qed.

Lemma image_addressable names inode dl :
  PuzzleFS_lookup pfs (image_path names) = Ok (Some inode) -> i_mode inode = Mode_Dir dl ->
  Forall valid_name (de_name <$> dl_entries dl) /\ NoDup (de_name <$> dl_entries dl).
Proof.
  intros Hl Hm. destruct (image_dir _ _ _ Hl Hm) as (p & md & _ & Hp & _ & _ & Hs).
  by destruct (ht_names _ _ HT p _ Hp Hs).
Qed.

(** Every entry of a directory leads to the inode of its path. *)
Lemma child_found names inode dl e :
  PuzzleFS_lookup pfs (image_path names) = Ok (Some inode) -> i_mode inode = Mode_Dir dl -> e ∈ dl_entries dl ->
  exists child, PuzzleFS_find_inode pfs (de_ino e) = Ok child /\
    PuzzleFS_lookup pfs (image_path (names ++ [de_name e])) = Ok (Some child).
Proof.
  intros Hl Hm He. destruct (image_dir _ _ _ Hl Hm) as (p & md & Hh & Hpd & Hmd & Hdir & Hs).
  destruct (image_addressable _ _ _ Hl Hm) as [_ Hnd].
  pose proof (io_lookup _ _ HI (names ++ [de_name e])) as Hn.
  rewrite host_lookup_snoc, Hh in Hn. cbn [host_lookup] in Hn. rewrite Hmd, Hs, Hdir in Hn. cbn [andb] in Hn.
  rewrite bool_decide_true in Hn by by apply list_elem_of_fmap_2.
  destruct Hn as (child & Hc & _). exists child. split; [|done].
  destruct (lookup_snoc pfs _ _ _ Hc) as (d & dl' & e' & Hd & Hm' & He' & Hne & Hf).
  assert (dl' = dl) as -> by congruence. assert (e' = e) as ->; [|done].
  apply list_elem_of_lookup in He as (i & Hi), He' as (j & Hj).
  assert (i = j) as ->; [|congruence]. eapply NoDup_lookup; [exact Hnd| |].
  - by rewrite list_lookup_fmap, Hi.
  - rewrite list_lookup_fmap, Hj. cbn. by rewrite Hne.
Qed.

(** ** The walk of the image ends *)

(** Depth left below an entry: no directory of the tree is deeper than the longest path. *)
Definition depth : nat := S (max_list (length <$> dirs)).

Definition at_depth (k : nat) (de : DirEntry) : Prop :=
  exists names, k + length names = depth /\ we_path de = image_path names /\
    PuzzleFS_lookup pfs (image_path names) = Ok (Some (we_inode de)).

Lemma children_at_depth k de :
  at_depth k de -> exists ch, children pfs de = Ok ch /\ Forall (fun c => exists k', k = S k' /\ at_depth k' c) ch.
Proof.
  intros (names & Hk & Hp & Hl). unfold children.
  destruct (i_mode (we_inode de)) as [| | |dl| | | | |] eqn:Hm; try (exists []; by split; [|constructor]).
  destruct (image_dir _ _ _ Hl Hm) as (p & md & Hh & Hpd & Hmd & Hdir & Hs).
  destruct (image_addressable _ _ _ Hl Hm) as [Hvalid Hnd].
  assert (exists k', k = S k') as (k' & ->).
  { destruct (host_lookup_tree _ _ Hh) as (Heq & _). destruct k; [|eauto]. exfalso.
    assert (length p <= max_list (length <$> dirs)) as Hmax by (by apply max_list_elem_of_le, list_elem_of_fmap_2).
    rewrite Heq, length_app, length_fmap in Hmax. unfold depth in Hk. lia. }
  pose proof (fun e => child_found _ _ _ e Hl Hm) as Hchild.
  destruct (mapM_exists (child_entry pfs de) (dl_entries dl)) as (ch & Hch).
  { intros e (child & Hf & _)%Hchild. unfold child_entry. rewrite Hf. by eexists. }
  exists ch. split; [done|]. apply Forall_forall. intros c Hc.
  apply mapM_ok_inv in Hch. apply list_elem_of_lookup in Hc as (i & Hi).
  destruct (Forall2_lookup_r _ _ _ _ _ Hch Hi) as (e & He & (child & Hf & [= <-])%bind_ok_inv).
  apply list_elem_of_lookup_2 in He. destruct (Hchild e He) as (child' & Hf' & Hlc).
  assert (child' = child) as -> by congruence. exists k'. split; [done|]. exists (names ++ [de_name e]).
  split; [rewrite length_app; cbn; lia|]. split; [|done]. cbn.
  rewrite Forall_forall in Hvalid. rewrite Hp, path_join_name; [by rewrite <-image_path_snoc|done|].
  apply Hvalid. by apply list_elem_of_fmap_2.
Qed.

Lemma next_level_at_depth k l :
  Forall (fun de => exists k', k' < S k /\ at_depth k' de) l ->
  exists l', next_level pfs l = Ok l' /\ Forall (fun de => exists k', k' < k /\ at_depth k' de) l'.
Proof.
  intros Hl. rewrite Forall_forall in Hl. destruct (mapM_exists (children pfs) l) as (chs & Hchs).
  { intros de (k' & _ & Hat)%Hl. destruct (children_at_depth _ _ Hat) as (ch & ? & _). eauto. }
  exists (concat chs). unfold next_level. rewrite Hchs. split; [done|].
  apply Forall_forall. intros c (ch & Hch%list_elem_of_In & Hc%list_elem_of_In)%list_elem_of_In%in_concat.
  apply mapM_ok_inv in Hchs. apply list_elem_of_lookup in Hch as (i & Hi).
  destruct (Forall2_lookup_r _ _ _ _ _ Hchs Hi) as (de & Hde & Hok).
  apply list_elem_of_lookup_2, Hl in Hde as (k' & Hk' & Hat).
  destruct (children_at_depth _ _ Hat) as (ch' & Hok' & Hall). assert (ch' = ch) as -> by congruence.
  rewrite Forall_forall in Hall. destruct (Hall c Hc) as (k'' & -> & Hc'). exists k''. split; [lia|done].
Qed.

Lemma levels_exist k l : Forall (fun de => exists k', k' < k /\ at_depth k' de) l -> exists ls, levels pfs l ls.
Proof.
  revert l. induction k as [|k IH]; intros l Hl; (destruct (decide (l = [])) as [->|Hne]; [exists []; constructor|]).
  - destruct l as [|de l]; [done|]. apply Forall_cons in Hl as [(k' & ? & _) _]. lia.
  - destruct (next_level_at_depth k l Hl) as (l' & Hn & Hl'). destruct (IH l' Hl') as (ls & Hls).
    exists (l :: ls). by apply (levels_cons pfs l l').
Qed.

End tree.
End image_tree.
