(* ===== verification/FuseTree.v ===== *)
(** The FUSE server over the image of a directory tree: a client that resolves paths with [lookup]
    requests, lists directories with [readdir] and reads files sees the tree. *)

From S2P Require Import Prelude Errors RustStd Capnp Format Digest InodeTable Compression Oci Reader Walk Fuse FsStream Chunks Builder BuildFacts BuildEnd BuildType BuildTree BuildImage ImageTree.

(** ** What the host would answer *)

Definition host_type (md : Metadata) : option FileType :=
  if md_is_dir md then Some Directory
  else if md_is_file md then Some RegularFile
  else if md_is S_IFIFO md then Some NamedPipe
  else if md_is S_IFCHR md then Some CharDevice
  else if md_is S_IFBLK md then Some BlockDevice
  else if md_is_symlink md then Some Symlink
  else if md_is S_IFSOCK md then Some Socket
  else None.

(** The attributes of the host file, as far as an image has them: no link count, device or times. *)
Definition host_attr `{HostFs} (ino : N) (p : Path) (md : Metadata) (kind : FileType) : FileAttr :=
  let size := if md_is_file md then match fs_open p with Ok data => len data | _ => 0%N end else 0%N in
  mkFileAttr ino size 0 kind (N.land (md_mode md) 4095) 0 (md_uid md) (md_gid md) 0 0 0.

Section fuse_tree.
Context {P : Profile} {R : OsRead} {ZS : ZstdSeekable} {NS : NixStat}.
Context {H : Hex} {SH : Sha256} {V : FsVerity} {D : OciDigest} {OD : OciDir} {W : CapnpWire}.
Context {OF : OFlags} {RD : ReplyDirectory}.
Context {F : HostFs} {WD : WalkDir}.

(** The kernel's side of a path: one [lookup] request per name, from the root. *)
Fixpoint fuse_resolve (pfs : PuzzleFS) (ino : N) (names : list bytes) : outcome Z N :=
  match names with
  | [] => Ok ino
  | name :: names =>
      match handle pfs (Req_lookup ino name) with
      | Ok (ReplyEntry attr _) => fuse_resolve pfs (fa_ino attr) names
      | Ok (ReplyError code) => Err code
      | _ => Panic
      end
  end.

(** The number [ino] answers for the host file [p] at the path [names]. *)
Record serves (pfs : PuzzleFS) (names : list bytes) (p : Path) (ino : N) : Prop := {
  sv_attr : exists md kind, symlink_metadata p = Ok md /\ host_type md = Some kind /\
    handle pfs (Req_getattr ino) = Ok (ReplyAttr (host_attr ino p md kind));
  sv_file md : symlink_metadata p = Ok md -> md_is_file md = true ->
    exists data, fs_open p = Ok data /\
      forall offset size, (0 <= offset)%Z -> (Z.to_N offset + size + len data < 2 ^ 64)%N ->
        handle pfs (Req_read ino offset size) = Ok (ReplyData (slice (Z.to_N offset) size data));
  sv_dir md : symlink_metadata p = Ok md -> md_is_dir md = true ->
    exists l, sorted_dirents p = Ok l /\
      ((Z.of_nat (length l) < 2 ^ 63)%Z ->
       exists replies, readdir_all (S (length l)) pfs ino 0 [] = Ok replies /\ dr_name <$> replies = l /\
         Forall (fun r => fuse_resolve pfs 1 (names ++ [dr_name r]) = Ok (dr_ino r)) replies);
  sv_link md : symlink_metadata p = Ok md -> md_is_symlink md = true ->
    exists dest, fs_read_link p = Ok dest /\ handle pfs (Req_readlink ino) = Ok (ReplyData dest);
  sv_xattrs : exists xs, get_xattrs p = Ok xs /\ forall name,
    match List.find (fun x => bool_decide (xa_key x = name)) xs with
    | Some x => forall size, (0 < size)%N -> (len (xa_val x) <= size < 2 ^ u32_bits)%N ->
                  handle pfs (Req_getxattr ino name size) = Ok (ReplyData (xa_val x))
    | None => forall size, handle pfs (Req_getxattr ino name size) = Ok (ReplyError (errno_code ENODATA))
    end
}.

(** ** Attributes *)

Lemma new_other_type ino md add inode :
  md_is_dir md = false -> md_is_file md = false -> new_other ino md add = Ok inode ->
  mode_to_fuse_type inode = ok_or (host_type md) (from_errno EINVAL) /\ file_len inode = Err (from_errno ENOTDIR).
Proof.
  intros Hd Hf (m & Hm & [= <-])%bind_ok_inv. unfold mode_to_fuse_type, host_type, file_len. cbn [i_mode new_inode].
  rewrite Hd, Hf in *. repeat (destruct (md_is _ md); [by injection Hm as <-|]).
  destruct (md_is_symlink md); [by injection Hm as <-|]. destruct (md_is S_IFSOCK md); by injection Hm as <-.
Qed.

Section tree.
Context (rootfs : Path) (dirs : list Path) (HT : host_tree rootfs dirs).
Context (pfs : PuzzleFS) (HI : image_of_tree rootfs pfs).
Context (Htypes : forall names p md, host_lookup rootfs names = Some p -> symlink_metadata p = Ok md -> is_Some (host_type md)).
Context (Hhost : host_consistent).

Lemma getattr_served names p inode :
  host_lookup rootfs names = Some p -> PuzzleFS_lookup pfs (image_path names) = Ok (Some inode) -> mirrors pfs p inode ->
  exists md kind, symlink_metadata p = Ok md /\ host_type md = Some kind /\ mode_to_fuse_type inode = Ok kind /\
    Fuse_getattr pfs (i_ino inode) = Ok (host_attr (i_ino inode) p md kind).
Proof.
  intros Hp Hl%lookup_number (md & add & Hmd & _ & Hshape & Hcase). destruct (Htypes names p md Hp Hmd) as (kind & Hkind).
  exists md, kind. do 2 (split; [done|]).
  assert (mode_to_fuse_type inode = Ok kind /\
    (match file_len inode with Err _ => Ok 0%N | r => r end : Result N)
    = Ok (if md_is_file md then match fs_open p with Ok data => len data | _ => 0%N end else 0%N)) as [Hk Hlen].
  { destruct (md_is_dir md) eqn:Hdir; [|unfold mirrors_leaf in Hcase; destruct (md_is_file md) eqn:Hfile].
    - assert (md_is_file md = false) as ->.
      { unfold md_is_dir, md_is_file, md_is in *. apply N.eqb_eq in Hdir. by rewrite Hdir. }
      destruct Hcase as (l & entries & _ & Hm & _). unfold host_type in Hkind. rewrite Hdir in Hkind. injection Hkind as <-.
      unfold mode_to_fuse_type, file_len. by rewrite Hm.
    - destruct Hcase as (chunks & data & Ho & Hm & Hc & _). unfold host_type in Hkind. rewrite Hdir, Hfile in Hkind.
      injection Hkind as <-. rewrite Ho, (file_len_content _ _ _ _ _ Hm Hc) by (destruct (Hhost p md Hmd Hfile) as (data' & Ho' & _ & ?); assert (data' = data) as -> by congruence; lia).
      unfold mode_to_fuse_type. by rewrite Hm.
    - destruct (new_other_type _ _ _ _ Hdir Hfile Hcase) as [-> ->]. by rewrite Hkind. }
  split; [done|]. unfold Fuse_getattr. rewrite Hl. bsimpl. rewrite Hk. bsimpl. rewrite Hlen. bsimpl.
  unfold host_attr. rewrite Hshape. cbn [i_permissions i_uid i_gid i_ino new_inode]. by rewrite permission_bits.
Qed.

(** ** Paths *)

Lemma fuse_resolve_snoc ino names n :
  fuse_resolve pfs ino (names ++ [n]) = match fuse_resolve pfs ino names with Ok i => fuse_resolve pfs i [n] | r => r end.
Proof.
  revert ino. induction names as [|n' names IH]; intros ino; [done|]. cbn [fuse_resolve app].
  by destruct (handle pfs (Req_lookup ino n')) as [[]| | |].
Qed.

(** One step: the name is an entry of the directory, or the lookup fails. *)
Lemma resolve_step names p inode n :
  host_lookup rootfs names = Some p -> PuzzleFS_lookup pfs (image_path names) = Ok (Some inode) -> mirrors pfs p inode ->
  match host_lookup p [n] with
  | Some q => exists child, PuzzleFS_lookup pfs (image_path (names ++ [n])) = Ok (Some child) /\ mirrors pfs q child /\
                fuse_resolve pfs (i_ino inode) [n] = Ok (i_ino child)
  | None => exists code, fuse_resolve pfs (i_ino inode) [n] = Err code /\ (code = errno_code ENOENT \/ code = errno_code ENOTDIR)
  end.
Proof.
  intros Hp Hl Hmir. pose proof (lookup_number _ _ _ Hl) as Hf. pose proof (host_lookup_snoc rootfs names n) as Hsn. rewrite Hp in Hsn.
  cbn [fuse_resolve handle]. unfold fs_lookup, Fuse_lookup. rewrite Hf. bsimpl.
  destruct (i_mode inode) as [| | |dl| | | | |] eqn:Hm.
  4: { destruct (image_dir rootfs dirs HT pfs HI names inode dl Hl Hm) as (p' & md & Hp' & _ & Hmd & Hdir & Hs).
    assert (p' = p) as -> by congruence. unfold dir_lookup, dir_entries. rewrite Hm. bsimpl.
    destruct (List.find _ (dl_entries dl)) as [e|] eqn:He.
    - apply find_some in He as [He%list_elem_of_In Hn%bool_decide_eq_true]. cbn [fmap option_fmap option_map ok_or]. bsimpl.
      destruct (child_found rootfs dirs HT pfs HI names inode dl e Hl Hm He) as (child & Hc & Hcl). rewrite Hn in Hcl.
      destruct (image_host rootfs pfs HI _ _ Hcl) as (q & Hq & Hmq). rewrite Hq in Hsn. rewrite <-Hsn.
      exists child. do 2 (split; [done|]). destruct (getattr_served _ _ _ Hq Hcl Hmq) as (md' & kind & _ & _ & _ & Hg).
      rewrite (RootfsReader_find_inode_number _ _ _ Hc) in Hg |- *. by rewrite Hg.
    - assert (host_lookup p [n] = None) as ->.
      { cbn. rewrite Hmd, Hs, Hdir. cbn. rewrite bool_decide_eq_false_2; [done|]. intros (e & -> & Hin)%list_elem_of_fmap.
        apply list_elem_of_In, (find_none _ _ He), bool_decide_eq_false in Hin. done. }
      cbn. eauto. }
  all: assert (host_lookup p [n] = None) as -> by
    (destruct (host_lookup p [n]) as [q|] eqn:Hq; [|done]; apply host_lookup_step in Hq as (md & l & Hmd & Hdir & _);
     destruct Hmir as (md' & add & Hmd' & _ & _ & Hcase); assert (md' = md) as -> by congruence; rewrite Hdir in Hcase;
     destruct Hcase as (? & ? & _ & Hm' & _); congruence);
    unfold dir_lookup, dir_entries; rewrite Hm; cbn; eauto.
Qed.

Lemma resolved names :
  match host_lookup rootfs names with
  | Some p => exists inode, PuzzleFS_lookup pfs (image_path names) = Ok (Some inode) /\ mirrors pfs p inode /\
                fuse_resolve pfs 1 names = Ok (i_ino inode)
  | None => exists code, fuse_resolve pfs 1 names = Err code /\ (code = errno_code ENOENT \/ code = errno_code ENOTDIR)
  end.
Proof.
  induction names as [|n names IH] using rev_ind.
  - pose proof (io_lookup _ _ HI []) as (root & Hl & Hm). exists root. do 2 (split; [done|]). cbn. f_equal.
    apply bind_ok_inv in Hl as (r & Hr & [= ->]). by rewrite (RootfsReader_find_inode_number _ _ _ Hr).
  - rewrite host_lookup_snoc, fuse_resolve_snoc. destruct (host_lookup rootfs names) as [p|] eqn:Hp.
    + destruct IH as (inode & Hl & Hm & ->). by apply resolve_step with (names := names).
    + destruct IH as (code & -> & Hc). eauto.
Qed.

(** ** Directories *)

Lemma listing_known entries k :
  (forall e, e ∈ entries -> exists i kind, PuzzleFS_find_inode pfs (de_ino e) = Ok i /\ mode_to_fuse_type i = Ok kind) ->
  exists rest, listing pfs entries k = Ok rest /\ Forall2 (fun e r => dr_name r = de_name e /\ dr_ino r = de_ino e) entries rest.
Proof.
  revert k. induction entries as [|e entries IH]; intros k Hall; [by exists []|]. cbn [listing].
  destruct (Hall e) as (i & kind & -> & Hk); [by left|]. bsimpl. rewrite Hk. bsimpl.
  destruct (IH (S k)) as (rest & -> & Hrest); [intros e' He'; apply Hall; by right|]. bsimpl. eexists. split; [done|]. by constructor.
Qed.

Lemma readdir_served names p inode :
  (forall names p e, host_lookup rootfs (names ++ [dr_name e]) = Some p -> reply_fits [] e = true) ->
  PuzzleFS_lookup pfs (image_path names) = Ok (Some inode) -> mirrors pfs p inode ->
  forall md, symlink_metadata p = Ok md -> md_is_dir md = true ->
  exists l, sorted_dirents p = Ok l /\
    ((Z.of_nat (length l) < 2 ^ 63)%Z ->
     exists replies, readdir_all (S (length l)) pfs (i_ino inode) 0 [] = Ok replies /\ dr_name <$> replies = l /\
       Forall (fun r => fuse_resolve pfs 1 (names ++ [dr_name r]) = Ok (dr_ino r)) replies).
Proof.
  intros Hfits Hl (md' & add & Hmd' & _ & _ & Hcase) md Hmd Hdir. assert (md' = md) as -> by congruence. rewrite Hdir in Hcase.
  destruct Hcase as (l & entries & Hs & Hm & Hn). exists l. split; [done|]. intros Hlen.
  assert (forall e, e ∈ entries -> exists child, PuzzleFS_find_inode pfs (de_ino e) = Ok child /\
            PuzzleFS_lookup pfs (image_path (names ++ [de_name e])) = Ok (Some child)) as Hch
    by (intros e He; by eapply (child_found rootfs dirs HT pfs HI names inode _ e Hl Hm)).
  destruct (listing_known entries 0) as (rest & Hrest & Hsame).
  { intros e He. destruct (Hch e He) as (child & Hf & Hc). exists child.
    destruct (image_host rootfs pfs HI _ _ Hc) as (q & Hq & Hmq).
    destruct (getattr_served _ _ _ Hq Hc Hmq) as (? & kind & _ & _ & Hk & _). eauto. }
  assert (length l = length entries) as Hll by (by rewrite <-Hn, length_fmap).
  exists rest. split; [|split].
  - assert (forall r, r ∈ rest -> reply_fits [] r = true) as Hfits'.
    { intros r [k Hk]%list_elem_of_lookup. destruct (Forall2_lookup_r _ _ _ _ _ Hsame Hk) as (e & He & Hrn & _).
      apply list_elem_of_lookup_2 in He. destruct (Hch e He) as (child & _ & Hc).
      destruct (image_host rootfs pfs HI _ _ Hc) as (q & Hq & _). rewrite <-Hrn in Hq. by eapply Hfits. }
    pose proof (readdir_all_from (S (length l)) pfs (i_ino inode) inode entries rest 0 [] Hfits' (lookup_number _ _ _ Hl)) as Hr.
    cbn [app drop Z.of_nat] in Hr. apply Hr; [by unfold dir_entries; rewrite Hm|done|lia..].
  - rewrite <-Hn. clear -Hsame. induction Hsame as [|e r es rs [Hn _] _ IH]; [done|]. cbn. by rewrite Hn, IH.
  - apply Forall_forall. intros r Hr. apply list_elem_of_lookup in Hr as (k & Hk).
    destruct (Forall2_lookup_r _ _ _ _ _ Hsame Hk) as (e & He & -> & ->).
    apply list_elem_of_lookup_2 in He. destruct (Hch e He) as (child & Hf & Hc). pose proof (resolved (names ++ [de_name e])) as Hres.
    destruct (image_host rootfs pfs HI _ _ Hc) as (q & Hq & _). rewrite Hq in Hres. destruct Hres as (i & Hi & _ & ->).
    assert (i = child) as -> by congruence. by rewrite (RootfsReader_find_inode_number _ _ _ Hf).
Qed.

(** ** Everything else *)

Lemma read_served p inode md :
  PuzzleFS_find_inode pfs (i_ino inode) = Ok inode -> mirrors pfs p inode -> symlink_metadata p = Ok md -> md_is_file md = true ->
  exists data, fs_open p = Ok data /\
    forall offset size, (0 <= offset)%Z -> (Z.to_N offset + size + len data < 2 ^ 64)%N ->
      handle pfs (Req_read (i_ino inode) offset size) = Ok (ReplyData (slice (Z.to_N offset) size data)).
Proof.
  intros Hf (md' & add & Hmd' & _ & _ & Hcase) Hmd Hfile. assert (md' = md) as -> by congruence.
  assert (md_is_dir md = false) as Hd.
  { unfold md_is_dir, md_is_file, md_is in *. apply N.eqb_eq in Hfile. by rewrite Hfile. }
  unfold mirrors_leaf in Hcase. rewrite Hd, Hfile in Hcase. destruct Hcase as (chunks & data & Ho & Hm & Hc & Hread).
  exists data. split; [done|]. intros offset size Hoff Hlim. cbn [handle]. unfold fs_read, Fuse_read.
  rewrite (proj2 (Z.ltb_ge _ _)) by lia. rewrite Hf. bsimpl. set (buf := replicate (N.to_nat size) x00).
  assert (len buf = size) as Hb by (unfold len, buf; rewrite length_replicate; lia).
  rewrite cast_w_small by word_lia. rewrite Hread by lia. bsimpl. cbn [reply_or_errno]. do 2 f_equal.
  rewrite Hb. set (out := slice (Z.to_N offset) size data).
  assert (N.min size (len data - Z.to_N offset) = len out) as -> by (unfold out; by rewrite len_slice).
  apply slice_splice_0. unfold out. rewrite len_slice. lia.
Qed.

Lemma link_served p inode md :
  PuzzleFS_find_inode pfs (i_ino inode) = Ok inode -> mirrors pfs p inode -> mode_to_fuse_type inode = Ok Symlink ->
  symlink_metadata p = Ok md -> md_is_symlink md = true ->
  exists dest, fs_read_link p = Ok dest /\ handle pfs (Req_readlink (i_ino inode)) = Ok (ReplyData dest).
Proof.
  intros Hf (md' & add & Hmd' & Hadd & Hshape & _) Hk Hmd Hlink. assert (md' = md) as -> by congruence.
  destruct (additional_parts _ _ _ Hadd) as [_ Hl]. destruct (Hl Hlink) as (dest & Hr & Ha). exists dest. split; [done|].
  cbn [handle]. unfold fs_readlink, Fuse_readlink. rewrite Hf. bsimpl. rewrite Hk. bsimpl.
  assert (i_additional inode = add) as -> by by rewrite Hshape. by rewrite Ha.
Qed.

Lemma xattrs_served p inode :
  PuzzleFS_find_inode pfs (i_ino inode) = Ok inode -> mirrors pfs p inode ->
  exists xs, get_xattrs p = Ok xs /\ forall name,
    match List.find (fun x => bool_decide (xa_key x = name)) xs with
    | Some x => forall size, (0 < size)%N -> (len (xa_val x) <= size < 2 ^ u32_bits)%N ->
                  handle pfs (Req_getxattr (i_ino inode) name size) = Ok (ReplyData (xa_val x))
    | None => forall size, handle pfs (Req_getxattr (i_ino inode) name size) = Ok (ReplyError (errno_code ENODATA))
    end.
Proof.
  intros Hf (md & add & Hmd & Hadd & Hshape & _). destruct (additional_parts _ _ _ Hadd) as [Hxs _].
  assert (i_additional inode = add) as Ha by by rewrite Hshape. eexists. split; [exact Hxs|]. intros name.
  assert (Fuse_getxattr pfs (i_ino inode) name =
    ok_or (xa_val <$> List.find (fun x => bool_decide (xa_key x = name)) match add with Some x => ia_xattrs x | None => [] end)
      (from_errno ENODATA)) as Hg.
  { unfold Fuse_getxattr. rewrite Hf. bsimpl. rewrite Ha. by destruct add. }
  destruct (List.find _ _) as [x|]; intros size; cbn [handle]; unfold fs_getxattr; rewrite Hg; [|done].
  intros Hsize [Hle Hlt]. cbn [fmap option_fmap option_map ok_or reply_or_errno]. unfold reply_xattr.
  rewrite (proj2 (N.ltb_lt _ _)) by lia. rewrite (proj2 (N.eqb_neq _ _)) by lia. by rewrite (proj2 (N.leb_le _ _)).
Qed.

Lemma link_type md kind : md_is_symlink md = true -> host_type md = Some kind -> kind = Symlink.
Proof.
  unfold host_type, md_is_symlink, md_is_dir, md_is_file, md_is. intros ->%N.eqb_eq. cbn. by intros [= <-].
Qed.

(** Every path of the tree is served, and no other. *)
Lemma tree_served :
  (forall names p e, host_lookup rootfs (names ++ [dr_name e]) = Some p -> reply_fits [] e = true) ->
  forall names,
    match host_lookup rootfs names with
    | Some p => exists ino, fuse_resolve pfs 1 names = Ok ino /\ serves pfs names p ino
    | None => exists code, fuse_resolve pfs 1 names = Err code /\ (code = errno_code ENOENT \/ code = errno_code ENOTDIR)
    end.
Proof.
  intros Hfits names. pose proof (resolved names) as Hres. destruct (host_lookup rootfs names) as [p|] eqn:Hp; [|done].
  destruct Hres as (inode & Hl & Hm & Hr). exists (i_ino inode). split; [done|]. pose proof (lookup_number _ _ _ Hl) as Hf.
  destruct (getattr_served _ _ _ Hp Hl Hm) as (md & kind & Hmd & Hkind & Hk & Hg). split.
  - exists md, kind. do 2 (split; [done|]). cbn [handle]. unfold fs_getattr. by rewrite Hg.
  - intros md' Hmd'. by apply read_served.
  - intros md' Hmd'. by apply readdir_served with (names := names).
  - intros md' Hmd' Hlink. assert (md' = md) as -> by congruence. apply (link_served p inode md); try done.
    by rewrite (link_type md kind) in Hk.
  - by apply xattrs_served.
Qed.

End tree.

Context {CD : StreamCDC} {HO : HashOrder}.
Context {SL : Sha256Ok SH} {HL : HexOk H} {VL : FsVerityOk V} {DL : OciDigestOk D}.
Context {RF : OsReadFull R} {ZSL : ZstdSeekableOk ZS} {CDL : StreamCDCOk CD} {HOL : HashOrderOk HO}.
Context {WL : CapnpWireOk W} {ODL : OciDirOk OD}.

(** C4: a mounted image shows the directory tree it was built from.  Build an image of a tree and open
    it for the FUSE server.  A client that resolves a path with one [lookup] request per name reaches
    a number exactly where the host has a file, and an [ENOENT] or [ENOTDIR] error elsewhere.  At that number
    [getattr] reports the kind, owner, permission bits and size of the host file, [read] returns
    the requested range of its data, [readlink] its target and [getxattr] its attributes, and paging
    through a directory with [readdir] delivers the names of the host directory in sorted order,
    each with the number that [lookup] resolves it to.  The files of the tree must be of a known type, and each entry of a directory
    must fit into an empty [readdir] reply. *)
Theorem build_mount_tree (C : Compression) (U : bytes -> Prop) (rootfs : Path) (dirs : list Path)
    (img0 img img1 : Image oci_index) (tag : bytes) (man man1 : ImageManifest) (b : Build) (l : list Inode)
    (vd : VerityData) (buf : bytes) :
  first_build C U rootfs img0 img img1 tag man man1 b l vd buf -> host_tree rootfs dirs ->
  (forall names p md, host_lookup rootfs names = Some p -> symlink_metadata p = Ok md -> is_Some (host_type md)) ->
  (forall names p e, host_lookup rootfs (names ++ [dr_name e]) = Some p -> reply_fits [] e = true) ->
  exists img3 desc pfs, build_initial_rootfs C rootfs img0 tag = Ok (img3, desc) /\ PuzzleFS_open img3 tag None = Ok pfs /\
    forall names,
      match host_lookup rootfs names with
      | Some p => exists ino, fuse_resolve pfs 1 names = Ok ino /\ serves pfs names p ino
      | None => exists code, fuse_resolve pfs 1 names = Err code /\ (code = errno_code ENOENT \/ code = errno_code ENOTDIR)
      end.
Proof.
  intros HF HT Htypes Hfits.
  destruct (first_build_image _ _ _ _ _ _ _ _ _ _ _ _ _ _ HF HT) as (img3 & desc & pfs & Hb & Ho & _ & _ & _ & HI).
  exists img3, desc, pfs. do 2 (split; [done|]). by apply (tree_served rootfs dirs HT pfs HI Htypes (fb_host _ _ _ _ _ _ _ _ _ _ _ _ _ HF)).
Qed.

End fuse_tree.
