(* ===== verification/BuildExtract.v ===== *)
(** The round trip of a directory tree: build an image of it, extract the image, and the new
    directory is a copy of the tree. *)

From S2P Require Import Prelude Errors RustStd Capnp Format Digest InodeTable Compression Oci Reader Walk Extractor Target ExtractTree ExtractImage FsStream Chunks Builder BuildFacts BuildEnd BuildType BuildTree BuildImage ImageTree.

(** Device numbers split into major and minor and back. *)
Class NixStatOk (NS : NixStat) := makedev_split d : makedev (stat_major d) (stat_minor d) = d.

(** ** What a copy of a host file is *)

Section copies.
Context {F : HostFs} {T : TargetFs}.

Definition host_kind (p : Path) (md : Metadata) : option NodeKind :=
  if md_is_dir md then Some K_dir
  else if md_is_file md then match fs_open p with Ok data => Some (K_file data) | _ => None end
  else if md_is S_IFIFO md then Some K_fifo
  else if md_is S_IFCHR md then Some (K_device S_IFCHR (md_rdev md))
  else if md_is S_IFBLK md then Some (K_device S_IFBLK (md_rdev md))
  else if md_is_symlink md then match fs_read_link p with Ok dest => Some (K_symlink dest) | _ => None end
  else None.

(** The copy has the kind, the mode and the extended attributes of the original, and its owner if the
    process is privileged. *)
Definition host_copy (p : Path) : option Node :=
  match symlink_metadata p, get_xattrs p with
  | Ok md, Ok xs =>
      match host_kind p md with
      | Some k =>
          let mode := match k with K_symlink _ => None | _ => Some (N.land (md_mode md) 4095) end in
          let n := mkNode k mode None (xattr_map xs) in
          Some (if runs_privileged then with_owner n (md_uid md) (md_gid md) else n)
      | None => None
      end
  | _, _ => None
  end.

(** The process may make a copy: see [may_extract]. *)
Definition may_copy (p : Path) : bool :=
  match symlink_metadata p, get_xattrs p with
  | Ok md, Ok xs =>
      match host_kind p md with
      | Some k =>
          match k with
          | K_device _ _ => runs_privileged
          | K_symlink _ => negb runs_privileged
          | K_dir => runs_privileged || (N.land (md_mode md) 192 =? 192)%N
          | K_file data => (len data <? 2 ^ 62)%N
          | K_fifo => true
          end && forallb (fun x => xattr_allowed (new_node k) (xa_key x)) xs
      | None => false
      end
  | _, _ => false
  end.

End copies.

(** ** An image of a tree can be extracted *)

Section build_extract.
Context {T : TargetFs} {dir : Path} {TL : TargetFsOk T dir}.
Context {P : Profile} {R : OsRead} {ZS : ZstdSeekable} {NS : NixStat} {NSL : NixStatOk NS}.
Context {H : Hex} {SH : Sha256} {V : FsVerity} {D : OciDigest} {OD : OciDir} {W : CapnpWire}.
Context {F : HostFs} {CD : StreamCDC} {WD : WalkDir} {HO : HashOrder}.

(** The inode that mirrors a host file is extracted as a copy of it. *)
Lemma mirrors_kind pfs p inode md add :
  mirrors pfs p inode -> symlink_metadata p = Ok md -> InodeAdditional_new p md = Ok add ->
  pfs_verity_data pfs = None -> (forall data, host_kind p md = Some (K_file data) -> (len data < 2 ^ 62)%N) ->
  readable (pfs_oci pfs) inode (read_all (pfs_oci pfs) inode) /\
  kind_of inode (read_all (pfs_oci pfs) inode) = host_kind p md.
Proof.
  intros (md' & add' & Hmd' & Hadd' & Hshape & Hcase) Hmd Hadd Hvd Hsize.
  assert (md' = md) as -> by congruence. assert (add' = add) as -> by congruence.
  unfold mirrors_leaf, host_kind, kind_of, readable in *. destruct (md_is_dir md) eqn:Hdir; [|destruct (md_is_file md) eqn:Hfile].
  - destruct Hcase as (names & entries & _ & Hm & _). rewrite Hm. done.
  - destruct Hcase as (chunks & data & Hopen & Hm & Hc & _). rewrite Hopen in Hsize |- *. specialize (Hsize data eq_refl).
    rewrite Hvd in Hc. rewrite (read_all_content (pfs_oci pfs) inode chunks data Hm Hc), Hm by lia.
    split; [|done]. intros chunks' [= <-]. unfold COPY_BUF_SIZE. split; [done|lia].
  - apply bind_ok_inv in Hcase as (m & Hm & [= Hi]). assert (i_mode inode = m) as -> by by rewrite <-Hi.
    assert (i_additional inode = add) as Ha by by rewrite Hshape.
    destruct (additional_parts _ _ _ Hadd) as [_ Hlink]. rewrite Hdir, Hfile in Hm.
    destruct (md_is S_IFIFO md); [by injection Hm as <-|].
    destruct (md_is S_IFCHR md); [injection Hm as <-; by rewrite makedev_split|].
    destruct (md_is S_IFBLK md); [injection Hm as <-; by rewrite makedev_split|].
    destruct (md_is_symlink md); [|destruct (md_is S_IFSOCK md); by injection Hm as <-].
    injection Hm as <-. destruct (Hlink eq_refl) as (dest & -> & Hd). unfold symlink_target. by rewrite Ha, Hd.
Qed.

Lemma mirrors_copy pfs p inode :
  mirrors pfs p inode -> pfs_verity_data pfs = None -> may_copy p = true ->
  may_extract inode = true /\ readable (pfs_oci pfs) inode (read_all (pfs_oci pfs) inode) /\
  exists n, node_for pfs inode = Some n /\ host_copy p = Some n.
Proof.
  intros Hmir Hvd Hmay. pose proof Hmir as (md & add & Hmd & Hadd & Hshape & _).
  destruct (additional_parts _ _ _ Hadd) as [Hxs _].
  unfold may_copy in Hmay. unfold host_copy. rewrite Hmd, Hxs in Hmay |- *.
  destruct (host_kind p md) as [k|] eqn:Hk; [|done].
  destruct (mirrors_kind pfs p inode md add Hmir Hmd Hadd Hvd) as [Hread Hkind].
  { intros data Heq. rewrite Hk in Heq. injection Heq as ->. apply andb_true_iff in Hmay as [?%N.ltb_lt _]. done. }
  assert (inode_xattrs inode = match add with Some x => ia_xattrs x | None => [] end) as Hx.
  { unfold inode_xattrs. by rewrite Hshape. }
  assert (i_permissions inode = cast_w u16_bits (N.land (md_mode md) 4095)) as Hp by by rewrite Hshape.
  split; [|split; [done|]].
  - rewrite (may_extract_kind inode _ k) by (by rewrite Hkind). rewrite Hx.
    apply andb_true_iff in Hmay as [Hm ->]. rewrite andb_true_r. destruct k; try done.
    by rewrite Hp, permission_bits, <-N.land_assoc.
  - eexists. split; [unfold node_for; rewrite Hkind, Hk; reflexivity|]. f_equal. unfold node_of.
    assert (i_uid inode = md_uid md) as -> by by rewrite Hshape. assert (i_gid inode = md_gid md) as -> by by rewrite Hshape.
    by rewrite Hx, Hp, permission_bits, <-N.land_assoc.
Qed.

(** ** The whole tree *)

Section tree.
Context (rootfs : Path) (dirs : list Path) (HT : host_tree rootfs dirs).
Context (pfs : PuzzleFS) (HI : image_of_tree rootfs pfs).
Context (Hvd : pfs_verity_data pfs = None).
Context (Hmay : forall names p, host_lookup rootfs names = Some p -> may_copy p = true).

Lemma image_extractable : extractable pfs.
Proof.
  pose proof (io_lookup _ _ HI []) as Hr. cbn [host_lookup] in Hr. destruct Hr as (root & Hroot & Hmir).
  assert (PuzzleFS_find_inode pfs 1 = Ok root) as Hfind.
  { unfold image_path, PuzzleFS_lookup in Hroot. by apply bind_ok_inv in Hroot as (r & Hr & [= ->]). }
  split.
  - by eapply image_addressable.
  - destruct Hmir as (md & add & Hmd & _ & _ & Hcase). destruct (ht_dir _ _ HT rootfs (ht_root _ _ HT)) as (md' & Hmd' & Hdir).
    assert (md' = md) as -> by congruence. rewrite Hdir in Hcase. destruct Hcase as (names & entries & _ & Hm & _).
    destruct (levels_exist rootfs dirs HT pfs HI (S (depth dirs)) [mkDirEntry (pfs_oci pfs) (image_path []) root]) as (ls & Hls).
    { apply Forall_singleton. exists (depth dirs). split; [lia|]. exists []. split; [cbn [length]; lia|]. done. }
    eauto 10.
  - intros names inode Hl. destruct (image_host rootfs pfs HI _ _ Hl) as (p & Hp & Hm).
    destruct (mirrors_copy pfs p inode Hm Hvd (Hmay _ _ Hp)) as (? & ? & _). done.
  - intros names names' inode inode' dl Hl Hl' Hino Hm.
    destruct (image_dir rootfs dirs HT pfs HI _ _ _ Hl Hm) as (p & md & Hp & Hpd & Hmd & Hdir & _).
    destruct (image_host rootfs pfs HI _ _ Hl') as (q & Hq & md' & _ & Hmd' & _).
    apply (io_links _ _ HI names names' p q md md' inode inode') in Hino; try done.
    destruct (host_lookup_tree rootfs dirs HT _ _ Hp) as (Heq & Htp & _), (host_lookup_tree rootfs dirs HT _ _ Hq) as (Heq' & Htq & _).
    destruct (ht_inode _ _ HT p q md md' Htp Htq Hmd Hmd' Hino) as (_ & _ & _ & Hsame). specialize (Hsame Hdir).
    rewrite Heq, Heq' in Hsame. apply image_path_inj. unfold image_path.
    by apply (inj (app rootfs)) in Hsame as ->.
Qed.

(** The tree in the target is a copy of the host's. *)
Definition copied (v : TargetTree) : Prop :=
  (forall names,
     match host_lookup rootfs names with
     | Some p => exists n, host_copy p = Some n /\ node_at v (dir ++ (Normal <$> names)) = Some n
     | None => t_links v !! (dir ++ (Normal <$> names)) = None
     end) /\
  (forall names names' p q mdp mdq,
     host_lookup rootfs names = Some p -> host_lookup rootfs names' = Some q ->
     symlink_metadata p = Ok mdp -> symlink_metadata q = Ok mdq ->
     t_links v !! (dir ++ (Normal <$> names)) = t_links v !! (dir ++ (Normal <$> names')) <-> md_ino mdp = md_ino mdq) /\
  (forall p, is_Some (t_links v !! p) -> exists names, p = dir ++ (Normal <$> names)).

Lemma same_tree_copied v : same_tree (dir := dir) pfs v -> copied v.
Proof.
  intros (Hnodes & Hlinks & Hall). split; [|split; [|done]].
  - intros names. specialize (Hnodes names). pose proof (io_lookup _ _ HI names) as Hl.
    destruct (host_lookup rootfs names) as [p|] eqn:Hp; [|by rewrite Hl in Hnodes].
    destruct Hl as (inode & Hl & Hm). rewrite Hl in Hnodes. destruct Hnodes as (n & Hn & Hat).
    destruct (mirrors_copy pfs p inode Hm Hvd (Hmay _ _ Hp)) as (_ & _ & n' & Hn' & Hc).
    exists n. split; [congruence|done].
  - intros names names' p q mdp mdq Hp Hq Hmdp Hmdq.
    pose proof (io_lookup _ _ HI names) as Hl. rewrite Hp in Hl. destruct Hl as (i & Hl & _).
    pose proof (io_lookup _ _ HI names') as Hl'. rewrite Hq in Hl'. destruct Hl' as (i' & Hl' & _).
    rewrite <-(io_links _ _ HI names names' p q mdp mdq i i' Hp Hq Hmdp Hmdq Hl Hl'). by apply Hlinks.
Qed.

End tree.

Context {SL : Sha256Ok SH} {HL : HexOk H} {VL : FsVerityOk V} {DL : OciDigestOk D}.
Context {RF : OsReadFull R} {ZSL : ZstdSeekableOk ZS} {CDL : StreamCDCOk CD} {HOL : HashOrderOk HO}.
Context {WL : CapnpWireOk W} {ODL : OciDirOk OD}.

Lemma first_build_extracted (C : Compression) (U : bytes -> Prop) (rootfs : Path) (dirs : list Path)
    (img0 img img1 : Image oci_index) (tag : bytes) (man man1 : ImageManifest) (b : Build) (l : list Inode)
    (vd : VerityData) (buf : bytes) (t : target) (v0 : TargetTree) :
  first_build C U rootfs img0 img img1 tag man man1 b l vd buf -> host_tree rootfs dirs ->
  (forall names p, host_lookup rootfs names = Some p -> may_copy p = true) ->
  dir ≠ [] -> hosts (dir := dir) t v0 -> fresh_target (dir := dir) v0 ->
  exists img3 desc bound, build_initial_rootfs C rootfs img0 tag = Ok (img3, desc) /\
    forall fuel, bound <= fuel ->
      exists st v, extract_rootfs fuel img3 tag dir (mkExtract _ t ∅ []) = (st, Ok ()) /\
        hosts (dir := dir) (x_target st) v /\ copied rootfs v.
Proof.
  intros HF HT Hmay Hdir Ht Hv0.
  destruct (first_build_image _ _ _ _ _ _ _ _ _ _ _ _ _ _ HF HT) as (img3 & desc & pfs & Hbuild & Hopen & Hvd & _ & _ & HI).
  pose proof (image_extractable rootfs dirs HT pfs HI Hvd Hmay) as HX.
  destruct (extract_rootfs_spec pfs HX Hdir img3 tag t v0 Hopen Ht Hv0) as (bound & Hrun).
  exists img3, desc, bound. split; [done|]. intros fuel Hf. destruct (Hrun fuel Hf) as (st & v & Hst & Hh & Hs).
  exists st, v. do 2 (split; [done|]). by eapply same_tree_copied.
Qed.

(** C2: building an image of a directory tree and extracting it copies the tree.  The build succeeds,
    the extraction into an empty or missing directory terminates without an error, and afterwards
    there is a file below the directory exactly where the tree has one: of the same kind, with the
    same data, link target or device number, with the mode and the extended attributes of the
    original, and for a privileged process with its owner ([host_copy]; what chown(2) takes away is
    in [with_owner]).  Two paths of the copy are one file exactly if they are in the original.  The
    assumptions are those of the build and of the host, and that the process may make a copy of every
    file of the tree ([may_copy]): there are no sockets, there are no symbolic links when the process
    is privileged, and when it is not there are no devices and only directories it can write to; files
    are shorter than 2^62 bytes and have extended attributes that may be set on them. *)
Theorem build_extract_roundtrip (C : Compression) (U : bytes -> Prop) (rootfs : Path) (dirs : list Path)
    (img0 img img1 : Image oci_index) (tag : bytes) (man man1 : ImageManifest) (b : Build) (l : list Inode)
    (vd : VerityData) (buf : bytes) (t : target) (v0 : TargetTree) :
  first_build C U rootfs img0 img img1 tag man man1 b l vd buf -> host_tree rootfs dirs ->
  (forall names p, host_lookup rootfs names = Some p -> may_copy p = true) ->
  dir ≠ [] -> hosts (dir := dir) t v0 -> fresh_target (dir := dir) v0 ->
  exists img3 desc bound, build_initial_rootfs C rootfs img0 tag = Ok (img3, desc) /\
    forall fuel, bound <= fuel ->
      exists st v, extract_rootfs fuel img3 tag dir (mkExtract _ t ∅ []) = (st, Ok ()) /\
        hosts (dir := dir) (x_target st) v /\ copied rootfs v.
Proof. exact (first_build_extracted C U rootfs dirs img0 img img1 tag man man1 b l vd buf t v0). Qed.

End build_extract.
