(* ===== verification/DeltaImage.v ===== *)
(** The image of a tree after a delta: what [add_rootfs_delta] writes on top of a base image,
    [PuzzleFS::open] reads, and looking up any path gives what the host has there now. *)

From S2P Require Import Prelude Errors RustStd Capnp Format Digest InodeTable Compression Oci Reader FsStream Chunks Builder BuildFacts BuildEnd BuildType Delta BuildTree BuildImage.

Section delta_image.
Context {P : Profile} {R : OsRead} {ZS : ZstdSeekable} {NS : NixStat}.
Context {H : Hex} {SH : Sha256} {V : FsVerity} {D : OciDigest} {OD : OciDir} {W : CapnpWire}.
Context {F : HostFs} {CD : StreamCDC} {WD : WalkDir} {HO : HashOrder}.
Context {SL : Sha256Ok SH} {HL : HexOk H} {VL : FsVerityOk V} {DL : OciDigestOk D}.
Context {RF : OsReadFull R} {ZSL : ZstdSeekableOk ZS} {CDL : StreamCDCOk CD} {HOL : HashOrderOk HO}.
Context {WL : CapnpWireOk W} {ODL : OciDirOk OD}.

Abbreviation Img := (Image oci_index).

(** The metadata with the new layer on top. *)
Definition stack_rootfs (r : Rootfs) (l : list Inode) (vd : VerityData) : Rootfs :=
  mkRootfs (insert_layer (rf_metadatas r) l) (vd ∪ rf_fs_verity_data r) (rf_manifest_version r).

(** A delta of [rootfs] over the tag [base], opened as [pfs] with the metadata [r], published under
    [tag]: the assumptions of a first build, a base that can be searched, and a layer that the base
    does not have already. *)
Record next_build (C : Compression) (U : bytes -> Prop) (rootfs : Path) (img0 img img1 : Img) (tag base : bytes)
    (man man1 : ImageManifest) (pfs : PuzzleFS) (r : Rootfs) (next0 : N) (b : Build) (l : list Inode) (vd : VerityData)
    (buf : bytes) : Prop := {
  nb_compression : C = Noop \/ C = Zstd;
  nb_host : host_consistent;
  nb_manifest : get_empty_manifest img0 = Ok (img, man);
  nb_open : PuzzleFS_open img base None = Ok pfs;
  nb_base : represents (pfs_rootfs pfs) r;
  nb_searchable : searchable r;
  nb_version : rf_manifest_version r = PUZZLEFS_IMAGE_MANIFEST_VERSION;
  nb_first : first_number (Some pfs) = Ok next0;
  nb_scan : scan_tree rootfs (Some pfs) = Ok b;
  nb_count : (next0 + entry_count (walkdir_filter_entry (walker rootfs) keep_dirs) < 2 ^ 64)%N;
  nb_healthy : healthy U img;
  nb_chunks : Forall (fun c => match c with Ok c => U (stored_form C (cd_data c)).1 | _ => True end)
                (stream_cdc (b_fs_stream b) MIN_CHUNK_SIZE AVG_CHUNK_SIZE MAX_CHUNK_SIZE);
  nb_delta : build_delta C rootfs img (Some pfs) ∅ man = Ok (img1, l, vd, man1);
  nb_new : l ∉ rf_metadatas r;
  nb_limits : in_limits l (vd ∪ rf_fs_verity_data r) /\ (len (rf_metadatas r) + 1 < 2 ^ u32_bits)%N;
  nb_written : serialize_metadata (stack_rootfs r l vd) = Ok buf;
  nb_buf : (len buf < 2 ^ 63)%N /\ U buf;
  nb_insert img2 man2 : exists img3 d, oci_insert_manifest img2 man2 (Some tag) = Ok (img3, d)
}.

Lemma stack_layers r l vd : l ∉ rf_metadatas r -> rf_metadatas (stack_rootfs r l vd) = l :: rf_metadatas r.
Proof. intros Hl. cbn. by rewrite insert_layer_elem, bool_decide_eq_false_2. Qed.

Lemma stack_wf r l vd :
  l ∉ rf_metadatas r -> wf_rootfs r -> in_limits l (vd ∪ rf_fs_verity_data r) -> (len (rf_metadatas r) + 1 < 2 ^ u32_bits)%N ->
  Forall digests_wf l -> verity_digests_wf vd -> wf_rootfs (stack_rootfs r l vd).
Proof.
  intros Hnew (Hn & Hls & Hv) Hlim Hcount Hd Hvd.
  assert (wf_rootfs (mkRootfs [l] (vd ∪ rf_fs_verity_data r) 0)) as (_ & Hl & Hv').
  { apply in_limits_wf; [done|done|]. apply map_Forall_union_2; [done|]. by destruct Hv. }
  split; [|split; [|done]].
  - rewrite stack_layers by done. unfold len in *. cbn [length]. lia.
  - rewrite stack_layers by done. apply Forall_cons in Hl as [? _]. by constructor.
Qed.

(** The delta opens, and its lookups are those of the tree. *)
Lemma next_build_image C U rootfs dirs img0 img img1 tag base man man1 pfs r next0 b l vd buf :
  next_build C U rootfs img0 img img1 tag base man man1 pfs r next0 b l vd buf -> host_tree rootfs dirs ->
  no_collisions (Some pfs) rootfs dirs next0 ->
  exists desc img3 pfs', add_rootfs_delta C rootfs img0 tag base = Ok (desc, img3) /\
    PuzzleFS_open img3 tag None = Ok pfs' /\ pfs_verity_data pfs' = None /\
    delta_of_tree (lost_of (Some pfs) rootfs) rootfs pfs' /\
    ((forall d, d ∈ dirs -> lost_of (Some pfs) rootfs d = []) -> image_of_tree rootfs pfs').
Proof.
  intros [HC Hhost Hman Hopen Hrep Hs Hver Hfirst Hscan Hcount Hh HU Hdelta Hnew [Hlim Hls] Hser [Hlen HUbuf] Hins] HT NC.
  destruct (ht_dir _ _ HT rootfs (ht_root _ _ HT)) as (md & Hmd & Hdir).
  destruct (build_delta_spec C U rootfs img (Some pfs) ∅ man b md HC Hhost Hmd Hdir Hscan Hh HU)
    as (img1' & l' & vd' & man' & Hdelta' & Hh1 & _ & Hfiles).
  rewrite Hdelta in Hdelta'. injection Hdelta' as <- <- <- <-.
  rewrite (ht_walk _ _ HT) in Hcount.
  destruct (scan_tree_records rootfs dirs HT (Some pfs) next0 NC b Hfirst Hcount Hscan) as (whited & ents & Hb & Hents & Hwh).
  pose proof (build_delta_sorted C rootfs (Some pfs) img img1 ∅ vd man man1 l b Hscan (ti_numbered _ _ _ _ _ _ _ Hb) Hdelta) as Hsorted.
  destruct (build_delta_digests _ _ _ _ _ _ _ _ _ _ _ Hmd Hdir (map_Forall_empty _) Hdelta) as [Hdw Hvw].
  pose proof (stack_wf r l vd Hnew (proj1 Hs) Hlim Hls Hdw Hvw) as Hwf.
  destruct (delta_opens C U rootfs img0 img img1 tag base man man1 pfs r l vd buf Hman Hopen Hrep Hver (proj1 Hs) Hdelta Hwf Hser Hlen Hh1 HUbuf Hins)
    as (desc & img3 & pfs' & Hadd & Hopen' & Hrep' & Hoci & Hvd & Hsub).
  assert (searchable (stack_rootfs r l vd)) as Hs'.
  { split; [done|]. rewrite stack_layers by done. constructor; [done|]. apply Hs. }
  pose proof (fun i => find_in_top_layer pfs' _ l _ i Hrep' Hs' (stack_layers r l vd Hnew)) as Hfind.
  destruct (build_delta_layer _ _ _ _ _ _ _ _ _ _ _ Hscan Hdelta) as (Hwht & Hdirs & Hothers).
  assert (forall i, i ∈ l -> i_mode i ≠ Mode_Wht -> PuzzleFS_find_inode pfs' (i_ino i) = Ok i) as Hf1.
  { intros i Hi Hm. rewrite (Hfind i Hi). by destruct (i_mode i). }
  assert (forall n, new_whiteout n ∈ l -> PuzzleFS_find_inode pfs' n = Err (from_errno ENOENT)) as Hf2.
  { intros n Hn. exact (Hfind _ Hn). }
  assert (forall f, f ∈ b_files b -> file_in_layer b (pfs_oci pfs') l f) as Hf3.
  { intros f Hf. destruct (Hfiles f Hf) as (p & data & chunks & Hst & Hp & Hd & Ha & Hsmall & Hin & Hc).
    exists p, data, chunks. do 6 (split; [done|]). rewrite Hoci. by eapply file_content_mono. }
  exists desc, img3, pfs'. do 3 (split; [done|]). split; [by eapply lookups_delta|by eapply lookups_exact].
Qed.

(** C3: the image after a delta is the tree as it is now.  Add a delta of a directory tree to a base
    image: the build succeeds, the new tag opens, and looking up any path gives what the host has at
    that path now, whatever the base image had there: the inode has the owner, permission bits,
    extended attributes and link target of the host file, reading a regular file returns the host's
    bytes, a directory has the names of the host directory in sorted order, preceded by entries for
    names that are gone, which cannot be found; a path the host does not have is not found or is an
    [ENOENT] error; and two paths have the same number exactly if they are links to one file.  If
    nothing has been removed since the base image, the directories are exact.  Besides the
    assumptions on the environment, the numbers taken over from the base image must not collide
    ([no_collisions]), as they can when hard links are removed, and the new layer must not be equal to
    a layer of the base image ([nb_new]): the builder skips such a layer, so that going back to an
    older state over a base of several layers leaves the newer state visible. *)
Theorem delta_open_tree (C : Compression) (U : bytes -> Prop) (rootfs : Path) (dirs : list Path) (img0 img img1 : Img)
    (tag base : bytes) (man man1 : ImageManifest) (pfs : PuzzleFS) (r : Rootfs) (next0 : N) (b : Build) (l : list Inode)
    (vd : VerityData) (buf : bytes) :
  next_build C U rootfs img0 img img1 tag base man man1 pfs r next0 b l vd buf -> host_tree rootfs dirs ->
  no_collisions (Some pfs) rootfs dirs next0 ->
  exists desc img3 pfs', add_rootfs_delta C rootfs img0 tag base = Ok (desc, img3) /\
    PuzzleFS_open img3 tag None = Ok pfs' /\ delta_of_tree (lost_of (Some pfs) rootfs) rootfs pfs' /\
    ((forall d, d ∈ dirs -> lost_of (Some pfs) rootfs d = []) -> image_of_tree rootfs pfs').
Proof.
  intros HN HT NC.
  destruct (next_build_image _ _ _ _ _ _ _ _ _ _ _ _ _ _ _ _ _ _ HN HT NC) as (desc & img3 & pfs' & ? & ? & _ & ? & ?). eauto 10.
Qed.

End delta_image.
