(* ===== verification/DeltaExtract.v ===== *)
(** A delta in which names were removed since the base image cannot be extracted, and the directories
    that had them cannot be listed. *)

From S2P Require Import Prelude Errors RustStd Capnp Format Digest InodeTable Compression Oci Reader Walk Fuse Extractor ExtractStale FsStream Chunks Builder BuildFacts BuildEnd BuildType BuildTree BuildImage ImageTree DeltaImage.

Section delta_extract.
Context {P : Profile} {R : OsRead} {ZS : ZstdSeekable} {NS : NixStat}.
Context {H : Hex} {SH : Sha256} {V : FsVerity} {D : OciDigest} {OD : OciDir} {W : CapnpWire}.
Context {F : HostFs} {CD : StreamCDC} {WD : WalkDir} {HO : HashOrder} {T : TargetFs} {RD : ReplyDirectory} {OF : OFlags}.
Context {SL : Sha256Ok SH} {HL : HexOk H} {VL : FsVerityOk V} {DL : OciDigestOk D}.
Context {RF : OsReadFull R} {ZSL : ZstdSeekableOk ZS} {CDL : StreamCDCOk CD} {HOL : HashOrderOk HO}.
Context {WL : CapnpWireOk W} {ODL : OciDirOk OD}.

Abbreviation Img := (Image oci_index).

(** What a lookup finds is filed under its number. *)
Lemma lookup_filed pfs names inode :
  PuzzleFS_lookup pfs (image_path names) = Ok (Some inode) -> PuzzleFS_find_inode pfs (i_ino inode) = Ok inode.
Proof. intros [n Hn]%lookup_found. by rewrite (RootfsReader_find_inode_number _ _ _ Hn). Qed.

(** The entries of a directory that has lost a name begin with one that names nothing. *)
Lemma delta_stale_entry rootfs dirs existing pfs names p :
  host_tree rootfs dirs -> delta_of_tree (lost_of existing rootfs) rootfs pfs -> host_lookup rootfs names = Some p -> p ∈ dirs ->
  lost_of existing rootfs p ≠ [] ->
  exists inode dl e rest, PuzzleFS_lookup pfs (image_path names) = Ok (Some inode) /\ i_mode inode = Mode_Dir dl /\
    dl_entries dl = e :: rest /\ PuzzleFS_find_inode pfs (de_ino e) = Err (from_errno ENOENT).
Proof.
  intros HT Hd Hl Hp Hlost. pose proof (do_lookup _ _ _ Hd names) as Hlook. rewrite Hl in Hlook.
  destruct Hlook as (inode & Hlook & md & add & Hmd & _ & _ & Hcase).
  destruct (ht_dir _ _ HT p Hp) as (md' & Hmd' & Hdir). assert (md' = md) as -> by congruence. rewrite Hdir in Hcase.
  destruct Hcase as (ns & stale & entries & _ & Hm & _ & Hsame & Hall).
  destruct (lost_of existing rootfs p) as [|e0 lost]; [done|]. assert (e0 ∈ stale) as Hin by (apply Hsame; by left).
  destruct stale as [|e stale]; [by apply not_elem_of_nil in Hin|]. apply Forall_cons in Hall as [[_ Hf] _].
  exists inode, (mkDirList false ((e :: stale) ++ entries)), e, (stale ++ entries). done.
Qed.

(** C28: a delta in which a name was removed cannot be extracted or listed.  If a directory of the tree
    has lost a name since the base image, the delta is built and published and the tag opens, but
    extracting it fails, whatever the target, because the walk stops at the entry that stands for the
    removed name; and the directory, which can be looked up, answers [readdir] with [ENOENT].  The
    numbers taken over from the base image must not collide ([no_collisions]): when the removed name
    was one of several hard links, the number of the whiteout is also that of the remaining file.  And
    the layer must be new to the base image ([nb_new]). *)
Theorem delta_removed_names (C : Compression) (U : bytes -> Prop) (rootfs : Path) (dirs : list Path) (img0 img img1 : Img)
    (tag base : bytes) (man man1 : ImageManifest) (pfs : PuzzleFS) (r : Rootfs) (next0 : N) (b : Build) (l : list Inode)
    (vd : VerityData) (buf : bytes) (names : list bytes) (p : Path) :
  next_build C U rootfs img0 img img1 tag base man man1 pfs r next0 b l vd buf -> host_tree rootfs dirs ->
  no_collisions (Some pfs) rootfs dirs next0 ->
  host_lookup rootfs names = Some p -> p ∈ dirs -> lost_of (Some pfs) rootfs p ≠ [] ->
  exists desc img3 pfs' inode, add_rootfs_delta C rootfs img0 tag base = Ok (desc, img3) /\
    PuzzleFS_open img3 tag None = Ok pfs' /\
    (forall fuel dir st, (extract_rootfs fuel img3 tag dir st).2 ≠ Ok ()) /\
    PuzzleFS_lookup pfs' (image_path names) = Ok (Some inode) /\
    handle pfs' (Req_readdir (i_ino inode) 0) = Ok (ReplyError (errno_code ENOENT)).
Proof.
  intros HN HT NC Hl Hp Hlost.
  destruct (next_build_image _ _ _ _ _ _ _ _ _ _ _ _ _ _ _ _ _ _ HN HT NC) as (desc & img3 & pfs' & Hadd & Hopen & _ & Hd & _).
  destruct (delta_stale_entry _ _ _ _ _ _ HT Hd Hl Hp Hlost) as (inode & dl & e & rest & Hlook & Hm & He & Hf).
  exists desc, img3, pfs', inode. split_and!; try done.
  - intros fuel dir st. eapply extract_stale_fails; [done..| |done]. rewrite He. by left.
  - cbn [handle]. unfold fs_readdir, Fuse_readdir. rewrite (lookup_filed _ _ _ Hlook). bsimpl. unfold dir_entries. rewrite Hm. bsimpl.
    cbv zeta. rewrite Z.mod_0_l by lia. change (Z.to_nat 0) with 0. rewrite drop_0, He. cbn [readdir_loop]. by rewrite Hf.
Qed.

End delta_extract.
