(* ===== verification/DeltaBase.v ===== *)
(** When the numbers a delta takes over from its base image cannot collide: a base image in which no
    file has two names. *)

From S2P Require Import Prelude Errors RustStd Capnp Format Digest InodeTable Compression Oci Reader Walk FsStream Chunks Builder BuildFacts BuildEnd Delta BuildTree BuildType BuildImage ImageTree DeltaImage.

Section delta_base.
Context {P : Profile} {R : OsRead} {ZS : ZstdSeekable} {NS : NixStat}.
Context {H : Hex} {SH : Sha256} {V : FsVerity} {D : OciDigest} {OD : OciDir} {W : CapnpWire}.

(** An image without hard links: a number has one path, and every entry of a directory that can be
    reached leads somewhere. *)
Record link_free (pfs : PuzzleFS) : Prop := {
  lf_number names names' i i' :
    PuzzleFS_lookup pfs (image_path names) = Ok (Some i) -> PuzzleFS_lookup pfs (image_path names') = Ok (Some i') ->
    i_ino i = i_ino i' -> names = names';
  lf_names names i dl : PuzzleFS_lookup pfs (image_path names) = Ok (Some i) -> i_mode i = Mode_Dir dl ->
    NoDup (de_name <$> dl_entries dl);
  lf_child names i dl e : PuzzleFS_lookup pfs (image_path names) = Ok (Some i) -> i_mode i = Mode_Dir dl -> e ∈ dl_entries dl ->
    exists child, PuzzleFS_find_inode pfs (de_ino e) = Ok child /\
      PuzzleFS_lookup pfs (image_path (names ++ [de_name e])) = Ok (Some child)
}.

(** No file of the tree has two names. *)
Definition without_links {F : HostFs} (rootfs : Path) : Prop :=
  forall names names' p q mdp mdq, host_lookup rootfs names = Some p -> host_lookup rootfs names' = Some q ->
    symlink_metadata p = Ok mdp -> symlink_metadata q = Ok mdq -> md_ino mdp = md_ino mdq -> names = names'.

(** The image of a tree without hard links is one. *)
Lemma image_link_free {F0 : HostFs} {W0 : WalkDir} rootfs dirs pfs :
  host_tree rootfs dirs -> image_of_tree rootfs pfs -> without_links rootfs -> link_free pfs.
Proof.
  intros HT HI Hno. split.
  - intros names names' i i' Hl Hl' Hino.
    destruct (image_host rootfs pfs HI _ _ Hl) as (p & Hp & mdp & _ & Hmdp & _).
    destruct (image_host rootfs pfs HI _ _ Hl') as (q & Hq & mdq & _ & Hmdq & _).
    eapply Hno; eauto. by eapply (io_links _ _ HI names names').
  - intros names i dl Hl Hm. by destruct (image_addressable rootfs dirs HT pfs HI names i dl Hl Hm).
  - intros names i dl e. by apply (child_found rootfs dirs HT pfs HI).
Qed.

(** ** Numbers in the range of the base image *)

Lemma visible_in_layers layers n i : visible layers n = Some i -> exists l, l ∈ layers /\ i ∈ l /\ i_ino i = n.
Proof.
  induction layers as [|l layers IH]; [done|]. rewrite visible_cons.
  destruct (layer_map l !! n) as [i'|] eqn:Hi.
  - intros Heq. assert (i' = i) as -> by (by destruct (i_mode i'); simplify_eq).
    unfold layer_map in Hi. apply elem_of_list_to_map_2, list_elem_of_fmap in Hi as (i'' & [= -> ->] & Hin).
    exists l. split; [by left|done].
  - intros (l' & Hl' & ?)%IH. exists l'. split; [by right|done].
Qed.

Lemma found_below_max pfs r m n i :
  represents (pfs_rootfs pfs) r -> searchable r -> PuzzleFS_max_inode pfs = Ok m ->
  PuzzleFS_find_inode pfs n = Ok i -> i_ino i = n /\ (n <= m)%N /\ (1 <= m)%N.
Proof.
  intros Hrep Hs Hmax Hf. pose proof (RootfsReader_find_inode_number _ _ _ Hf) as Hn.
  destruct (RootfsReader_max_inode_spec _ _ Hrep Hs) as (m' & Hm' & H1 & Hall & _).
  assert (m' = m) as -> by (unfold PuzzleFS_max_inode in Hmax; congruence).
  unfold PuzzleFS_find_inode in Hf. rewrite (RootfsReader_find_inode_spec _ _ _ Hrep Hs) in Hf.
  destruct (visible (rf_metadatas r) n) as [i'|] eqn:Hv; [|done]. injection Hf as ->.
  apply visible_in_layers in Hv as (l & Hl & Hi & _). specialize (Hall l i Hl Hi). split; [done|]. split; [|done]. lia.
Qed.

(** ** The tree and the base image *)

(** Every directory but the root is listed in another one. *)
Definition dirs_listed {F : HostFs} (rootfs : Path) (dirs : list Path) : Prop :=
  forall p, p ∈ dirs -> p ≠ rootfs ->
    exists d names name, d ∈ dirs /\ sorted_dirents d = Ok names /\ name ∈ names /\ p = path_join d name.

Section base.
Context {F : HostFs} {WD : WalkDir}.
Context (rootfs : Path) (dirs : list Path) (HT : host_tree rootfs dirs).
Context (Hlisted : dirs_listed rootfs dirs).
Context (pfs : PuzzleFS) (LF : link_free pfs).
Context (r : Rootfs) (Hrep : represents (pfs_rootfs pfs) r) (Hs : searchable r).
Context (m : N) (Hmax : PuzzleFS_max_inode pfs = Ok m).

Lemma join_names d names name :
  d ∈ dirs -> sorted_dirents d = Ok names -> name ∈ names -> path_join d name = d ++ [Normal name].
Proof.
  intros Hd Hn Hin. destruct (ht_names _ _ HT d names Hd Hn) as [_ Hv]. rewrite Forall_forall in Hv.
  apply path_join_name; [|by apply Hv]. intros ->. destruct (ht_below _ _ HT _ Hd) as (rel & Heq).
  symmetry in Heq. apply app_nil in Heq as [Heq _]. by apply (ht_not_empty _ _ HT).
Qed.

Lemma dir_names d : d ∈ dirs -> exists names, d = rootfs ++ (Normal <$> names).
Proof.
  remember (length d) as k eqn:Hk. revert d Hk. induction (lt_wf k) as [k _ IH]. intros d -> Hd.
  destruct (decide (d = rootfs)) as [->|Hne]; [exists []; cbn; by rewrite app_nil_r|].
  destruct (Hlisted d Hd Hne) as (d' & names & name & Hd' & Hn & Hin & ->).
  rewrite (join_names d' names name) in * by done.
  destruct (IH (length d')) with (d := d') as (names' & ->); [rewrite length_app; cbn; lia|done|done|].
  exists (names' ++ [name]). by rewrite fmap_app, app_assoc.
Qed.

(** Every path of the tree but the root is an entry of a directory. *)
Lemma tree_entry p :
  tree_path dirs p -> p ≠ rootfs ->
  exists d dnames names name, d ∈ dirs /\ d = rootfs ++ (Normal <$> dnames) /\ sorted_dirents d = Ok names /\ name ∈ names /\
    p = rootfs ++ (Normal <$> (dnames ++ [name])).
Proof.
  intros Htp Hr. assert (exists d names name, d ∈ dirs /\ sorted_dirents d = Ok names /\ name ∈ names /\ p = path_join d name)
    as (d & names & name & Hd & Hn & Hin & ->) by (destruct Htp as [Hp|?]; [by apply Hlisted|done]).
  destruct (dir_names d Hd) as (dnames & Heq). exists d, dnames, names, name. do 4 (split; [done|]).
  rewrite (join_names d names name) by done. by rewrite Heq, fmap_app, app_assoc.
Qed.

Lemma base_inode_names names :
  base_inode (Some pfs) rootfs (rootfs ++ (Normal <$> names))
  = match PuzzleFS_lookup pfs (image_path names) with Ok r => r | _ => None end.
Proof.
  unfold base_inode, rootfs_relative. rewrite strip_prefix_app. cbn [unwrap mbind outcome_bind].
  assert (path_join_path [RootDir] (Normal <$> names) = image_path names) as -> by by destruct names. done.
Qed.

Lemma base_number_lookup names n :
  base_number (Some pfs) rootfs (rootfs ++ (Normal <$> names)) = Some n ->
  exists i, PuzzleFS_lookup pfs (image_path names) = Ok (Some i) /\ i_ino i = n.
Proof.
  unfold base_number. rewrite base_inode_names. destruct (PuzzleFS_lookup pfs (image_path names)) as [[i|]| | |]; try done.
  intros [= <-]. eauto.
Qed.

(** A name that is gone: the base image has it, the tree does not. *)
Lemma lost_path d e :
  d ∈ dirs -> e ∈ lost_of (Some pfs) rootfs d ->
  exists dnames child names, d = rootfs ++ (Normal <$> dnames) /\ sorted_dirents d = Ok names /\ de_name e ∉ names /\
    PuzzleFS_lookup pfs (image_path (dnames ++ [de_name e])) = Ok (Some child) /\ i_ino child = de_ino e.
Proof.
  intros Hd He. unfold lost_of in He. destruct (sorted_dirents d) as [names| | |] eqn:Hn; try (by apply not_elem_of_nil in He).
  apply list_elem_of_filter in He as [Hgone He]. destruct (dir_names d Hd) as (dnames & Heq).
  rewrite Heq, base_inode_names in He.
  destruct (PuzzleFS_lookup pfs (image_path dnames)) as [[i|]| | |] eqn:Hl; try (by apply not_elem_of_nil in He).
  cbn [base_entries] in He. destruct (i_mode i) as [| | |dl| | | | |] eqn:Hm; try (by apply not_elem_of_nil in He).
  destruct (lf_child _ LF dnames i dl e Hl Hm He) as (child & Hf & Hc). exists dnames, child, names.
  do 4 (split; [done|]). by apply (RootfsReader_find_inode_number _ _ _ Hf).
Qed.

Lemma number_range names i :
  PuzzleFS_lookup pfs (image_path names) = Ok (Some i) -> names ≠ [] -> (i_ino i ≠ 1 /\ i_ino i < m + 1)%N.
Proof.
  intros Hl Hne. destruct (lookup_found _ _ _ Hl) as (n & Hf).
  destruct (found_below_max _ _ _ _ _ Hrep Hs Hmax Hf) as (Hi & Hle & _).
  assert (exists root, PuzzleFS_lookup pfs (image_path []) = Ok (Some root) /\ PuzzleFS_find_inode pfs 1 = Ok root) as (root & Hlr & Hr).
  { unfold PuzzleFS_lookup, image_path in Hl |- *. apply bind_ok_inv in Hl as (root & Hroot & _). exists root. by rewrite Hroot. }
  pose proof (RootfsReader_find_inode_number _ _ _ Hr) as Hr1.
  split; [|lia]. intros Heq. apply Hne, (lf_number _ LF names [] i root Hl Hlr). congruence.
Qed.

Lemma lost_nodup d : d ∈ dirs -> NoDup (de_ino <$> lost_of (Some pfs) rootfs d).
Proof.
  intros Hd. apply NoDup_fmap_2_strong.
  - intros e e' He He' Heq.
    destruct (lost_path d e Hd He) as (dn & child & names & Hdn & _ & _ & Hl & Hi).
    destruct (lost_path d e' Hd He') as (dn' & child' & names' & _ & _ & _ & Hl' & Hi').
    pose proof (lf_number _ LF _ _ _ _ Hl Hl' ltac:(congruence)) as Heqn. apply app_inj_2 in Heqn as [_ Heqe]; [|done].
    injection Heqe as Hname. destruct e, e'. cbn in *. congruence.
  - unfold lost_of. destruct (sorted_dirents d); try constructor. apply NoDup_filter.
    destruct (dir_names d Hd) as (dn & ->). rewrite base_inode_names.
    destruct (PuzzleFS_lookup pfs (image_path dn)) as [[i|]| | |] eqn:Hl; try constructor.
    cbn [base_entries]. destruct (i_mode i) as [| | |dl| | | | |] eqn:Hm; try constructor.
    by eapply NoDup_fmap_1, lf_names.
Qed.

Lemma link_free_no_collisions : no_collisions (Some pfs) rootfs dirs (m + 1).
Proof.
  assert (forall names names', rootfs ++ (Normal <$> names) = rootfs ++ (Normal <$> names') -> names = names') as Hinj.
  { intros names names' Heq%(inj (app rootfs)). by apply Normal_fmap_inj. }
  split.
  - destruct (RootfsReader_max_inode_spec _ _ Hrep Hs) as (m' & Hm' & H1 & _).
    assert (m' = m) as -> by (unfold PuzzleFS_max_inode in Hmax; congruence). lia.
  - intros p n Hp Hr. destruct (tree_entry p Hp Hr) as (d & dn & names & name & _ & _ & _ & _ & ->).
    intros (i & Hl & <-)%base_number_lookup. apply (number_range _ _ Hl). by destruct dn.
  - intros p q n mdp mdq Hp Hq Hpr Hqr.
    destruct (tree_entry p Hp Hpr) as (d & dn & names & name & _ & _ & _ & _ & ->).
    destruct (tree_entry q Hq Hqr) as (d' & dn' & names' & name' & _ & _ & _ & _ & ->).
    intros (i & Hl & Hi)%base_number_lookup (i' & Hl' & Hi')%base_number_lookup.
    rewrite (lf_number _ LF _ _ i i' Hl Hl' ltac:(congruence)). congruence.
  - intros d e Hd He. destruct (lost_path d e Hd He) as (dn & child & names & _ & _ & _ & Hl & <-).
    apply (number_range _ _ Hl). by destruct dn.
  - apply lost_nodup.
  - intros d d' e e' Hd Hd' He He' Heq.
    destruct (lost_path d e Hd He) as (dn & child & names & -> & _ & _ & Hl & Hi).
    destruct (lost_path d' e' Hd' He') as (dn' & child' & names' & -> & _ & _ & Hl' & Hi').
    pose proof (lf_number _ LF _ _ _ _ Hl Hl' ltac:(congruence)) as Heqn. by apply app_inj_2 in Heqn as [-> _].
  - intros d e p Hd He Hp Hr.
    destruct (lost_path d e Hd He) as (dn & child & names & -> & Hn & Hgone & Hl & Hi).
    destruct (tree_entry p Hp Hr) as (d' & dn' & names' & name & Hd' & -> & Hn' & Hin & ->).
    intros (i & Hl' & Hi')%base_number_lookup.
    pose proof (lf_number _ LF _ _ _ _ Hl Hl' ltac:(congruence)) as Heqn. apply app_inj_2 in Heqn as [<- Heqe]; [|done]. injection Heqe as <-.
    congruence.
Qed.

End base.

(** Numbers taken over from the image of a tree in which no file had two names do not collide,
    whatever the new tree is. *)
Lemma unlinked_no_collisions {F0 : HostFs} {W0 : WalkDir} {F : HostFs} {WD : WalkDir}
    (rootfs0 rootfs : Path) (dirs0 dirs : list Path) (pfs : PuzzleFS) (r : Rootfs) (m : N) :
  host_tree (F := F0) (WD := W0) rootfs0 dirs0 -> image_of_tree (F := F0) rootfs0 pfs -> without_links (F := F0) rootfs0 ->
  represents (pfs_rootfs pfs) r -> searchable r -> PuzzleFS_max_inode pfs = Ok m ->
  host_tree (F := F) (WD := WD) rootfs dirs -> dirs_listed (F := F) rootfs dirs ->
  no_collisions (F := F) (Some pfs) rootfs dirs (m + 1).
Proof.
  intros HT0 HI Hno Hrep Hs Hmax HT Hlisted. apply (link_free_no_collisions rootfs dirs HT Hlisted pfs) with (r := r); try done.
  apply (image_link_free (F0 := F0) (W0 := W0) rootfs0 dirs0 pfs HT0 HI Hno).
Qed.

Context {F0 : HostFs} {W0 : WalkDir}.
Context {F : HostFs} {CD : StreamCDC} {WD : WalkDir} {HO : HashOrder}.
Context {SL : Sha256Ok SH} {HL : HexOk H} {VL : FsVerityOk V} {DL : OciDigestOk D}.
Context {RF : OsReadFull R} {ZSL : ZstdSeekableOk ZS} {CDL : StreamCDCOk CD} {HOL : HashOrderOk HO}.
Context {WL : CapnpWireOk W} {ODL : OciDirOk OD}.

(** C29: a delta over an image without hard links is the tree as it is now.  Let the base image
    be that of an earlier tree, on whatever host, in which no file had two names.  Then whatever the
    new tree is, with files changed, added, removed, replaced or linked in any way, the delta builds,
    the new tag opens, and looking up any path gives what the host has there now; nothing that is
    still on the host is hidden by what has been removed.  The inode numbers must not be used up, and
    the new layer must not be equal to a layer of the base image ([nb_new]), because the builder skips
    such a layer. *)
Theorem delta_over_unlinked_base (C : Compression) (U : bytes -> Prop)
    (rootfs0 rootfs : Path) (dirs0 dirs : list Path) (img0 img img1 : Image oci_index) (tag base : bytes)
    (man man1 : ImageManifest) (pfs : PuzzleFS) (r : Rootfs) (next0 m : N) (b : Build) (l : list Inode)
    (vd : VerityData) (buf : bytes) :
  host_tree (F := F0) (WD := W0) rootfs0 dirs0 -> image_of_tree (F := F0) rootfs0 pfs -> without_links (F := F0) rootfs0 ->
  next_build C U rootfs img0 img img1 tag base man man1 pfs r next0 b l vd buf -> host_tree rootfs dirs ->
  dirs_listed rootfs dirs -> PuzzleFS_max_inode pfs = Ok m -> (m + 1 < 2 ^ 64)%N ->
  exists desc img3 pfs', add_rootfs_delta C rootfs img0 tag base = Ok (desc, img3) /\
    PuzzleFS_open img3 tag None = Ok pfs' /\ delta_of_tree (lost_of (Some pfs) rootfs) rootfs pfs' /\
    ((forall d, d ∈ dirs -> lost_of (Some pfs) rootfs d = []) -> image_of_tree rootfs pfs').
Proof.
  intros HT0 HI Hno HN HT Hlisted Hm Hmax. pose proof HN as [_ _ _ _ Hrep Hs _ Hfirst _ _ _ _ _ _ _ _ _ _].
  unfold first_number in Hfirst. rewrite Hm in Hfirst. cbn [mbind outcome_bind] in Hfirst.
  rewrite add_w_ok in Hfirst by word_lia. injection Hfirst as <-.
  destruct (next_build_image _ _ _ _ _ _ _ _ _ _ _ _ _ _ _ _ _ _ HN HT
              (unlinked_no_collisions _ _ _ _ _ _ _ HT0 HI Hno Hrep Hs Hm HT Hlisted))
    as (desc & img3 & pfs' & ? & ? & _ & ? & ?). eauto 10.
Qed.

End delta_base.
