(* ===== verification/Main.v ===== *)
(** The command line: [parse_oci_dir] and the [build], [extract] and [enable-fs-verity] commands
    of [exe/src/main.rs], and the mount options of [reader.rs].  The commands compose the
    operations of the other components. *)

From S2P Require Import Prelude Errors RustStd Capnp Format Digest InodeTable Compression Oci Layout Reader FsStream Chunks Verity Walk Extractor Builder Partial.

(** ** [<oci_dir>:<tag>] *)

(** [anyhow::Error] of the commands: the errors wrapped, and the messages of [bail!]. *)
Inductive cli_error :=
| BadOciDir
| CliWire (e : WireFormatError)
| CliExtract (e : any_error)
| CliIo (e : io_error)
| CliHex (e : FromHexError)
| NotRoot
| MountpointNotFound
| UnknownMountType (ty mountpoint : bytes)
| FusermountStatus (code : option Z).

Definition parse_oci_dir (oci_dir : bytes) : outcome cli_error (bytes * bytes) :=
  match str_split_terminator colon oci_dir with
  | [c0; c1] => Ok (c0, c1)
  | _ => Err BadOciDir
  end.

Lemma str_split_inv sep s p : str_split sep s = [p] -> s = p /\ sep ∉ p.
Proof.
  intros Hs. split.
  - by rewrite <-(str_join_split sep s), Hs.
  - pose proof (str_split_sound sep s) as Hsd. rewrite Hs in Hsd. by inversion Hsd.
Qed.

Lemma str_split_cons_inv sep s p q ps :
  str_split sep s = p :: q :: ps -> exists s', s = p ++ sep :: s' /\ sep ∉ p /\ str_split sep s' = q :: ps.
Proof.
  revert p. induction s as [|c s IH]; intros p; cbn [str_split]; [done|]. case_decide as Hc.
  - intros [= <- Hs]. subst c. exists s. split; [done|]. split; [set_solver|done].
  - destruct (str_split sep s) as [|p' ps'] eqn:Hs; [done|]. intros [= <- ->].
    destruct (IH p' eq_refl) as (s' & -> & Hn & Hs'). exists s'. split; [done|]. split; [set_solver|done].
Qed.

(** What the tools accept as an image name.  [parse_oci_dir] succeeds exactly on
    [<dir>:<tag>] where neither part contains a colon, with one more trailing colon allowed
    (and needed when the tag is empty); everything else, a missing tag or a third part
    included, is an error. *)
Theorem parse_oci_dir_spec (s d t : bytes) :
  parse_oci_dir s = Ok (d, t) <->
  (colon ∉ d /\ colon ∉ t /\ (s = d ++ colon :: t /\ t ≠ [] \/ s = d ++ colon :: t ++ [colon])).
Proof.
  unfold parse_oci_dir, str_split_terminator. split.
  - intros Hp.
    destruct (str_split colon s) as [|a [|b [|c ps]]] eqn:Hs.
    + by apply str_split_nonempty in Hs.
    + cbn in Hp. by destruct a.
    + destruct (str_split_cons_inv _ _ _ _ _ Hs) as (s1 & -> & Ha & Hs1).
      apply str_split_inv in Hs1 as [-> Hb]. cbn in Hp. destruct b as [|x b]; [done|].
      injection Hp as <- <-. split; [done|]. split; [done|]. by left.
    + destruct (str_split_cons_inv _ _ _ _ _ Hs) as (s1 & -> & Ha & Hs1).
      destruct (str_split_cons_inv _ _ _ _ _ Hs1) as (s2 & -> & Hb & Hs2).
      destruct ps as [|e ps].
      * apply str_split_inv in Hs2 as [-> Hc]. cbn in Hp. destruct c; [|done]. injection Hp as <- <-.
        split; [done|]. split; [done|]. by right.
      * exfalso. destruct (last (a :: b :: c :: e :: ps)) as [[|x l]|]; [|done..].
        destruct ps; cbn in Hp; done.
  - intros (Hd & Ht & [[-> Hne]| ->]).
    + rewrite str_split_app, (str_split_no_sep colon t) by done. cbn. by destruct t.
    + rewrite str_split_app, str_split_app by done. by cbn.
Qed.

(** ** Mount options *)

Inductive MountOption :=
| AutoUnmount | AllowOther | AllowRoot | DefaultPermissions | Dev | NoDev | Suid | NoSuid | RO | RW
| Exec | NoExec | Atime | NoAtime | DirSync | Sync | Async
| FSName (s : bytes) | Subtype (s : bytes) | CUSTOM (s : bytes).

(** The literal patterns of [mount_option_from_str]. *)
Definition literal_options : list (bytes * MountOption) :=
  [(bstr "auto_unmount", AutoUnmount); (bstr "allow_other", AllowOther); (bstr "allow_root", AllowRoot);
   (bstr "default_permissions", DefaultPermissions); (bstr "dev", Dev); (bstr "nodev", NoDev);
   (bstr "suid", Suid); (bstr "nosuid", NoSuid); (bstr "ro", RO); (bstr "rw", RW); (bstr "exec", Exec);
   (bstr "noexec", NoExec); (bstr "atime", Atime); (bstr "noatime", NoAtime); (bstr "dirsync", DirSync);
   (bstr "sync", Sync); (bstr "async", Async)].

Definition mount_option_from_str (s : bytes) : MountOption :=
  match List.find (fun kv => bool_decide (kv.1 = s)) literal_options with
  | Some (_, o) => o
  | None =>
      if starts_with (bstr "fsname=") s then FSName (drop 7 s)
      else if starts_with (bstr "subtype=") s then Subtype (drop 8 s)
      else CUSTOM s
  end.

(** How an option is written on a command line. *)
Definition option_to_str (o : MountOption) : bytes :=
  match o with
  | FSName s => bstr "fsname=" ++ s
  | Subtype s => bstr "subtype=" ++ s
  | CUSTOM s => s
  | AutoUnmount => bstr "auto_unmount" | AllowOther => bstr "allow_other" | AllowRoot => bstr "allow_root"
  | DefaultPermissions => bstr "default_permissions" | Dev => bstr "dev" | NoDev => bstr "nodev"
  | Suid => bstr "suid" | NoSuid => bstr "nosuid" | RO => bstr "ro" | RW => bstr "rw" | Exec => bstr "exec"
  | NoExec => bstr "noexec" | Atime => bstr "atime" | NoAtime => bstr "noatime" | DirSync => bstr "dirsync"
  | Sync => bstr "sync" | Async => bstr "async"
  end.

Lemma starts_with_app p s : starts_with p s = true -> p ++ drop (length p) s = s.
Proof.
  unfold starts_with. intros Hp%bool_decide_eq_true. rewrite <-Hp at 1. apply take_drop.
Qed.

(** No mount option is lost or changed by parsing: writing the parsed option out again gives
    the text the user passed, for every text; in particular different texts never become the
    same option, and unknown ones are passed on as they are. *)
Theorem mount_option_roundtrip (s : bytes) : option_to_str (mount_option_from_str s) = s.
Proof.
  unfold mount_option_from_str. destruct (List.find _ literal_options) as [[k o]|] eqn:Hf.
  - apply find_some in Hf as [Hin Heq%bool_decide_eq_true]. cbn in Heq. subst k.
    repeat (destruct Hin as [[= <- <-]|Hin]; [reflexivity|]). done.
  - destruct (starts_with (bstr "fsname=") s) eqn:H1; [by apply starts_with_app in H1|].
    destruct (starts_with (bstr "subtype=") s) eqn:H2; [by apply starts_with_app in H2|]. done.
Qed.

(** ** Commands *)

Section commands.
Context {P : Profile} {R : OsRead} {ZS : ZstdSeekable} {NS : NixStat}.
Context {H : Hex} {SH : Sha256} {V : FsVerity} {D : OciDigest} {OD : OciDir} {W : CapnpWire}.
Context {F : HostFs} {CD : StreamCDC} {WD : WalkDir} {HO : HashOrder} {T : TargetFs} {ST : OciStore}.

Abbreviation Img := (Image oci_index).

(** [struct Build] of the command line. *)
Record BuildArgs := mkBuildArgs {
  ba_rootfs : bytes;
  ba_oci_dir : bytes;
  ba_base_layer : option bytes;
  ba_compression : bool
}.

Definition cli {A} (r : Result A) : outcome cli_error A := map_err CliWire r.

(** [SubCommand::Build] on an open image: the image afterwards and the digest that is printed. *)
Definition build_image (b : BuildArgs) (tag : bytes) (image : Img) : outcome cli_error (Img * bytes) :=
  let rootfs := components (ba_rootfs b) in
  new_image ← match ba_base_layer b with
              | Some base_layer =>
                  '(_, image) ← cli (if ba_compression b then add_rootfs_delta Zstd rootfs image tag base_layer
                                     else add_rootfs_delta Noop rootfs image tag base_layer);
                  Ok image
              | None =>
                  '(image, _) ← cli (if ba_compression b then build_initial_rootfs Zstd rootfs image tag
                                     else build_initial_rootfs Noop rootfs image tag);
                  Ok image
              end;
  manifest_fd ← cli (get_image_manifest_fd new_image tag);
  manifest_digest ← cli (get_fs_verity_digest (bf_data manifest_fd));
  Ok (new_image, hex_encode manifest_digest).

(** [SubCommand::Build]: the disk afterwards and the digest that is printed. *)
Definition main_build (b : BuildArgs) (d : disk) : outcome cli_error (disk * bytes) :=
  '(oci_dir, tag) ← parse_oci_dir (ba_oci_dir b);
  let oci_dir := components oci_dir in
  let '(d, image) := Image_new d oci_dir in
  image ← cli image;
  '(new_image, printed) ← build_image b tag image;
  Ok (write_back d oci_dir new_image, printed).

(** The same with the image and the disk as the command leaves them, also when it fails. *)
Definition build_image_kept `{BlobWrite, !OciDirFail} (b : BuildArgs) (tag : bytes) (image : Img) : Img * outcome cli_error bytes :=
  let rootfs := components (ba_rootfs b) in
  let '(new_image, r) :=
    match ba_base_layer b with
    | Some base_layer =>
        if ba_compression b then add_rootfs_delta_kept Zstd rootfs image tag base_layer
        else add_rootfs_delta_kept Noop rootfs image tag base_layer
    | None =>
        if ba_compression b then build_initial_rootfs_kept Zstd rootfs image tag
        else build_initial_rootfs_kept Noop rootfs image tag
    end in
  (new_image, _ ← cli r;
              manifest_fd ← cli (get_image_manifest_fd new_image tag);
              manifest_digest ← cli (get_fs_verity_digest (bf_data manifest_fd));
              Ok (hex_encode manifest_digest)).

Definition main_build_kept `{BlobWrite, !OciDirFail} (b : BuildArgs) (d : disk) : disk * outcome cli_error bytes :=
  match parse_oci_dir (ba_oci_dir b) with
  | Ok (oci_dir, tag) =>
      let oci_dir := components oci_dir in
      let '(d, image) := Image_new d oci_dir in
      match cli image with
      | Ok image => let '(new_image, r) := build_image_kept b tag image in (write_back d oci_dir new_image, r)
      | Err e => (d, Err e)
      | Panic => (d, Panic)
      | Diverged => (d, Diverged)
      end
  | Err e => (d, Err e)
  | Panic => (d, Panic)
  | Diverged => (d, Diverged)
  end.

(** [SubCommand::Extract]. *)
Definition main_extract (fuel : nat) (oci_dir extract_dir : bytes) (d : disk) (st : Extract)
  : Extract * outcome cli_error () :=
  match parse_oci_dir oci_dir with
  | Ok (oci_dir, tag) =>
      match cli (Image_open d (components oci_dir)) with
      | Ok image =>
          let '(st, r) := extract_rootfs fuel image tag (components extract_dir) st in (st, map_err CliExtract r)
      | Err e => (st, Err e)
      | Panic => (st, Panic)
      | Diverged => (st, Diverged)
      end
  | Err e => (st, Err e)
  | Panic => (st, Panic)
  | Diverged => (st, Diverged)
  end.

(** [SubCommand::EnableFsVerity]: the disk afterwards, when an image was opened. *)
Definition main_enable_fs_verity (oci_dir root_hash : bytes) (d : disk) : outcome cli_error (disk * Result ()) :=
  '(oci_dir, tag) ← parse_oci_dir oci_dir;
  oci_dir ← map_err CliIo (disk_canonicalize d oci_dir);
  image ← cli (Image_open d oci_dir);
  let '(image, r) := enable_fs_verity image tag root_hash in
  Ok (write_back d oci_dir image, r).

Context {HL : HexOk H} {VL : FsVerityOk V}.

(** The digest printed by [build] is the one [enable-fs-verity] and [mount -d] expect.  After a
    successful build, the printed text decodes to 32 bytes, and on a host with fs-verity the
    manifest of the tag, sealed and checked against those bytes, is accepted. *)
Theorem build_image_digest_enables (b : BuildArgs) (img0 img : Img) (printed tag name : bytes) (f : BlobFile) :
  build_image b tag img0 = Ok (img, printed) -> image_manifest_digest img tag = Ok name -> img_blobs img !! name = Some f -> bf_verity f = None ->
  verity_supported = true ->
  exists root, hex_decode printed = Ok root /\ len root = SHA256_BLOCK_SIZE /\
    exists img', enable_and_check_verity_for_file img name f root = (img', Ok ()) /\ measured img' name root.
Proof.
  intros Hb Hname Hf Hv Hsup. unfold build_image in Hb. apply bind_ok_inv in Hb as (new & _ & Hb).
  apply bind_ok_inv in Hb as (fd & Hfd & Hb). unfold get_fs_verity_digest, cli in Hb.
  cbn [map_err mbind outcome_bind] in Hb. injection Hb as -> <-. apply map_err_ok_inv in Hfd.
  unfold get_image_manifest_fd in Hfd. rewrite Hname in Hfd. apply map_err_ok_inv in Hfd.
  unfold open_raw_blob in Hfd. rewrite Hf in Hfd. injection Hfd as <-.
  exists (fs_verity_sha256 (bf_data f)). split; [apply hex_decode_encode|]. split; [apply fs_verity_len|].
  unfold enable_and_check_verity_for_file, enable_verity_for_file, fsverity_enable. rewrite Hsup, Hv.
  cbn [negb store_bind]. eexists. split.
  - f_equal. by apply check_fs_verity_ok.
  - eexists. cbn. rewrite lookup_insert_eq. split; [done|]. by split; [|apply fs_verity_len].
Qed.

End commands.
