(* ===== verification/Commands.v ===== *)
(** The commands one after the other: [build] and then [extract], over the image on the disk. *)

From S2P Require Import Prelude Errors RustStd Capnp Format Digest InodeTable Compression Oci Layout Reader Walk Extractor Target ExtractTree ExtractImage FsStream Chunks Verity Builder BuildFacts BuildEnd BuildTree BuildImage Partial History BuildExtract Main.

Section commands.
Context {P : Profile} {R : OsRead} {ZS : ZstdSeekable} {NS : NixStat}.
Context {H : Hex} {SH : Sha256} {V : FsVerity} {D : OciDigest} {OD : OciDir} {W : CapnpWire}.
Context {F : HostFs} {CD : StreamCDC} {WD : WalkDir} {HO : HashOrder} {T : TargetFs} {ST : OciStore}.
Context {SL : Sha256Ok SH} {HL : HexOk H} {VL : FsVerityOk V} {DL : OciDigestOk D}.
Context {RF : OsReadFull R} {ZSL : ZstdSeekableOk ZS} {CDL : StreamCDCOk CD} {HOL : HashOrderOk HO}.
Context {WL : CapnpWireOk W} {ODL : OciDirOk OD} {NSL : NixStatOk NS} {STL : OciStoreOk ST}.
Context (extract_dir : bytes) {TL : TargetFsOk T (components extract_dir)}.

(** The manifest of a tag that has just been published can be opened. *)
Lemma published_manifest C rootfs img tag img' desc :
  build_initial_rootfs C rootfs img tag = Ok (img', desc) -> exists f, get_image_manifest_fd img' tag = Ok f.
Proof.
  unfold build_initial_rootfs. intros ([img1 man1] & _ & Hr)%bind_ok_inv.
  apply bind_ok_inv in Hr as ([[[img2 l] vd] man2] & _ & Hr). apply bind_ok_inv in Hr as (buf & _ & Hr).
  apply bind_ok_inv in Hr as ([[img3 man3] [[d3 v3] c3]] & _ & Hr). apply bind_ok_inv in Hr as ([img4 d4] & Hi & [= <- _]).
  destruct (insert_manifest_ok _ _ _ _ _ Hi) as (_ & _ & Hd & f & Hf). exists f.
  unfold get_image_manifest_fd, image_manifest_digest, open_raw_blob. rewrite Hd. cbn [mbind outcome_bind ok_or].
  by rewrite Hf.
Qed.

Definition chosen (b : BuildArgs) : Compression := if ba_compression b then Zstd else Noop.

Lemma build_image_first b tag img img' desc :
  ba_base_layer b = None -> build_initial_rootfs (chosen b) (components (ba_rootfs b)) img tag = Ok (img', desc) ->
  exists printed, build_image b tag img = Ok (img', printed).
Proof.
  intros Hb Hr. destruct (published_manifest _ _ _ _ _ _ Hr) as (f & Hf). unfold build_image, chosen in *. rewrite Hb.
  replace (if ba_compression b then _ else _) with (Ok (img', desc) : Result _) by (by destruct (ba_compression b)).
  cbn [cli map_err mbind outcome_bind]. rewrite Hf. cbn [cli map_err mbind outcome_bind]. eauto.
Qed.

(** C13: [puzzlefs build] followed by [puzzlefs extract] copies a directory tree.  With an image
    directory that can be made or opened, [build rootfs oci:tag] succeeds, and on the disk it leaves
    [extract oci:tag dir], with the same argument, ends without an error and a copy of the tree below
    an empty or missing [dir]: every file with its kind, data, link target, device number, mode,
    extended attributes and, for a privileged process, owner, and hard links as in the original.  Every
    file of the tree must be one the process can copy ([may_copy]): there are no sockets, there are no
    symbolic links when the process is privileged, and when it is not there are no devices and only
    directories it can write to; files are shorter than 2^62 bytes and have extended attributes that
    may be set on them. *)
Theorem build_extract_commands (b : BuildArgs) (oci_dir tag : bytes) (d0 d1 : disk) (U : bytes -> Prop) (dirs : list Path)
    (img0 img img1 : Image oci_index) (man man1 : ImageManifest) (bd : Build) (l : list Inode) (vd : VerityData)
    (buf : bytes) (t : target) (v0 : TargetTree) :
  ba_base_layer b = None -> parse_oci_dir (ba_oci_dir b) = Ok (oci_dir, tag) ->
  Image_new d0 (components oci_dir) = (d1, Ok img0) ->
  first_build (if ba_compression b then Zstd else Noop) U (components (ba_rootfs b)) img0 img img1 tag man man1 bd l vd buf ->
  host_tree (components (ba_rootfs b)) dirs ->
  (forall names p, host_lookup (components (ba_rootfs b)) names = Some p -> may_copy p = true) ->
  components extract_dir ≠ [] -> hosts (dir := components extract_dir) t v0 ->
  fresh_target (dir := components extract_dir) v0 ->
  exists d2 printed bound, main_build b d0 = Ok (d2, printed) /\
    forall fuel, bound <= fuel ->
      exists st v, main_extract fuel (ba_oci_dir b) extract_dir d2 (mkExtract _ t ∅ []) = (st, Ok ()) /\
        hosts (dir := components extract_dir) (x_target st) v /\
        copied (dir := components extract_dir) (components (ba_rootfs b)) v.
Proof.
  intros Hb Hp Hn HF HT Hmay Hdir Ht Hv0.
  destruct (first_build_extracted _ _ _ _ _ _ _ _ _ _ _ _ _ _ t v0 HF HT Hmay Hdir Ht Hv0) as (img3 & desc & bound & Hbuild & Hx).
  destruct (build_image_first b tag img0 img3 desc Hb Hbuild) as (printed & Hbi).
  exists (write_back d1 (components oci_dir) img3), printed, bound. split.
  - unfold main_build. rewrite Hp. cbn [mbind outcome_bind]. rewrite Hn. cbn [cli map_err mbind outcome_bind]. by rewrite Hbi.
  - intros fuel Hf. destruct (Hx fuel Hf) as (st & v & Hst & Hh & Hc). exists st, v. split; [|done].
    unfold main_extract. rewrite Hp.
    rewrite (Image_open_holds _ _ img3) by (eapply write_back_holds, Image_new_holds, Hn).
    cbn [cli map_err]. by rewrite Hst.
Qed.

(** ** Builds that fail *)

Context {BW : BlobWrite} {OF : OciDirFail}.

(** Both kinds of builds, with the store they leave. *)
Definition build_step (b : BuildArgs) (tag : bytes) (image : Image oci_index) : Image oci_index * Result Descriptor :=
  match ba_base_layer b with
  | Some base => add_rootfs_delta_kept (chosen b) (components (ba_rootfs b)) image tag base
  | None => build_initial_rootfs_kept (chosen b) (components (ba_rootfs b)) image tag
  end.

Lemma build_image_kept_eq b tag image :
  build_image_kept b tag image
  = ((build_step b tag image).1,
     _ ← cli (build_step b tag image).2; fd ← cli (get_image_manifest_fd (build_step b tag image).1 tag);
     digest ← cli (get_fs_verity_digest (bf_data fd)); Ok (hex_encode digest)).
Proof.
  unfold build_image_kept, build_step, chosen. destruct (ba_base_layer b), (ba_compression b);
    match goal with |- context [let '(_, _) := ?k in _] => by destruct k end.
Qed.

Lemma build_step_command b tag image : command image (published tag (build_step b tag image).2) (build_step b tag image).1.
Proof.
  unfold build_step. destruct (ba_base_layer b) as [base|].
  - eapply cmd_delta, surjective_pairing.
  - eapply cmd_build, surjective_pairing.
Qed.

(** The command does what the model without failing writes does, or it stops at such a write. *)
Definition command_agrees {A B} (k : A * outcome cli_error B) (r : outcome cli_error (A * B)) : Prop :=
  (exists e, write_error e /\ k.2 = Err (CliWire (IOError e))) \/ r = (p ← k.2; Ok (k.1, p)).

Lemma build_image_agrees `{!BlobWriteOk BW} b tag image : command_agrees (build_image_kept b tag image) (build_image b tag image).
Proof.
  rewrite build_image_kept_eq. unfold build_image, build_step, command_agrees. fold (chosen b). cbn [fst snd].
  destruct (ba_base_layer b) as [base|].
  - replace (if ba_compression b then add_rootfs_delta Zstd _ _ _ _ else _)
      with (add_rootfs_delta (chosen b) (components (ba_rootfs b)) image tag base) by (unfold chosen; by destruct (ba_compression b)).
    destruct (add_rootfs_delta_agrees (chosen b) (components (ba_rootfs b)) image tag base) as [(e & He & ->)|Ha]; [left; by exists e|right].
    destruct (add_rootfs_delta_kept _ _ _ _ _) as [img1 [d1| | |]], (add_rootfs_delta _ _ _ _ _) as [[d2 img2]| | |]; cbn in Ha |- *;
      simplify_eq; try done. by destruct (get_image_manifest_fd img1 tag).
  - replace (if ba_compression b then build_initial_rootfs Zstd _ _ _ else _)
      with (build_initial_rootfs (chosen b) (components (ba_rootfs b)) image tag) by (unfold chosen; by destruct (ba_compression b)).
    destruct (build_initial_rootfs_agrees (chosen b) (components (ba_rootfs b)) image tag) as [(e & He & ->)|Ha]; [left; by exists e|right].
    destruct (build_initial_rootfs_kept _ _ _ _) as [img1 [d1| | |]], (build_initial_rootfs _ _ _ _) as [[img2 d2]| | |]; cbn in Ha |- *;
      simplify_eq; try done. by destruct (get_image_manifest_fd img1 tag).
Qed.

(** C14: failing writes do not change what [puzzlefs build] does otherwise.  On a disk on which writes
    can fail, the command has the outcome and leaves the disk that the model without failing writes
    gives, or it reports the error of a write; in particular what is proved of successful builds holds
    on such a disk, and without such an error nothing can go wrong that is not in that model. *)
Theorem build_command_agrees `{!BlobWriteOk BW} (b : BuildArgs) (d : disk) :
  command_agrees (main_build_kept b d) (main_build b d).
Proof.
  unfold main_build_kept, main_build. destruct (parse_oci_dir (ba_oci_dir b)) as [[oci_dir tag]| | |]; [|by right..].
  cbn [mbind outcome_bind]. destruct (Image_new d (components oci_dir)) as [d1 [img| | |]]; [|by right..].
  cbn [cli map_err mbind outcome_bind]. destruct (build_image_agrees b tag img) as [(e & He & Hk)|Hk].
  - left. exists e. split; [done|]. by destruct (build_image_kept b tag img).
  - right. rewrite Hk. by destruct (build_image_kept b tag img) as [img1 [p| | |]].
Qed.

Lemma publish_kept_manifest img rootfs man tag img' desc :
  publish_kept img rootfs man tag = (img', Ok desc) -> exists f, get_image_manifest_fd img' tag = Ok f.
Proof.
  unfold publish_kept. destruct (serialize_metadata rootfs) as [buf| | |]; cbn [store_bind]; try done.
  destruct (put_blob_kept Noop img buf man MT_Rootfs) as [img1 [[man1 [[d v] comp]]| | |]]; cbn [store_bind]; try done.
  unfold insert_manifest_kept. destruct (oci_insert_manifest img1 man1 (Some tag)) as [[img2 d2]| | |] eqn:Hi; cbn; try done.
  intros [= <- _]. apply insert_manifest_ok in Hi as (_ & _ & Hd & [f Hf]). exists f.
  unfold get_image_manifest_fd, image_manifest_digest. rewrite Hd. cbn. unfold open_raw_blob. by rewrite Hf.
Qed.

(** A build that has published its tag does not fail afterwards. *)
Lemma build_step_ok b tag image desc :
  (build_step b tag image).2 = Ok desc -> exists p, (build_image_kept b tag image).2 = Ok p.
Proof.
  intros Hk. rewrite build_image_kept_eq, Hk. cbn [snd cli map_err mbind outcome_bind].
  assert (exists f, get_image_manifest_fd (build_step b tag image).1 tag = Ok f) as (f & ->); [|by eexists].
  pose proof (surjective_pairing (build_step b tag image)) as Heq. rewrite Hk in Heq. unfold build_step in Heq at 1.
  destruct (ba_base_layer b).
  - apply store_bind_ok_inv in Heq as (? & ? & _ & Heq). do 3 apply store_bind_ok_inv in Heq as (? & ? & _ & Heq).
    apply store_bind_ok_inv in Heq as (? & [[? ?] ?] & _ & Heq). by eapply publish_kept_manifest.
  - apply store_bind_ok_inv in Heq as (? & ? & _ & Heq). apply store_bind_ok_inv in Heq as (? & [[? ?] ?] & _ & Heq).
    by eapply publish_kept_manifest.
Qed.

(** C12: [puzzlefs build] does not harm the images of the directory.  However the command ends, with
    an error of the tree, of the base image or of a write in the middle of a blob: the directory can
    be opened, and every image in it but the one the command has published can be opened (without a
    root hash) and read as before.  A command that fails has published nothing, so that the image its
    tag named stays too. *)
Theorem build_command_keeps_images `{!OciDirFailOk OF} (b : BuildArgs) (oci_dir tag t : bytes) (d0 d1 : disk) (img0 : Image oci_index)
    (pfs : PuzzleFS) :
  parse_oci_dir (ba_oci_dir b) = Ok (oci_dir, tag) -> Image_new d0 (components oci_dir) = (d1, Ok img0) ->
  PuzzleFS_open img0 t None = Ok pfs ->
  match (main_build_kept b d0).2 with Ok _ => t ≠ tag | _ => True end ->
  exists img', Image_open (main_build_kept b d0).1 (components oci_dir) = Ok img' /\ reads_later t pfs img'.
Proof.
  intros Hp Hn Ho. unfold main_build_kept. rewrite Hp, Hn. cbn [cli map_err].
  pose proof (build_step_ok b tag img0) as Hok. rewrite build_image_kept_eq in Hok |- *. cbn [fst snd] in *. intros Ht.
  exists (build_step b tag img0).1. split; [eapply Image_open_holds, write_back_holds, Image_new_holds, Hn|].
  eapply stays_reads_later; [|exact Ho]. eapply command_stays; [apply build_step_command|].
  destruct (build_step b tag img0).2 as [desc| | |]; cbn; try apply not_elem_of_nil.
  destruct (Hok desc eq_refl) as (p & Hp'). rewrite Hp' in Ht. apply not_elem_of_cons. split; [done|apply not_elem_of_nil].
Qed.

End commands.
