(* ===== verification/UnitTests.v ===== *)
(** The unit tests of the sources that need no data files, as definitions with their assertions, and
    what they establish: those of the codec, of the compressions and of the blob store pass with any
    implementation of the libraries that keeps to its documentation; the reproducibility test of
    [builder.rs] passes whatever the builder does.  An [unwrap] or assertion that fails is a panic. *)

From S2P Require Import Prelude Errors RustStd Capnp Format Digest InodeTable Compression Oci Layout Reader FsStream Chunks Builder.

(** [Result::unwrap] and [Result::expect]. *)
Definition unwrap_ok {E E' A} (r : outcome E A) : outcome E' A :=
  match r with Ok a => Ok a | Diverged => Diverged | _ => Panic end.

(** ** [format/types.rs] *)

(** [capnp::serialize] on messages with a root of type [M]: what was written can be read. *)
Class MessageWire (M : Type) := { write_root : M -> Result bytes; read_root : bytes -> Result M }.
Class MessageWireOk {M} (MW : MessageWire M) :=
  write_read_root (m : M) : exists b, write_root m = Ok b /\ read_root b = Ok m.

Section types.
Context {MB : MessageWire capnp_BlobRef} {MI : MessageWire capnp_Inode}.

(** [blobref_roundtrip]. *)
Definition blobref_roundtrip (original : BlobRef) : Result () :=
  let capnp_blob_ref := BlobRef_fill_capnp original default_BlobRef in
  buf ← unwrap_ok (write_root capnp_blob_ref);
  blobref_reader ← unwrap_ok (read_root buf);
  deserialized ← unwrap_ok (BlobRef_from_capnp blobref_reader);
  assert_ (bool_decide (original = deserialized)).

Definition test_digest : bytes :=
  [xb7; x2e; x68; x50; x82; xd1; xdd; xfe; xb6; xcc; x31; xa5; x35; x29; x12; xfe; x3f; x51; x14; x65; xf5; x27; xa5; x1a;
   xb3; xff; xd3; xb8; xaa; x3c; x25; xdd].

Definition test_blobref_serialization : Result () := blobref_roundtrip (mkBlobRef test_digest 42 true).

(** [Inode::to_wire]. *)
Definition Inode_to_wire (self : Inode) : Result bytes :=
  capnp_inode ← Inode_fill_capnp self default_Inode;
  write_root capnp_inode.

Definition DEFAULT_DIRECTORY_PERMISSIONS : N := 493. (* 0o755 *)

Definition inode_testcases : list Inode :=
  [mkInode 0 Mode_Unknown 0 0 0 None;
   mkInode 0 Mode_Lnk 0 0 0 None;
   mkInode 0 (Mode_File [mkFileChunk (mkBlobRef
     [x12; x44; xfe; xdd; x13; x39; x88; x12; x48; xa8; xf8; xe4; x22; x12; x15; x16; x12; x44; xfe; xdd; x31; x93; x88; x21;
      x84; x8a; xf8; x4e; x22; x12; x51; x16] 100 true) 100]) 0 0 DEFAULT_FILE_PERMISSIONS None;
   mkInode 65343 (Mode_Chr 64 65536) 10 10000 DEFAULT_DIRECTORY_PERMISSIONS None;
   mkInode 0 Mode_Lnk 0 0 65535
     (Some (mkAdditional [mkXattr (bstr "some extended attribute") (bstr "with some value")] (Some (bstr "some/other/path"))))].

(** The body of the loop of [test_inode_is_constant_serialized_size]. *)
Definition inode_roundtrip (test : Inode) : Result () :=
  wire ← unwrap_ok (Inode_to_wire test);
  inode_reader ← unwrap_ok (read_root wire);
  after ← unwrap_ok (Inode_from_capnp inode_reader);
  assert_ (bool_decide (test = after)).

Definition test_inode_is_constant_serialized_size : Result (list ()) := mapM inode_roundtrip inode_testcases.

Context {MBL : MessageWireOk MB} {MIL : MessageWireOk MI}.

Lemma blobref_roundtrip_passes b : wf_blob b -> blobref_roundtrip b = Ok ().
Proof.
  intros Hb. unfold blobref_roundtrip. destruct (write_read_root (BlobRef_fill_capnp b default_BlobRef)) as (buf & -> & Hr).
  cbn [unwrap_ok]. bsimpl. rewrite Hr. cbn [unwrap_ok]. bsimpl. rewrite BlobRef_roundtrip by done. cbn. by rewrite bool_decide_true.
Qed.

Lemma inode_roundtrip_passes i : wf_inode i -> inode_roundtrip i = Ok ().
Proof.
  intros Hi. unfold inode_roundtrip, Inode_to_wire. destruct (Inode_roundtrip i Hi) as (c & -> & Hc & _). bsimpl.
  destruct (write_read_root c) as (buf & -> & Hr). cbn [unwrap_ok]. bsimpl. rewrite Hr. cbn [unwrap_ok]. bsimpl. rewrite Hc. cbn.
  by rewrite bool_decide_true.
Qed.

(** The tests of the codec pass: what is written of a blob reference or an inode reads back as it was. *)
Theorem codec_tests_pass : test_blobref_serialization = Ok () /\ exists l, test_inode_is_constant_serialized_size = Ok l.
Proof.
  split; [by apply blobref_roundtrip_passes|]. unfold test_inode_is_constant_serialized_size, inode_testcases.
  rewrite (mapM_ok_map _ (fun _ => ())); [by eexists|]. intros i Hi. apply inode_roundtrip_passes. revert i Hi. apply Forall_forall.
  repeat constructor.
Qed.

End types.

(** ** [compression.rs], [noop.rs], [zstd_seekable_wrapper.rs] *)

Definition TRUTH : bytes := bstr "meshuggah rocks".

(** A buffer of [n] zeros of which the beginning was read into. *)
Definition filled (n : N) (out : bytes) : bytes := splice 0 out (replicate (N.to_nat n) x00).

Section compression.
Context {C : Compression}.

(** The part both tests begin with: the content of the file when the compressor has ended. *)
Definition compress_truth : io_Result bytes :=
  compressed ← c_compress;
  compressed ← write_all_fuel (length TRUTH) compressed TRUTH;
  c_end compressed.

Definition compress_decompress : io_Result () :=
  f ← compress_truth;
  d ← c_decompress f;
  '(_, out) ← d_read d (len TRUTH);
  _ ← assert_ (len out =? len TRUTH)%N;
  assert_ (bool_decide (filled (len TRUTH) out = TRUTH)).

Definition compression_is_seekable : io_Result () :=
  f ← compress_truth;
  decompressor ← c_decompress f;
  '(decompressor, _) ← d_seek decompressor (SeekStart (len (bstr "meshuggah ")));
  '(_, out) ← d_read decompressor 1024;
  _ ← assert_ (len out =? 5)%N;
  assert_ (bool_decide (take 5 (filled 1024 out) = bstr "rocks")).

Lemma compress_truth_ok c : compress_buf TRUTH = Ok (c, len TRUTH) -> compress_truth = Ok c.
Proof.
  unfold compress_buf, compress_truth, io_copy. destruct c_compress as [st| | |]; try done. bsimpl.
  destruct (write_all_fuel _ st TRUTH) as [st'| | |]; try done. bsimpl. destruct (c_end st') as [x| | |]; try done. by intros [= ->].
Qed.

End compression.

(** [test_noop_is_noop]. *)
Definition test_noop_is_noop `{OsRead} : io_Result () :=
  f ← Noop_compress;
  f ← write_all_fuel (C := Noop) (length TRUTH) f TRUTH;
  assert_ (bool_decide (f = TRUTH)).

Section compression_tests.
Context {P : Profile} {R : OsRead} {RF : OsReadFull R} {ZS : ZstdSeekable} {ZSL : ZstdSeekableOk ZS}.

Lemma seekable_passes (C : Compression) `{!CompressionOk C} : compression_is_seekable (C := C) = Ok ().
Proof.
  destruct (compress_reads_as TRUTH eq_refl) as (c & Hc & d & Hd & Hread). unfold compression_is_seekable.
  rewrite (compress_truth_ok _ Hc). bsimpl. rewrite Hd. bsimpl.
  destruct (Hread (len (bstr "meshuggah ")) 1024%N) as (d1 & d2 & -> & Hr); [done|done|]. bsimpl. rewrite Hr. by vm_compute.
Qed.

(** The tests of the compressions pass, for any implementation of [zstd-seekable] and any file system
    that keep to their contracts. *)
Theorem compression_tests_pass :
  compress_decompress (C := Noop) = Ok () /\ compression_is_seekable (C := Noop) = Ok () /\ test_noop_is_noop = Ok () /\
  compress_decompress (C := Zstd) = Ok () /\ compression_is_seekable (C := Zstd) = Ok ().
Proof.
  split_and!; try apply seekable_passes, _; try done.
  - unfold compress_decompress. rewrite (compress_truth_ok TRUTH); [|apply noop_compress_buf]. bsimpl. cbn [c_decompress d_read Noop].
    unfold Noop_decompress, Noop_read, file_read_raw. bsimpl. rewrite os_read_full. by vm_compute.
  - unfold compress_decompress. destruct (zstd_compress_archive TRUTH) as (c & Hc & Harch). rewrite (compress_truth_ok (C := Zstd) c Hc). bsimpl.
    cbn [c_decompress d_read Zstd]. destruct (zstd_archive_decompress c TRUTH Harch eq_refl) as (s & -> & Hread). bsimpl.
    rewrite (zstd_read_at s 0 (len TRUTH) TRUTH); [|done|done|exact Hread]. by vm_compute.
Qed.

End compression_tests.

(** ** [oci.rs] *)

Section oci_tests.
Context {P : Profile} {R : OsRead} {ZS : ZstdSeekable}.
Context {H : Hex} {SH : Sha256} {V : FsVerity} {D : OciDigest} {OD : OciDir} {W : CapnpWire} {ST : OciStore}.

(** [test_open_can_open_new_image]; [dir] is the temporary directory. *)
Definition test_open_can_open_new_image (d : disk) (dir : Path) : Result () :=
  let '(d, image) := Image_new d dir in
  _ ← image;
  _ ← Image_open d dir;
  Ok ().

#[local] Instance Descriptor_eq_dec : EqDecision Descriptor.
Proof. solve_decision. Defined.

(** [double_put_ok]. *)
Definition double_put_ok (d : disk) (dir : Path) : Result () :=
  let '(d, image) := Image_new d dir in
  image ← image;
  '(image, image_manifest) ← get_empty_manifest image;
  '(image, image_manifest, desc1) ← put_blob Zstd image TRUTH image_manifest MT_Chunk;
  '(image, image_manifest, desc2) ← put_blob Zstd image TRUTH image_manifest MT_Chunk;
  assert_ (bool_decide (desc1 = desc2)).

Context {SL : Sha256Ok SH} {HL : HexOk H} {DL : OciDigestOk D} {ZSL : ZstdSeekableOk ZS} {STL : OciStoreOk ST}.

(** The tests of the blob store pass in a directory in which an image can be made: the image can be
    opened again, and storing data twice returns the same descriptor, fs-verity digest and flag. *)
Theorem oci_tests_pass (d d' : disk) (dir : Path) (image image' : Image oci_index) (man : ImageManifest) :
  Image_new d dir = (d', Ok image) -> get_empty_manifest image = Ok (image', man) ->
  no_collision image' (stored_form Zstd TRUTH).1 ->
  test_open_can_open_new_image d dir = Ok () /\ double_put_ok d dir = Ok ().
Proof.
  intros Hn Hm Hc. unfold test_open_can_open_new_image, double_put_ok. rewrite Hn. bsimpl. split.
  - by rewrite (Image_open_holds _ _ image) by (by eapply Image_new_holds).
  - rewrite Hm. bsimpl. assert (exists i1 m1 desc1, put_blob Zstd image' TRUTH man MT_Chunk = Ok (i1, m1, desc1)) as (i1 & m1 & desc1 & Hp).
    { destruct (put_blob_eq Zstd image' TRUTH man MT_Chunk eq_refl) as (c & _ & Heq). unfold no_collision in Hc.
      destruct (stored_form Zstd TRUTH) as [final comp]. cbn [fst] in Hc. cbn beta iota zeta in Heq. rewrite Heq.
      destruct (img_blobs image' !! _) as [f|]; [rewrite (Hc f eq_refl), decide_True by done|]; by eexists _, _, _. }
    rewrite Hp. bsimpl. destruct (put_blob_idempotent Zstd _ image' i1 TRUTH man m1 m1 MT_Chunk desc1 eq_refl Hp) as (m2 & ->). bsimpl.
    by rewrite bool_decide_true.
Qed.

End oci_tests.

(** ** [builder.rs]: reproducibility *)

Section builder_tests.
Context {P : Profile} {R : OsRead} {ZS : ZstdSeekable} {NS : NixStat}.
Context {H : Hex} {SH : Sha256} {V : FsVerity} {D : OciDigest} {OD : OciDir} {W : CapnpWire}.
Context {F : HostFs} {CD : StreamCDC} {WD : WalkDir} {HO : HashOrder}.

Abbreviation Img := (Image oci_index).

(** [build_test_fs]. *)
Definition build_test_fs (path : Path) (image : Img) (tag : bytes) : Result (Img * Descriptor) := build_initial_rootfs Zstd path image tag.

(** [do_vecs_match]. *)
Definition do_vecs_match (a b : list bytes) : bool :=
  if negb (length a =? length b) then false
  else (length (List.filter (fun ab => bool_decide (ab.1 = ab.2)) (zip a b)) =? length a).

(** [Path::file_stem]: the file name up to its last dot, unless that is its first byte. *)
Definition file_stem (p : Path) : option bytes :=
  name ← file_name p;
  let pieces := str_split dot name in
  Some (match removelast pieces with
        | [] => name
        | [[]] => name
        | before => concat (removelast (concat ((fun piece => [piece; [dot]]) <$> before)))
        end).

Example file_stem_dots :
  file_stem [Normal (bstr "a..b")] = Some (bstr "a.") /\ file_stem [Normal (bstr ".b")] = Some (bstr ".b") /\
  file_stem [Normal (bstr "x.tar.gz")] = Some (bstr "x.tar") /\ file_stem [Normal (bstr "a.")] = Some (bstr "a").
Proof. by vm_compute. Qed.

(** [get_image_blobs]: it walks [blobs/sha256] below the current directory, and skips the first item. *)
Definition get_image_blobs : Result (list bytes) :=
  mapM (fun x => p ← unwrap_ok x; unwrap (file_stem p)) (drop 1 (walkdir_filter_entry (walker (components (bstr "blobs/sha256"))) (fun _ => true))).

(** The loops of [same_dir_reproducible] and [same_dir_contents_reproducible], over the outcomes of
    the builds; [last] is the last element of [sha_suite]. *)
Fixpoint compare_builds (builds : list (Result (Img * Descriptor))) (last : option (list bytes)) : Result bool :=
  match builds with
  | [] => Ok true
  | build :: builds =>
      _ ← unwrap_ok build;
      ents ← get_image_blobs;
      if match last with Some l => negb (do_vecs_match l ents) | None => false end then Ok false
      else compare_builds builds (Some ents)
  end.

Definition same_dir_reproducible (path : Path) (images : list Img) : Result bool :=
  compare_builds ((fun image => build_test_fs path image (bstr "test")) <$> images) None.

Definition same_dir_contents_reproducible (paths : list Path) (images : list Img) : Result bool :=
  compare_builds (zip_with (fun path image => build_test_fs path image (bstr "test")) paths images) None.

(** The comparison is right... *)
Lemma do_vecs_match_spec a b : do_vecs_match a b = true <-> a = b.
Proof.
  unfold do_vecs_match. destruct (length a =? length b) eqn:Hl; cbn; [|split; [done|intros ->; by rewrite Nat.eqb_refl in Hl]].
  apply Nat.eqb_eq in Hl. rewrite Nat.eqb_eq. revert b Hl. induction a as [|x a IH]; intros [|y b] Hl; try done. cbn in *.
  injection Hl as Hl. destruct (decide (x = y)) as [->|Hne].
  - rewrite bool_decide_true by done. cbn. specialize (IH b Hl). split; [intros [= Hn]; f_equal; by apply IH|intros [= ->]; f_equal; by apply IH].
  - rewrite bool_decide_false by done. split; [|congruence]. intros Hn.
    pose proof (List.filter_length_le (fun ab : bytes * bytes => bool_decide (ab.1 = ab.2)) (zip a b)) as Hle.
    rewrite length_zip_with in Hle. lia.
Qed.

(** C40: ... but the reproducibility test compares nothing.  [get_image_blobs] looks below the current
    directory, not in the image that was built; when there is no [blobs/sha256] there, the only item of
    the walk is the error, which is skipped, so that the lists that are compared are always empty.
    Whatever the builds have produced, the test passes if none of them failed. *)
Theorem reproducibility_test_vacuous (builds : list (Result (Img * Descriptor))) (e : io_error) :
  walkdir_filter_entry (walker (components (bstr "blobs/sha256"))) (fun _ => true) = [Err e] ->
  Forall (fun b => exists r, b = Ok r) builds ->
  compare_builds builds None = Ok true.
Proof.
  intros Hw Hall. assert (get_image_blobs = Ok []) as Hg by (unfold get_image_blobs; by rewrite Hw).
  assert (forall last, last = None \/ last = Some [] -> compare_builds builds last = Ok true) as Hc; [|by apply Hc; left].
  induction Hall as [|b builds [r ->] _ IH]; intros last Hl; [done|]. cbn [compare_builds unwrap_ok]. bsimpl. rewrite Hg. bsimpl.
  destruct Hl as [->| ->]; by apply IH; right.
Qed.

End builder_tests.
