(* ===== verification/Mount.v ===== *)
(** Mounting and unmounting: [mount] and [spawn_mount] of [reader.rs], the life cycle of [Fuse]
    ([new], [init], [drop]) in [reader/fuse.rs], and the [mount] and [umount] commands of
    [exe/src/main.rs] with the processes and threads they start.

    The code of a thread is a tree of calls to the operating system with continuations ([proc]).
    The environment answers the calls: a theorem over all runs is a theorem over all answers and
    all interleavings.  There are no loops in this code, so a tree is well founded. *)

From S2P Require Import Prelude Errors RustStd Capnp Format Digest InodeTable Compression Oci Reader FsStream Chunks Verity Walk Extractor Builder Main.
From stdpp Require Import relations.

(** ** Calls that return [io::Result<()>] *)

Inductive syscall :=
| SC_syslog_unix                           (* syslog::unix *)
| SC_set_logger                            (* log::set_boxed_logger *)
| SC_pipe                                  (* os_pipe::pipe *)
| SC_try_clone                             (* PipeWriter::try_clone *)
| SC_write_pipe (b : byte)                 (* write_all on the pipe made by SC_pipe *)
| SC_close_writer                          (* drop of a PipeWriter *)
| SC_create_dir_all (p : Path)
| SC_overlay_mount (lower upper work target : Path)
| SC_set_ctrlc_handler
| SC_open_named (p : Path)                 (* OpenOptions::new().write(true).open *)
| SC_write_named (p : Path) (b : byte)     (* write_all on the file SC_open_named opened *)
| SC_umount (p : Path).

(** An entry of [/proc/self/mountinfo], the fields used. *)
Record MountInfo := mkMountInfo { mi_mount_point : bytes; mi_fstype : bytes }.

(** [enum PipeDescriptor]. *)
Inductive PipeDescriptor := UnnamedPipe | NamedPipe (p : Path).

Section mount.
Context {P : Profile} {R : OsRead} {ZS : ZstdSeekable}.
Context {H : Hex} {SH : Sha256} {V : FsVerity} {D : OciDigest} {OD : OciDir} {W : CapnpWire}.

Abbreviation Img := (Image oci_index).

(** [struct Fuse]; a sender is the sending end of the channel of the foreground command. *)
Record Fuse := mkFuse {
  fu_pfs : PuzzleFS;
  fu_sender : bool;
  fu_init_notify : option PipeDescriptor
}.

(** ** Code of a thread *)

Inductive proc (A : Type) : Type :=
| Ret (a : A)
| ExitP (code : Z)
| PanicP
| Sys (c : syscall) (k : io_Result () -> proc A)
| EuidRoot (k : bool -> proc A)
| Canonicalize (p : bytes) (k : io_Result Path -> proc A)
| ImageOpen (p : Path) (k : Result Img -> proc A)
| ReadPipe (k : io_Result byte -> proc A)
| IsFifo (p : Path) (k : io_Result bool -> proc A)
| ReadMountinfo (k : io_Result (list (io_Result MountInfo)) -> proc A)
| Fusermount (mountpoint : bytes) (k : io_Result (option Z) -> proc A)
| Daemonize (exit_action : proc ()) (k : io_Result () -> proc A)
| SpawnThread (t : proc ()) (k : proc A)
| Mount2 (f : Fuse) (mountpoint : Path) (options : list MountOption) (k : io_Result () -> proc A)
| SpawnMount2 (f : Fuse) (mountpoint : Path) (options : list MountOption) (k : io_Result () -> proc A)
| Serve (f : Fuse) (k : io_Result () -> proc A)
| Send (k : bool -> proc A)
| Recv (k : proc A).

#[global] Arguments Ret {A} a.
#[global] Arguments ExitP {A} code.
#[global] Arguments PanicP {A}.
#[global] Arguments Sys {A} c k.
#[global] Arguments EuidRoot {A} k.
#[global] Arguments Canonicalize {A} p k.
#[global] Arguments ImageOpen {A} p k.
#[global] Arguments ReadPipe {A} k.
#[global] Arguments IsFifo {A} p k.
#[global] Arguments ReadMountinfo {A} k.
#[global] Arguments Fusermount {A} mountpoint k.
#[global] Arguments Daemonize {A} exit_action k.
#[global] Arguments SpawnThread {A} t k.
#[global] Arguments Mount2 {A} f mountpoint options k.
#[global] Arguments SpawnMount2 {A} f mountpoint options k.
#[global] Arguments Serve {A} f k.
#[global] Arguments Send {A} k.
#[global] Arguments Recv {A} k.

#[export] Instance proc_ret : MRet proc := fun A a => Ret a.

#[export] Instance proc_bind : MBind proc := fun A B h =>
  fix go p :=
    match p with
    | Ret a => h a
    | ExitP c => ExitP c
    | PanicP => PanicP
    | Sys c k => Sys c (fun r => go (k r))
    | EuidRoot k => EuidRoot (fun r => go (k r))
    | Canonicalize p k => Canonicalize p (fun r => go (k r))
    | ImageOpen p k => ImageOpen p (fun r => go (k r))
    | ReadPipe k => ReadPipe (fun r => go (k r))
    | IsFifo p k => IsFifo p (fun r => go (k r))
    | ReadMountinfo k => ReadMountinfo (fun r => go (k r))
    | Fusermount m k => Fusermount m (fun r => go (k r))
    | Daemonize a k => Daemonize a (fun r => go (k r))
    | SpawnThread t k => SpawnThread t (go k)
    | Mount2 f m o k => Mount2 f m o (fun r => go (k r))
    | SpawnMount2 f m o k => SpawnMount2 f m o (fun r => go (k r))
    | Serve f k => Serve f (fun r => go (k r))
    | Send k => Send (fun r => go (k r))
    | Recv k => Recv (go k)
    end.

(** [r?] in code that may call the system: go on with the value, or return early. *)
Definition try_ {E A B} (p : proc (outcome E A)) (k : A -> proc (outcome E B)) : proc (outcome E B) :=
  r ← p;
  match r with
  | Ok a => k a
  | Err e => Ret (Err e)
  | Panic => Ret Panic
  | Diverged => Ret Diverged
  end.

Definition sys (c : syscall) : proc (outcome cli_error ()) := Sys c (fun r => Ret (map_err CliIo r)).

Local Notation "x ⇐ p ; q" := (try_ p (fun x => q)) (at level 20, p at level 100, q at level 200, right associativity).

Definition pure {A} (r : A) : proc A := Ret r.

(** ** [Fuse] *)

(** A descriptor that goes out of scope: the writing end in it is closed. *)
Definition drop_notify {A} (init_notify : option PipeDescriptor) (k : proc A) : proc A :=
  match init_notify with
  | Some UnnamedPipe => Sys SC_close_writer (fun _ => k)
  | _ => k
  end.

(** [Fuse::new]. *)
Definition Fuse_new (pfs : PuzzleFS) (sender : bool) (init_notify : option PipeDescriptor) : Fuse :=
  mkFuse pfs sender init_notify.

(** The thread [init] starts for a named pipe. *)
Definition notify_named_pipe (named_pipe : Path) : proc () :=
  IsFifo named_pipe (fun md =>
    match md with
    | Ok true =>
        Sys (SC_open_named named_pipe) (fun file =>
          match file with
          | Ok _ => Sys (SC_write_named named_pipe x73) (fun _ => Ret ())
          | _ => Ret ()
          end)
    | _ => Ret ()
    end).

(** [<Fuse as Filesystem>::init]; the notification is taken out of the server, and its writing end
    is closed when it has been used. *)
Definition Fuse_init (self : Fuse) : proc Fuse :=
  let self' := mkFuse (fu_pfs self) (fu_sender self) None in
  match fu_init_notify self with
  | Some UnnamedPipe => Sys (SC_write_pipe x73) (fun _ => Sys SC_close_writer (fun _ => Ret self'))
  | Some (NamedPipe named_pipe) => SpawnThread (notify_named_pipe named_pipe) (Ret self')
  | None => Ret self'
  end.

(** [<Fuse as Drop>::drop]; [send(()).unwrap()] panics when the receiver is gone.  The fields are
    dropped after it, with the writing end of a notification that was not used. *)
Definition Fuse_drop (self : Fuse) : proc () :=
  if fu_sender self then
    Send (fun delivered => drop_notify (fu_init_notify self) (if delivered : bool then Ret () else PanicP))
  else drop_notify (fu_init_notify self) (Ret ()).

(** ** [reader.rs] *)

(** [PuzzleFS::open(..)?], which drops the notification when it returns early. *)
Definition open_or_drop (image : Img) (tag : bytes) (init_notify : option PipeDescriptor)
    (manifest_verity : option bytes) : proc (Result PuzzleFS) :=
  match PuzzleFS_open image tag manifest_verity with
  | Ok pfs => Ret (Ok pfs)
  | r => drop_notify init_notify (Ret r)
  end.

(** [mount]. *)
Definition mount (image : Img) (tag : bytes) (mountpoint : Path) (options : list bytes)
    (init_notify : option PipeDescriptor) (manifest_verity : option bytes) : proc (Result ()) :=
  pfs ⇐ open_or_drop image tag init_notify manifest_verity;
  let fuse := Fuse_new pfs false init_notify in
  Mount2 fuse mountpoint (mount_option_from_str <$> options) (fun r => Ret (map_err IOError r)).

(** [spawn_mount]. *)
Definition spawn_mount (image : Img) (tag : bytes) (mountpoint : Path) (options : list bytes)
    (init_notify : option PipeDescriptor) (sender : bool) (manifest_verity : option bytes) : proc (Result ()) :=
  pfs ⇐ open_or_drop image tag init_notify manifest_verity;
  let fuse := Fuse_new pfs sender init_notify in
  SpawnMount2 fuse mountpoint (mount_option_from_str <$> options) (fun r => Ret (map_err IOError r)).

(** ** The [mount] command *)

(** [struct Mount] of the command line. *)
Record MountArgs := mkMountArgs {
  ma_oci_dir : bytes;
  ma_mountpoint : bytes;
  ma_foreground : bool;
  ma_init_pipe : option bytes;
  ma_options : option (list bytes);
  ma_digest : option bytes;
  ma_writable : bool;
  ma_persist : option bytes
}.

(** [conflicts_with = "foreground"] on [writable] and [persist]. *)
Definition mount_args_ok (m : MountArgs) : bool :=
  negb (ma_foreground m && (ma_writable m || bool_decide (is_Some (ma_persist m)))).

Inductive LevelFilter := LF_Off | LF_Error | LF_Warn | LF_Info | LF_Debug | LF_Trace.

(** The [match log_level] of [init_syslog]. *)
Definition level_filter (log_level : bytes) : option LevelFilter :=
  if decide (log_level = bstr "off") then Some LF_Off
  else if decide (log_level = bstr "error") then Some LF_Error
  else if decide (log_level = bstr "warn") then Some LF_Warn
  else if decide (log_level = bstr "info") then Some LF_Info
  else if decide (log_level = bstr "debug") then Some LF_Debug
  else if decide (log_level = bstr "trace") then Some LF_Trace
  else None.

(** [init_syslog]; the level that is set. *)
Definition init_syslog (log_level : bytes) : proc (outcome cli_error LevelFilter) :=
  _ ⇐ sys SC_syslog_unix;
  Sys SC_set_logger (fun r =>
    Ret (match r with Ok _ => unwrap (level_filter log_level) | _ => Panic end)).

(** The closure given to [exit_action]. *)
Definition exit_action (parent_action : proc (outcome cli_error ())) : proc () :=
  ReadPipe (fun r =>
    match r with
    | Ok b => if decide (b = x66) then ExitP 1 else _ ← parent_action; Ret ()
    | _ => _ ← parent_action; Ret ()
    end).

(** [mount_background]. *)
Definition mount_background (image : Img) (tag : bytes) (mountpoint : Path) (options : option (list bytes))
    (manifest_verity : option bytes) (parent_action : proc (outcome cli_error ())) : proc (outcome cli_error ()) :=
  _ ⇐ Daemonize (exit_action parent_action) (fun r => Ret (map_err CliIo r));
  _ ⇐ sys SC_try_clone;
  r ← mount image tag mountpoint (default [] options) (Some UnnamedPipe) manifest_verity;
  Ret (map_err CliWire r).

(** What both background branches do with the result: report a failure through the pipe. *)
Definition report_failure (r : outcome cli_error ()) : proc (outcome cli_error ()) :=
  match r with
  | Err e => Sys (SC_write_pipe x66) (fun _ => Ret (Err e))
  | r => Ret r
  end.

(** The parent's action for a writable mount: put an overlay over the read-only mount. *)
Definition mount_overlay (mountpoint pfs_mountpoint : Path) (persist : option bytes) : proc (outcome cli_error ()) :=
  let ovl_workdir := path_join mountpoint (bstr "work") in
  _ ⇐ sys (SC_create_dir_all ovl_workdir);
  let ovl_upperdir := match persist with
                      | None => path_join mountpoint (bstr "upper")
                      | Some upperdir => components upperdir
                      end in
  _ ⇐ sys (SC_create_dir_all ovl_upperdir);
  sys (SC_overlay_mount pfs_mountpoint ovl_upperdir ovl_workdir mountpoint).

(** The branch for a writable mount. *)
Definition mount_writable (image : Img) (tag : bytes) (mountpoint : Path) (m : MountArgs)
    (manifest_verity : option bytes) : proc (outcome cli_error ()) :=
  _ ⇐ sys SC_pipe;
  let pfs_mountpoint := path_join mountpoint (bstr "ro") in
  _ ⇐ sys (SC_create_dir_all pfs_mountpoint);
  r ← mount_background image tag pfs_mountpoint (ma_options m) manifest_verity
        (mount_overlay mountpoint pfs_mountpoint (ma_persist m));
  report_failure r.

(** Writing ["f"] to the named pipe when the foreground mount fails. *)
Definition notify_failure (named_pipe : option Path) : proc () :=
  match named_pipe with
  | Some pipe =>
      Sys (SC_open_named pipe) (fun file =>
        match file with
        | Ok _ => Sys (SC_write_named pipe x66) (fun _ => Ret ())
        | _ => Ret ()
        end)
  | None => Ret ()
  end.

(** The branch for a foreground mount. *)
Definition mount_foreground (image : Img) (tag : bytes) (mountpoint : Path) (m : MountArgs)
    (manifest_verity : option bytes) : proc (outcome cli_error ()) :=
  Sys SC_set_ctrlc_handler (fun h =>
    match h with
    | Ok _ =>
        let named_pipe := components <$> ma_init_pipe m in
        result ← spawn_mount image tag mountpoint (default [] (ma_options m)) (NamedPipe <$> named_pipe) true
                   manifest_verity;
        match result with
        | Ok _ => Recv (Ret (Ok ()))
        | Err e => _ ← notify_failure named_pipe; Ret (Err (CliWire e))
        | Panic => Ret Panic
        | Diverged => Ret Diverged
        end
    | _ => Ret Panic
    end).

(** The branch for an ordinary background mount.  The writing end it made is open until the process
    ends: [report_failure] uses it, and nothing of the parent closes it. *)
Definition mount_daemon (image : Img) (tag : bytes) (mountpoint : Path) (m : MountArgs)
    (manifest_verity : option bytes) : proc (outcome cli_error ()) :=
  _ ⇐ sys SC_pipe;
  r ← mount_background image tag mountpoint (ma_options m) manifest_verity (Ret (Ok ()));
  report_failure r.

(** [SubCommand::Mount]. *)
Definition main_mount (m : MountArgs) : proc (outcome cli_error ()) :=
  let writable := ma_writable m || bool_decide (is_Some (ma_persist m)) in
  _ ⇐ (if ma_foreground m then pure (Ok LF_Info) else init_syslog (bstr "info"));
  _ ⇐ (if writable then EuidRoot (fun root => Ret (if root : bool then Ok () else Err NotRoot)) else pure (Ok ()));
  ot ⇐ pure (parse_oci_dir (ma_oci_dir m));
  oci_dir ⇐ Canonicalize ot.1 (fun r => Ret (map_err CliIo r));
  image ⇐ ImageOpen oci_dir (fun r => Ret (map_err CliWire r));
  mountpoint ⇐ Canonicalize (ma_mountpoint m) (fun r => Ret (map_err CliIo r));
  manifest_verity ⇐ pure (transpose ((fun d => map_err CliHex (hex_decode d)) <$> ma_digest m));
  if writable then mount_writable image ot.2 mountpoint m manifest_verity
  else if ma_foreground m then mount_foreground image ot.2 mountpoint m manifest_verity
  else mount_daemon image ot.2 mountpoint m manifest_verity.

(** The handler of ctrl-c. *)
Definition ctrlc_handler : proc () :=
  Send (fun delivered => if delivered : bool then Ret () else PanicP).

(** ** The [umount] command *)

(** [get_mount_type]; [find] skips the entries that do not parse. *)
Definition get_mount_type (mountpoint : bytes) : proc (outcome cli_error bytes) :=
  ReadMountinfo (fun contents => Ret (
    infos ← map_err CliIo contents;
    let mount_info := List.find (fun mount_info =>
      match mount_info with Ok mi => bool_decide (mi_mount_point mi = mountpoint) | _ => false end) infos in
    mount_info ← ok_or mount_info MountpointNotFound;
    mount_info ← map_err CliIo mount_info;
    Ok (mi_fstype mount_info))).

(** [SubCommand::Umount]. *)
Definition main_umount (mountpoint : bytes) : proc (outcome cli_error ()) :=
  mount_type ⇐ get_mount_type mountpoint;
  if decide (mount_type = bstr "overlay") then
    EuidRoot (fun root =>
      if root : bool then
        _ ⇐ sys (SC_umount (components mountpoint));
        sys (SC_umount (path_join (components mountpoint) (bstr "ro")))
      else Ret (Err NotRoot))
  else if decide (mount_type = bstr "fuse") then
    Fusermount mountpoint (fun status => Ret (
      code ← map_err CliIo status;
      if decide (code = Some 0%Z) then Ok () else Err (FusermountStatus code)))
  else Ret (Err (UnknownMountType mount_type mountpoint)).

(** ** Semantics

    The pipe between the command and its daemon is the bytes in it and the writing ends each of the
    two processes has open.  The rest of the state the threads share: the messages in the channel
    of the foreground command, whether the kernel's INIT request has been received, whether a
    session has ended, whether one has ended without an error before INIT came, the calls made, and
    whether a transfer over the pipe has ever failed. *)

Inductive role := Command | Daemon.

Record World := mkWorld {
  w_pipe : list byte;
  w_command_ends : nat;
  w_daemon_ends : nat;
  w_chan : nat;
  w_ready : bool;
  w_ended : bool;
  w_unserved : bool;
  w_log : list (syscall * io_Result ());
  w_pipe_failed : bool
}.

Definition new_world : World := mkWorld [] 0 0 0 false false false [] false.

Definition log_call (w : World) (c : syscall) (r : io_Result ()) : World :=
  mkWorld (w_pipe w) (w_command_ends w) (w_daemon_ends w) (w_chan w) (w_ready w) (w_ended w) (w_unserved w)
    (w_log w ++ [(c, r)]) (w_pipe_failed w).
Definition set_pipe (w : World) (l : list byte) : World :=
  mkWorld l (w_command_ends w) (w_daemon_ends w) (w_chan w) (w_ready w) (w_ended w) (w_unserved w) (w_log w)
    (w_pipe_failed w).
Definition set_chan (w : World) (n : nat) : World :=
  mkWorld (w_pipe w) (w_command_ends w) (w_daemon_ends w) n (w_ready w) (w_ended w) (w_unserved w) (w_log w)
    (w_pipe_failed w).
Definition set_ready (w : World) : World :=
  mkWorld (w_pipe w) (w_command_ends w) (w_daemon_ends w) (w_chan w) true (w_ended w) (w_unserved w) (w_log w)
    (w_pipe_failed w).
Definition set_ended (w : World) : World :=
  mkWorld (w_pipe w) (w_command_ends w) (w_daemon_ends w) (w_chan w) (w_ready w) true (w_unserved w) (w_log w)
    (w_pipe_failed w).
Definition set_unserved (w : World) : World :=
  mkWorld (w_pipe w) (w_command_ends w) (w_daemon_ends w) (w_chan w) (w_ready w) true true (w_log w) (w_pipe_failed w).
Definition fail_pipe (w : World) : World :=
  mkWorld (w_pipe w) (w_command_ends w) (w_daemon_ends w) (w_chan w) (w_ready w) (w_ended w) (w_unserved w) (w_log w)
    true.

(** The writing ends a process has open. *)
Definition ends (w : World) (who : role) : nat :=
  match who with Command => w_command_ends w | Daemon => w_daemon_ends w end.
Definition set_ends (w : World) (who : role) (n : nat) : World :=
  mkWorld (w_pipe w) (match who with Command => n | Daemon => w_command_ends w end)
    (match who with Command => w_daemon_ends w | Daemon => n end)
    (w_chan w) (w_ready w) (w_ended w) (w_unserved w) (w_log w) (w_pipe_failed w).

(** How a call changes the number of writing ends of the process that makes it. *)
Definition ends_after (c : syscall) (r : io_Result ()) (n : nat) : nat :=
  match c, r with
  | SC_pipe, Ok _ | SC_try_clone, Ok _ => S n
  | SC_close_writer, _ => pred n
  | _, _ => n
  end.

Definition sys_effect (who : role) (w : World) (c : syscall) (r : io_Result ()) : World :=
  set_ends (log_call w c r) who (ends_after c r (ends w who)).

Definition is_pipe_write (c : syscall) : bool := match c with SC_write_pipe _ => true | _ => false end.

(** What a step starts besides its own continuation. *)
Inductive started A :=
| Nothing
| Forked (child : proc A)
| Thread (t : proc ()).
#[global] Arguments Nothing {A}.
#[global] Arguments Forked {A} child.
#[global] Arguments Thread {A} t.

(** One call of one thread of the process [who].  [receiver] tells whether the receiving end of the
    channel exists.  A fork gives the child its own copies of the writing ends.  Reading from the
    empty pipe waits while any process has a writing end, and is the end of the file otherwise.  A
    session may end before INIT: with an error, or without one when the file system is unmounted
    that early. *)
Inductive tstep {A} (who : role) (receiver : bool) : World -> proc A -> World -> proc A -> started A -> Prop :=
| ts_sys w c k r :
    is_pipe_write c = false -> returns r -> tstep who receiver w (Sys c k) (sys_effect who w c r) (k r) Nothing
| ts_write w b k :
    tstep who receiver w (Sys (SC_write_pipe b) k) (set_pipe w (w_pipe w ++ [b])) (k (Ok ())) Nothing
| ts_write_fails w b k e :
    tstep who receiver w (Sys (SC_write_pipe b) k) (fail_pipe w) (k (Err e)) Nothing
| ts_read w b l k :
    w_pipe w = b :: l -> tstep who receiver w (ReadPipe k) (set_pipe w l) (k (Ok b)) Nothing
| ts_read_fails w k e : tstep who receiver w (ReadPipe k) (fail_pipe w) (k (Err e)) Nothing
| ts_read_eof w k :
    w_pipe w = [] -> w_command_ends w = 0 -> w_daemon_ends w = 0 ->
    tstep who receiver w (ReadPipe k) w (k (Err (CustomError OtherKind))) Nothing
| ts_euid w k b : tstep who receiver w (EuidRoot k) w (k b) Nothing
| ts_canonicalize w p k r : returns r -> tstep who receiver w (Canonicalize p k) w (k r) Nothing
| ts_image_open w p k r : returns r -> tstep who receiver w (ImageOpen p k) w (k r) Nothing
| ts_is_fifo w p k r : returns r -> tstep who receiver w (IsFifo p k) w (k r) Nothing
| ts_mountinfo w k r : returns r -> tstep who receiver w (ReadMountinfo k) w (k r) Nothing
| ts_fusermount w m k r : returns r -> tstep who receiver w (Fusermount m k) w (k r) Nothing
| ts_fork_fails w a k e : tstep who receiver w (Daemonize a k) w (k (Err e)) Nothing
| ts_fork w a k r :
    returns r ->
    tstep who receiver w (Daemonize a k) (set_ends w Daemon (ends w who)) (_ ← a; ExitP 0)
      (Forked (k r))
| ts_spawn w t k : tstep who receiver w (SpawnThread t k) w k (Thread t)
| ts_mount2_fails w f m o k e :
    tstep who receiver w (Mount2 f m o k) (set_ended w) (_ ← Fuse_drop f; k (Err e)) Nothing
| ts_mount2_unserved w f m o k :
    tstep who receiver w (Mount2 f m o k) (set_unserved w) (_ ← Fuse_drop f; k (Ok ())) Nothing
| ts_mount2 w f m o k :
    tstep who receiver w (Mount2 f m o k) (set_ready w) (f ← Fuse_init f; Serve f k) Nothing
| ts_spawn_mount2_fails w f m o k e :
    tstep who receiver w (SpawnMount2 f m o k) (set_ended w) (_ ← Fuse_drop f; k (Err e)) Nothing
| ts_spawn_mount2 w f m o k :
    tstep who receiver w (SpawnMount2 f m o k) w (k (Ok ()))
      (Thread (Mount2 f m o (fun _ => Ret ())))
| ts_unmounted w f k r : returns r -> tstep who receiver w (Serve f k) (set_ended w) (_ ← Fuse_drop f; k r) Nothing
| ts_send w k :
    receiver = true -> tstep who receiver w (Send k) (set_chan w (S (w_chan w))) (k true) Nothing
| ts_send_fails w k : receiver = false -> tstep who receiver w (Send k) w (k false) Nothing
| ts_recv w k n : w_chan w = S n -> tstep who receiver w (Recv k) (set_chan w n) k Nothing.

(** A thread that has finished, with the exit status of its process if it is the main thread. *)
Definition finished_with (p : proc (outcome cli_error ())) : option Z :=
  match p with
  | Ret (Ok _) => Some 0%Z
  | Ret (Err _) => Some 1%Z
  | Ret _ => Some 101%Z
  | ExitP c => Some c
  | PanicP => Some 101%Z
  | _ => None
  end.

(** ** The background command and its daemon *)

Inductive process := Alive (p : proc (outcome cli_error ())) | Exited (status : Z) | Killed.

Record Bg := mkBg { bg_world : World; bg_command : process; bg_daemon : option process }.

Definition bg_start (p : proc (outcome cli_error ())) : Bg :=
  mkBg new_world (Alive p) None.

(** One step of the command, or of the daemon once there is one.  A process that ends closes its
    ends of the pipe. *)
Inductive bstep : Bg -> Bg -> Prop :=
| bs_command w p w' p' d :
    tstep Command false w p w' p' Nothing -> bstep (mkBg w (Alive p) d) (mkBg w' (Alive p') d)
| bs_fork w p w' p' c :
    tstep Command false w p w' p' (Forked c) -> bstep (mkBg w (Alive p) None) (mkBg w' (Alive p') (Some (Alive c)))
| bs_command_exits w p d s :
    finished_with p = Some s -> bstep (mkBg w (Alive p) d) (mkBg (set_ends w Command 0) (Exited s) d)
| bs_daemon w c p w' p' :
    tstep Daemon false w p w' p' Nothing -> bstep (mkBg w c (Some (Alive p))) (mkBg w' c (Some (Alive p')))
| bs_daemon_exits w c p s :
    finished_with p = Some s ->
    bstep (mkBg w c (Some (Alive p))) (mkBg (set_ends w Daemon 0) c (Some (Exited s))).

(** The daemon may also be killed, at any time. *)
Inductive bkill : Bg -> Bg -> Prop :=
| bk_kill w c p : bkill (mkBg w c (Some (Alive p))) (mkBg (set_ends w Daemon 0) c (Some Killed)).

Definition bany (s s' : Bg) : Prop := bstep s s' \/ bkill s s'.

(** ** The foreground command and its threads *)

Record Fg := mkFg {
  fg_world : World;
  fg_main : process;
  fg_threads : list (proc ());
  fg_pressed : bool             (* ctrl-c *)
}.

Definition fg_start (p : proc (outcome cli_error ())) : Fg :=
  mkFg new_world (Alive p) [] false.

(** The receiving end of the channel lives until the main thread returns. *)
Definition receiver_alive (p : proc (outcome cli_error ())) : bool := bool_decide (finished_with p = None).

Definition started_threads {A} (st : started A) : list (proc ()) :=
  match st with Thread t => [t] | _ => [] end.

(** A step of the main thread, of another thread, or of the user; when the main thread has
    returned the process ends, with all its threads. *)
Inductive fstep : Fg -> Fg -> Prop :=
| fs_main w p w' p' st ts c :
    (forall d, st ≠ Forked d) -> tstep Command true w p w' p' st ->
    fstep (mkFg w (Alive p) ts c) (mkFg w' (Alive p') (ts ++ started_threads st) c)
| fs_main_exits w p ts c s :
    finished_with p = Some s -> fstep (mkFg w (Alive p) ts c) (mkFg w (Exited s) [] c)
| fs_thread w p l1 t l2 w' t' st c :
    (forall d, st ≠ Forked d) -> tstep Command (receiver_alive p) w t w' t' st ->
    fstep (mkFg w (Alive p) (l1 ++ t :: l2) c) (mkFg w' (Alive p) (l1 ++ t' :: l2 ++ started_threads st) c)
| fs_ctrlc w p ts c :
    (SC_set_ctrlc_handler, Ok ()) ∈ w_log w ->
    fstep (mkFg w (Alive p) ts c) (mkFg w (Alive p) (ts ++ [ctrlc_handler]) true).

End mount.
