(* ===== verification/MountFacts.v ===== *)
(** What the exit status of the background [mount] command says: a success it reports is a mounted
    file system. *)

From S2P Require Import Prelude Errors RustStd Capnp Format Digest InodeTable Compression Oci Reader FsStream Chunks Verity Walk Extractor Builder Main Mount.
From stdpp Require Import relations.

Section mount_facts.
Context {P : Profile} {R : OsRead} {ZS : ZstdSeekable}.
Context {H : Hex} {SH : Sha256} {V : FsVerity} {D : OciDigest} {OD : OciDir} {W : CapnpWire}.

(** ** A success reported by the command is a mounted file system *)

(** Weakest precondition of a thread for the protocol on the pipe: ["s"] is written only when the
    session is known to be initialised ([known]), and it is known to be when something other than
    ["f"] was read; only the command reads.  [Q] and [E] are the demands on returning and on exiting; the first argument
    tells the command ([true]) from its daemon. *)
Fixpoint wp {A : Type} (p : proc A) (cmd known : bool) (Q : bool -> A -> bool -> Prop)
    (E : bool -> Z -> bool -> Prop) : Prop :=
  match p with
  | Ret a => Q cmd a known
  | ExitP c => E cmd c known
  | PanicP => E cmd 101%Z known
  | Sys c k => match c with SC_write_pipe b => b = x66 \/ known = true | _ => True end /\
               forall r, wp (k r) cmd known Q E
  | EuidRoot k => forall r, wp (k r) cmd known Q E
  | Canonicalize _ k => forall r, wp (k r) cmd known Q E
  | ImageOpen _ k => forall r, wp (k r) cmd known Q E
  | ReadPipe k => cmd = true /\ forall b, wp (k (Ok b)) cmd (known || bool_decide (b ≠ x66)) Q E
  | IsFifo _ k => forall r, wp (k r) cmd known Q E
  | ReadMountinfo k => forall r, wp (k r) cmd known Q E
  | Fusermount _ k => forall r, wp (k r) cmd known Q E
  | Daemonize a k =>
      wp a cmd known (fun cmd _ known => E cmd 0%Z known) E /\ (forall e, wp (k (Err e)) cmd known Q E) /\
      forall r, wp (k r) false known Q E
  | SpawnThread t k => wp k cmd known Q E
  | Mount2 _ _ _ k => (forall r, wp (k r) cmd known Q E) /\ (forall r, wp (k r) cmd true Q E) /\
                      E cmd 101%Z known /\ E cmd 101%Z true
  | SpawnMount2 _ _ _ k => (forall r, wp (k r) cmd known Q E) /\ E cmd 101%Z known
  | Serve _ k => (forall r, wp (k r) cmd known Q E) /\ E cmd 101%Z known
  | Send k => forall b, wp (k b) cmd known Q E
  | Recv k => wp k cmd known Q E
  end.

Lemma wp_bind {A B : Type} (p : proc A) (h : A -> proc B) cmd known Q E :
  wp p cmd known (fun cmd a known => wp (h a) cmd known Q E) E -> wp (p ≫= h) cmd known Q E.
Proof.
  unfold mbind, proc_bind. revert cmd known.
  induction p as [ | | |A c k IH|A k IH|A ? k IH|A ? k IH|A k IH|A ? k IH|A k IH|A ? k IH|A a IHa k IH|A t _ k IH
                 |A ? ? ? k IH|A ? ? ? k IH|A ? k IH|A k IH|A k IH]; intros cmd known; cbn; try done; naive_solver.
Qed.

(** The bytes in the pipe tell the truth. *)
Definition pipe_ok (w : World) : Prop := Forall (fun b => b = x66 \/ w_ready w = true) (w_pipe w).

Definition knows (w : World) (known : bool) : Prop := known = true -> w_ready w = true.

Lemma wp_drop {A : Type} f (q : proc A) cmd known Q E :
  E cmd 101%Z known -> wp q cmd known Q E -> wp (_ ← Fuse_drop f; q) cmd known Q E.
Proof.
  intros HE Hq. apply wp_bind. unfold Fuse_drop, drop_notify.
  destruct (fu_sender f), (fu_init_notify f) as [[]|]; cbn; try done; intros []; try split; done.
Qed.

Lemma wp_init {A : Type} f (k : io_Result () -> proc A) cmd Q E :
  (forall r, wp (k r) cmd true Q E) -> E cmd 101%Z true -> wp (f ← Fuse_init f; Serve f k) cmd true Q E.
Proof.
  intros Hk HE. apply wp_bind. unfold Fuse_init. destruct (fu_init_notify f) as [[]|]; cbn; auto.
Qed.

(** A writing end is open: the pipe is not at its end. *)
Definition writer_open {A : Type} (w : World) (p : proc A) : Prop :=
  match p with ReadPipe _ => w_command_ends w ≠ 0 \/ w_daemon_ends w ≠ 0 | _ => True end.

Lemma wp_tstep {A : Type} who w (p : proc A) w' p' st cmd known Q E :
  tstep who false w p w' p' st -> w_pipe_failed w' = false -> (cmd = true -> writer_open w p) -> pipe_ok w ->
  knows w known ->
  wp p cmd known Q E ->
  exists known', knows w' known' /\ pipe_ok w' /\ wp p' cmd known' Q E /\
    forall c, st = Forked c -> wp c false known' Q E.
Proof.
  unfold pipe_ok, knows. intros Ht Hf Hopen Hpipe Hkn Hwp.
  destruct Ht as [ | | |w b l k Hl| |w k ? ? ?| | | | | | | |w a k r _| | | |w f m o k| | | | | | ]; cbn in *;
    try discriminate Hf.
  all: try (exists known; split_and!; [done | done | destruct_and?; eauto using wp_drop | done]; fail).
  - destruct Hwp as [Hb Hk]. exists known. split_and!; [done | | done | done]. apply Forall_app; split; [done|].
    constructor; [|done]. destruct Hb; [by left | right; auto].
  - rewrite Hl in Hpipe. apply Forall_cons in Hpipe as [Hb Hpipe]. destruct Hwp as [-> Hwp]. eexists _. split_and!; [|done..].
    intros [Hk|Hk]%orb_true_iff; [auto|]. apply bool_decide_eq_true in Hk. by destruct Hb.
  - destruct Hwp as [-> _]. by destruct (Hopen eq_refl).
  - exists known. destruct Hwp as (Ha & _ & Hk). split_and!; [done | done | by apply wp_bind |].
    intros c [= <-]. apply Hk.
  - exists true. destruct_and!. split_and!; [done | | by apply wp_init | done].
    eapply Forall_impl; [exact Hpipe|]. intros b _. by right.
Qed.

Definition Q_mount (cmd : bool) (r : outcome cli_error ()) (known : bool) : Prop :=
  cmd = true -> finished_with (Ret r) = Some 0%Z -> known = true.
Definition E_mount (cmd : bool) (c : Z) (known : bool) : Prop := cmd = true -> c = 0%Z -> known = true.

(** A thread of the command or of the daemon that keeps to the protocol. *)
Definition thread_inv (w : World) (cmd : bool) (c : process) : Prop :=
  match c with
  | Alive p => exists known, knows w known /\ wp p cmd known Q_mount E_mount
  | Exited c => cmd = true -> c = 0%Z -> w_ready w = true
  | Killed => True
  end.

(** The writing ends of the command: with [n] of them open, it has one whenever it reads.  [Q] is
    the demand on returning. *)
Fixpoint holds {A : Type} (p : proc A) (n : nat) (Q : A -> nat -> Prop) : Prop :=
  match p with
  | Ret a => Q a n
  | ExitP _ | PanicP => True
  | Sys c k => forall r, holds (k r) (ends_after c r n) Q
  | EuidRoot k => forall r, holds (k r) n Q
  | Canonicalize _ k => forall r, holds (k r) n Q
  | ImageOpen _ k => forall r, holds (k r) n Q
  | IsFifo _ k => forall r, holds (k r) n Q
  | ReadMountinfo k => forall r, holds (k r) n Q
  | Fusermount _ k => forall r, holds (k r) n Q
  | ReadPipe k => n ≠ 0 /\ forall r, holds (k r) n Q
  | Daemonize a k => holds a n (fun _ _ => True) /\ forall e, holds (k (Err e)) n Q
  | _ => False
  end.

Lemma holds_bind {A B : Type} (p : proc A) (h : A -> proc B) n Q :
  holds p n (fun a n => holds (h a) n Q) -> holds (p ≫= h) n Q.
Proof. unfold mbind, proc_bind. revert n. induction p; cbn; intros n; try done; naive_solver. Qed.

Lemma holds_mono {A : Type} (p : proc A) n (Q Q' : A -> nat -> Prop) :
  (forall a n, Q a n -> Q' a n) -> holds p n Q -> holds p n Q'.
Proof. intros HQ. revert n. induction p; cbn; intros n; try done; naive_solver. Qed.

(** Nothing is demanded on returning. *)
Abbreviation holds_end p n := (holds p n (fun _ _ => True)).

Lemma holds_tstep {A : Type} w (p : proc A) w' p' st :
  tstep Command false w p w' p' st -> holds_end p (w_command_ends w) -> holds_end p' (w_command_ends w').
Proof. destruct 1; cbn; try naive_solver. intros [Ha _]. by apply holds_bind. Qed.

Lemma tstep_daemon_ends {A : Type} w (p : proc A) w' p' st :
  tstep Daemon false w p w' p' st -> w_command_ends w' = w_command_ends w.
Proof. by destruct 1. Qed.

(** The command, while it runs, keeps to [holds]. *)
Definition command_holds (s : Bg) : Prop :=
  forall p, bg_command s = Alive p -> holds_end p (w_command_ends (bg_world s)).

Lemma command_holds_step s s' : bany s s' -> command_holds s -> command_holds s'.
Proof.
  intros [Hs|Hk] Hinv q Hq; [|destruct Hk; by apply Hinv].
  destruct Hs as [w p w' p' d Ht|w p w' p' c Ht|w p d st Hfin|w c p w' p' Ht|w c p st Hfin]; cbn in *; simplify_eq.
  - eapply holds_tstep; [done|]. by apply Hinv.
  - eapply holds_tstep; [done|]. by apply Hinv.
  - rewrite (tstep_daemon_ends _ _ _ _ _ Ht). by apply Hinv.
  - by apply Hinv.
Qed.

Definition bg_inv (s : Bg) : Prop :=
  w_pipe_failed (bg_world s) = false ->
  pipe_ok (bg_world s) /\ thread_inv (bg_world s) true (bg_command s) /\
  forall d, bg_daemon s = Some d -> thread_inv (bg_world s) false d.

Lemma tstep_mono {A : Type} who w (p : proc A) w' p' st :
  tstep who false w p w' p' st ->
  (w_ready w = true -> w_ready w' = true) /\ (w_pipe_failed w' = false -> w_pipe_failed w = false).
Proof. by destruct 1. Qed.

Lemma thread_inv_mono w w' cmd c :
  (w_ready w = true -> w_ready w' = true) -> thread_inv w cmd c -> thread_inv w' cmd c.
Proof.
  intros Hr. destruct c as [p| |]; cbn; [|by eauto..]. intros (known & Hk & Hw). exists known. split; [|done].
  intros ?. auto.
Qed.

Lemma thread_inv_tstep who w p w' p' st cmd :
  tstep who false w p w' p' st -> w_pipe_failed w' = false -> (cmd = true -> writer_open w p) -> pipe_ok w -> thread_inv w cmd (Alive p) ->
  pipe_ok w' /\ thread_inv w' cmd (Alive p') /\ forall c, st = Forked c -> thread_inv w' false (Alive c).
Proof.
  intros Ht Hf Ho Hp (known & Hk & Hw).
  destruct (wp_tstep _ _ _ _ _ _ _ _ _ _ Ht Hf Ho Hp Hk Hw) as (known' & Hk' & Hp' & Hw' & Hc).
  split; [done|]. split; [by exists known'|]. intros c Hst. exists known'. auto.
Qed.

Lemma thread_inv_exits w cmd p c : thread_inv w cmd (Alive p) -> finished_with p = Some c -> thread_inv w cmd (Exited c).
Proof.
  intros (known & Hk & Hw) Hfin Hcmd ->. apply Hk.
  destruct p; cbn in Hfin; try discriminate Hfin; apply Hw; try done; congruence.
Qed.

Lemma writer_open_holds {A : Type} w (p : proc A) : holds_end p (w_command_ends w) -> writer_open w p.
Proof. destruct p; cbn; naive_solver. Qed.

Lemma bg_inv_step s s' : bany s s' -> command_holds s -> bg_inv s -> bg_inv s'.
Proof.
  intros [Hs|Hk] Hholds Hinv Hf.
  - assert (forall p, bg_command s = Alive p -> true = true -> writer_open (bg_world s) p) as Ho
      by (intros p Hp _; by apply writer_open_holds, Hholds).
    destruct Hs as [w p w' p' d Ht|w p w' p' c Ht|w p d st Hfin|w c p w' p' Ht|w c p st Hfin]; cbn in *;
      try specialize (Ho _ eq_refl).
    + destruct (tstep_mono _ _ _ _ _ _ Ht) as [Hr Hf0]. destruct Hinv as (Hp & Hc & Hd); [by apply Hf0|]. cbn in *.
      destruct (thread_inv_tstep _ _ _ _ _ _ _ Ht Hf Ho Hp Hc) as (? & ? & _). split; [done|]. split; [done|].
      intros d0 Hd0. eapply thread_inv_mono; [done|]. by apply Hd.
    + destruct (tstep_mono _ _ _ _ _ _ Ht) as [Hr Hf0]. destruct Hinv as (Hp & Hc & Hd); [by apply Hf0|]. cbn in *.
      destruct (thread_inv_tstep _ _ _ _ _ _ _ Ht Hf Ho Hp Hc) as (? & ? & Hst). split; [done|]. split; [done|].
      intros d0 [= <-]. by apply Hst.
    + destruct Hinv as (Hp & Hc & Hd); [done|]. split; [done|]. split; [by eapply thread_inv_exits|done].
    + destruct (tstep_mono _ _ _ _ _ _ Ht) as [Hr Hf0]. destruct Hinv as (Hp & Hc & Hd); [by apply Hf0|]. cbn in *.
      destruct (thread_inv_tstep _ _ _ _ _ _ _ Ht Hf (fun E : false = true => False_ind _ (diff_false_true E)) Hp (Hd _ eq_refl)) as (? & ? & _). split; [done|].
      split; [by eapply thread_inv_mono|]. by intros d0 [= <-].
    + destruct Hinv as (Hp & Hc & Hd); [done|]. split; [done|]. split; [done|]. intros d0 [= <-].
      eapply thread_inv_exits; [|done]. by eapply thread_inv_mono; [|by apply Hd].
  - destruct Hk as [w c p]. destruct Hinv as (Hp & Hc & Hd); [done|]. split; [done|]. split; [done|].
    by intros d0 [= <-].
Qed.

(** Every branch of the command keeps to the protocol. *)
Lemma wp_mono {A : Type} (p : proc A) cmd known (Q Q' : bool -> A -> bool -> Prop) E :
  (forall cmd a known, Q cmd a known -> Q' cmd a known) -> wp p cmd known Q E -> wp p cmd known Q' E.
Proof.
  revert cmd known.
  induction p as [ | | |A c k IH|A k IH|A ? k IH|A ? k IH|A k IH|A ? k IH|A k IH|A ? k IH|A a IHa k IH|A t _ k IH
                 |A ? ? ? k IH|A ? ? ? k IH|A ? k IH|A k IH|A k IH]; intros cmd known HQ; cbn; try done; naive_solver.
Qed.

Lemma wp_try {A B : Type} (p : proc (outcome cli_error A)) (k : A -> proc (outcome cli_error B)) cmd known Q E :
  wp p cmd known (fun cmd r known => match r with
                                     | Ok a => wp (k a) cmd known Q E
                                     | Err e => Q cmd (Err e) known
                                     | Panic => Q cmd Panic known
                                     | Diverged => Q cmd Diverged known
                                     end) E ->
  wp (try_ p k) cmd known Q E.
Proof. intros Hp. unfold try_. apply wp_bind. eapply wp_mono; [|exact Hp]. by intros ? [] ?. Qed.

#[local] Arguments try_ : simpl never.
#[local] Arguments mbind : simpl never.

(** The code common to the background branches: nothing is claimed about the daemon's status. *)
Lemma wp_mount_background image tag mountpoint options verity (action : proc (outcome cli_error ())) :
  (forall cmd known, wp action cmd known (fun cmd' _ known' => cmd' = cmd /\ known' = known) E_mount) ->
  wp (r ← mount_background image tag mountpoint options verity action; report_failure r) true false Q_mount E_mount.
Proof.
  intros Ha. unfold mount_background. apply wp_bind, wp_try. cbn. split_and!.
  - done.
  - intros b. case_decide as Hb; cbn; [by intros _|]. apply wp_bind. eapply wp_mono; [|apply Ha].
    intros cmd r known [-> ->]. cbn. intros _ _. by rewrite bool_decide_eq_true_2.
  - intros e. split; [by left|]. by intros _ _.
  - intros r. destruct r as [[]| | |]; cbn; [ |by split; [left | intros _]|done..].
    apply wp_try. cbn. split; [done|]. intros r. destruct r as [[]| | |]; cbn; [ |by split; [left | intros _]|done..].
    apply wp_bind. unfold mount. apply wp_bind. unfold open_or_drop.
    destruct (PuzzleFS_open image tag verity) as [pfs|e| |]; cbn; [ |split; [done|]; by split; [left | intros _]|done..].
    split_and!; [| |done..]; intros [[]| | |]; cbn; try done; by split; [left|].
Qed.

Lemma wp_mount_overlay mountpoint pfs_mountpoint persist cmd known :
  wp (mount_overlay mountpoint pfs_mountpoint persist) cmd known
    (fun cmd' _ known' => cmd' = cmd /\ known' = known) E_mount.
Proof.
  unfold mount_overlay. apply wp_try. cbn. split; [done|]. intros [[]| | |]; cbn; try done.
  apply wp_try. cbn. split; [done|]. by intros [[]| | |].
Qed.

Lemma wp_main_mount m : ma_foreground m = false -> wp (main_mount m) true false Q_mount E_mount.
Proof.
  intros Hfg. unfold main_mount. rewrite Hfg.
  apply wp_try. unfold init_syslog. apply wp_try. cbn. split; [done|]. intros [[]| | |]; cbn; try done.
  split; [done|]. intros [[]| | |]; cbn; try done. apply wp_try.
  assert (forall q : proc (outcome cli_error ()), wp q true false Q_mount E_mount ->
    wp (if ma_writable m || bool_decide (is_Some (ma_persist m))
        then EuidRoot (fun root => Ret (if root : bool then Ok () else Err NotRoot)) else pure (Ok ()))
      true false (fun cmd r known => match r with Ok _ => wp q cmd known Q_mount E_mount | Err e => Q_mount cmd (Err e) known
                                              | Panic => Q_mount cmd Panic known | Diverged => Q_mount cmd Diverged known end)
      E_mount) as Hroot by (intros q Hq; destruct (_ || _); cbn; [by intros [] | done]).
  apply Hroot. clear Hroot. apply wp_try. destruct (parse_oci_dir _) as [[dir tag]|e| |]; cbn; try done.
  apply wp_try. cbn. intros [oci_dir| | |]; cbn; try done.
  apply wp_try. cbn. intros [image| | |]; cbn; try done.
  apply wp_try. cbn. intros [mountpoint| | |]; cbn; try done.
  apply wp_try. cbn. destruct (transpose _) as [verity| | |]; cbn; try done.
  destruct (_ || _).
  - unfold mount_writable. apply wp_try. cbn. split; [done|]. intros [[]| | |]; cbn; try done.
    apply wp_try. cbn. split; [done|]. intros [[]| | |]; cbn; try done.
    apply wp_mount_background. intros. apply wp_mount_overlay.
  - unfold mount_daemon. apply wp_try. cbn. split; [done|]. intros [[]| | |]; cbn; try done.
    apply wp_mount_background. by intros.
Qed.

(** The command has a writing end whenever it reads. *)
Lemma holds_try {A B : Type} (p : proc (outcome cli_error A)) (k : A -> proc (outcome cli_error B)) n :
  holds p n (fun r n => match r with Ok a => holds_end (k a) n | _ => True end) -> holds_end (try_ p k) n.
Proof. intros Hp. apply holds_bind. eapply holds_mono; [|exact Hp]. by intros []. Qed.

Lemma holds_mount_overlay mountpoint pfs_mountpoint persist n :
  holds_end (mount_overlay mountpoint pfs_mountpoint persist) n.
Proof.
  unfold mount_overlay. apply holds_try. cbn. intros [[]| | |]; cbn; try done.
  apply holds_try. cbn. by intros [[]| | |].
Qed.

(** The parent of the daemon made the pipe and never closes its writing end. *)
Lemma holds_mount_background image tag mountpoint options verity (action : proc (outcome cli_error ())) n :
  (forall n, holds_end action n) ->
  holds_end (r ← mount_background image tag mountpoint options verity action; report_failure r) (S n).
Proof.
  intros Ha. unfold mount_background. apply holds_bind, holds_bind. cbn. split; [|done]. split; [done|].
  intros [b| | |]; [case_decide; [done|]|..]; by apply holds_bind.
Qed.

Lemma holds_main_mount m n : ma_foreground m = false -> holds_end (main_mount m) n.
Proof.
  intros Hfg. unfold main_mount. rewrite Hfg.
  apply holds_try. unfold init_syslog. apply holds_bind. cbn. intros [[]| | |]; cbn; try done.
  intros [[]| | |]; cbn; try done.
  apply holds_try. apply (holds_mono _ _ (fun _ n' => n' = n)); [|by destruct (_ || _)].
  intros [[]| | |] ? ->; try done.
  apply holds_try. cbn. destruct (parse_oci_dir _) as [[dir tag]|e| |]; cbn; try done.
  apply holds_try. cbn. intros [oci_dir| | |]; cbn; try done.
  apply holds_try. cbn. intros [image| | |]; cbn; try done.
  apply holds_try. cbn. intros [mountpoint| | |]; cbn; try done.
  apply holds_try. cbn. destruct (transpose _) as [verity| | |]; cbn; try done.
  destruct (_ || _).
  - apply holds_try. cbn. intros [[]| | |]; cbn; try done.
    apply holds_try. cbn. intros [[]| | |]; cbn; try done.
    apply holds_mount_background. intros. apply holds_mount_overlay.
  - apply holds_try. cbn. intros [[]| | |]; cbn; try done. by apply holds_mount_background.
Qed.

Lemma command_holds_run m s :
  ma_foreground m = false -> rtc bany (bg_start (main_mount m)) s -> command_holds s.
Proof.
  intros Hfg. apply (rtc_ind_r command_holds).
  - intros p [= <-]. by apply holds_main_mount.
  - intros s1 s2 _ Hs. by apply command_holds_step.
Qed.

(** C17: the background [mount] command reports success only for a mounted file system.  In every
    run, over all answers of the operating system and all interleavings of the command with its
    daemon, which may fail or be killed at any time: if the command exits with status 0, then the
    kernel's INIT request had reached the file system, for an ordinary and for a writable mount.
    (A failing transfer over the pipe between the two is the one exception.) *)
Theorem mount_background_truthful (m : MountArgs) (s : Bg) :
  ma_foreground m = false -> rtc bany (bg_start (main_mount m)) s ->
  bg_command s = Exited 0 -> w_pipe_failed (bg_world s) = false -> w_ready (bg_world s) = true.
Proof.
  intros Hfg Hrun Hex Hf.
  assert (bg_inv s) as Hinv.
  { revert Hrun. apply (rtc_ind_r bg_inv).
    - intros _. cbn. split; [apply Forall_nil_2|]. split; [|done]. exists false. split; [done|]. by apply wp_main_mount.
    - intros s1 s2 Hrun1 Hs. apply bg_inv_step; [done|]. by eapply command_holds_run. }
  destruct (Hinv Hf) as (_ & Hc & _). rewrite Hex in Hc. by apply Hc.
Qed.

End mount_facts.
