(* ===== verification/MountLive.v ===== *)
(** The background [mount] command always reports, unless its daemon dies without a word; and a
    writable mount reports success even without its overlay. *)

From S2P Require Import Prelude Errors RustStd Capnp Format Digest InodeTable Compression Oci Reader ReaderSafe FsStream Chunks Verity Walk Extractor Builder Main Mount MountFacts.
From stdpp Require Import relations.

Section mount_live.
Context {P : Profile} {R : OsRead} {ZS : ZstdSeekable}.
Context {H : Hex} {SH : Sha256} {V : FsVerity} {D : OciDigest} {OD : OciDir} {W : CapnpWire}.

#[local] Arguments try_ : simpl never.
#[local] Arguments mbind : simpl never.

(** ** The background command always reports *)

(** Steps of one thread, whatever the world. *)
Definition pstep {A : Type} (p' p : proc A) : Prop := exists who w w' st, tstep who false w p w' p' st.

Ltac pstep_inv := intros ? (? & ? & ? & ? & Ht); inversion Ht; subst; clear Ht; eauto.

Lemma acc_ret {A : Type} (a : A) : Acc pstep (Ret a).
Proof. constructor. pstep_inv. Qed.

Lemma acc_exit {A : Type} c : Acc (@pstep A) (ExitP c).
Proof. constructor. pstep_inv. Qed.

Lemma acc_panic {A : Type} : Acc (@pstep A) PanicP.
Proof. constructor. pstep_inv. Qed.

Lemma acc_sys {A : Type} c (k : io_Result () -> proc A) : (forall r, Acc pstep (k r)) -> Acc pstep (Sys c k).
Proof. intros Hk. constructor. pstep_inv. Qed.

Lemma acc_send {A : Type} (k : bool -> proc A) : (forall b, Acc pstep (k b)) -> Acc pstep (Send k).
Proof. intros Hk. constructor. pstep_inv. Qed.

Lemma acc_drop {A : Type} f (q : proc A) : Acc pstep q -> Acc pstep (_ ← Fuse_drop f; q).
Proof.
  intros Hq. unfold Fuse_drop, drop_notify, mbind, proc_bind.
  destruct (fu_sender f), (fu_init_notify f) as [[]|];
    cbn; repeat first [exact Hq | exact acc_panic | refine (acc_send _ _); intros [] | refine (acc_sys _ _ _); intros _].
Qed.

Lemma acc_serve {A : Type} f (k : io_Result () -> proc A) : (forall r, Acc pstep (k r)) -> Acc pstep (Serve f k).
Proof. intros Hk. constructor. pstep_inv. by apply acc_drop. Qed.

Lemma acc_init {A : Type} f (k : io_Result () -> proc A) :
  (forall r, Acc pstep (k r)) -> Acc pstep (f ← Fuse_init f; Serve f k).
Proof.
  intros Hk. unfold Fuse_init. destruct (fu_init_notify f) as [[]|]; unfold mbind, proc_bind;
    [apply acc_sys; intros _; apply acc_sys; intros _; by apply acc_serve | constructor; pstep_inv; by apply acc_serve
    | by apply acc_serve].
Qed.

Lemma acc_bind {A B : Type} (p : proc A) (h : A -> proc B) :
  (forall a, Acc pstep (h a)) -> Acc pstep (p ≫= h).
Proof.
  intros Hh. revert B h Hh.
  induction p as [ | | |A c k IH|A k IH|A ? k IH|A ? k IH|A k IH|A ? k IH|A k IH|A ? k IH|A a IHa k IH|A t _ k IH
                 |A ? ? ? k IH|A ? ? ? k IH|A ? k IH|A k IH|A k IH]; intros B h Hh; [apply Hh|apply acc_exit|apply acc_panic|..].
  all: constructor; unfold mbind, proc_bind; pstep_inv.
  - apply IHa. intros _. apply acc_exit.
  - apply acc_drop. by apply IH.
  - apply acc_drop. by apply IH.
  - apply acc_init. intros r. by apply IH.
  - apply acc_drop. by apply IH.
  - apply acc_drop. by apply IH.
Qed.

Lemma acc_all {A : Type} (p : proc A) : Acc pstep p.
Proof.
  induction p as [ | | |A c k IH|A k IH|A ? k IH|A ? k IH|A k IH|A ? k IH|A k IH|A ? k IH|A a IHa k IH|A t _ k IH
                 |A ? ? ? k IH|A ? ? ? k IH|A ? k IH|A k IH|A k IH]; [apply acc_ret|apply acc_exit|apply acc_panic|..].
  all: constructor; pstep_inv; auto using acc_drop, acc_init.
  apply acc_bind. intros _. apply acc_exit.
Qed.

(** Every call of the thread can be answered without the daemon's help. *)
Fixpoint runs {A : Type} (p : proc A) : Prop :=
  match p with
  | Ret _ | ExitP _ | PanicP => True
  | Sys c k => is_pipe_write c = false /\ forall r, runs (k r)
  | EuidRoot k => forall r, runs (k r)
  | Canonicalize _ k => forall r, runs (k r)
  | ImageOpen _ k => forall r, runs (k r)
  | IsFifo _ k => forall r, runs (k r)
  | ReadMountinfo k => forall r, runs (k r)
  | Fusermount _ k => forall r, runs (k r)
  | _ => False
  end.

(** The thread writes to the pipe on every path before it ends or blocks. *)
Fixpoint owes {A : Type} (p : proc A) : Prop :=
  match p with
  | Sys c k => is_pipe_write c = true \/ forall r, returns r -> owes (k r)
  | Mount2 f _ _ k =>
      fu_init_notify f = Some UnnamedPipe /\ fu_sender f = false /\ forall e, owes (k (Err e))
  | _ => False
  end.

(** The thread does not read from the pipe. *)
Fixpoint noreads {A : Type} (p : proc A) : Prop :=
  match p with
  | Ret _ | ExitP _ | PanicP => True
  | Sys _ k => forall r, noreads (k r)
  | EuidRoot k => forall r, noreads (k r)
  | Canonicalize _ k => forall r, noreads (k r)
  | ImageOpen _ k => forall r, noreads (k r)
  | IsFifo _ k => forall r, noreads (k r)
  | ReadMountinfo k => forall r, noreads (k r)
  | Fusermount _ k => forall r, noreads (k r)
  | SpawnThread _ k => noreads k
  | Mount2 _ _ _ k => forall r, noreads (k r)
  | SpawnMount2 _ _ _ k => forall r, noreads (k r)
  | Serve _ k => forall r, noreads (k r)
  | Send k => forall b, noreads (k b)
  | Recv k => noreads k
  | ReadPipe _ | Daemonize _ _ => False
  end.

(** The command before the fork: afterwards it waits for one byte, and the daemon owes it. *)
Fixpoint forks {A : Type} (p : proc A) : Prop :=
  match p with
  | Ret _ | ExitP _ | PanicP => True
  | Sys c k => forall r, returns r -> forks (k r)
  | EuidRoot k => forall r, forks (k r)
  | Canonicalize _ k => forall r, returns r -> forks (k r)
  | ImageOpen _ k => forall r, returns r -> forks (k r)
  | IsFifo _ k => forall r, returns r -> forks (k r)
  | ReadMountinfo k => forall r, returns r -> forks (k r)
  | Fusermount _ k => forall r, returns r -> forks (k r)
  | Daemonize a k =>
      match a with ReadPipe ka => forall r, runs (ka r) | _ => False end /\
      (forall e, forks (k (Err e))) /\ forall r, returns r -> owes (k r) /\ noreads (k r)
  | _ => False
  end.

(** [q] holds of every run sooner or later, along the steps [step]. *)
Inductive eventually {S : Type} (step : S -> S -> Prop) (q : S -> Prop) (s : S) : Prop :=
| ev_now : q s -> eventually step q s
| ev_later : (exists s', step s s') -> (forall s', step s s' -> eventually step q s') -> eventually step q s.

(** Steps of the two processes with a working pipe between them, and no session that ends without
    an error before the kernel's INIT request came. *)
Definition bok (s s' : Bg) : Prop :=
  bstep s s' /\ w_pipe_failed (bg_world s') = false /\ w_unserved (bg_world s') = false.

Definition reported (s : Bg) : Prop := exists c, bg_command s = Exited c.

Definition waiting (w : World) (d : option process) (p : proc (outcome cli_error ())) : Prop :=
  (d = None /\ forks p) \/ runs p \/
  match p with
  | ReadPipe k => (forall r, runs (k r)) /\ (w_pipe w ≠ [] \/ exists q, d = Some (Alive q) /\ owes q)
  | _ => False
  end.

Lemma runs_bind {A B : Type} (p : proc A) (h : A -> proc B) : runs p -> (forall a, runs (h a)) -> runs (p ≫= h).
Proof.
  intros Hp Hh. revert Hp. unfold mbind, proc_bind.
  induction p; cbn; try done; naive_solver.
Qed.

Lemma noreads_drop {A : Type} f (q : proc A) : noreads q -> noreads (_ ← Fuse_drop f; q).
Proof.
  intros Hq. unfold Fuse_drop, drop_notify, mbind, proc_bind.
  destruct (fu_sender f), (fu_init_notify f) as [[]|]; cbn; try done; by intros [].
Qed.

Lemma noreads_init {A : Type} f (k : io_Result () -> proc A) :
  (forall r, noreads (k r)) -> noreads (f ← Fuse_init f; Serve f k).
Proof. intros Hk. unfold Fuse_init, mbind, proc_bind. by destruct (fu_init_notify f) as [[]|]; cbn. Qed.

Lemma noreads_tstep {A : Type} who w (p : proc A) w' p' st :
  tstep who false w p w' p' st -> noreads p -> noreads p' /\ (w_pipe w ≠ [] -> w_pipe w' ≠ []).
Proof.
  destruct 1; cbn; intros Hn; try done; split; auto using noreads_drop, noreads_init.
  intros _ Hp. by apply app_eq_nil in Hp as [].
Qed.

Lemma runs_tstep {A : Type} who w (p : proc A) w' p' st : tstep who false w p w' p' st -> runs p -> runs p' /\ st = Nothing.
Proof. destruct 1; cbn; naive_solver. Qed.

Lemma owes_tstep {A : Type} who w (p : proc A) w' p' st :
  tstep who false w p w' p' st -> w_pipe_failed w' = false -> w_unserved w' = false -> owes p -> owes p' \/ w_pipe w' ≠ [].
Proof.
  destruct 1 as [w c k r Hc Hr| | | | | | | | | | | | | | |w f m o k e| |w f m o k| | | | | | ]; cbn; intros Hf Hu Ho;
    try done.
  - left. destruct Ho as [Ho|Ho]; [congruence | by apply Ho].
  - right. intros Hp. by apply app_eq_nil in Hp as [].
  - left. destruct Ho as (Hi & Hs & Hk). unfold Fuse_drop, drop_notify, mbind, proc_bind. rewrite Hs, Hi. cbn. right.
    intros _ _. apply Hk.
  - left. destruct Ho as (Hi & _ & _). unfold Fuse_init, mbind, proc_bind. rewrite Hi. cbn. by left.
Qed.

Lemma forks_tstep {A : Type} who w (p : proc A) w' p' st :
  tstep who false w p w' p' st -> forks p ->
  match st with
  | Nothing => forks p'
  | Forked c => (exists k, p' = ReadPipe k /\ forall r, runs (k r)) /\ owes c /\ noreads c
  | Thread _ => False
  end.
Proof.
  destruct 1 as [ | | | | | | | | | | | | |w a k r Hr| | | | | | | | | | ]; cbn; intros Hk; try naive_solver.
  destruct Hk as (Ha & _ & Hk). split; [|by apply Hk]. destruct a; try done.
  eexists _. split; [reflexivity|]. intros r0. apply (runs_bind _ (fun _ => ExitP 0)); [apply Ha | done].
Qed.

(** Whoever may run can make a step that does not break the pipe. *)
Definition progress (w : World) (p : proc (outcome cli_error ())) : Prop :=
  exists w' p' st, tstep Command false w p w' p' st /\ w_pipe_failed w' = w_pipe_failed w /\
    w_unserved w' = w_unserved w /\
    match st with Thread _ => False | _ => True end.

Ltac progress_with rule := eexists _, _, _; split; [eapply rule; try done|done].

Lemma forks_progress w p : forks p -> finished_with p = None -> progress w p.
Proof.
  destruct p as [[| | |]| | |c k|k|p k|p k|k|p k|k|m k|a k|t k|f m o k|f m o k|f k|k|k]; cbn; try done; intros Hp _.
  - destruct (is_pipe_write c) eqn:Hc; [destruct c; try discriminate Hc; progress_with @ts_write |].
    eexists _, _, _. split; [apply (ts_sys _ false w c k (Ok ())); done | done].
  - eexists _, _, _. split; [apply (ts_euid _ false w k true) | done].
  - eexists _, _, _. split; [apply (ts_canonicalize _ false w p k (Ok [])); done | done].
  - eexists _, _, _. split; [apply (ts_image_open _ false w p k (Err MissingRootfs)); done | done].
  - eexists _, _, _. split; [apply (ts_is_fifo _ false w p k (Ok true)); done | done].
  - eexists _, _, _. split; [apply (ts_mountinfo _ false w k (Ok [])); done | done].
  - eexists _, _, _. split; [apply (ts_fusermount _ false w m k (Ok None)); done | done].
  - eexists _, _, _. split; [apply (ts_fork_fails _ false w a k (CustomError OtherKind)) | done].
Qed.

Lemma runs_forks {A : Type} (p : proc A) : runs p -> forks p.
Proof. induction p; cbn; try done; naive_solver. Qed.

Lemma owes_progress w (p : proc (outcome cli_error ())) :
  owes p -> exists w' p', tstep Daemon false w p w' p' Nothing /\ w_pipe_failed w' = w_pipe_failed w /\
    w_unserved w' = w_unserved w.
Proof.
  destruct p as [[| | |]| | |c k|k|p k|p k|k|p k|k|m k|a k|t k|f m o k|f m o k|f k|k|k]; cbn; try done; intros Hp.
  - destruct (is_pipe_write c) eqn:Hc.
    + destruct c; try discriminate Hc. eexists _, _. split; [eapply ts_write | done].
    + eexists _, _. split; [by apply (ts_sys _ false w c k (Ok ())) | done].
  - eexists _, _. split; [eapply ts_mount2 | done].
Qed.

Definition live (w : World) (d : option process) (p : proc (outcome cli_error ())) : Prop :=
  w_pipe_failed w = false /\ w_unserved w = false /\ (forall q, d = Some (Alive q) -> noreads q) /\ waiting w d p.

Lemma live_progress w d p : live w d p -> exists s', bok (mkBg w (Alive p) d) s'.
Proof.
  intros (Hf & Hu & Hn & Hw). unfold bok.
  destruct (finished_with p) as [c|] eqn:Hfin; [eexists; split; [by eapply bs_command_exits|done]|].
  destruct Hw as [[-> Hp]|[Hp|Hp]].
  - destruct (forks_progress w p Hp Hfin) as (w' & p' & st & Ht & Hf' & Hu' & Hst). destruct st as [|c|]; [|..|done].
    + eexists. split; [by eapply bs_command|cbn; split; congruence].
    + eexists. split; [by eapply bs_fork|cbn; split; congruence].
  - destruct (forks_progress w p (runs_forks p Hp) Hfin) as (w' & p' & st & Ht & Hf' & Hu' & Hst).
    destruct (runs_tstep _ _ _ _ _ _ Ht Hp) as [_ ->]. eexists. split; [by eapply bs_command|cbn; split; congruence].
  - destruct p; try done. destruct Hp as [_ [Hp|(q & -> & Hq)]].
    + destruct (w_pipe w) as [|b l] eqn:Hl; [done|]. eexists. split; [by eapply bs_command, ts_read|done].
    + destruct (owes_progress w q Hq) as (w' & q' & Ht & Hf' & Hu'). eexists. split; [by eapply bs_daemon|cbn; split; congruence].
Qed.

(** A step of the command itself. *)
Lemma live_command w d p w' p' :
  live w d p -> tstep Command false w p w' p' Nothing -> w_pipe_failed w' = false -> w_unserved w' = false ->
  live w' d p'.
Proof.
  intros (Hf & Hu & Hn & Hw) Ht Hf' Hu'. split; [done|]. split; [done|]. split; [done|]. destruct Hw as [[-> Hp]|[Hp|Hp]].
  - left. split; [done|]. by apply (forks_tstep _ _ _ _ _ _ Ht).
  - right. left. by apply (runs_tstep _ _ _ _ _ _ Ht).
  - destruct p; try done. destruct Hp as [Hr _]. right. left. inversion Ht; subst; apply Hr.
Qed.

Lemma live_fork w p w' p' c :
  live w None p -> tstep Command false w p w' p' (Forked c) -> w_pipe_failed w' = false -> w_unserved w' = false ->
  live w' (Some (Alive c)) p'.
Proof.
  intros (Hf & Hu & Hn & Hw) Ht Hf' Hu'. destruct Hw as [[_ Hp]|[Hp|Hp]].
  - destruct (forks_tstep _ _ _ _ _ _ Ht Hp) as ((k & -> & Hk) & Ho & Hr). split; [done|]. split; [done|].
    split; [by intros q [= <-]|]. right. right. split; [done|]. right. by eexists.
  - by destruct (runs_tstep _ _ _ _ _ _ Ht Hp).
  - destruct p; try done. inversion Ht.
Qed.

(** A step of the daemon. *)
Lemma live_daemon w p q w' q' :
  live w (Some (Alive q)) p -> tstep Daemon false w q w' q' Nothing -> w_pipe_failed w' = false -> w_unserved w' = false ->
  live w' (Some (Alive q')) p.
Proof.
  intros (Hf & Hu & Hn & Hw) Ht Hf' Hu'. destruct (noreads_tstep _ _ _ _ _ _ Ht (Hn _ eq_refl)) as [Hn' Hpipe].
  split; [done|]. split; [done|]. split; [by intros ? [= <-]|]. destruct Hw as [[? _]|[Hp|Hp]]; [done|by right; left|].
  right. right. destruct p; try done. destruct Hp as [Hr [Hp|(q0 & [= <-] & Ho)]]; (split; [done|]); [by left; apply Hpipe|].
  destruct (owes_tstep _ _ _ _ _ _ Ht Hf' Hu' Ho) as [Ho'|]; [|by left]. right. by eexists.
Qed.

Lemma live_daemon_exits w p q c :
  live w (Some (Alive q)) p -> finished_with q = Some c -> live (set_ends w Daemon 0) (Some (Exited c)) p.
Proof.
  intros (Hf & Hu & Hn & Hw) Hfin. split; [done|]. split; [done|]. split; [done|]. destruct Hw as [[? _]|[Hp|Hp]]; [done|by right; left|].
  right. right. destruct p; try done. destruct Hp as [Hr [Hp|(q0 & [= <-] & Ho)]]; (split; [done|]); [by left|].
  exfalso. by destruct q.
Qed.

(** Steps of the daemon as a process. *)
Definition dstep (d' d : option process) : Prop :=
  exists q, d = Some (Alive q) /\
    ((exists c, d' = Some (Exited c)) \/ exists q', d' = Some (Alive q') /\ pstep q' q).

Lemma acc_daemon d : Acc dstep d.
Proof.
  assert (forall d, (forall q, d ≠ Some (Alive q)) -> Acc dstep d) as Hdead.
  { intros d0 Hd. constructor. intros d1 (q & -> & _). by destruct (Hd q). }
  destruct d as [[q|c|]|]; try (by apply Hdead).
  induction (acc_all q) as [q _ IH]. constructor. intros d (q0 & [= <-] & [[c ->]|(q' & -> & Hq)]); [by apply Hdead|by apply IH].
Qed.

Lemma live_reports p d w : live w d p -> eventually bok reported (mkBg w (Alive p) d).
Proof.
  revert d w. induction (acc_all p) as [p _ IHp]. intros d. induction (acc_daemon d) as [d _ IHd]. intros w Hl.
  apply ev_later; [by apply live_progress|]. intros s' (Hs & Hf & Hu).
  inversion Hs as [? ? w' p' ? Ht|? ? w' p' c Ht|? ? ? c Hfin|? ? q w' q' Ht|? ? q c Hfin]; subst; cbn in Hf, Hu.
  - apply IHp; [by exists Command, w, w', Nothing | by eapply live_command].
  - apply IHp; [by exists Command, w, w', (Forked c) | by eapply live_fork].
  - apply ev_now. by eexists.
  - apply IHd; [|by eapply live_daemon]. exists q. split; [done|]. right. exists q'. split; [done|]. by exists Daemon, w, w', Nothing.
  - apply IHd; [|by eapply live_daemon_exits]. exists q. split; [done|]. left. by eexists.
Qed.

(** ** The command's code before the fork, and the daemon's debt *)

(** A part of the command without a fork: [Q] holds of whatever it returns. *)
Fixpoint simple {A : Type} (p : proc A) (Q : A -> Prop) : Prop :=
  match p with
  | Ret a => Q a
  | ExitP _ | PanicP => True
  | Sys _ k => forall r, returns r -> simple (k r) Q
  | EuidRoot k => forall r, simple (k r) Q
  | Canonicalize _ k => forall r, returns r -> simple (k r) Q
  | ImageOpen _ k => forall r, returns r -> simple (k r) Q
  | _ => False
  end.

Lemma simple_bind {A B : Type} (p : proc A) (h : A -> proc B) (Q : B -> Prop) :
  simple p (fun a => simple (h a) Q) -> simple (p ≫= h) Q.
Proof. unfold mbind, proc_bind. induction p; cbn; try done; naive_solver. Qed.

Lemma forks_bind {A B : Type} (p : proc A) (h : A -> proc B) : simple p (fun a => forks (h a)) -> forks (p ≫= h).
Proof. unfold mbind, proc_bind. induction p; cbn; try done; naive_solver. Qed.

Lemma simple_mono {A : Type} (p : proc A) (Q Q' : A -> Prop) : (forall a, Q a -> Q' a) -> simple p Q -> simple p Q'.
Proof. intros HQ. induction p; cbn; try done; naive_solver. Qed.

Lemma forks_try {A B : Type} (p : proc (outcome cli_error A)) (k : A -> proc (outcome cli_error B)) :
  simple p (fun r => match r with Ok a => forks (k a) | _ => True end) -> forks (try_ p k).
Proof. intros Hp. apply forks_bind. eapply simple_mono; [|exact Hp]. by intros []. Qed.

Lemma simple_sys c (Q : outcome cli_error () -> Prop) : Q (Ok ()) -> (forall e, Q (Err e)) -> simple (sys c) Q.
Proof. intros Hok He. cbn. intros [[]|e| |] Hr; try done. apply He. Qed.

Lemma runs_mount_overlay mountpoint pfs_mountpoint persist : runs (mount_overlay mountpoint pfs_mountpoint persist).
Proof.
  assert (forall c (k : () -> proc (outcome cli_error ())), is_pipe_write c = false -> runs (k ()) -> runs (try_ (sys c) k)) as Ht.
  { intros c k Hc Hk. apply runs_bind; [by cbn|]. by intros [[]| | |]. }
  unfold mount_overlay. apply Ht; [done|]. apply Ht; [done|]. by cbn.
Qed.

Lemma forks_mount_background image tag mountpoint options verity (action : proc (outcome cli_error ())) :
  returns (PuzzleFS_open image tag verity) -> runs action ->
  forks (r ← mount_background image tag mountpoint options verity action; report_failure r).
Proof.
  intros Hopen Ha. unfold mount_background, try_, mbind, proc_bind. cbn. split_and!.
  - intros [b| | |]; [case_decide; [done|]|..]; by apply (runs_bind _ (fun _ => Ret ())).
  - intros e r Hr. done.
  - intros [[]|e| |] Hr; try done; cbn; split; [| |by left|done].
    + right. intros [[]|e| |] Hr'; try done; cbn; [|by left]. unfold mount, open_or_drop, try_, mbind, proc_bind. cbn.
      destruct (PuzzleFS_open image tag verity) as [pfs|e| |]; try done; cbn; [|right; intros _ _; by left].
      split_and!; [done|done|]. intros e. by left.
    + intros [[]|e| |]; cbn; try done. unfold mount, open_or_drop, try_, mbind, proc_bind. cbn.
      destruct (PuzzleFS_open image tag verity); cbn; try done. by intros [[]| | |].
Qed.

Lemma forks_main_mount m :
  ma_foreground m = false -> (forall image tag verity, returns (PuzzleFS_open image tag verity)) ->
  forks (main_mount m).
Proof.
  intros Hfg Hopen. unfold main_mount. rewrite Hfg.
  apply forks_try. unfold init_syslog, try_. apply simple_bind, simple_sys; [|done]. cbn.
  intros [[]|e| |] _; cbn; try done.
  apply forks_try.
  apply (simple_mono _ (fun r => match r with Ok _ | Err _ => True | _ => False end));
    [|destruct (_ || _); cbn; [by intros [] | done]].
  intros [[]| | |] Hr; try done.
  apply forks_try. cbn. destruct (parse_oci_dir _) as [[dir tag]|e| |]; cbn; try done.
  apply forks_try. cbn. intros [oci_dir| | |] _; cbn; try done.
  apply forks_try. cbn. intros [image| | |] _; cbn; try done.
  apply forks_try. cbn. intros [mountpoint| | |] _; cbn; try done.
  apply forks_try. cbn. destruct (transpose _) as [verity| | |]; cbn; try done.
  destruct (_ || _).
  - apply forks_try, simple_sys; [|done]. apply forks_try, simple_sys; [|done].
    apply forks_mount_background; [apply Hopen | apply runs_mount_overlay].
  - apply forks_try, simple_sys; [|done]. by apply forks_mount_background.
Qed.


(** ** When the daemon dies without a word *)

(** One chosen step of the command or of the daemon. *)
Tactic Notation "by_command" uconstr(rule) := eapply rtc_l; [left; apply bs_command; simple refine rule; done|].
Tactic Notation "by_daemon" uconstr(rule) := eapply rtc_l; [left; apply bs_daemon; simple refine rule; done|].
Ltac sys_ok := by_command (ts_sys _ false _ _ _ (Ok ()) _ _).

(** Calls that all went well. *)
Definition went_well (w : World) : Prop :=
  w_pipe w = [] /\ w_pipe_failed w = false /\ Forall (fun cr => cr.2 = Ok ()) (w_log w).

(** The command up to its branches, with everything going well. *)
Lemma reach_branch (m : MountArgs) (dir tag : bytes) (verity : option bytes) (image : Image oci_index) (mountpoint : Path) :
  ma_foreground m = false -> parse_oci_dir (ma_oci_dir m) = Ok (dir, tag) ->
  transpose ((fun d => map_err CliHex (hex_decode d)) <$> ma_digest m) = Ok verity ->
  let rest := if ma_writable m || bool_decide (is_Some (ma_persist m)) then mount_writable image tag mountpoint m verity
              else mount_daemon image tag mountpoint m verity in
  exists w, rtc bany (bg_start (main_mount m)) (mkBg w (Alive rest) None) /\ went_well w.
Proof.
  intros Hfg Hparse Hver. cbn zeta. eexists. split.
  - unfold bg_start, main_mount. rewrite Hfg, Hparse, Hver. unfold init_syslog, try_, mbind, proc_bind, pure.
    sys_ok. sys_ok. cbn. destruct (ma_writable m || _).
    + by_command (ts_euid _ false _ _ true). by_command (ts_canonicalize _ false _ dir _ (Ok []) _).
      by_command (ts_image_open _ false _ [] _ (Ok image) _).
      by_command (ts_canonicalize _ false _ (ma_mountpoint m) _ (Ok mountpoint) _). cbn. apply rtc_refl.
    + by_command (ts_canonicalize _ false _ dir _ (Ok []) _).
      by_command (ts_image_open _ false _ [] _ (Ok image) _).
      by_command (ts_canonicalize _ false _ (ma_mountpoint m) _ (Ok mountpoint) _). cbn. apply rtc_refl.
  - split_and!; [done|done|]. cbn. by repeat constructor.
Qed.

(** A mount that goes well: the image opens, the kernel sends INIT, the daemon reports it, and the
    command exits with status 0. *)
Lemma mount_daemon_succeeds (m : MountArgs) (dir tag : bytes) (verity : option bytes) (image : Image oci_index)
    (pfs : PuzzleFS) :
  ma_foreground m = false -> ma_writable m = false -> ma_persist m = None ->
  parse_oci_dir (ma_oci_dir m) = Ok (dir, tag) ->
  transpose ((fun d => map_err CliHex (hex_decode d)) <$> ma_digest m) = Ok verity ->
  PuzzleFS_open image tag verity = Ok pfs ->
  exists s, rtc bany (bg_start (main_mount m)) s /\ bg_command s = Exited 0 /\ w_pipe_failed (bg_world s) = false.
Proof.
  intros Hfg Hw Hp Hparse Hver Hopen.
  destruct (reach_branch m dir tag verity image [] Hfg Hparse Hver) as (w & Hrun & Hpipe & Hf & _).
  rewrite Hw, Hp in Hrun. cbn [orb] in Hrun. eexists. split_and!.
  - etransitivity; [exact Hrun|]. unfold mount_daemon, mount_background, mount, open_or_drop, try_, mbind, proc_bind. rewrite Hopen. cbn.
    sys_ok. cbn. eapply rtc_l; [left; apply bs_fork; by eapply (ts_fork _ false _ _ _ (Ok ()))|]. cbn.
    by_daemon (ts_sys _ false _ SC_try_clone _ (Ok ()) _ _). cbn.
    by_daemon (ts_mount2 _ false _ _ _ _ _). unfold mbind, proc_bind. cbn.
    by_daemon (ts_write _ false _ _ _). cbn.
    by_daemon (ts_sys _ false _ SC_close_writer _ (Ok ()) _ _). cbn.
    eapply rtc_l; [left; apply bs_command; apply (ts_read _ false _ x73 []); cbn; by rewrite Hpipe|]. cbn.
    eapply rtc_l; [left; apply bs_command_exits; reflexivity | apply rtc_refl].
  - done.
  - done.
Qed.

(** The daemon is gone. *)
Definition gone (d : option process) : Prop := match d with Some (Exited _) | Some Killed => True | _ => False end.

(** The command waits for its daemon's byte: there is none, and the daemon is gone. *)
Definition abandoned (s : Bg) : Prop :=
  gone (bg_daemon s) /\ w_pipe (bg_world s) = [] /\ exists k, bg_command s = Alive (ReadPipe k).

Lemma bany_pipe_failed s s' : bany s s' -> w_pipe_failed (bg_world s) = true -> w_pipe_failed (bg_world s') = true.
Proof.
  assert (forall A who w (p : proc A) w' p' st,
            tstep who false w p w' p' st -> w_pipe_failed w = true -> w_pipe_failed w' = true) as Hm.
  { intros A who w p w' p' st Ht Hf. destruct (tstep_mono _ _ _ _ _ _ Ht) as [_ Hb].
    destruct (w_pipe_failed w'); [done|]. by rewrite Hb in Hf. }
  intros [[]|[]]; cbn; eauto.
Qed.

Lemma abandoned_step s s' :
  command_holds s -> abandoned s -> bany s s' -> w_pipe_failed (bg_world s') = true.
Proof.
  destruct s as [w c d]. intros Hh (Hg & Hp & k & Hc) Hs. cbn in *. subst c.
  destruct (Hh _ eq_refl) as [Hends _]. cbn in Hends. destruct Hs as [Hs|Hk]; [|inversion Hk; subst; done].
  inversion Hs as [? ? w' p' ? Ht|? ? w' p' c Ht|? ? ? c Hfin|? ? q w' q' Ht|? ? q c Hfin]; subst; try done;
    inversion Ht; subst; done || congruence.
Qed.

(** C34: a daemon that goes without a word hangs the command.  In every reachable state in which the
    daemon has been killed or has ended, nothing is in the pipe and the command waits for a byte,
    the command waits for ever: no run goes on from there, unless the read itself fails.  The
    command is one of the writers of the pipe itself, so that it does not see the end of the file. *)
Theorem mount_background_hangs (m : MountArgs) (s s' : Bg) :
  ma_foreground m = false -> rtc bany (bg_start (main_mount m)) s -> abandoned s ->
  rtc bany s s' -> w_pipe_failed (bg_world s') = false -> s' = s.
Proof.
  intros Hfg Hrun Ha Hrest Hf. pose proof (command_holds_run m s Hfg Hrun) as Hh.
  apply rtc_inv in Hrest as [->|(s1 & Hs & Hrest)]; [done|]. exfalso.
  pose proof (abandoned_step _ _ Hh Ha Hs) as Hf1. clear Hs.
  induction Hrest as [s1|s1 s2 s3 Hs _ IH]; [congruence|]. eauto using bany_pipe_failed.
Qed.

(** The ways to get there: the daemon is killed at once, or the file system is unmounted before the
    kernel's INIT request, which ends the session, and the daemon with it, without an error. *)
Lemma abandoned_reachable (m : MountArgs) (dir tag : bytes) (verity : option bytes) (image : Image oci_index)
    (pfs : PuzzleFS) :
  ma_foreground m = false -> ma_writable m = false -> ma_persist m = None ->
  parse_oci_dir (ma_oci_dir m) = Ok (dir, tag) ->
  transpose ((fun d => map_err CliHex (hex_decode d)) <$> ma_digest m) = Ok verity ->
  PuzzleFS_open image tag verity = Ok pfs ->
  (exists s, rtc bany (bg_start (main_mount m)) s /\ abandoned s /\ bg_daemon s = Some Killed) /\
  (exists s, rtc bany (bg_start (main_mount m)) s /\ abandoned s /\ bg_daemon s = Some (Exited 0) /\
     w_pipe_failed (bg_world s) = false).
Proof.
  intros Hfg Hw Hp Hparse Hver Hopen.
  destruct (reach_branch m dir tag verity image [] Hfg Hparse Hver) as (w & Hrun & Hpipe & Hf & _).
  rewrite Hw, Hp in Hrun. cbn [orb] in Hrun.
  unfold mount_daemon, mount_background, mount, open_or_drop, try_, mbind, proc_bind in Hrun. rewrite Hopen in Hrun.
  split.
  - eexists. split.
    + etransitivity; [exact Hrun|]. cbn. sys_ok. cbn.
      eapply rtc_l; [left; apply bs_fork; by eapply (ts_fork _ false _ _ _ (Ok ()))|].
      eapply rtc_l; [right; apply bk_kill | apply rtc_refl].
    + split; [|done]. split_and!; [done|done|by eexists].
  - eexists. split.
    + etransitivity; [exact Hrun|]. cbn. sys_ok. cbn.
      eapply rtc_l; [left; apply bs_fork; by eapply (ts_fork _ false _ _ _ (Ok ()))|]. cbn.
      by_daemon (ts_sys _ false _ SC_try_clone _ (Ok ()) _ _). cbn.
      by_daemon (ts_mount2_unserved _ false _ _ _ _ _). unfold Fuse_drop, drop_notify, mbind, proc_bind. cbn.
      by_daemon (ts_sys _ false _ SC_close_writer _ (Ok ()) _ _). cbn.
      eapply rtc_l; [left; apply bs_daemon_exits; reflexivity | apply rtc_refl].
    + split; [|done]. split_and!; [done|done|by eexists].
Qed.

(** C35: a writable mount reports success without its overlay.  When the overlay cannot be mounted,
    the error is logged and the command exits with status 0 all the same: the read-only mount is
    there, the writable file system the user asked for is not. *)
Theorem mount_writable_ignores_overlay_failure (m : MountArgs) (dir tag : bytes) (verity : option bytes)
    (image : Image oci_index) (pfs : PuzzleFS) (mountpoint : Path) (e : io_error) :
  ma_foreground m = false -> ma_writable m = true -> parse_oci_dir (ma_oci_dir m) = Ok (dir, tag) ->
  transpose ((fun d => map_err CliHex (hex_decode d)) <$> ma_digest m) = Ok verity ->
  PuzzleFS_open image tag verity = Ok pfs ->
  exists s upper, rtc bany (bg_start (main_mount m)) s /\ bg_command s = Exited 0 /\ w_pipe_failed (bg_world s) = false /\
    last (w_log (bg_world s))
    = Some (SC_overlay_mount (path_join mountpoint (bstr "ro")) upper (path_join mountpoint (bstr "work")) mountpoint, Err e).
Proof.
  intros Hfg Hw Hparse Hver Hopen.
  destruct (reach_branch m dir tag verity image mountpoint Hfg Hparse Hver) as (w & Hrun & Hpipe & Hf & _).
  rewrite Hw in Hrun. cbn [orb] in Hrun. eexists _, _. split_and!.
  - etransitivity; [exact Hrun|].
    unfold mount_writable, mount_background, mount, open_or_drop, mount_overlay, try_, mbind, proc_bind. rewrite Hopen. cbn.
    sys_ok. sys_ok. cbn. eapply rtc_l; [left; apply bs_fork; by eapply (ts_fork _ false _ _ _ (Ok ()))|]. cbn.
    by_daemon (ts_sys _ false _ SC_try_clone _ (Ok ()) _ _). cbn.
    by_daemon (ts_mount2 _ false _ _ _ _ _). unfold mbind, proc_bind. cbn.
    by_daemon (ts_write _ false _ _ _). cbn.
    by_daemon (ts_sys _ false _ SC_close_writer _ (Ok ()) _ _). cbn.
    eapply rtc_l; [left; apply bs_command; apply (ts_read _ false _ x73 []); cbn; by rewrite Hpipe|]. cbn.
    sys_ok. cbn. sys_ok. cbn. by_command (ts_sys _ false _ _ _ (Err e) _ _). cbn.
    eapply rtc_l; [left; apply bs_command_exits; reflexivity | apply rtc_refl].
  - done.
  - done.
  - cbn. by rewrite last_snoc.
Qed.

End mount_live.
