(* ===== verification/MountForeground.v ===== *)
(** How the foreground [mount] command ends, and what [umount] does. *)

From S2P Require Import Prelude Errors RustStd Capnp Format Digest InodeTable Compression Oci Reader FsStream Chunks Verity Walk Extractor Builder Main Mount.
From stdpp Require Import relations.

Section mount_foreground_facts.
Context {P : Profile} {R : OsRead} {ZS : ZstdSeekable}.
Context {H : Hex} {SH : Sha256} {V : FsVerity} {D : OciDigest} {OD : OciDir} {W : CapnpWire}.

#[local] Arguments try_ : simpl never.
#[local] Arguments mbind : simpl never.

(** ** How the foreground command ends *)

(** Messages are sent only when there is a reason to end ([known]), and receiving one gives a
    reason; every server has the sending end.  Receiving is the last thing a thread does, and only
    the main thread ([last]) does it. *)
Fixpoint fwp {A : Type} (last : bool) (p : proc A) (known : bool) (Q : A -> bool -> Prop) : Prop :=
  match p with
  | Ret a => Q a known
  | PanicP => True
  | ExitP _ | ReadPipe _ | Daemonize _ _ => False
  | Sys _ k => forall r, fwp last (k r) known Q
  | EuidRoot k => forall r, fwp last (k r) known Q
  | Canonicalize _ k => forall r, fwp last (k r) known Q
  | ImageOpen _ k => forall r, fwp last (k r) known Q
  | IsFifo _ k => forall r, fwp last (k r) known Q
  | ReadMountinfo k => forall r, fwp last (k r) known Q
  | Fusermount _ k => forall r, fwp last (k r) known Q
  | SpawnThread t k => fwp false t known (fun _ _ => True) /\ fwp last k known Q
  | Mount2 f _ _ k => fu_sender f = true /\ (forall r, fwp last (k r) true Q) /\
                      match fu_init_notify f with Some UnnamedPipe => False | _ => True end
  | SpawnMount2 f _ _ k =>
      fu_sender f = true /\ match fu_init_notify f with Some UnnamedPipe => False | _ => True end /\
      (forall e, fwp last (k (Err e)) true Q) /\ fwp last (k (Ok ())) known Q
  | Serve f k => fu_sender f = true /\ forall r, fwp last (k r) true Q
  | Send k => known = true /\ forall b, fwp last (k b) known Q
  | Recv k => last = true /\ match k with Ret a => Q a true | _ => False end
  end.

Lemma fwp_bind {A B : Type} last (p : proc A) (h : A -> proc B) known Q :
  fwp false p known (fun a known => fwp last (h a) known Q) -> fwp last (p ≫= h) known Q.
Proof.
  unfold mbind, proc_bind. revert known.
  induction p as [ | | |A c k IH|A k IH|A ? k IH|A ? k IH|A k IH|A ? k IH|A k IH|A ? k IH|A a IHa k IH|A t _ k IH
                 |A ? ? ? k IH|A ? ? ? k IH|A ? k IH|A k IH|A k IH]; intros known; cbn; try done; naive_solver.
Qed.

Lemma fwp_drop {A : Type} last f (q : proc A) Q : fwp last q true Q -> fwp last (_ ← Fuse_drop f; q) true Q.
Proof.
  intros Hq. apply fwp_bind. unfold Fuse_drop, drop_notify.
  destruct (fu_sender f), (fu_init_notify f) as [[]|]; cbn; try done; (split; [done|]); by intros [].
Qed.

Lemma fwp_init {A : Type} last f (k : io_Result () -> proc A) known Q :
  fu_sender f = true -> (forall r, fwp last (k r) true Q) ->
  match fu_init_notify f with Some UnnamedPipe => False | _ => True end ->
  fwp last (f ← Fuse_init f; Serve f k) known Q.
Proof.
  intros Hs Hk Hn. apply fwp_bind. unfold Fuse_init. destruct (fu_init_notify f) as [[]|]; cbn; [done| |by auto].
  split; [|by auto]. intros [[]| | |]; cbn; try done. by intros [[]| | |].
Qed.

(** There is a reason to end: ctrl-c, or the session has ended. *)
Definition reason (w : World) (pressed : bool) : bool := pressed || w_ended w.

Definition sends {A : Type} (p : proc A) : Prop := match p with Send _ => True | _ => False end.

(** A step keeps the promises; and if it brings up the reason to end, the thread is about to send. *)
Lemma fwp_tstep {A : Type} last who receiver w (p : proc A) w' p' st known Q c :
  tstep who receiver w p w' p' st -> (known = true -> reason w c = true) -> (w_chan w ≠ 0 -> reason w c = true) ->
  fwp last p known Q ->
  exists known', (known' = true -> reason w' c = true) /\ (w_chan w' ≠ 0 -> reason w' c = true) /\ fwp last p' known' Q /\
    Forall (fun t => fwp false t known' (fun _ _ => True)) (started_threads st).
Proof.
  unfold reason. intros Ht Hk Hc Hp.
  destruct Ht as [ | | | | | | | | | | | | | |w t k|w f m o k e|w f m o k|w f m o k|w f m o k e|w f m o k|w f k r ?|w k|w k|w k n Hn];
    cbn in *; try done;
    try (exists known; split_and!; [done | done | by auto | by constructor]; fail).
  - exists known. destruct Hp as [Ht Hp]. split_and!; [done|done|done|by repeat constructor].
  - exists true. destruct_and!. rewrite orb_true_r. split_and!; [done|done|by apply fwp_drop|by constructor].
  - exists true. destruct_and!. rewrite orb_true_r. split_and!; [done|done|by apply fwp_drop|by constructor].
  - exists known. destruct_and!. split_and!; [done|done|by apply fwp_init|by constructor].
  - exists true. destruct_and!. rewrite orb_true_r. split_and!; [done|done|by apply fwp_drop|by constructor].
  - exists known. destruct_and!. split_and!; [done|done|done|]. repeat constructor; done.
  - exists true. destruct_and!. rewrite orb_true_r. split_and!; [done|done|by apply fwp_drop|by constructor].
  - destruct Hp as [-> Hp]. exists true. split_and!; [done|by auto|done|by constructor].
  - exists known. destruct Hp. split_and!; [done|done|done|by constructor].
  - destruct Hp as [_ Hp]. exists true. assert (w_chan w ≠ 0) as Hn' by lia.
    split_and!; [by auto|by auto|by destruct k|by constructor].
Qed.

(** Where a step leads: the world only learns reasons to end, a message is lost only by receiving
    it, and a session that ends makes its thread send. *)
Lemma fwp_tstep_sends {A : Type} last who receiver w (p : proc A) w' p' st known Q :
  tstep who receiver w p w' p' st -> fwp last p known Q ->
  (w_ended w = true -> w_ended w' = true) /\
  (w_ended w' = true -> w_ended w = true \/ sends p') /\
  (w_chan w ≠ 0 -> w_chan w' ≠ 0 \/ last = true /\ exists a, p' = Ret a) /\
  (sends p -> receiver = true -> w_chan w' ≠ 0).
Proof.
  intros Ht Hp. destruct Ht as [ | | | | | | | | | | | | | | |w f m o k e|w f m o k| |w f m o k e| |w f k r ?| | |w k n Hn]; cbn in *;
    try (split_and!; by auto); unfold Fuse_drop, mbind, proc_bind; [ | | | |split_and!; by auto with congruence|].
  - destruct Hp as (-> & _). split_and!; [done| |by auto|done]. by right.
  - destruct Hp as (-> & _). split_and!; [done| |by auto|done]. by right.
  - destruct Hp as (-> & _). split_and!; [done| |by auto|done]. by right.
  - destruct Hp as (-> & _). split_and!; [done| |by auto|done]. by right.
  - split_and!; [done|by auto| |done]. intros _. right. destruct Hp as [-> Hp]. split; [done|].
    destruct k; try done. by eexists.
Qed.

(** The main thread returns successfully only when there is a reason to end. *)
Definition main_post (r : outcome cli_error ()) (known : bool) : Prop := match r with Ok _ => known = true | _ => True end.

Definition keeps {A : Type} (last : bool) (why : bool) (Q : A -> bool -> Prop) (p : proc A) : Prop :=
  exists known, (known = true -> why = true) /\ fwp last p known Q.

Definition threads_keep (why : bool) (ts : list (proc ())) : Prop := Forall (keeps false why (fun _ _ => True)) ts.

Definition main_keeps (why : bool) (m : process) : Prop :=
  match m with
  | Alive p => keeps true why main_post p
  | Exited s => s = 0%Z -> why = true
  | Killed => False
  end.

(** The command is awake: it does not wait for a message nobody will send. *)
Definition awake (w : World) (m : process) (ts : list (proc ())) : Prop :=
  match m with
  | Alive p => finished_with p ≠ None \/ w_chan w ≠ 0 \/ sends p \/ Exists sends ts
  | _ => True
  end.

Record fg_inv (s : Fg) : Prop := mkFgInv {
  fi_chan : w_chan (fg_world s) ≠ 0 -> reason (fg_world s) (fg_pressed s) = true;
  fi_main : main_keeps (reason (fg_world s) (fg_pressed s)) (fg_main s);
  fi_threads : threads_keep (reason (fg_world s) (fg_pressed s)) (fg_threads s);
  fi_awake : reason (fg_world s) (fg_pressed s) = true -> awake (fg_world s) (fg_main s) (fg_threads s)
}.

Lemma keeps_mono {A : Type} last (why why' : bool) Q (p : proc A) :
  (why = true -> why' = true) -> keeps last why Q p -> keeps last why' Q p.
Proof. intros Hw (known & ? & ?). exists known. auto. Qed.

Lemma threads_keep_mono (why why' : bool) ts : (why = true -> why' = true) -> threads_keep why ts -> threads_keep why' ts.
Proof. intros Hw Hts. eapply Forall_impl; [exact Hts|]. intros t. by apply keeps_mono. Qed.

Lemma keeps_tstep {A : Type} last who receiver w (p : proc A) w' p' st Q c :
  tstep who receiver w p w' p' st -> (w_chan w ≠ 0 -> reason w c = true) -> keeps last (reason w c) Q p ->
  (reason w c = true -> reason w' c = true) /\ (w_chan w' ≠ 0 -> reason w' c = true) /\
  keeps last (reason w' c) Q p' /\ threads_keep (reason w' c) (started_threads st) /\
  (reason w' c = true -> reason w c = true \/ sends p') /\
  (w_chan w ≠ 0 -> w_chan w' ≠ 0 \/ last = true /\ exists a, p' = Ret a) /\
  (sends p -> receiver = true -> w_chan w' ≠ 0).
Proof.
  intros Ht Hc (known & Hk & Hp).
  destruct (fwp_tstep_sends _ _ _ _ _ _ _ _ _ _ Ht Hp) as (Hmono & Hend & Hchan & Hsend).
  destruct (fwp_tstep _ _ _ _ _ _ _ _ _ _ _ Ht Hk Hc Hp) as (known' & Hk' & Hc' & Hp' & Hts). unfold reason in *.
  split_and!; [by destruct c; auto|done|by exists known'| |by destruct c; auto|done|done].
  eapply Forall_impl; [done|]. intros t Ht'. by exists known'.
Qed.

Lemma tstep_unfinished who receiver w p w' p' (st : started (outcome cli_error ())) :
  tstep who receiver w p w' p' st -> finished_with p = None.
Proof. by inversion 1. Qed.

Lemma fg_inv_step s s' : fg_inv s -> fstep s s' -> fg_inv s'.
Proof.
  intros [Hc Hm Hts Ha] Hs.
  destruct Hs as [w p w' p' st ts c Hnf Ht|w p ts c z Hfin|w p l1 t l2 w' t' st c Hnf Ht|w p ts c Hlog]; cbn in *.
  - destruct (keeps_tstep _ _ _ _ _ _ _ _ _ _ Ht Hc Hm) as (Hmono & Hc' & Hm' & Hst & Hend & Hchan & Hsend).
    constructor; cbn; [done|done| |].
    + apply Forall_app. split; [|done]. by eapply threads_keep_mono.
    + intros Hr. destruct (Hend Hr) as [Hr0|?]; [|by auto].
      destruct (Ha Hr0) as [Hfin|[H0|[H0|H0]]].
      * by rewrite (tstep_unfinished _ _ _ _ _ _ _ Ht) in Hfin.
      * destruct (Hchan H0) as [?|[_ [[[]| | |] ->]]]; [by auto|by left..].
      * auto.
      * do 3 right. apply Exists_app. by left.
  - constructor; cbn; [done| |by constructor|done].
    intros ->. destruct Hm as (known & Hk & Hp). destruct p as [[]| | | | | | | | | | | | | | | | |]; try done. by apply Hk.
  - apply Forall_app in Hts as [H1 [H2 H3]%Forall_cons].
    destruct (keeps_tstep _ _ _ _ _ _ _ _ _ _ Ht Hc H2) as (Hmono & Hc' & Ht' & Hst & Hend & Hchan & Hsend).
    constructor; cbn; [done| | |].
    + by eapply keeps_mono.
    + apply Forall_app. split; [by eapply threads_keep_mono|]. constructor; [done|].
      apply Forall_app. split; [by eapply threads_keep_mono|done].
    + intros Hr. destruct (Hend Hr) as [Hr0|?].
      2:{ do 3 right. apply Exists_app. right. by left. }
      destruct (Ha Hr0) as [Hfin|[H0|[H0|H0]]]; [by auto| |by auto|].
      * destruct (Hchan H0) as [?|[? ?]]; [by auto|done].
      * apply Exists_app in H0 as [H0|[H0|H0]%Exists_cons].
        -- do 3 right. apply Exists_app. by left.
        -- unfold receiver_alive in Hsend. case_bool_decide; [|by auto]. right; left. by apply Hsend.
        -- do 3 right. apply Exists_app. right. right. apply Exists_app. by left.
  - constructor; cbn; [by auto| | |].
    + by eapply keeps_mono; [|exact Hm].
    + apply Forall_app. split.
      * by eapply threads_keep_mono; [|exact Hts].
      * repeat constructor. exists true. split; [done|]. cbn. split; [done|]. by intros [].
    + intros _. do 3 right. apply Exists_app. right. by left.
Qed.

Lemma fwp_mono {A : Type} last (p : proc A) known (Q Q' : A -> bool -> Prop) :
  (forall a known, Q a known -> Q' a known) -> fwp last p known Q -> fwp last p known Q'.
Proof.
  intros HQ. revert known.
  induction p as [ | | |A c k IH|A k IH|A ? k IH|A ? k IH|A k IH|A ? k IH|A k IH|A ? k IH|A a IHa k IH|A t _ k IH
                 |A ? ? ? k IH|A ? ? ? k IH|A ? k IH|A k IH|A k IH]; intros known; cbn; auto; try naive_solver.
  destruct k; naive_solver.
Qed.

Lemma fwp_try {A B : Type} last (p : proc (outcome cli_error A)) (k : A -> proc (outcome cli_error B)) known
    (Q : outcome cli_error B -> bool -> Prop) :
  (forall r known, match r with Ok _ => True | _ => Q r known end) ->
  fwp false p known (fun r known => match r with Ok a => fwp last (k a) known Q | _ => True end) ->
  fwp last (try_ p k) known Q.
Proof.
  intros HQ Hp. apply fwp_bind. eapply fwp_mono; [|exact Hp]. intros [a|e| |] known'; cbn; [done|..]; intros _.
  - apply (HQ (Err e)).
  - apply (HQ Panic).
  - apply (HQ Diverged).
Qed.

Lemma main_post_error r known : match r with Ok _ => True | _ => main_post r known end.
Proof. by destruct r. Qed.

Ltac fwp_next := apply fwp_try; [exact main_post_error|]; cbn.

Lemma fwp_main_mount m :
  ma_foreground m = true -> mount_args_ok m = true -> fwp true (main_mount m) false main_post.
Proof.
  intros Hfg Hok. unfold mount_args_ok in Hok. rewrite Hfg in Hok. cbn in Hok. apply negb_true_iff in Hok.
  unfold main_mount. rewrite Hfg, Hok. fwp_next. fwp_next. fwp_next.
  destruct (parse_oci_dir _) as [[dir tag]|e| |]; cbn; try done.
  fwp_next. intros [oci_dir| | |]; cbn; try done.
  fwp_next. intros [image| | |]; cbn; try done.
  fwp_next. intros [mountpoint| | |]; cbn; try done.
  fwp_next. destruct (transpose _) as [verity| | |]; cbn; try done.
  intros [[]| | |]; cbn; try done. apply fwp_bind. unfold spawn_mount, open_or_drop. cbn.
  assert (forall e, fwp true (_ ← notify_failure (components <$> ma_init_pipe m); Ret (Err (CliWire e))) false main_post
            /\ fwp true (_ ← notify_failure (components <$> ma_init_pipe m); Ret (Err (CliWire e))) true main_post) as Hn.
  { intros e. unfold notify_failure. destruct (ma_init_pipe m) as [pipe|]; cbn; [|done].
    split; by intros [[]| | |]. }
  destruct (PuzzleFS_open image tag verity) as [pfs|e| |]; cbn.
  - split_and!; [done|by destruct (ma_init_pipe m)| |by auto]. intros e. apply Hn.
  - destruct (ma_init_pipe m); apply (Hn e).
  - by destruct (ma_init_pipe m).
  - by destruct (ma_init_pipe m).
Qed.

(** C25: a foreground mount ends exactly when it should.  The command returns successfully only if
    ctrl-c has been pressed or the session has ended (the file system has been unmounted, or the
    session failed); and once one of these has
    happened the wake-up is not lost: in every reachable state in which the command waits, there is
    a message for it to receive, or a thread whose next action is to send one. *)
Theorem mount_foreground_ends (m : MountArgs) (s : Fg) :
  ma_foreground m = true -> mount_args_ok m = true -> rtc fstep (fg_start (main_mount m)) s ->
  (fg_main s = Exited 0 -> fg_pressed s = true \/ w_ended (fg_world s) = true) /\
  (forall k, fg_main s = Alive (Recv k) -> fg_pressed s = true \/ w_ended (fg_world s) = true ->
     w_chan (fg_world s) ≠ 0 \/ Exists sends (fg_threads s)).
Proof.
  intros Hfg Hok Hrun.
  assert (fg_inv s) as [_ Hm _ Ha].
  { revert Hrun. apply (rtc_ind_r fg_inv).
    - constructor; cbn; [done| |by constructor|done]. exists false. split; [done|]. by apply fwp_main_mount.
    - intros s1 s2 _ Hs Hi. by eapply fg_inv_step. }
  unfold reason in *. split.
  - intros Hex. rewrite Hex in Hm. by apply orb_true_iff, Hm.
  - intros k Hk Hr. rewrite Hk in Ha. apply orb_true_iff in Hr. by destruct (Ha Hr) as [?|[?|[?|?]]]; auto.
Qed.

(** One chosen step of the main thread. *)
Tactic Notation "by_main" uconstr(rule) :=
  eapply rtc_l; [eapply fs_main; [|simple refine rule; done]; done|]; cbn.

(** A mount that goes well and is ended by ctrl-c. *)
Lemma mount_foreground_interrupted (m : MountArgs) (dir tag : bytes) (verity : option bytes) (image : Image oci_index)
    (pfs : PuzzleFS) :
  ma_foreground m = true -> mount_args_ok m = true -> parse_oci_dir (ma_oci_dir m) = Ok (dir, tag) ->
  transpose ((fun d => map_err CliHex (hex_decode d)) <$> ma_digest m) = Ok verity ->
  PuzzleFS_open image tag verity = Ok pfs ->
  exists s, rtc fstep (fg_start (main_mount m)) s /\ fg_main s = Exited 0.
Proof.
  intros Hfg Hok Hparse Hver Hopen. unfold mount_args_ok in Hok. rewrite Hfg in Hok. apply negb_true_iff in Hok.
  eexists. split.
  - unfold fg_start, main_mount. cbn [andb] in Hok. rewrite Hfg, Hok, Hparse, Hver. unfold try_, mbind, proc_bind, pure. cbn.
    by_main (ts_canonicalize _ true _ dir _ (Ok []) _). by_main (ts_image_open _ true _ [] _ (Ok image) _).
    by_main (ts_canonicalize _ true _ (ma_mountpoint m) _ (Ok []) _). by_main (ts_sys _ true _ _ _ (Ok ()) _ _).
    unfold spawn_mount, open_or_drop, try_, mbind, proc_bind, pure. cbn. rewrite Hopen. cbn.
    by_main (ts_spawn_mount2 _ true _ _ _ _ _).
    eapply rtc_l; [apply fs_ctrlc; cbn; left|]. cbn.
    eapply rtc_l; [eapply (fs_thread _ _ [_] ctrlc_handler []); [|by apply (ts_send _ true)]; done|]. cbn.
    by_main (ts_recv _ true _ _ 0 _).
    eapply rtc_l; [apply fs_main_exits; reflexivity|apply rtc_refl].
  - done.
Qed.

(** ** Unmounting *)

(** A process of one thread. *)
Definition solo {A : Type} (c c' : World * proc A) : Prop := exists st, tstep Command false c.1 c.2 c'.1 c'.2 st.

(** The entry [get_mount_type] uses: the first one that can be read and has the mount point. *)
Definition first_mount (infos : list (io_Result MountInfo)) (mountpoint : bytes) (mi : MountInfo) : Prop :=
  exists before after, infos = before ++ Ok mi :: after /\ mi_mount_point mi = mountpoint /\
    forall mi', Ok mi' ∈ before -> mi_mount_point mi' ≠ mountpoint.

Lemma first_mount_find infos mountpoint mi :
  first_mount infos mountpoint mi ->
  List.find (fun mount_info =>
    match mount_info with Ok mi => bool_decide (mi_mount_point mi = mountpoint) | _ => false end) infos = Some (Ok mi).
Proof.
  intros (before & after & -> & Hmi & Hb). induction before as [|r before IH]; cbn.
  - by rewrite bool_decide_eq_true_2.
  - assert (forall mi', Ok mi' ∈ before -> mi_mount_point mi' ≠ mountpoint) as Hb' by (intros; apply Hb; by right).
    destruct r as [mi'| | |]; [|by apply IH..].
    rewrite bool_decide_eq_false_2; [by apply IH|]. apply Hb. by left.
Qed.

(** The calls [umount] makes and its exit status, for the type of file system found. *)
Definition umount_outcome (mountpoint fstype : bytes) (log : list (syscall * io_Result ())) (status : Z) : Prop :=
  let overlay := SC_umount (components mountpoint) in
  let lower := SC_umount (path_join (components mountpoint) (bstr "ro")) in
  if decide (fstype = bstr "overlay") then
    log = [] /\ status = 1%Z \/
    (exists e, log = [(overlay, Err e)] /\ status = 1%Z) \/
    (exists r, log = [(overlay, Ok ()); (lower, r)] /\ status = if r is Ok _ then 0%Z else 1%Z)
  else log = [] /\ (fstype ≠ bstr "fuse" -> status = 1%Z).

(** A thread that has been given the contents of [/proc/self/mountinfo]. *)
Definition given_mountinfo {A : Type} (p : proc A) (r : io_Result (list (io_Result MountInfo))) : proc A :=
  match p with ReadMountinfo k => k r | p => p end.

Lemma solo_l {A : Type} w (p : proc A) w' p' st c : tstep Command false w p w' p' st -> rtc solo (w', p') c -> rtc solo (w, p) c.
Proof. intros Ht Hrun. eapply rtc_l; [|exact Hrun]. by exists st. Qed.

Lemma solo_ret {A : Type} w (a : A) c : rtc solo (w, Ret a) c -> c = (w, Ret a).
Proof. intros Hrun. apply rtc_inv in Hrun as [<-|([] & [st Ht] & _)]; [done|]. inversion Ht. Qed.

Lemma solo_sys {A : Type} w c (k : io_Result () -> proc A) w' (p : proc A) :
  rtc solo (w, Sys c k) (w', p) -> is_pipe_write c = false -> (forall k', p ≠ Sys c k') ->
  exists r, returns r /\ rtc solo (sys_effect Command w c r, k r) (w', p).
Proof.
  intros Hrun Hc Hp. apply rtc_inv in Hrun as [[= -> <-]|([w1 p1] & [st Ht] & Hrun)]; [by destruct (Hp k)|].
  cbn in Ht. inversion Ht; subst; [by eexists|done..].
Qed.

Lemma unfinished_sys p status c k' : finished_with p = Some status -> p ≠ Sys c k'.
Proof. by intros ? ->. Qed.

(** C30: [umount] takes a writable mount apart in the right order.  For an overlay it unmounts the
    overlay and then, only if that succeeded, the file system below it, and it exits with status 0
    exactly if both succeeded; for any other file system it unmounts nothing itself, and it fails
    unless the type is that of a FUSE file system.  The type is that of the first entry for the
    mount point that can be read. *)
Theorem main_umount_order (mountpoint : bytes) (mi : MountInfo) (infos : list (io_Result MountInfo)) (w w' : World)
    (p : proc (outcome cli_error ())) (status : Z) :
  first_mount infos mountpoint mi -> w_log w = [] ->
  rtc solo (w, given_mountinfo (main_umount mountpoint) (Ok infos)) (w', p) -> finished_with p = Some status ->
  umount_outcome mountpoint (mi_fstype mi) (w_log w') status.
Proof.
  intros Hfirst Hlog Hrun Hfin. unfold main_umount, get_mount_type, try_, mbind, proc_bind in Hrun.
  cbn in Hrun. rewrite (first_mount_find _ _ _ Hfirst) in Hrun. cbn in Hrun.
  unfold umount_outcome. destruct (decide (mi_fstype mi = bstr "overlay")) as [Ho|Ho].
  - rewrite decide_True in Hrun by done.
    apply rtc_inv in Hrun as [[= <- <-]|([w1 p1] & [st Ht] & Hrun)]; [done|]. cbn in Ht. inversion Ht; subst. clear Ht.
    destruct b; [|apply solo_ret in Hrun; simplify_eq/=; by left].
    unfold try_, mbind, proc_bind, sys in Hrun. cbn in Hrun.
    destruct (solo_sys _ _ _ _ _ Hrun eq_refl (fun k' => unfinished_sys _ _ _ _ Hfin)) as ([[]|e| |] & Hr & Hrun'); try done.
    2:{ apply solo_ret in Hrun'. simplify_eq/=. rewrite Hlog. right; left. by eexists. }
    destruct (solo_sys _ _ _ _ _ Hrun' eq_refl (fun k' => unfinished_sys _ _ _ _ Hfin)) as (r & Hr' & Hlast).
    apply solo_ret in Hlast. simplify_eq/=. rewrite Hlog. do 2 right. exists r. by destruct r; simplify_eq/=.
  - rewrite decide_False in Hrun by done. destruct (decide (mi_fstype mi = bstr "fuse")) as [Hf|Hf].
    + rewrite decide_True in Hrun by done.
      apply rtc_inv in Hrun as [[= <- <-]|([w1 p1] & [st Ht] & Hrun)]; [done|]. cbn in Ht. inversion Ht; subst.
      apply solo_ret in Hrun. by simplify_eq/=.
    + rewrite decide_False in Hrun by done. apply solo_ret in Hrun. by simplify_eq/=.
Qed.

End mount_foreground_facts.
