(* ===== verification/Concrete.v ===== *)
(** Executable instances of the interfaces, with their laws: a seekable archive of raw and
    run-length frames, polynomial checksums in place of SHA-256 and fs-verity, an OCI index held
    in memory, a dictionary coder for the metadata messages, a chunker that cuts every eight bytes, and a
    small host tree.  They show that the laws assumed of the environment can hold together, and
    let the model run. *)

From S2P Require Import Prelude Errors RustStd Capnp Format Digest InodeTable Wire Compression Oci Reader Walk Fuse Extractor FsStream Chunks Verity Builder BuildFacts BuildEnd Partial Main.

#[export] Instance os_read_min : OsRead := N.min.
#[export] Instance os_read_min_full : OsReadFull os_read_min.
Proof. by intros. Qed.

(** ** A seekable archive of frames *)

(** The decimal-like code of a length: one byte per bit, terminated by [x02]. *)
Fixpoint pos_code (p : positive) : bytes :=
  match p with
  | xH => [x02]
  | xO p => x00 :: pos_code p
  | xI p => x01 :: pos_code p
  end.

Fixpoint pos_decode (b : bytes) : option (positive * bytes) :=
  match b with
  | x02 :: b => Some (xH, b)
  | x00 :: b => '(p, r) ← pos_decode b; Some (xO p, r)
  | x01 :: b => '(p, r) ← pos_decode b; Some (xI p, r)
  | _ => None
  end.

Lemma pos_decode_code p r : pos_decode (pos_code p ++ r) = Some (p, r).
Proof. induction p as [p IH|p IH|]; cbn; [by rewrite IH | by rewrite IH | done]. Qed.

(** A frame of non-empty data: a run [x52 byte length], or [x53 length data]. *)
Definition frame (d : bytes) : bytes :=
  match d with
  | [] => []
  | b :: _ =>
      let n := Pos.of_nat (length d) in
      if bool_decide (d = replicate (length d) b) then x52 :: b :: pos_code n else x53 :: pos_code n ++ d
  end.

Fixpoint unframe (fuel : nat) (c : bytes) : option bytes :=
  match fuel, c with
  | _, [] => Some []
  | S fuel, x52 :: b :: c =>
      '(p, c) ← pos_decode c; rest ← unframe fuel c; Some (replicate (Pos.to_nat p) b ++ rest)
  | S fuel, x53 :: c =>
      '(p, c) ← pos_decode c;
      rest ← unframe fuel (drop (Pos.to_nat p) c);
      Some (take (Pos.to_nat p) c ++ rest)
  | _, _ => None
  end.

Lemma unframe_frames fuel frames :
  Forall (fun d => d ≠ []) frames -> length frames <= fuel ->
  unframe fuel (concat (frame <$> frames)) = Some (concat frames).
Proof.
  intros Hne. revert fuel. induction Hne as [|d frames Hd _ IH]; intros fuel Hf; [by destruct fuel|].
  cbn [length] in Hf. destruct fuel as [|fuel]; [lia|]. csimpl. specialize (IH fuel ltac:(lia)).
  destruct d as [|b d]; [done|]. unfold frame at 1. cbv zeta.
  assert (Pos.to_nat (Pos.of_nat (length (b :: d))) = length (b :: d)) as Hn by (apply Nat2Pos.id; done).
  set (n := Pos.of_nat (length (b :: d))) in *. clearbody n.
  case_bool_decide as Hrun.
  - cbn [app unframe]. rewrite pos_decode_code. cbn [mbind option_bind]. rewrite IH. cbn [mbind option_bind].
    by rewrite Hn, <-Hrun.
  - cbn [app unframe]. rewrite <-app_assoc, pos_decode_code. cbn [mbind option_bind]. rewrite Hn.
    rewrite drop_app_length, take_app_length, IH. done.
Qed.

(** The stream keeps the frames it has written and the data of the frame in progress. *)
Record toy_stream := mkToyStream { ts_frames : list { d : bytes | bool_decide (d ≠ []) }; ts_pending : bytes }.

Definition ts_in (cs : toy_stream) : bytes := concat (proj1_sig <$> ts_frames cs) ++ ts_pending cs.
Definition ts_out (cs : toy_stream) : bytes := concat (frame <$> (proj1_sig <$> ts_frames cs)).

#[export] Instance zstd_toy : ZstdSeekable := {|
  cstream := toy_stream;
  cstream_new _ _ := Ok (mkToyStream [] []);
  cstream_out_size := 1024;
  cs_compress cs _ buf := Ok (mkToyStream (ts_frames cs) (ts_pending cs ++ buf), [], len buf);
  cs_end_stream cs _ :=
    match decide (ts_pending cs ≠ []) with
    | left H => Ok (mkToyStream (ts_frames cs ++ [exist _ (ts_pending cs) (bool_decide_pack _ H)]) [],
                    frame (ts_pending cs))
    | right _ => Ok (cs, [])
    end;
  flush_bound cs := match ts_pending cs with [] => 0 | _ => 1 end;
  seekable := bytes;
  seekable_init c := ok_or (unframe (length c) c) (CustomError OtherKind);
  get_num_frames _ := 1;
  get_frame_decompressed_size s _ := len s;
  sk_decompress s n off := Ok (slice off n s)
|}.

Lemma frame_nonempty d : d ≠ [] -> frame d ≠ [].
Proof. destruct d; [done|]. unfold frame. cbv zeta. by case_bool_decide. Qed.

#[export] Instance zstd_toy_ok : ZstdSeekableOk zstd_toy.
Proof.
  refine {| zs_in := ts_in : cstream -> bytes; zs_out := ts_out |}.
  - by exists (mkToyStream [] []).
  - intros cs buf Hb. eexists _, [], (len buf). split; [done|].
    split; [destruct buf; [done | unfold len; simpl; lia]|].
    split; [|by rewrite app_nil_r]. unfold ts_in, len. cbn. rewrite Nat2N.id, take_ge by done. by rewrite app_assoc.
  - intros cs. cbn [cs_end_stream zstd_toy]. destruct (decide (ts_pending cs ≠ [])) as [Hp|Hp].
    + eexists _, _. split; [reflexivity|]. unfold ts_in, ts_out. cbn [ts_frames ts_pending].
      rewrite !fmap_app, !concat_app. cbn. rewrite !app_nil_r. split; [done|]. split; [done|].
      split; [intros _; destruct (ts_pending cs); [done | lia]|].
      intros Hf. by apply frame_nonempty in Hf.
    + exists cs, []. split; [done|]. split; [done|]. split; [by rewrite app_nil_r|]. split; [done|]. intros _.
      assert (ts_pending cs = []) as Hnil by (destruct (ts_pending cs); [done|]; by destruct Hp).
      exists (ts_in cs). assert (ts_in cs = concat (proj1_sig <$> ts_frames cs)) as Hin
        by (unfold ts_in; by rewrite Hnil, app_nil_r).
      split; [|split; [cbn; lia | done]]. cbn. rewrite Hin.
      assert (Forall (fun d => d ≠ []) (proj1_sig <$> ts_frames cs)) as Hall.
      { apply Forall_fmap, Forall_forall. intros [d Hd] _. cbn. by apply bool_decide_unpack in Hd. }
      unfold ts_out. rewrite unframe_frames; [done | done |]. clear -Hall.
      induction Hall as [|d l Hd _ IH]; csimpl; [lia|]. rewrite length_app. apply frame_nonempty in Hd.
      destruct (frame d); [done|]. simpl. lia.
Qed.

(** ** Checksums in place of hashes *)

Fixpoint le_bytes (n : nat) (x : N) : bytes :=
  match n with
  | O => []
  | S n => default x00 (Byte.of_N (N.land x 255)) :: le_bytes n (N.shiftr x 8)
  end.

Lemma length_le_bytes n x : length (le_bytes n x) = n.
Proof. revert x. induction n as [|n IH]; intros x; cbn; [done|]. by rewrite IH. Qed.

Definition checksum (seed : N) (b : bytes) : bytes :=
  le_bytes 32 (foldl (fun h x => N.land (257 * h + Byte.to_N x + 1) (N.ones 256))%N seed b).

Lemma len_checksum seed b : len (checksum seed b) = SHA256_BLOCK_SIZE.
Proof. unfold len, checksum. by rewrite length_le_bytes. Qed.

Opaque checksum.

#[export] Instance sha256_toy : Sha256 := checksum 7.
#[export] Instance sha256_toy_ok : Sha256Ok sha256_toy.
Proof. intros b. apply len_checksum. Qed.

#[export] Instance fs_verity_toy : FsVerity := {| fs_verity_sha256 := checksum 11; verity_supported := true |}.
#[export] Instance fs_verity_toy_ok : FsVerityOk fs_verity_toy.
Proof. intros b. apply len_checksum. Qed.

#[export] Instance oci_digest_toy : OciDigest := fun s =>
  if starts_with (bstr "sha256:") s then Ok (drop 7 s) else Err OciError.
#[export] Instance oci_digest_toy_ok : OciDigestOk oci_digest_toy.
Proof.
  intros d _. unfold image_digest_from_str, oci_digest_toy, starts_with.
  rewrite bool_decide_eq_true_2; [|apply take_app_length]. f_equal.
Qed.

(** ** An OCI index in memory *)

(** Blobs of the layout itself: written once. *)
Definition add_blob {I} (img : Image I) (data : bytes) : Image I * bytes :=
  let name := hex_encode (sha256 data) in
  match img_blobs img !! name with
  | Some _ => (img, name)
  | None => (mkImage (<[name := mkBlobFile data None]> (img_blobs img)) (img_index img), name)
  end.

Lemma add_blob_spec {I} (img img' : Image I) data name :
  add_blob img data = (img', name) ->
  data_extends img img' /\ is_Some (img_blobs img' !! name).
Proof.
  unfold add_blob. destruct (img_blobs img !! _) as [f|] eqn:Hf; intros [= <- <-].
  - split; [done|]. by exists f.
  - split; [split; [done|]; by apply subseteq_data_kept, insert_subseteq|]. cbn. by rewrite lookup_insert_eq.
Qed.

Definition toy_index : Type := list (bytes * (Descriptor * ImageManifest)).

Definition index_find (idx : toy_index) (tag : bytes) : option (Descriptor * ImageManifest) :=
  snd <$> List.find (fun kv => bool_decide (kv.1 = tag)) idx.

Definition blob_desc (name : bytes) : Descriptor := mkDescriptor (bstr "application/json") 2 name None.

#[export] Instance oci_dir_toy : OciDir := {|
  oci_index := toy_index;
  oci_new_empty_manifest img :=
    let '(img, name) := add_blob img (bstr "{}") in Ok (img, mkManifest (blob_desc name) []);
  oci_insert_manifest img m tag :=
    let '(img, name) := add_blob img (bstr "manifest" ++ concat (d_digest <$> im_layers m)) in
    Ok (mkImage (img_blobs img)
          (match tag with Some tag => (tag, (blob_desc name, m)) :: img_index img | None => img_index img end),
        blob_desc name);
  oci_find_manifest_with_tag img tag := Ok (snd <$> index_find (img_index img) tag);
  oci_find_manifest_descriptor_with_tag img tag := Ok (fst <$> index_find (img_index img) tag)
|}.

#[export] Instance oci_dir_toy_ok : OciDirOk oci_dir_toy.
Proof.
  split.
  - intros img img' m. unfold oci_new_empty_manifest, oci_dir_toy.
    destruct (add_blob (I := toy_index) img _) as [img1 name] eqn:Ha. intros Heq. injection Heq as -> <-.
    apply add_blob_spec in Ha as [Hs _]. done.
  - intros img m tag img' d. unfold oci_insert_manifest, oci_find_manifest_with_tag,
      oci_find_manifest_descriptor_with_tag, oci_dir_toy.
    destruct (add_blob (I := toy_index) img _) as [img1 name] eqn:Ha. intros Heq. injection Heq as <- <-.
    apply add_blob_spec in Ha as [[_ Hs] Hn]. split; [done|].
    cbn [img_index img_blobs].
    unfold index_find. cbn [List.find fst]. by rewrite bool_decide_eq_true_2 by done.
  - intros img m tag img' d t. unfold oci_insert_manifest, oci_find_manifest_with_tag,
      oci_find_manifest_descriptor_with_tag, oci_dir_toy.
    destruct (add_blob (I := toy_index) img _) as [img1 name] eqn:Ha. intros Heq Ht. injection Heq as <- <-.
    apply add_blob_spec in Ha as [[Hi _] _]. cbn [img_index].
    unfold index_find. cbn [List.find fst]. rewrite bool_decide_eq_false_2 by congruence.
    change (@img_index toy_index img = @img_index toy_index img1) in Hi. by rewrite Hi.
  - intros img1 img2 tag m [Hi _]. change (@img_index toy_index img1 = @img_index toy_index img2) in Hi.
    cbn. by rewrite Hi.
  - intros img1 img2 tag m [Hi _]. change (@img_index toy_index img1 = @img_index toy_index img2) in Hi.
    cbn. by rewrite Hi.
Qed.

(** ** A dictionary coder: the messages of a table, each coded by its position *)

Definition wire_table (ms : list capnp_Rootfs) : CapnpWire := {|
  wire_segments := capnp_Rootfs;
  write_message m :=
    match list_find (fun m' => m' = m) ms with
    | Some (i, _) => Ok (replicate i x01)
    | None => Err (CapnpError CapnpMalformed)
    end;
  buffer_segments_new b := ok_or (ms !! length b) (CapnpError CapnpMalformed);
  reader_get s := Ok s
|}.

#[export] Instance wire_table_ok ms : CapnpWireOk (wire_table ms).
Proof.
  intros r m b _. cbn. destruct (list_find _ ms) as [[i m']|] eqn:Hf; [|done]. intros [= <-].
  apply list_find_Some in Hf as (Hi & -> & _). exists m. rewrite length_replicate, Hi. done.
Qed.

(** ** Devices, flags, directory replies *)

#[export] Instance nix_stat_toy : NixStat :=
  {| stat_major d := (d / 256)%N; stat_minor d := (d mod 256)%N; makedev a b := (a * 256 + b)%N |}.

(** The values on x86-64 Linux; [oflag_all] is every flag [nix] knows. *)
#[export] Instance oflags_linux : OFlags := {|
  oflag_all := 8355779; O_RDONLY := 0; O_PATH := 2097152; O_NONBLOCK := 2048; O_DIRECTORY := 65536;
  O_NOFOLLOW := 131072; O_NOATIME := 262144; O_WRONLY := 1; O_RDWR := 2; O_CREAT := 64; O_TRUNC := 512;
  O_APPEND := 1024
|}.
#[export] Instance oflags_linux_ok : OFlagsOk oflags_linux.
Proof.
  split; [done|]. intros w r Hw Hr. repeat (apply elem_of_cons in Hw as [->|Hw]); [..|by apply elem_of_nil in Hw];
    repeat (apply elem_of_cons in Hr as [->|Hr]); done || by apply elem_of_nil in Hr.
Qed.

(** A reply holds two entries. *)
#[export] Instance reply_two : ReplyDirectory := fun l _ => bool_decide (length l < 2).

(** ** Chunks of eight bytes *)

Fixpoint cut (fuel : nat) (data : bytes) : list bytes :=
  match fuel, data with
  | _, [] => []
  | S fuel, _ => take 8 data :: cut fuel (drop 8 data)
  | O, _ => [data]
  end.

Lemma cut_concat fuel data : concat (cut fuel data) = data.
Proof.
  revert data. induction fuel as [|fuel IH]; intros [|x data]; try done.
  - cbn. by rewrite app_nil_r.
  - cbn [cut concat]. rewrite IH. apply take_drop.
Qed.

Lemma cut_short fuel data :
  length data <= fuel -> Forall (fun d => d ≠ [] /\ length d <= 8) (cut fuel data).
Proof.
  revert data. induction fuel as [|fuel IH]; intros [|x data] Hf; try (constructor; fail); [simpl in Hf; lia|].
  cbn [cut]. constructor; [split; [done|]; rewrite length_take; lia|].
  apply IH. rewrite length_drop. simpl in *. lia.
Qed.

#[export] Instance cdc_toy `{HostFs} : StreamCDC := fun s _ _ _ =>
  match stream_pending s with
  | Some data => (fun d => Ok (mkChunkData (len d) d)) <$> cut (length data) data
  | None => [Err (OsError (errno_code ENOENT))]
  end.

#[export] Instance cdc_toy_ok `{F : HostFs} : StreamCDCOk (cdc_toy (H := F)).
Proof.
  intros s data Hs. exists ((fun d => mkChunkData (len d) d) <$> cut (length data) data).
  unfold stream_cdc, cdc_toy. rewrite Hs, <-!list_fmap_compose. split; [done|]. split.
  - unfold compose. cbn. rewrite list_fmap_id. apply cut_concat.
  - apply Forall_fmap. eapply Forall_impl; [by apply (cut_short (length data) data)|].
    intros d [Hne Hl]. split; [done|]. split; [done|]. cbn. unfold len. lia.
Qed.

#[export] Instance hash_order_toy : HashOrder := fun m => (map_to_list m).*2.
#[export] Instance hash_order_toy_ok : HashOrderOk hash_order_toy.
Proof. by intros m. Qed.

(** A store that has no room for more than [quota] blobs: the next write stops half way, with ENOSPC. *)
Definition blob_write_quota (quota : nat) : BlobWrite := fun blobs _ data =>
  if bool_decide (size blobs < quota) then (Some data, None)
  else (Some (take (length data / 2) data), Some (OsError 28)).
Lemma blob_write_quota_ok quota : BlobWriteOk (blob_write_quota quota).
Proof.
  split; intros blobs path data; unfold blob_write, blob_write_quota; case_bool_decide; try done.
  - by intros ? [= <-].
  - intros part e [= <- _]. exists (drop (length data / 2) data). by rewrite take_drop.
Qed.

#[export] Instance oci_dir_fail_toy : OciDirFail :=
  {| left_by_new_empty_manifest img := img; left_by_insert_manifest img _ _ := img |}.
#[export] Instance oci_dir_fail_toy_ok : OciDirFailOk oci_dir_fail_toy.
Proof. by split. Qed.

(** ** Healthy stores *)

(** Collision freedom on a finite set of data is decidable. *)
Lemma checksum_injective (l : list bytes) :
  NoDup (sha256 <$> l) -> forall a b, a ∈ l -> b ∈ l -> sha256 a = sha256 b -> a = b.
Proof.
  intros Hnd a b (i & Hi)%list_elem_of_lookup (j & Hj)%list_elem_of_lookup Hab.
  assert (i = j) as ->; [|congruence].
  eapply (NoDup_lookup (sha256 <$> l)); [done | rewrite list_lookup_fmap, Hi; done |].
  rewrite list_lookup_fmap, Hj. cbn. by rewrite Hab.
Qed.

Definition healthyb (l : list bytes) (img : Image toy_index) : bool :=
  bool_decide (NoDup (sha256 <$> l)) &&
  forallb (fun nf => bool_decide (nf.1 = hex_encode (sha256 (bf_data nf.2))) && bool_decide (bf_data nf.2 ∈ l))
    (map_to_list (img_blobs img)).

Lemma healthyb_ok l img : healthyb l img = true -> healthy (fun b => b ∈ l) img.
Proof.
  unfold healthyb. intros [Hnd%bool_decide_eq_true Hall]%andb_true_iff. rewrite forallb_forall in Hall.
  split; [| |by apply checksum_injective].
  - intros n f Hf. apply elem_of_map_to_list, list_elem_of_In, Hall, andb_true_iff in Hf as [Hn _].
    by apply bool_decide_eq_true in Hn.
  - intros n f Hf. apply elem_of_map_to_list, list_elem_of_In, Hall, andb_true_iff in Hf as [_ Hn].
    by apply bool_decide_eq_true in Hn.
Qed.
