(* ===== verification/Witnesses.v ===== *)
(** The theorems of the store, the reader, the walk and the FUSE layer at concrete inputs: an
    image with an uncompressed and a compressed blob, a file that spans both, and a small tree
    with a whiteout. *)

From S2P Require Import Prelude Errors RustStd Capnp Format Digest InodeTable Wire Compression Oci Reader Walk Fuse Extractor FsStream Chunks Verity Concrete.

(** ** A store with two blobs *)

Definition hello : bytes := bstr "hello, puzzlefs!".
Definition run : bytes := replicate 40 x41.

Definition empty_image : Image oci_index := mkImage (index := oci_index) ∅ [].
Definition empty_manifest : ImageManifest := mkManifest (blob_desc []) [].

Definition image_of (r : Result (Image oci_index * ImageManifest * (Descriptor * bytes * bool))) : Image oci_index :=
  match r with Ok (img, _, _) => img | _ => empty_image end.

(** [hello] is stored as it is, [run] as a run-length frame. *)
Definition image1 : Image oci_index := image_of (put_blob Noop empty_image hello empty_manifest MT_Chunk).
Definition image2 : Image oci_index := image_of (put_blob Zstd image1 run empty_manifest MT_Chunk).

Definition universe : list bytes := [hello; (stored_form Zstd run).1].

Lemma healthy0 : healthy (fun b => b ∈ universe) empty_image.
Proof. apply healthyb_ok. vm_compute. reflexivity. Qed.

Lemma in_universe b : bool_decide (b ∈ universe) = true -> b ∈ universe.
Proof. apply bool_decide_eq_true. Qed.

Lemma image1_ok :
  exists man desc v, put_blob Noop empty_image hello empty_manifest MT_Chunk = Ok (image1, man, (desc, v, false)) /\
  healthy (fun b => b ∈ universe) image1 /\ resolves image1 (sha256 hello) false hello.
Proof.
  destruct (put_blob_healthy Noop _ empty_image hello empty_manifest MT_Chunk (or_introl eq_refl) eq_refl healthy0)
    as (img & man & desc & v & c & Hput & Hh & _ & _ & _ & _ & _ & Hr & _);
    [apply in_universe; vm_compute; reflexivity|].
  assert (img = image1) as -> by (unfold image1; by rewrite Hput).
  destruct (put_blob_ok_inv Noop empty_image hello empty_manifest MT_Chunk image1 man desc v c eq_refl Hput) as (Hc & _).
  assert (c = false) as -> by (rewrite Hc; vm_compute; reflexivity).
  exists man, desc, v. split; [exact Hput|]. split; [exact Hh|].
  assert ((stored_form Noop hello).1 = hello) as Hs by (vm_compute; reflexivity). by rewrite Hs in Hr.
Qed.

Lemma image2_ok :
  exists man desc v, put_blob Zstd image1 run empty_manifest MT_Chunk = Ok (image2, man, (desc, v, true)) /\
  healthy (fun b => b ∈ universe) image2 /\ image_extends image1 image2 /\
  resolves image2 (sha256 (stored_form Zstd run).1) true run.
Proof.
  destruct image1_ok as (_ & _ & _ & _ & Hh1 & _).
  destruct (put_blob_healthy Zstd _ image1 run empty_manifest MT_Chunk (or_intror eq_refl) eq_refl Hh1)
    as (img & man & desc & v & c & Hput & Hh & Hext & _ & _ & _ & _ & Hr & _);
    [apply in_universe; vm_compute; reflexivity|].
  assert (img = image2) as -> by (unfold image2; by rewrite Hput).
  destruct (put_blob_ok_inv Zstd image1 run empty_manifest MT_Chunk image2 man desc v c eq_refl Hput) as (Hc & _).
  assert (c = true) as -> by (rewrite Hc; vm_compute; reflexivity).
  exists man, desc, v. split; [exact Hput|]. split; [exact Hh|]. split; [exact Hext|exact Hr].
Qed.

(** A file that starts with all of [hello] and goes on with twenty bytes of [run]. *)
Definition chunk1 : FileChunk := mkFileChunk (mkBlobRef (sha256 hello) 0 false) 16.
Definition chunk2 : FileChunk := mkFileChunk (mkBlobRef (sha256 (stored_form Zstd run).1) 8 true) 20.
Definition two_chunks : list FileChunk := [chunk1; chunk2].
Definition content : bytes := hello ++ replicate 20 x41.

Lemma two_chunks_content : file_content image2 None two_chunks content.
Proof.
  destruct image1_ok as (_ & _ & _ & _ & _ & Hr1), image2_ok as (_ & _ & _ & _ & _ & [Hsub _] & Hr2).
  exists [hello; replicate 20 x41]. split; [|reflexivity]. constructor; [|constructor; [|constructor]].
  - exists hello. split; [done|]. split; [by eapply resolves_mono|]. by repeat split.
  - exists run. split; [done|]. split; [done|]. by repeat split.
Qed.

Definition a_file : Inode := mkInode 2 (Mode_File two_chunks) 0 0 420 None.

(** ** The store *)

Lemma Zstd_compress_roundtrip_witness :
  exists c, compress_buf (C := Zstd) run = Ok (c, len run) /\ reads_as (C := Zstd) c run.
Proof. exact (Zstd_compress_roundtrip run eq_refl). Defined.

Lemma archive_hello : zstd_archive (frame hello) hello.
Proof. exists hello. split; [vm_compute; reflexivity|]. split; [reflexivity|]. done. Qed.

(** Read five bytes, go back three from there, read two, jump to four before the end, read all. *)
Lemma Zstd_decompressor_is_cursor_witness :
  exists d, Zstd_decompress (frame hello) = Ok d /\
    decomp_run (C := Zstd) d [DRead 5; DSeek (SeekCurrent (-3)); DRead 2; DSeek (SeekEnd (-4)); DRead 100]
    = Ok [inr (bstr "hello"); inl 2%N; inr (bstr "ll"); inl 12%N; inr (bstr "efs!")].
Proof.
  apply (Zstd_decompressor_is_cursor (frame hello) hello);
    [exact archive_hello | vm_compute; reflexivity | vm_compute; reflexivity].
Defined.

Lemma image2_collision_free : no_collision image1 (stored_form Zstd run).1.
Proof.
  intros f Hf. exfalso. revert Hf. assert (img_blobs image1 !! hex_encode (sha256 (stored_form Zstd run).1) = None) as ->
    by (vm_compute; reflexivity). done.
Qed.

Lemma put_blob_fill_from_chunk_witness :
  exists desc digest, Digest_try_from_str (d_digest desc) = Ok (mkDigest digest) /\
    fill_from_chunk image2 (mkBlobRef digest 8 true) 2 10 None = Ok (replicate 10 x41).
Proof.
  destruct image2_ok as (man & desc & v & Hput & _).
  destruct (put_blob_fill_from_chunk Zstd image1 image2 image2 run empty_manifest man MT_Chunk desc v true
              (or_intror eq_refl) eq_refl image2_collision_free Hput (reflexivity _)) as (digest & Hd & Hfill).
  exists desc, digest. split; [exact Hd|]. exact (Hfill 8%N 2%N 10%N ltac:(vm_compute; discriminate)).
Defined.

Lemma image1_addressed : content_addressed image1.
Proof. destruct image1_ok as (_ & _ & _ & _ & Hh & _). by destruct Hh. Qed.

Lemma put_blob_content_addressed_witness : content_addressed image2 /\ image_extends image1 image2.
Proof.
  destruct image2_ok as (man & desc & v & Hput & _).
  exact (put_blob_content_addressed Zstd Zstd_ok image1 image2 run empty_manifest man MT_Chunk (desc, v, true)
           eq_refl image1_addressed Hput).
Defined.

Lemma put_blob_idempotent_witness :
  exists ret man2', put_blob Zstd image2 run empty_manifest MT_Chunk = Ok (image2, man2', ret).
Proof.
  destruct image2_ok as (man & desc & v & Hput & _). exists (desc, v, true).
  exact (put_blob_idempotent Zstd Zstd_ok image1 image2 run empty_manifest man empty_manifest MT_Chunk
           (desc, v, true) eq_refl Hput).
Defined.

(** ** Reading *)

(** Ten bytes from offset twelve: the end of [hello] and the start of the run. *)
Lemma file_read_correct_witness :
  file_read image2 a_file 12 (replicate 10 x00) None = Ok (bstr "efs!AAAAAA", 10%N).
Proof.
  exact (file_read_correct image2 None a_file two_chunks content 12 (replicate 10 x00) eq_refl
           two_chunks_content eq_refl).
Defined.

Definition missing_chunk : FileChunk := mkFileChunk (mkBlobRef (sha256 []) 0 false) 5.

Lemma file_read_opens_later_chunks_witness :
  file_read image2 (mkInode 2 (Mode_File (two_chunks ++ [missing_chunk])) 0 0 420 None) 0 (replicate 4 x00) None
  = Err (IOError (OsError (errno_code ENOENT))).
Proof.
  apply (file_read_opens_later_chunks image2 _ two_chunks [] missing_chunk content);
    [reflexivity | exact two_chunks_content | reflexivity | vm_compute; discriminate | vm_compute; reflexivity].
Defined.

Lemma FileReader_reads_everything_witness :
  exists reader, FileReader_new image2 a_file = Ok reader /\
    FileReader_copy (S (length content)) 7 reader [] = Ok content.
Proof.
  exact (FileReader_reads_everything image2 a_file two_chunks content 7 eq_refl two_chunks_content eq_refl eq_refl).
Defined.

(** ** A tree: [/a] the file above, [/d] a directory with the link [/d/l], and a whiteout [/w] in
    a second version of the root *)

Definition link_attrs : InodeAdditional :=
  mkAdditional [mkXattr (bstr "user.k") (bstr "v"); mkXattr (bstr "user.empty") []] (Some (bstr "../a")).

Definition tree_root : Inode :=
  mkInode 1 (Mode_Dir (mkDirList false [mkDirEnt 2 (bstr "a"); mkDirEnt 3 (bstr "d"); mkDirEnt 2 (bstr "z")])) 0 0 493 None.
Definition tree_dir : Inode := mkInode 3 (Mode_Dir (mkDirList false [mkDirEnt 4 (bstr "l")])) 0 0 493 None.
Definition tree_link : Inode := mkInode 4 Mode_Lnk 1000 1000 511 (Some link_attrs).
Definition wht_root : Inode :=
  mkInode 1 (Mode_Dir (mkDirList false [mkDirEnt 2 (bstr "a"); mkDirEnt 5 (bstr "w"); mkDirEnt 3 (bstr "d")])) 0 0 493 None.

Definition tree_layer : list Inode := [tree_root; a_file; tree_dir; tree_link].
Definition wht_layer : list Inode := [wht_root; a_file; tree_dir; tree_link; new_whiteout 5].

Definition tree_pfs : PuzzleFS := mkPuzzleFS image2 (read_back (mkRootfs [tree_layer] ∅ 3)) None None.
Definition wht_pfs : PuzzleFS := mkPuzzleFS image2 (read_back (mkRootfs [wht_layer] ∅ 3)) None None.

Lemma tree_searchable : searchable (mkRootfs [tree_layer] ∅ 3).
Proof.
  split; [split; [done|]; split; [|split; [done | apply map_Forall_empty]]|].
  - apply Forall_singleton. split; [done|]. repeat constructor; try done; apply len_checksum.
  - apply Forall_singleton. split; [done|]. vm_compute. repeat constructor.
Qed.

Lemma tree_represents : represents (pfs_rootfs tree_pfs) (mkRootfs [tree_layer] ∅ 3).
Proof.
  destruct (Rootfs_fill_from _ (proj1 tree_searchable)) as (m & Hm & _).
  exists m. split; [exact Hm|]. unfold tree_pfs, read_back. cbn [pfs_rootfs rr_reader]. by rewrite Hm.
Qed.

(** Whatever is found is in the layer. *)
Lemma tree_find ino inode : PuzzleFS_find_inode tree_pfs ino = Ok inode -> inode ∈ tree_layer.
Proof.
  unfold PuzzleFS_find_inode. rewrite (RootfsReader_find_inode_spec _ _ ino tree_represents tree_searchable).
  unfold visible. cbn [rf_metadatas overlay foldr]. rewrite map_union_empty.
  destruct (layer_map tree_layer !! ino) as [i|] eqn:Hi; [|done].
  apply layer_map_lookup in Hi as [Hin _]; [|by apply (Forall_inv (proj2 tree_searchable))].
  destruct (i_mode i); by intros [= <-].
Qed.

Lemma tree_addressable : addressable tree_pfs.
Proof.
  intros ino inode dl Hf%tree_find Hm. unfold tree_layer in Hf.
  repeat (apply elem_of_cons in Hf as [->|Hf]; [try discriminate Hm|]); [| |by apply elem_of_nil in Hf];
    injection Hm as <-; (split; [apply (bool_decide_unpack _); vm_compute; exact I|]);
    apply (bool_decide_unpack _); vm_compute; exact I.
Qed.

(** ** The walk *)

Definition walk_start : WalkPuzzleFS := mkWalk tree_pfs [mkDirEntry image2 [RootDir] tree_root].

Lemma walk_starts : WalkPuzzleFS_walk tree_pfs = Ok walk_start.
Proof. unfold WalkPuzzleFS_walk. assert (PuzzleFS_find_inode tree_pfs 1 = Ok tree_root) as -> by (vm_compute; reflexivity). done. Qed.

Definition entry (comps : list bytes) (i : Inode) : DirEntry := mkDirEntry image2 (RootDir :: (Normal <$> comps)) i.

Definition tree_levels : list (list DirEntry) :=
  [[entry [] tree_root];
   [entry [bstr "a"] a_file; entry [bstr "d"] tree_dir; entry [bstr "z"] a_file];
   [entry [bstr "d"; bstr "l"] tree_link]].

Lemma tree_finds :
  PuzzleFS_find_inode tree_pfs 2 = Ok a_file /\ PuzzleFS_find_inode tree_pfs 3 = Ok tree_dir /\
  PuzzleFS_find_inode tree_pfs 4 = Ok tree_link /\ PuzzleFS_find_inode tree_pfs 1 = Ok tree_root.
Proof. by repeat split; vm_compute. Qed.

Lemma tree_levels_ok : levels tree_pfs (w_q walk_start) tree_levels.
Proof.
  destruct tree_finds as (H2 & H3 & H4 & _).
  assert (forall p, children tree_pfs (mkDirEntry image2 p a_file) = Ok []) as Ha by done.
  econstructor; [done| |econstructor; [done| |econstructor; [done| |constructor]]].
  - unfold next_level, children, child_entry, walk_start. cbn -[PuzzleFS_find_inode image2].
    rewrite H2, H3. reflexivity.
  - unfold next_level, children, child_entry. cbn -[PuzzleFS_find_inode image2]. rewrite H4. reflexivity.
  - reflexivity.
Qed.

Lemma WalkPuzzleFS_breadth_first_witness :
  walk_collect 6 walk_start [] = Ok (concat tree_levels).
Proof. exact (WalkPuzzleFS_breadth_first tree_pfs walk_start tree_levels walk_starts tree_levels_ok). Defined.

Definition after_root : WalkPuzzleFS :=
  mkWalk tree_pfs [entry [bstr "a"] a_file; entry [bstr "d"] tree_dir; entry [bstr "z"] a_file].

Lemma walk_two_steps :
  walk_steps walk_start [Ok (entry [] tree_root); Ok (entry [bstr "a"] a_file)]
    (mkWalk tree_pfs [entry [bstr "d"] tree_dir; entry [bstr "z"] a_file]).
Proof.
  destruct tree_finds as (H2 & H3 & _).
  eapply (walk_step _ after_root); [|eapply walk_step; [|apply walk_done]].
  - apply (WalkPuzzleFS_next_children tree_pfs _ []). unfold children, child_entry. cbn -[PuzzleFS_find_inode image2].
    rewrite H2, H3. reflexivity.
  - reflexivity.
Qed.

Lemma WalkPuzzleFS_yields_lookup_witness :
  PuzzleFS_lookup tree_pfs [RootDir; Normal (bstr "a")] = Ok (Some a_file).
Proof.
  exact (WalkPuzzleFS_yields_lookup tree_pfs walk_start _ _ (entry [bstr "a"] a_file) tree_addressable walk_starts
           walk_two_steps ltac:(right; left)).
Defined.

Lemma WalkPuzzleFS_whiteout_error_witness :
  WalkPuzzleFS_next (mkWalk wht_pfs [entry [] wht_root])
  = Some (mkWalk wht_pfs [entry [bstr "a"] a_file], Err (from_errno ENOENT)).
Proof.
  assert (PuzzleFS_find_inode wht_pfs 2 = Ok a_file) as H2 by (vm_compute; reflexivity).
  apply (WalkPuzzleFS_whiteout_error wht_pfs (entry [] wht_root) []
           (mkDirList false [mkDirEnt 2 (bstr "a"); mkDirEnt 5 (bstr "w"); mkDirEnt 3 (bstr "d")])
           [mkDirEnt 2 (bstr "a")] [mkDirEnt 3 (bstr "d")]
           (mkDirEnt 5 (bstr "w")) [entry [bstr "a"] a_file]);
    [reflexivity | reflexivity | | vm_compute; reflexivity].
  unfold child_entry. cbn -[PuzzleFS_find_inode image2]. rewrite H2. reflexivity.
Defined.

(** ** FUSE *)

Lemma Fuse_read_only_witness :
  handle tree_pfs (Req_open 2 1025) = Ok (ReplyError (errno_code EROFS)) /\
  handle tree_pfs (Req_unlink 1 (bstr "a")) = Ok (ReplyError (errno_code EROFS)).
Proof.
  split; [exact (Fuse_read_only tree_pfs (Req_open 2 1025) eq_refl) |
          exact (Fuse_read_only tree_pfs (Req_unlink 1 (bstr "a")) eq_refl)].
Defined.

Lemma tree_inos e dl :
  e ∈ dl_entries dl -> dl = mkDirList false [mkDirEnt 4 (bstr "l")] ->
  forall i, PuzzleFS_find_inode tree_pfs (de_ino e) = Ok i -> i_ino i = de_ino e.
Proof.
  destruct tree_finds as (_ & _ & H4 & _). intros He -> i Hi. apply list_elem_of_singleton in He as ->.
  cbn [de_ino] in *. rewrite H4 in Hi. by injection Hi as <-.
Qed.

(** [/d/l] through the directory's number and through its path. *)
Lemma Fuse_lookup_path_witness :
  Fuse_lookup tree_pfs 3 (bstr "l") = Fuse_getattr tree_pfs 4.
Proof.
  pose proof (Fuse_lookup_path tree_pfs [RootDir; Normal (bstr "d")] tree_dir
                (mkDirList false [mkDirEnt 4 (bstr "l")]) (bstr "l")) as Hl.
  assert (PuzzleFS_lookup tree_pfs ([RootDir; Normal (bstr "d")] ++ [Normal (bstr "l")]) = Ok (Some tree_link)) as Hp
    by (vm_compute; reflexivity).
  rewrite Hp in Hl. apply Hl;
    [vm_compute; reflexivity | reflexivity | vm_compute; reflexivity | intros e He; exact (tree_inos e _ He eq_refl)].
Defined.

Lemma Fuse_read_correct_witness :
  handle tree_pfs (Req_read 2 30 100) = Ok (ReplyData (replicate 6 x41)).
Proof.
  exact (Fuse_read_correct tree_pfs 2 a_file two_chunks content 30 100 (proj1 tree_finds) eq_refl two_chunks_content
           ltac:(lia) eq_refl eq_refl).
Defined.

(** Three entries, at most two per reply. *)
Lemma Fuse_readdir_complete_witness :
  readdir_all 4 tree_pfs 1 0 []
  = Ok [mkDirReply 2 1 RegularFile (bstr "a"); mkDirReply 3 2 Directory (bstr "d");
        mkDirReply 2 3 RegularFile (bstr "z")].
Proof.
  apply (Fuse_readdir_complete tree_pfs 1 tree_root
           [mkDirEnt 2 (bstr "a"); mkDirEnt 3 (bstr "d"); mkDirEnt 2 (bstr "z")]);
    [reflexivity | vm_compute; reflexivity | reflexivity | vm_compute; reflexivity | reflexivity].
Defined.

Lemma Fuse_listxattr_protocol_witness :
  exists data, str_split_terminator x00 data = [bstr "user.k"; bstr "user.empty"] /\
    handle tree_pfs (Req_listxattr 4 0) = Ok (ReplySize (len data)) /\
    ((0 < 100 < len data)%N -> handle tree_pfs (Req_listxattr 4 100) = Ok (ReplyError (errno_code ERANGE))) /\
    ((0 < 100)%N -> (len data <= 100)%N -> handle tree_pfs (Req_listxattr 4 100) = Ok (ReplyData data)).
Proof.
  apply (Fuse_listxattr_protocol tree_pfs 4 tree_link link_attrs 100);
    [vm_compute; reflexivity | reflexivity | | reflexivity].
  apply (bool_decide_unpack _). vm_compute. exact I.
Defined.

Lemma Fuse_readdir_whiteout_witness :
  handle wht_pfs (Req_readdir 1 0) = Ok (ReplyError (errno_code ENOENT)).
Proof.
  apply (Fuse_readdir_whiteout wht_pfs 1 wht_root [mkDirEnt 2 (bstr "a")] [mkDirEnt 3 (bstr "d")]
           (mkDirEnt 5 (bstr "w")) [mkDirReply 2 1 RegularFile (bstr "a")]);
    [vm_compute; reflexivity | reflexivity | vm_compute; reflexivity | | vm_compute; reflexivity].
  intros l e Hp%prefix_length. rewrite length_app in Hp. cbn in Hp. unfold reply_fits, reply_two.
  apply bool_decide_eq_true. lia.
Defined.

(** ** Extraction into a directory *)

(** A target that remembers which paths are symbolic links; everything succeeds. *)
#[export] Instance target_toy : TargetFs := {|
  target := gmap Path bool;
  lstat (t : gmap Path bool) p :=
    match t !! p with
    | Some l => Ok (mkMetadata (if l : bool then S_IFLNK else S_IFREG) 1 0 0 0 0)
    | None => Err (OsError (errno_code ENOENT))
    end;
  perform (t : gmap Path bool) e := (match e with
                  | E_symlinkat _ p => <[p := true]> t
                  | E_create p | E_create_dir_all p | E_mkfifo p | E_mknod p _ _ | E_hard_link _ p => <[p := false]> t
                  | _ => t
                  end, Ok ());
  runs_privileged := true
|}.

Definition out_dir : Path := [RootDir; Normal (bstr "out")].
Definition nothing : @target target_toy := (∅ : gmap Path bool).
Definition start : Extract := mkExtract target_toy nothing ∅ [].

(** A hostile name: up, down and absolute. *)
Lemma safe_path_confined_witness :
  below nothing out_dir (out_dir ++ [Normal (bstr "etc")]).
Proof.
  apply (safe_path_confined nothing out_dir [RootDir; Normal (bstr "x")] [RootDir; Normal (bstr "etc"); Normal (bstr "passwd")]
           _ (bstr "/etc/passwd")); [done | | vm_compute; reflexivity | vm_compute; reflexivity].
  repeat constructor; set_solver.
Defined.

Definition bare_link : Inode := mkInode 4 Mode_Lnk 1000 1000 511 (Some (mkAdditional [] (Some (bstr "/etc/passwd")))).

Lemma extract_chowns_through_symlink_witness :
  exists mid t, x_log (extract_entry out_dir (Ok (entry [bstr "l"] bare_link)) start).1
  = (nothing, E_symlinkat (bstr "/etc/passwd") (out_dir ++ [Normal (bstr "l")])) ::
    mid ++ [(t, E_chown (out_dir ++ [Normal (bstr "l")]) 1000 1000)].
Proof.
  destruct (extract_chowns_through_symlink out_dir (out_dir ++ [Normal (bstr "l")]) (entry [bstr "l"] bare_link)
              (bstr "/etc/passwd") start (extract_entry out_dir (Ok (entry [bstr "l"] bare_link)) start).1
              eq_refl eq_refl eq_refl eq_refl eq_refl eq_refl) as (mid & t & Hlog & _).
  exists mid, t. exact Hlog.
Defined.

Lemma extract_file_content_witness :
  exists t, extract_node (entry [bstr "a"] a_file) (out_dir ++ [Normal (bstr "a")]) start
  = (mkExtract _ t ∅ [(nothing, E_create (out_dir ++ [Normal (bstr "a")]));
                      ((perform nothing (E_create (out_dir ++ [Normal (bstr "a")]))).1,
                       E_write (out_dir ++ [Normal (bstr "a")]) content)], Ok false).
Proof.
  exact (extract_file_content (out_dir ++ [Normal (bstr "a")]) (entry [bstr "a"] a_file) two_chunks content
           start eq_refl two_chunks_content eq_refl eq_refl eq_refl).
Defined.
