(* ===== verification/BuildWitnesses.v ===== *)
(** The theorems of the builder and of fs-verity at concrete inputs: a host tree with files, an
    empty file, a hard link, a symbolic link and a subdirectory is built into an image, the image
    is opened, read, sealed and extracted. *)

From S2P Require Import Prelude Errors RustStd Capnp Format Digest InodeTable Wire Compression Oci Reader Walk Fuse Extractor FsStream Chunks Verity Builder BuildFacts BuildEnd BuildType BuildTree BuildImage Main Concrete Witnesses.

(** The value of a computation that is known to succeed. *)
Definition is_ok {E A} (r : outcome E A) : bool := match r with Ok _ => true | _ => false end.
Definition get_ok {E A} (d : A) (r : outcome E A) : A := match r with Ok a => a | _ => d end.

Lemma ok_get {E A} (d : A) (r : outcome E A) : is_ok r = true -> r = Ok (get_ok d r).
Proof. by destruct r. Qed.

(** ** A host tree *)

Record HostNode := mkHostNode {
  hn_md : Metadata; hn_data : bytes; hn_names : list bytes; hn_link : bytes; hn_xattrs : list (bytes * bytes)
}.

Definition src : Path := [RootDir; Normal (bstr "src")].
Definition src_at (names : list bytes) : Path := src ++ (Normal <$> names).

(** [/src/h] is a hard link to [/src/a]; names are listed unsorted. *)
Definition host_table : list (Path * HostNode) :=
  [(src, mkHostNode (mkMetadata (S_IFDIR + 493) 100 0 0 4096 0) [] [bstr "l"; bstr "b"; bstr "a"; bstr "h"; bstr "d"] [] []);
   (src_at [bstr "a"], mkHostNode (mkMetadata (S_IFREG + 420) 101 1 2 16 0) hello [] [] [(bstr "user.k", bstr "v")]);
   (src_at [bstr "b"], mkHostNode (mkMetadata (S_IFREG + 384) 102 0 0 40 0) run [] [] []);
   (src_at [bstr "d"], mkHostNode (mkMetadata (S_IFDIR + 448) 103 0 0 4096 0) [] [bstr "e"] [] []);
   (src_at [bstr "d"; bstr "e"], mkHostNode (mkMetadata (S_IFREG + 420) 104 0 0 0 0) [] [] [] []);
   (src_at [bstr "h"], mkHostNode (mkMetadata (S_IFREG + 420) 101 1 2 16 0) hello [] [] [(bstr "user.k", bstr "v")]);
   (src_at [bstr "l"], mkHostNode (mkMetadata (S_IFLNK + 511) 105 0 0 1 0) [] [] (bstr "a") [])].

(** The same tree later: [b] is gone, [n] is new. *)
Definition host_table2 : list (Path * HostNode) :=
  [(src, mkHostNode (mkMetadata (S_IFDIR + 493) 100 0 0 4096 0) [] [bstr "l"; bstr "n"; bstr "a"; bstr "h"; bstr "d"] [] []);
   (src_at [bstr "a"], mkHostNode (mkMetadata (S_IFREG + 420) 101 1 2 16 0) hello [] [] [(bstr "user.k", bstr "v")]);
   (src_at [bstr "d"], mkHostNode (mkMetadata (S_IFDIR + 448) 103 0 0 4096 0) [] [bstr "e"] [] []);
   (src_at [bstr "d"; bstr "e"], mkHostNode (mkMetadata (S_IFREG + 420) 104 0 0 0 0) [] [] [] []);
   (src_at [bstr "h"], mkHostNode (mkMetadata (S_IFREG + 420) 101 1 2 16 0) hello [] [] [(bstr "user.k", bstr "v")]);
   (src_at [bstr "l"], mkHostNode (mkMetadata (S_IFLNK + 511) 105 0 0 1 0) [] [] (bstr "a") []);
   (src_at [bstr "n"], mkHostNode (mkMetadata (S_IFREG + 420) 106 0 0 4 0) (bstr "new!") [] [] [])].

Definition host_find (t : list (Path * HostNode)) (p : Path) : io_Result HostNode :=
  ok_or (snd <$> List.find (fun kv => bool_decide (kv.1 = p)) t) (OsError (errno_code ENOENT)).

Definition host_of (t : list (Path * HostNode)) : HostFs := {|
  symlink_metadata p := hn_md <$> host_find t p;
  fs_open p := hn_data <$> host_find t p;
  fs_read_dir p := (fun n => Ok <$> hn_names n) <$> host_find t p;
  fs_read_link p := hn_link <$> host_find t p;
  xattr_list p := (fun n => (hn_xattrs n).*1) <$> host_find t p;
  xattr_get p k :=
    (fun n => snd <$> List.find (fun kv => bool_decide (kv.1 = k)) (hn_xattrs n)) <$> host_find t p
|}.

(** The tables are in the order of a walk. *)
Definition walk_of (t : list (Path * HostNode)) : WalkDir := fun _ keep => Ok <$> List.filter keep (fst <$> t).

#[export] Instance host_toy : HostFs := host_of host_table.
#[export] Instance walkdir_toy : WalkDir := walk_of host_table.

Lemma host_toy_consistent : host_consistent.
Proof.
  intros p md. unfold symlink_metadata, fs_open, host_toy, host_of, host_find.
  destruct (List.find _ host_table) as [[q n]|] eqn:Hf; [|done]. apply find_some in Hf as [Hin _].
  cbn. intros [= <-] Hfile. exists (hn_data n). split; [done|].
  assert (Forall (fun kv => md_is_file (hn_md kv.2) = true -> md_len (hn_md kv.2) = len (hn_data kv.2)
                            /\ (len (hn_data kv.2) < 2 ^ 63)%N) host_table) as Hall.
  { repeat constructor; discriminate. }
  rewrite List.Forall_forall in Hall. by apply (Hall (q, n) Hin).
Qed.

(** ** The file stream and the chunks *)

Lemma FilesystemStream_concatenates_witness :
  drain (fun k => N.of_nat (S k)) 57 0 (stream_of [src_at [bstr "a"]; src_at [bstr "d"; bstr "e"]; src_at [bstr "b"]]) []
  = Ok (hello ++ run).
Proof.
  apply (FilesystemStream_concatenates _ [hello; []; run]).
  - repeat constructor.
  - intros j. lia.
Defined.

Definition file_a : File := mkFile 2 [] (mkMetadata (S_IFREG + 420) 101 1 2 16 0) None.
Definition file_e : File := mkFile 3 [] (mkMetadata (S_IFREG + 420) 104 0 0 0 0) None.
Definition file_b : File := mkFile 4 [] (mkMetadata (S_IFREG + 384) 102 0 0 40 0) None.

Definition cuts : list ChunkData := (fun d => mkChunkData (len d) d) <$> cut 56 (hello ++ run).
Definition cut_universe : list bytes := [bstr "hello, p"; bstr "uzzlefs!"; frame (replicate 8 x41)].

Lemma cuts_in_universe : Forall (fun c => (stored_form Zstd (cd_data c)).1 ∈ cut_universe) cuts.
Proof. apply (bool_decide_unpack _). vm_compute. exact I. Qed.

Lemma process_chunks_correct_witness :
  exists img' files' vd' man',
    process_chunks Zstd empty_image (Ok <$> cuts) [file_a; file_e; file_b] ∅ empty_manifest = Ok (img', files', vd', man') /\
    healthy (fun b => b ∈ cut_universe) img' /\ image_extends empty_image img' /\
    Forall2 (rendered img') files' [(file_a, hello); (file_e, []); (file_b, run)].
Proof.
  apply (process_chunks_correct Zstd (fun b => b ∈ cut_universe) cuts empty_image
           [(file_a, hello); (file_e, []); (file_b, run)] ∅ empty_manifest).
  - by right.
  - apply healthyb_ok. vm_compute. reflexivity.
  - repeat constructor; done.
  - exact cuts_in_universe.
  - repeat constructor.
  - repeat constructor.
  - vm_compute. reflexivity.
Defined.

(** ** Building *)

Definition image0 : Image oci_index := (add_blob (I := toy_index) empty_image (bstr "{}")).1.
Definition manifest0 : ImageManifest := mkManifest (blob_desc (hex_encode (sha256 (bstr "{}")))) [].

Lemma manifest0_ok : get_empty_manifest empty_image = Ok (image0, manifest0).
Proof. vm_compute. reflexivity. Qed.

Definition no_build : Build := mkBuild ∅ [] [] [] FilesystemStream_new ∅ 0.

Definition build_with (W : CapnpWire) (C : Compression) : Image oci_index * list Inode * VerityData * ImageManifest :=
  get_ok (empty_image, [], ∅, manifest0) (build_delta (W := W) C src image0 None ∅ manifest0).

(** The messages of the two images, with and without compression, as a dictionary. *)
Definition message (C : Compression) : capnp_Rootfs :=
  let r := build_with wire_concrete C in
  get_ok default_Rootfs (Rootfs_fill_capnp (mkRootfs [r.1.1.2] r.1.2 3) default_Rootfs).

(** The image of the first tree without compression, and the layer the second tree adds to it. *)
Definition latest : bytes := bstr "latest".
Definition no_pfs (ms : list capnp_Rootfs) : PuzzleFS (W := wire_table ms) :=
  mkPuzzleFS (W := wire_table ms) empty_image (mkRootfsReader (W := wire_table ms) default_Rootfs) None None.

Definition base_image (ms : list capnp_Rootfs) : Image oci_index :=
  (get_ok (empty_image, blob_desc []) (build_initial_rootfs (W := wire_table ms) Noop src empty_image latest)).1.
Definition base_empty (ms : list capnp_Rootfs) : Image oci_index * ImageManifest :=
  get_ok (empty_image, manifest0) (get_empty_manifest (base_image ms)).
Definition base_pfs (ms : list capnp_Rootfs) : PuzzleFS (W := wire_table ms) :=
  get_ok (no_pfs ms) (PuzzleFS_open (W := wire_table ms) (base_empty ms).1 latest None).
Definition delta_built (ms : list capnp_Rootfs) : Image oci_index * list Inode * VerityData * ImageManifest :=
  get_ok (empty_image, [], ∅, manifest0)
    (build_delta (W := wire_table ms) (F := host_of host_table2) (CD := cdc_toy (H := host_of host_table2))
       (WD := walk_of host_table2) Noop src (base_empty ms).1 (Some (base_pfs ms)) ∅ (base_empty ms).2).

Definition delta_rootfs (base : Rootfs) (ms : list capnp_Rootfs) : Rootfs :=
  mkRootfs (insert_layer (rf_metadatas base) (delta_built ms).1.1.2)
    ((delta_built ms).1.2 ∪ rf_fs_verity_data base) (rf_manifest_version base).

Definition delta_message : capnp_Rootfs :=
  let ms := [message Zstd; message Noop] in
  let r := build_with wire_concrete Noop in
  get_ok default_Rootfs (Rootfs_fill_capnp (delta_rootfs (mkRootfs [r.1.1.2] r.1.2 3) ms) default_Rootfs).

Definition messages : list capnp_Rootfs := Eval vm_compute in [message Zstd; message Noop; delta_message].

#[export] Instance wire_built : CapnpWire := wire_table messages.
#[export] Instance wire_built_ok : CapnpWireOk wire_built := wire_table_ok _.

Definition scan0 : Build := get_ok no_build (scan_tree src None).
Definition built (C : Compression) := build_with wire_built C.
Definition rootfs_of (C : Compression) : Rootfs := mkRootfs [(built C).1.1.2] (built C).1.2 3.

Lemma built_ok C :
  C = Noop \/ C = Zstd ->
  build_delta C src image0 None ∅ manifest0 = Ok ((built C).1.1.1, (built C).1.1.2, (built C).1.2, (built C).2).
Proof.
  intros HC. rewrite <-!surjective_pairing. apply ok_get. destruct HC as [->| ->]; vm_compute; reflexivity.
Qed.

Lemma entries_bounded : (2 + entry_count (walkdir_filter_entry (walker src) keep_dirs) < 2 ^ 64)%N.
Proof. vm_compute. reflexivity. Qed.

Lemma build_delta_initial_sorted_witness : sorted_layer (built Zstd).1.1.2.
Proof.
  exact (build_delta_initial_sorted Zstd src image0 (built Zstd).1.1.1 ∅ (built Zstd).1.2 manifest0 (built Zstd).2
           (built Zstd).1.1.2 entries_bounded (built_ok Zstd (or_intror eq_refl))).
Defined.

Definition build_universe (C : Compression) : list bytes :=
  remove_dups ([bstr "{}"] ++
    ((fun c => match c with Ok c => (stored_form C (cd_data c)).1 | _ => [] end) <$>
       stream_cdc (b_fs_stream scan0) MIN_CHUNK_SIZE AVG_CHUNK_SIZE MAX_CHUNK_SIZE) ++ [[]; [x01]]).

Lemma image0_healthy C : C = Noop \/ C = Zstd -> healthy (fun b => b ∈ build_universe C) image0.
Proof. intros [->| ->]; apply healthyb_ok; vm_compute; reflexivity. Qed.

Lemma chunks_in_universe C :
  C = Noop \/ C = Zstd ->
  Forall (fun c => match c with Ok c => (stored_form C (cd_data c)).1 ∈ build_universe C | _ => True end)
    (stream_cdc (b_fs_stream scan0) MIN_CHUNK_SIZE AVG_CHUNK_SIZE MAX_CHUNK_SIZE).
Proof.
  intros HC. apply Forall_forall. intros c Hc. destruct c as [c| | |]; try done.
  unfold build_universe. rewrite elem_of_remove_dups, !elem_of_app. right. left.
  apply list_elem_of_fmap. by exists (Ok c).
Qed.

Lemma scan0_ok : scan_tree src None = Ok scan0.
Proof. apply ok_get. vm_compute. reflexivity. Qed.

Lemma build_delta_contents_witness :
  exists img' l vd' man', build_delta Zstd src image0 None ∅ manifest0 = Ok (img', l, vd', man') /\
    image_extends image0 img' /\ forall f, f ∈ b_files scan0 -> file_in_layer scan0 img' l f.
Proof.
  exact (build_delta_contents Zstd (fun b => b ∈ build_universe Zstd) src image0 None ∅ manifest0 scan0
           (mkMetadata (S_IFDIR + 493) 100 0 0 4096 0) (or_intror eq_refl) host_toy_consistent eq_refl eq_refl scan0_ok
           (image0_healthy Zstd (or_intror eq_refl)) (chunks_in_universe Zstd (or_intror eq_refl))).
Defined.

(** ** Opening what was built *)

#[export] Instance wf_mode_dec m : Decision (wf_mode m).
Proof. destruct m; cbn; unfold wf_blob; apply _. Defined.
#[export] Instance wf_inode_dec i : Decision (wf_inode i).
Proof. unfold wf_inode. destruct (i_additional i); apply _. Defined.
#[export] Instance wf_layer_dec l : Decision (wf_layer l).
Proof. unfold wf_layer. apply _. Defined.
#[export] Instance wf_verity_dec m : Decision (wf_verity m).
Proof. unfold wf_verity. apply _. Defined.
#[export] Instance wf_rootfs_dec r : Decision (wf_rootfs r).
Proof. unfold wf_rootfs. apply _. Defined.

Lemma rootfs_of_wf C : C = Noop \/ C = Zstd -> wf_rootfs (rootfs_of C).
Proof. intros [->| ->]; apply (bool_decide_unpack _); vm_compute; exact I. Qed.

Definition blob_of (C : Compression) : bytes := get_ok [] (serialize_metadata (rootfs_of C)).

Lemma serialized C : C = Noop \/ C = Zstd -> serialize_metadata (rootfs_of C) = Ok (blob_of C).
Proof. intros [->| ->]; apply ok_get; vm_compute; reflexivity. Qed.

Lemma blob_in_universe C : C = Noop \/ C = Zstd -> blob_of C ∈ build_universe C.
Proof. intros [->| ->]; apply (bool_decide_unpack _); vm_compute; exact I. Qed.

Lemma insert_succeeds tag (img : Image oci_index) man :
  exists img' d, oci_insert_manifest img man (Some tag) = Ok (img', d).
Proof.
  unfold oci_insert_manifest, oci_dir_toy. destruct (add_blob (I := toy_index) img _) as [img1 name]. eauto.
Qed.

Lemma first_build_ok C :
  C = Noop \/ C = Zstd ->
  first_build C (fun b => b ∈ build_universe C) src empty_image image0 (built C).1.1.1 latest manifest0 (built C).2 scan0
    (built C).1.1.2 (built C).1.2 (blob_of C).
Proof.
  intros HC. constructor.
  - exact HC.
  - apply host_toy_consistent.
  - by exists (mkMetadata (S_IFDIR + 493) 100 0 0 4096 0).
  - apply scan0_ok.
  - apply entries_bounded.
  - apply manifest0_ok.
  - by apply image0_healthy.
  - by apply chunks_in_universe.
  - by apply built_ok.
  - by apply (wf_in_limits _ _ 3), rootfs_of_wf.
  - by apply serialized.
  - split; [|by apply blob_in_universe]. destruct HC as [->| ->]; vm_compute; reflexivity.
  - apply insert_succeeds.
Qed.

(** The directories of the host tree, and all its paths. *)
Definition src_dirs : list Path := [src; src_at [bstr "d"]].

Lemma src_names d names :
  d ∈ src_dirs -> sorted_dirents d = Ok names ->
  d = src /\ names = [bstr "a"; bstr "b"; bstr "d"; bstr "h"; bstr "l"] \/ d = src_at [bstr "d"] /\ names = [bstr "e"].
Proof.
  unfold src_dirs. rewrite !elem_of_cons, elem_of_nil. intros [->|[->|[]]]; vm_compute; intros [= <-]; auto.
Qed.

Lemma src_tree_path p : tree_path src_dirs p -> p ∈ fst <$> host_table.
Proof.
  intros [Hp|(d & names & name & Hd & Hn & Hin & ->)].
  - revert p Hp. rewrite <-Forall_forall. apply (bool_decide_unpack _). vm_compute. exact I.
  - destruct (src_names _ _ Hd Hn) as [[-> ->]|[-> ->]]; revert name Hin; rewrite <-Forall_forall;
      apply (bool_decide_unpack _); vm_compute; exact I.
Qed.

Lemma src_tree : host_tree src src_dirs.
Proof.
  split.
  - by left.
  - done.
  - vm_compute. reflexivity.
  - apply (bool_decide_unpack _). vm_compute. exact I.
  - unfold src_dirs. intros d. rewrite !elem_of_cons, elem_of_nil. intros [->|[->|[]]]; [by exists [] | by eexists].
  - unfold src_dirs. intros d. rewrite !elem_of_cons, elem_of_nil. intros [->|[->|[]]]; by eexists.
  - intros d names Hd Hn. destruct (src_names _ _ Hd Hn) as [[-> ->]|[-> ->]];
      split; apply (bool_decide_unpack _); vm_compute; exact I.
  - intros d names name md Hd Hn Hin. destruct (src_names _ _ Hd Hn) as [[-> ->]|[-> ->]];
      repeat (apply elem_of_cons in Hin as [->|Hin]; [vm_compute; intros [= <-]; try discriminate; intros _; right; by left|]);
      by apply not_elem_of_nil in Hin.
  - intros p q mdp mdq Hp%src_tree_path Hq%src_tree_path.
    repeat (apply elem_of_cons in Hp as [->|Hp]; [repeat (apply elem_of_cons in Hq as [->|Hq];
      [vm_compute; intros [= <-] [= <-]; try discriminate; intros _; split_and!; (reflexivity || discriminate)|]); by apply not_elem_of_nil in Hq|]).
    by apply not_elem_of_nil in Hp.
Qed.

Lemma build_open_tree_witness :
  exists img3 desc pfs, build_initial_rootfs Zstd src empty_image latest = Ok (img3, desc) /\
    PuzzleFS_open img3 latest None = Ok pfs /\ image_of_tree src pfs.
Proof.
  exact (build_open_tree Zstd (fun b => b ∈ build_universe Zstd) src src_dirs empty_image image0 (built Zstd).1.1.1 latest
           manifest0 (built Zstd).2 scan0 (built Zstd).1.1.2 (built Zstd).1.2 (blob_of Zstd)
           (first_build_ok Zstd (or_intror eq_refl)) src_tree).
Defined.

Lemma build_delta_well_formed_witness :
  wf_rootfs (rootfs_of Zstd) /\
  exists m, Rootfs_fill_capnp (rootfs_of Zstd) default_Rootfs = Ok m /\ Rootfs_from_capnp m = Ok (rootfs_of Zstd).
Proof.
  exact (build_delta_well_formed Zstd src image0 (built Zstd).1.1.1 None manifest0 (built Zstd).2 (built Zstd).1.1.2
           (built Zstd).1.2 (mkMetadata (S_IFDIR + 493) 100 0 0 4096 0) eq_refl eq_refl (built_ok Zstd (or_intror eq_refl))
           (fb_limits _ _ _ _ _ _ _ _ _ _ _ _ _ (first_build_ok Zstd (or_intror eq_refl)))).
Defined.

(** ** A delta *)

Definition base_rootfs : Rootfs := rootfs_of Noop.
Definition delta_layer : list Inode := (delta_built messages).1.1.2.
Definition stacked_rootfs : Rootfs := delta_rootfs base_rootfs messages.
Definition delta_blob : bytes := get_ok [] (serialize_metadata stacked_rootfs).
Definition delta_universe : list bytes :=
  remove_dups (delta_blob :: ((fun nf => bf_data nf.2) <$> map_to_list (img_blobs (delta_built messages).1.1.1))).

Lemma base_represented : represents (pfs_rootfs (base_pfs messages)) base_rootfs.
Proof.
  destruct (Rootfs_fill_from base_rootfs (rootfs_of_wf Noop (or_introl eq_refl))) as (m & Hm & _).
  exists m. split; [exact Hm|].
  assert (m = message Noop) as ->.
  { assert (get_ok default_Rootfs (Rootfs_fill_capnp base_rootfs default_Rootfs) = message Noop) as Heq
      by (vm_compute; reflexivity). by rewrite Hm in Heq. }
  vm_compute. reflexivity.
Qed.

Lemma stacked_searchable : searchable stacked_rootfs.
Proof.
  split; [apply (bool_decide_unpack _); vm_compute; exact I|].
  assert (Forall (fun l => bool_decide (l ≠ []) = true) (rf_metadatas stacked_rootfs)) as Hne
    by (apply (bool_decide_unpack _); vm_compute; exact I).
  assert (Forall (fun l => Sorted N.lt (i_ino <$> l)) (rf_metadatas stacked_rootfs)) as Hs
    by (vm_compute; repeat constructor).
  rewrite Forall_forall in *. intros l Hl. specialize (Hne l Hl).
  apply bool_decide_eq_true in Hne. split; [exact Hne|].
  apply Sorted_StronglySorted; [|by apply Hs]. intros a b c. lia.
Qed.

Lemma base_empty_ok :
  get_empty_manifest (base_image messages) = Ok ((base_empty messages).1, (base_empty messages).2).
Proof. rewrite <-surjective_pairing. unfold base_empty. apply ok_get. vm_compute. reflexivity. Qed.

Lemma base_pfs_ok : PuzzleFS_open (base_empty messages).1 latest None = Ok (base_pfs messages).
Proof. unfold base_pfs. apply ok_get. vm_compute. reflexivity. Qed.

Lemma delta_built_ok :
  build_delta (F := host_of host_table2) (CD := cdc_toy (H := host_of host_table2)) (WD := walk_of host_table2)
    Noop src (base_empty messages).1 (Some (base_pfs messages)) ∅ (base_empty messages).2
  = Ok ((delta_built messages).1.1.1, (delta_built messages).1.1.2, (delta_built messages).1.2, (delta_built messages).2).
Proof. rewrite <-!surjective_pairing. unfold delta_built. apply ok_get. vm_compute. reflexivity. Qed.

Lemma delta_blob_ok : serialize_metadata stacked_rootfs = Ok delta_blob.
Proof. unfold delta_blob. apply ok_get. vm_compute. reflexivity. Qed.

Lemma delta_healthy : healthy (fun b => b ∈ delta_universe) (delta_built messages).1.1.1.
Proof. apply healthyb_ok. vm_compute. reflexivity. Qed.

Lemma delta_blob_in : delta_blob ∈ delta_universe.
Proof. unfold delta_universe. rewrite elem_of_remove_dups. left. Qed.


(** ** Building, sealing and extracting from the command line *)

Definition build_args : BuildArgs := mkBuildArgs (bstr "/src") (bstr "img:latest") None false.

Definition cli_built : Image oci_index * bytes := get_ok (empty_image, []) (build_image build_args latest empty_image).
Definition published : Image oci_index := cli_built.1.
Definition printed : bytes := cli_built.2.

Lemma cli_built_ok : build_image build_args latest empty_image = Ok (published, printed).
Proof. unfold published, printed. rewrite <-surjective_pairing. apply ok_get. vm_compute. reflexivity. Qed.

Definition manifest_name : bytes := get_ok [] (image_manifest_digest published latest).
Definition manifest_file : BlobFile := default (mkBlobFile [] None) (img_blobs published !! manifest_name).

Lemma manifest_name_ok : image_manifest_digest published latest = Ok manifest_name.
Proof. apply ok_get. vm_compute. reflexivity. Qed.

Lemma manifest_file_ok : img_blobs published !! manifest_name = Some manifest_file.
Proof.
  assert (bool_decide (is_Some (img_blobs published !! manifest_name)) = true) as Hs by (vm_compute; reflexivity).
  unfold manifest_file. destruct (img_blobs published !! manifest_name); [reflexivity|].
  apply bool_decide_eq_true in Hs. by destruct Hs.
Qed.

Lemma build_image_digest_enables_witness :
  exists root, hex_decode printed = Ok root /\ len root = SHA256_BLOCK_SIZE /\
    exists img', enable_and_check_verity_for_file published manifest_name manifest_file root = (img', Ok ()) /\
      measured img' manifest_name root.
Proof.
  exact (build_image_digest_enables build_args empty_image published printed latest manifest_name manifest_file
           cli_built_ok manifest_name_ok manifest_file_ok ltac:(vm_compute; reflexivity) eq_refl).
Defined.

Definition sealing : Image oci_index * Result () := enable_fs_verity published latest printed.

Lemma sealing_ok : enable_fs_verity published latest printed = (sealing.1, Ok ()).
Proof.
  assert (is_ok sealing.2 = true) as Hok by (vm_compute; reflexivity). fold sealing.
  destruct sealing as [img [[]| | |]]; [reflexivity | discriminate Hok..].
Qed.

Lemma enable_fs_verity_opens_witness :
  seals published sealing.1 /\
  exists root pfs vd, hex_decode printed = Ok root /\ PuzzleFS_open sealing.1 latest (Some root) = Ok pfs /\
    pfs_verity_data pfs = Some vd /\
    forall chunk, is_Some (vd !! br_digest chunk) -> verified sealing.1 (pfs_verity_data pfs) chunk.
Proof. exact (enable_fs_verity_opens published sealing.1 latest printed sealing_ok). Defined.

Definition root_hash : bytes := get_ok [] (hex_decode printed).
Definition sealed_pfs : PuzzleFS := get_ok (no_pfs messages) (PuzzleFS_open sealing.1 latest (Some root_hash)).

Lemma sealed_pfs_ok : PuzzleFS_open sealing.1 latest (Some root_hash) = Ok sealed_pfs.
Proof. apply ok_get. vm_compute. reflexivity. Qed.

Lemma PuzzleFS_open_verified_witness :
  exists mname rname rverity f vd, image_manifest_digest sealing.1 latest = Ok mname /\ measured sealing.1 mname root_hash /\
    pfs_rootfs_digest sealing.1 latest = Ok rname /\ get_pfs_rootfs_verity sealing.1 latest = Ok rverity /\
    img_blobs sealing.1 !! rname = Some f /\ bf_verity f = Some rverity /\ len rverity = SHA256_BLOCK_SIZE /\
    RootfsReader_open (bf_data f) = Ok (pfs_rootfs sealed_pfs) /\
    get_verity_data (pfs_rootfs sealed_pfs) = Ok vd /\ pfs_verity_data sealed_pfs = Some vd /\
    pfs_oci sealed_pfs = sealing.1.
Proof. exact (PuzzleFS_open_verified sealing.1 latest root_hash sealed_pfs sealed_pfs_ok). Defined.

Definition first_chunk : BlobRef := mkBlobRef (sha256 (bstr "hello, p")) 0 false.
Definition sealed_verity : VerityData := default ∅ (pfs_verity_data sealed_pfs).

Lemma sealed_measurements : sealed_ok sealing.1.
Proof.
  assert (Forall (fun nf => bf_verity nf.2 = None \/ bf_verity nf.2 = Some (fs_verity_sha256 (bf_data nf.2)))
            (map_to_list (img_blobs sealing.1))) as Hall by (apply (bool_decide_unpack _); vm_compute; exact I).
  intros n f Hf m Hm. rewrite Forall_forall in Hall. apply elem_of_map_to_list in Hf.
  destruct (Hall (n, f) Hf) as [H0|H0]; cbn [snd] in H0; congruence.
Qed.

Lemma sealed_collision_free f :
  f ∈ (map_to_list (img_blobs sealing.1)).*2 ->
  fs_verity_sha256 (bf_data f) = fs_verity_sha256 (bstr "hello, p") -> bf_data f = bstr "hello, p".
Proof.
  assert (Forall (fun f => fs_verity_sha256 (bf_data f) = fs_verity_sha256 (bstr "hello, p") -> bf_data f = bstr "hello, p")
            (map_to_list (img_blobs sealing.1)).*2) as Hall by (apply (bool_decide_unpack _); vm_compute; exact I).
  rewrite Forall_forall in Hall. apply Hall.
Qed.

Lemma first_chunk_read : fill_from_chunk sealing.1 first_chunk 3 4 (Some sealed_verity) = Ok (bstr "lo, ").
Proof. vm_compute. reflexivity. Qed.

Lemma first_chunk_listed : sealed_verity !! br_digest first_chunk = Some (fs_verity_sha256 (bstr "hello, p")).
Proof. vm_compute. reflexivity. Qed.

Lemma fill_from_chunk_verified_witness :
  exists f, img_blobs sealing.1 !! hex_encode (br_digest first_chunk) = Some f /\ bf_data f = bstr "hello, p" /\
    sealed_verity !! br_digest first_chunk = bf_verity f /\
    fill_from_chunk sealing.1 first_chunk 3 4 None = Ok (bstr "lo, ").
Proof.
  destruct (fill_from_chunk_verified sealing.1 first_chunk 3 4 sealed_verity (bstr "lo, ")
              sealed_measurements first_chunk_read) as (e & f & He & Hf & Hm & Hd & Hr & Hgood).
  exists f. split; [exact Hf|]. split; [|split; [congruence|exact Hr]].
  apply Hgood; [|exact sealed_collision_free]. pose proof first_chunk_listed. congruence.
Defined.

(** [hello] does not compress, so the digest announced for it is wrong. *)
Definition hello_put : Image oci_index * ImageManifest * (Descriptor * bytes * bool) :=
  get_ok (empty_image, empty_manifest, (blob_desc [], [], false))
    (put_blob Zstd empty_image hello empty_manifest MT_Chunk).

Lemma hello_put_ok :
  put_blob Zstd empty_image hello empty_manifest MT_Chunk
  = Ok (hello_put.1.1, hello_put.1.2, (hello_put.2.1.1, hello_put.2.1.2, hello_put.2.2)).
Proof. rewrite <-!surjective_pairing. unfold hello_put. apply ok_get. vm_compute. reflexivity. Qed.

Lemma hello_verity_supported : verity_supported = true.
Proof. vm_compute. reflexivity. Qed.

Lemma hello_new : img_blobs empty_image !! d_digest hello_put.2.1.1 = None.
Proof. vm_compute. reflexivity. Qed.

Lemma hello_compressed : compress_buf (C := Zstd) hello = Ok (frame hello, 16%N).
Proof. vm_compute. reflexivity. Qed.

Lemma hello_incompressible :
  (if negb (@c_is_noop Zstd) && (len hello <=? len (frame hello))%N then hello else frame hello) = hello.
Proof. vm_compute. reflexivity. Qed.

Lemma hello_verity_differs : fs_verity_sha256 hello ≠ fs_verity_sha256 (frame hello).
Proof. apply (bool_decide_unpack _). vm_compute. exact I. Qed.

Lemma put_blob_verity_digest_witness :
  exists f, img_blobs hello_put.1.1 !! d_digest hello_put.2.1.1 = Some f /\ bf_data f = hello /\
    (enable_and_check_verity_for_file hello_put.1.1 (d_digest hello_put.2.1.1) f hello_put.2.1.2).2
    = Err (InvalidFsVerityData (VerityMismatch (fs_verity_sha256 (frame hello)) (fs_verity_sha256 hello))).
Proof.
  destruct (put_blob_verity_digest Zstd empty_image hello_put.1.1 hello (frame hello) hello_put.2.1.2 empty_manifest hello_put.1.2
              MT_Chunk hello_put.2.1.1 hello_put.2.2 16 (or_intror eq_refl) eq_refl hello_verity_supported hello_put_ok hello_new hello_compressed)
    as (f & Hf & Hv & Hd & He).
  exists f. split; [exact Hf|]. rewrite hello_incompressible in Hd. split; [exact Hd|]. rewrite He, Hv, Hd.
  by rewrite (decide_False _ _ hello_verity_differs).
Defined.

Lemma extract_rootfs_confined_witness :
  Forall (fun te => Forall (inside out_dir) (effect_paths te.2))
    (x_log (extract_rootfs 9 published latest out_dir start).1) /\
  is_ok (extract_rootfs 9 published latest out_dir start).2 = true.
Proof.
  split; [exact (extract_rootfs_confined 9 published latest out_dir nothing ltac:(done)) | vm_compute; reflexivity].
Defined.
