(* ===== verification/DeltaWitnesses.v ===== *)
(** Deltas at concrete inputs: one of two hard links is removed from the host tree, and the delta
    image loses the other one. *)

From S2P Require Import Prelude Errors RustStd Capnp Format Digest InodeTable Wire Compression Oci Reader Walk Fuse Extractor FsStream Chunks Verity Builder BuildFacts BuildEnd BuildType BuildTree BuildImage Delta Main Concrete Witnesses BuildWitnesses.

Lemma add_whiteouts_exact_witness :
  exists b', add_whiteouts 100 [bstr "a"] [mkDirEnt 2 (bstr "a"); mkDirEnt 3 (bstr "b")] scan0 = Ok b' /\
    b_pfs_inodes b' = [new_whiteout 3].
Proof.
  destruct (b_dirs scan0 !! 100%N) as [d|] eqn:Hd; [|exfalso; revert Hd; vm_compute; discriminate].
  eexists. split; [exact (add_whiteouts_exact 100 [bstr "a"] [mkDirEnt 2 (bstr "a"); mkDirEnt 3 (bstr "b")] scan0 d Hd)|].
  vm_compute. reflexivity.
Defined.

(** The host tree without [/src/h], which was a hard link to [/src/a]. *)
Definition host_table3 : list (Path * HostNode) :=
  [(src, mkHostNode (mkMetadata (S_IFDIR + 493) 100 0 0 4096 0) [] [bstr "l"; bstr "b"; bstr "a"; bstr "d"] [] []);
   (src_at [bstr "a"], mkHostNode (mkMetadata (S_IFREG + 420) 101 1 2 16 0) hello [] [] [(bstr "user.k", bstr "v")]);
   (src_at [bstr "b"], mkHostNode (mkMetadata (S_IFREG + 384) 102 0 0 40 0) run [] [] []);
   (src_at [bstr "d"], mkHostNode (mkMetadata (S_IFDIR + 448) 103 0 0 4096 0) [] [bstr "e"] [] []);
   (src_at [bstr "d"; bstr "e"], mkHostNode (mkMetadata (S_IFREG + 420) 104 0 0 0 0) [] [] [] []);
   (src_at [bstr "l"], mkHostNode (mkMetadata (S_IFLNK + 511) 105 0 0 1 0) [] [] (bstr "a") [])].

Definition host3 : HostFs := host_of host_table3.
Definition cdc3 : StreamCDC := cdc_toy (H := host3).
Definition walk3 : WalkDir := walk_of host_table3.

(** The metadata the delta writes, added to the dictionary. *)
Definition unlinked_layer (ms : list capnp_Rootfs) : list Inode * VerityData :=
  let r := get_ok (empty_image, [], ∅, manifest0)
             (build_delta (W := wire_table ms) (F := host3) (CD := cdc3) (WD := walk3) Noop src (base_empty ms).1
                (Some (base_pfs ms)) ∅ (base_empty ms).2) in
  (r.1.1.2, r.1.2).

Definition unlinked_message : capnp_Rootfs :=
  let '(l, vd) := unlinked_layer messages in
  get_ok default_Rootfs (Rootfs_fill_capnp (mkRootfs (insert_layer (rf_metadatas base_rootfs) l)
    (vd ∪ rf_fs_verity_data base_rootfs) 3) default_Rootfs).

Definition messages3 : list capnp_Rootfs := Eval vm_compute in (messages ++ [unlinked_message]).

Definition unlinked_image : Image oci_index :=
  (get_ok (blob_desc [], empty_image)
     (add_rootfs_delta (W := wire_table messages3) (F := host3) (CD := cdc3) (WD := walk3) Noop src (base_image messages3)
        (bstr "v3") latest)).2.
Definition unlinked_pfs : PuzzleFS (W := wire_table messages3) :=
  get_ok (no_pfs messages3) (PuzzleFS_open (W := wire_table messages3) unlinked_image (bstr "v3") None).

(** The host still has [/src/a], and so has the base image; the delta image has lost it, although
    the directory still lists it. *)
Example unlinked_file_is_lost :
  (hn_data <$> host_find host_table3 (src_at [bstr "a"])) = Ok hello /\
  is_ok (PuzzleFS_lookup (W := wire_table messages3) (base_pfs messages3) (image_path [bstr "a"])) = true /\
  PuzzleFS_lookup (W := wire_table messages3) unlinked_pfs (image_path [bstr "a"]) = Err (from_errno ENOENT) /\
  is_ok (PuzzleFS_lookup (W := wire_table messages3) unlinked_pfs (image_path [bstr "b"])) = true.
Proof. vm_compute. auto. Qed.

Definition start3 : Build :=
  let md := mkMetadata (S_IFDIR + 493) 100 0 0 4096 0 in
  mkBuild {[ 100%N := mkDir 1 (mkDirList false []) md None ]} [] [] [] FilesystemStream_new ∅ 8.
Definition scanned3 : Build :=
  get_ok no_build (process_dirs (W := wire_table messages3) (F := host3) src (Some (base_pfs messages3))
                     [Ok src; Ok (src_at [bstr "d"])] start3).

Definition base_inode (p : Path) : Inode :=
  default (new_whiteout 0) (get_ok None (PuzzleFS_lookup (W := wire_table messages3) (base_pfs messages3) p)).
Definition root_list : DirList :=
  match i_mode (base_inode [RootDir]) with Mode_Dir dl => dl | _ => mkDirList false [] end.

Lemma delta_unlink_collides_witness :
  new_whiteout 2 ∈ b_pfs_inodes scanned3 /\
  exists f, f ∈ b_files scanned3 /\ f_ino f = 2%N /\ f_md f = mkMetadata (S_IFREG + 420) 101 1 2 16 0.
Proof.
  refine (delta_unlink_collides (W := wire_table messages3) (F := host3) src src [Ok (src_at [bstr "d"])] (base_pfs messages3)
           start3 scanned3 [RootDir] (image_path [bstr "a"]) (base_inode [RootDir]) (base_inode (image_path [bstr "a"]))
           root_list (mkDirEnt 2 (bstr "h")) [bstr "a"; bstr "b"; bstr "d"; bstr "l"] (bstr "a")
           (mkMetadata (S_IFREG + 420) 101 1 2 16 0) _ _ _ _ _ _ _ _ _ _ _ _ _ _ _ _ _).
  - apply ok_get. vm_compute. reflexivity.
  - vm_compute. reflexivity.
  - vm_compute. reflexivity.
  - vm_compute. reflexivity.
  - vm_compute. reflexivity.
  - apply (bool_decide_unpack _). vm_compute. exact I.
  - apply (bool_decide_unpack _). vm_compute. exact I.
  - apply (bool_decide_unpack _). vm_compute. exact I.
  - vm_compute. reflexivity.
  - vm_compute. reflexivity.
  - vm_compute. reflexivity.
  - vm_compute. discriminate.
  - vm_compute. reflexivity.
  - vm_compute. reflexivity.
  - vm_compute. reflexivity.
  - vm_compute. reflexivity.
  - intros name md Hin Hne. repeat (apply elem_of_cons in Hin as [->|Hin]; [try done; vm_compute; intros [= <-]; discriminate|]).
    by apply not_elem_of_nil in Hin.
Defined.
