(* ===== verification/ExtractWitnesses.v ===== *)
(** The theorems on extraction at concrete inputs: a target held in memory, and the image of the
    small host tree extracted into it. *)

From S2P Require Import Prelude Errors RustStd Capnp Format Digest InodeTable Wire Compression Oci Layout Reader Walk Fuse Extractor Target ExtractTree ExtractImage FsStream Chunks Verity Builder BuildFacts BuildEnd BuildType BuildTree BuildImage ImageTree BuildExtract Main Commands Concrete Witnesses BuildWitnesses.

(** ** A target in memory *)

(** Only the privileges matter for what an operation does to a tree. *)
Definition privileges (priv : bool) : TargetFs :=
  {| target := (); lstat _ _ := Panic; perform t _ := (t, Panic); runs_privileged := priv |}.

Definition memory_target (priv : bool) : TargetFs := {|
  target := TargetTree;
  lstat (v : TargetTree) p :=
    match node_at v p with
    | Some n => Ok (mkMetadata (if is_symlink n then S_IFLNK else S_IFREG) 1 0 0 0 0)
    | None => Err (OsError (errno_code ENOENT))
    end;
  perform (v : TargetTree) e :=
    match apply_effect (T := privileges priv) out_dir v e with
    | Some v => (v, Ok ())
    | None => (v, Err (OsError (errno_code EINVAL)))
    end;
  runs_privileged := priv
|}.

Program Definition memory_target_ok priv : TargetFsOk (memory_target priv) out_dir :=
  {| hosts (t : @target (memory_target priv)) v := t = v |}.
Next Obligation. intros priv t v p n -> Hn. cbn. rewrite Hn. eexists. split; [done|]. by destruct (is_symlink n). Qed.
Next Obligation. intros priv t v p d n -> Hp _ _ _. cbn. unfold node_at. rewrite Hp. by eexists. Qed.
Next Obligation.
  intros priv t v e v' -> He. cbn.
  change (apply_effect (T := privileges priv) out_dir v e = Some v') in He. rewrite He. by exists v'.
Qed.

#[export] Instance nix_stat_ok : NixStatOk nix_stat_toy.
Proof. intros d. cbn. pose proof (N.div_mod d 256). lia. Qed.

Lemma tree_may_copy names p : host_lookup src names = Some p -> may_copy (T := memory_target false) p = true.
Proof.
  intros (_ & Hp%src_tree_path & _)%(host_lookup_tree src src_dirs src_tree). revert p Hp. rewrite <-Forall_forall.
  apply (bool_decide_unpack _). vm_compute. exact I.
Qed.

Lemma build_extract_roundtrip_witness :
  exists img3 desc bound, build_initial_rootfs Zstd src empty_image latest = Ok (img3, desc) /\
    forall fuel, bound <= fuel ->
      exists st v, extract_rootfs (T := memory_target false) fuel img3 latest out_dir (mkExtract (memory_target false) (mkTree ∅ ∅) ∅ [])
        = (st, Ok ()) /\ x_target st = v /\ copied (T := memory_target false) (dir := out_dir) src v.
Proof.
  exact (build_extract_roundtrip (T := memory_target false) (TL := memory_target_ok false) Zstd
           (fun b => b ∈ build_universe Zstd) src src_dirs empty_image image0 (built Zstd).1.1.1 latest
           manifest0 (built Zstd).2 scan0 (built Zstd).1.1.2 (built Zstd).1.2 (blob_of Zstd)
           (mkTree ∅ ∅) (mkTree ∅ ∅)
           (first_build_ok Zstd (or_intror eq_refl)) src_tree tree_may_copy ltac:(done) eq_refl (or_introl eq_refl)).
Defined.

Lemma extract_rootfs_tree_witness :
  exists img3 pfs bound, PuzzleFS_open img3 latest None = Ok pfs /\
    forall fuel, bound <= fuel ->
      exists st v, extract_rootfs (T := memory_target false) fuel img3 latest out_dir (mkExtract (memory_target false) (mkTree ∅ ∅) ∅ [])
        = (st, Ok ()) /\ x_target st = v /\ same_tree (T := memory_target false) (dir := out_dir) pfs v.
Proof.
  destruct (first_build_image _ _ _ _ _ _ _ _ _ _ _ _ _ _ (first_build_ok Zstd (or_intror eq_refl)) src_tree)
    as (img3 & desc & pfs & _ & Hopen & Hvd & _ & _ & HI).
  destruct (extract_rootfs_tree (T := memory_target false) (TL := memory_target_ok false) pfs img3 latest
              (mkTree ∅ ∅) (mkTree ∅ ∅) ltac:(done) Hopen
              (image_extractable (T := memory_target false) src src_dirs src_tree pfs HI Hvd tree_may_copy)
              eq_refl (or_introl eq_refl)) as (bound & Hrun).
  by exists img3, pfs, bound.
Defined.

(** A set-user-ID program with a capability, extracted as root. *)
Definition setuid_file : Inode :=
  mkInode 2 (Mode_File two_chunks) 0 0 2541 (Some (mkAdditional [mkXattr capability (bstr "cap")] None)).

Lemma extract_loses_setuid_witness :
  exists st' v' n m, extract_entry (T := memory_target true) out_dir (Ok (entry [bstr "su"] setuid_file))
      (mkExtract (memory_target true) (start_tree (dir := out_dir)) ∅ []) = (st', Ok ()) /\
    x_target st' = v' /\ node_at v' (target_path (dir := out_dir) [bstr "su"]) = Some n /\ n_kind n = K_file content /\
    n_mode n = Some m /\ N.land m S_ISUID = 0%N /\ n_xattrs n !! capability = None.
Proof.
  apply (extract_loses_setuid (T := memory_target true) (TL := memory_target_ok true)
           (entry [bstr "su"] setuid_file) two_chunks content [bstr "su"]
           (mkExtract (memory_target true) (start_tree (dir := out_dir)) ∅ []) (start_tree (dir := out_dir)));
    try reflexivity; try done.
  - repeat constructor; (done || set_solver).
  - intros chunks [= <-]. split; [apply two_chunks_content | reflexivity].
  - intros k Hk. cbn in Hk. assert (k = 0) as -> by lia. exists (new_node K_dir). split; reflexivity.
Defined.

(** The copy of the host tree, by running the model: [h] and [a] are one file. *)
Definition copy_run := extract_rootfs (T := memory_target false) 20 published latest out_dir
  (mkExtract (memory_target false) (mkTree ∅ ∅) ∅ []).

Lemma copy_run_links :
  let v : TargetTree := x_target copy_run.1 in
  node_at v (out_dir ++ [Normal (bstr "h")]) = Some (mkNode (K_file hello) (Some 420%N) None {[ bstr "user.k" := bstr "v" ]}) /\
  t_links v !! (out_dir ++ [Normal (bstr "h")]) = Some (out_dir ++ [Normal (bstr "a")]).
Proof. vm_compute. split; reflexivity. Qed.

(** ** The commands, with the images of a disk by the paths of their directories *)

#[export] Instance store_toy : OciStore := {|
  disk := list (Path * Image oci_index);
  dir_handle := Path;
  disk_create_dir_all d _ := (d, Ok ());
  disk_canonicalize _ p := Ok (components p);
  open_ambient_dir _ p := Ok p;
  OciDir_ensure d h :=
    match List.find (fun kv => bool_decide (kv.1 = h)) d with
    | Some (_, img) => (d, Ok img)
    | None => ((h, empty_image) :: d, Ok empty_image)
    end;
  OciDir_open_with_external_blobs d h _ :=
    match List.find (fun kv => bool_decide (kv.1 = h)) d with
    | Some (_, img) => Ok img
    | None => Err MissingRootfs
    end;
  OciDir_read_index img := Ok (img_index img);
  write_back d p img := (p, img) :: d
|}.

Program Definition store_toy_ok : OciStoreOk store_toy :=
  {| holds (d : @disk _ store_toy) p img := List.find (fun kv => bool_decide (kv.1 = p)) d = Some (p, img) |}.
Next Obligation.
  cbn. intros d p h d' img [= <-]. destruct (List.find _ d) as [[q i]|] eqn:Hf.
  - intros [= <- <-]. rewrite Hf. apply find_some in Hf as [_ Hq%bool_decide_eq_true]. cbn in Hq. by subst.
  - intros [= <- <-]. cbn [List.find fst]. by rewrite bool_decide_eq_true_2.
Qed.
Next Obligation. cbn. intros d p img img' _. by rewrite bool_decide_eq_true_2. Qed.
Next Obligation. cbn. intros d p img Hf. exists p, (path_join_path p blob_path). by rewrite Hf. Qed.

Definition zstd_args : BuildArgs := mkBuildArgs (bstr "/src") (bstr "img:latest") None true.

Lemma build_extract_commands_witness :
  exists d2 printed bound, main_build zstd_args [] = Ok (d2, printed) /\
    forall fuel, bound <= fuel ->
      exists st v, main_extract (T := memory_target false) fuel (bstr "img:latest") (bstr "/out") d2
          (mkExtract (memory_target false) (mkTree ∅ ∅) ∅ []) = (st, Ok ()) /\
        x_target st = v /\ copied (T := memory_target false) (dir := out_dir) src v.
Proof.
  exact (build_extract_commands (T := memory_target false) (STL := store_toy_ok) (bstr "/out") (TL := memory_target_ok false)
           zstd_args (bstr "img") latest [] [(components (bstr "img"), empty_image)]
           (fun b => b ∈ build_universe Zstd) src_dirs empty_image image0 (built Zstd).1.1.1
           manifest0 (built Zstd).2 scan0 (built Zstd).1.1.2 (built Zstd).1.2 (blob_of Zstd)
           (mkTree ∅ ∅) (mkTree ∅ ∅) eq_refl eq_refl eq_refl
           (first_build_ok Zstd (or_intror eq_refl)) src_tree tree_may_copy ltac:(done) eq_refl (or_introl eq_refl)).
Defined.
