(* ===== verification/TreeWitnesses.v ===== *)
(** Whole trees at concrete inputs: the image of the small host tree served by FUSE, a delta over it, a
    history, and a delta over a base image without hard links.  The assumptions on a host given as a
    table, and on the numbers taken over from a base image, are decided by computation. *)

From S2P Require Import Prelude Errors RustStd Capnp Format Digest InodeTable Wire Compression Oci Reader Walk Fuse Extractor Target FsStream Chunks Verity Builder BuildFacts BuildEnd BuildType Delta BuildTree BuildImage Partial ImageTree FuseTree History DeltaImage DeltaExtract DeltaBase Main Concrete Witnesses BuildWitnesses DeltaWitnesses ExtractWitnesses.

(** ** The image of the tree, served *)

Lemma src_types names p md :
  host_lookup src names = Some p -> symlink_metadata p = Ok md -> is_Some (host_type md).
Proof.
  intros (_ & Hp%src_tree_path & _)%(host_lookup_tree src src_dirs src_tree) Hmd.
  assert (Forall (fun p => match symlink_metadata p with Ok md => is_Some (host_type md) | _ => True end) (fst <$> host_table)) as Hall
    by (repeat constructor; eexists; reflexivity).
  rewrite Forall_forall in Hall. specialize (Hall p Hp). by rewrite Hmd in Hall.
Qed.

Lemma build_mount_tree_witness :
  exists img3 desc pfs, build_initial_rootfs Zstd src empty_image latest = Ok (img3, desc) /\ PuzzleFS_open img3 latest None = Ok pfs /\
    forall names,
      match host_lookup src names with
      | Some p => exists ino, fuse_resolve pfs 1 names = Ok ino /\ serves pfs names p ino
      | None => exists code, fuse_resolve pfs 1 names = Err code /\ (code = errno_code ENOENT \/ code = errno_code ENOTDIR)
      end.
Proof.
  exact (build_mount_tree Zstd (fun b => b ∈ build_universe Zstd) src src_dirs empty_image image0 (built Zstd).1.1.1 latest
           manifest0 (built Zstd).2 scan0 (built Zstd).1.1.2 (built Zstd).1.2 (blob_of Zstd)
           (first_build_ok Zstd (or_intror eq_refl)) src_tree src_types ltac:(done)).
Defined.

(** ** Hosts given as tables *)

#[export] Instance Metadata_eq_dec : EqDecision Metadata.
Proof. solve_decision. Defined.
#[export] Instance io_error_eq_dec : EqDecision io_error.
Proof. solve_decision. Defined.
#[export] Instance Xattr_eq_dec' : EqDecision Xattr.
Proof. solve_decision. Defined.
#[export] Instance InodeAdditional_eq_dec' : EqDecision InodeAdditional.
Proof. solve_decision. Defined.
#[export] Instance outcome_eq_dec {E A} `{EqDecision E, EqDecision A} : EqDecision (outcome E A).
Proof. solve_decision. Defined.

Section table.
Context (t : list (Path * HostNode)) (rootfs : Path) (dirs : list Path).

#[local] Instance table_host : HostFs := host_of t.
#[local] Instance table_walk : WalkDir := walk_of t.

(** The directories with their names, and all paths of the tree. *)
Definition dir_names : list (Path * list bytes) := (fun d => (d, get_ok [] (sorted_dirents d))) <$> dirs.
Definition all_paths : list Path := dirs ++ concat ((fun dn : Path * list bytes => path_join dn.1 <$> dn.2) <$> dir_names).

Lemma dir_names_elem d names : d ∈ dirs -> sorted_dirents d = Ok names -> (d, names) ∈ dir_names.
Proof. intros Hd Hn. apply list_elem_of_fmap. exists d. by rewrite Hn. Qed.

Lemma all_paths_elem p : tree_path dirs p -> p ∈ all_paths.
Proof.
  intros [Hp|(d & names & name & Hd & Hn & Hin & ->)]; apply elem_of_app; [by left|right].
  apply list_elem_of_In, in_concat. exists (path_join d <$> names). rewrite <-!list_elem_of_In. split.
  - apply list_elem_of_fmap. exists (d, names). split; [done|]. by apply dir_names_elem.
  - by apply list_elem_of_fmap_2.
Qed.

Definition is_dir_path (p : Path) : Prop := match symlink_metadata p with Ok md => md_is_dir md = true | _ => False end.
Definition closed_name (d : Path) (name : bytes) : Prop :=
  match symlink_metadata (path_join d name) with Ok md => md_is_dir md = true -> path_join d name ∈ dirs | _ => True end.
Definition same_file (p q : Path) : Prop :=
  match symlink_metadata p, symlink_metadata q with
  | Ok mdp, Ok mdq =>
      md_ino mdp = md_ino mdq ->
      mdp = mdq /\ InodeAdditional_new p mdp = InodeAdditional_new q mdq /\ fs_open p = fs_open q /\
      (md_is_dir mdp = true -> p = q)
  | _, _ => True
  end.

#[local] Instance is_dir_path_dec p : Decision (is_dir_path p).
Proof. unfold is_dir_path. destruct (symlink_metadata p); apply _. Defined.
#[local] Instance closed_name_dec d name : Decision (closed_name d name).
Proof. unfold closed_name. destruct (symlink_metadata _); apply _. Defined.
#[local] Instance same_file_dec p q : Decision (same_file p q).
Proof. unfold same_file. destruct (symlink_metadata p); [destruct (symlink_metadata q)|..]; apply _. Defined.

Definition tree_check : bool :=
  bool_decide (rootfs ∈ dirs) && bool_decide (rootfs ≠ []) && bool_decide (List.filter keep_dirs (fst <$> t) = dirs) &&
  bool_decide (NoDup dirs) && bool_decide (Forall (fun d => take (length rootfs) d = rootfs) dirs) &&
  bool_decide (Forall is_dir_path dirs) &&
  bool_decide (Forall (fun dn => NoDup dn.2 /\ Forall valid_name dn.2 /\ Forall (closed_name dn.1) dn.2) dir_names) &&
  bool_decide (Forall (fun p => Forall (same_file p) all_paths) all_paths).

Lemma table_tree : tree_check = true -> host_tree rootfs dirs.
Proof.
  unfold tree_check. rewrite !andb_true_iff, !bool_decide_eq_true, !Forall_forall.
  intros [[[[[[[Hroot Hne] Hwalk] Hnd] Hbelow] Hdir] Hnames] Hsame]. split; try done.
  - unfold walkdir_filter_entry, table_walk, walk_of. by rewrite Hwalk.
  - intros d Hd. exists (drop (length rootfs) d). rewrite <-(Hbelow d Hd) at 1. by rewrite take_drop.
  - intros d Hd. specialize (Hdir d Hd). unfold is_dir_path in Hdir. destruct (symlink_metadata d); try done. eauto.
  - intros d names Hd Hn. by destruct (Hnames _ (dir_names_elem d names Hd Hn)) as (? & ? & _).
  - intros d names name md Hd Hn Hin Hmd Hisd. destruct (Hnames _ (dir_names_elem d names Hd Hn)) as (_ & _ & Hc).
    cbn in Hc. rewrite Forall_forall in Hc. specialize (Hc name Hin). unfold closed_name in Hc. rewrite Hmd in Hc. auto.
  - intros p q mdp mdq Hp Hq Hmdp Hmdq. pose proof (Hsame p (all_paths_elem p Hp)) as Hs. rewrite Forall_forall in Hs.
    specialize (Hs q (all_paths_elem q Hq)). unfold same_file in Hs. by rewrite Hmdp, Hmdq in Hs.
Qed.

Lemma table_consistent :
  Forall (fun kv => md_is_file (hn_md kv.2) = true -> md_len (hn_md kv.2) = len (hn_data kv.2) /\ (len (hn_data kv.2) < 2 ^ 63)%N) t ->
  host_consistent.
Proof.
  intros Hall p md. unfold symlink_metadata, fs_open, table_host, host_of, host_find.
  destruct (List.find _ t) as [[q n]|] eqn:Hf; [|done]. apply find_some in Hf as [Hin _].
  cbn. intros [= <-] Hfile. exists (hn_data n). split; [done|]. rewrite List.Forall_forall in Hall. by apply (Hall (q, n) Hin).
Qed.

(** ** Numbers taken over from a base image *)

Context (existing : option PuzzleFS) (next0 : N).

Definition base_in_range (p : Path) : Prop :=
  p ≠ rootfs -> match base_number existing rootfs p with Some n => (n ≠ 1 /\ n < next0)%N | None => True end.
Definition base_links (p q : Path) : Prop :=
  p ≠ rootfs -> q ≠ rootfs ->
  match base_number existing rootfs p, symlink_metadata p, symlink_metadata q with
  | Some n, Ok mdp, Ok mdq => base_number existing rootfs q = Some n -> md_ino mdp = md_ino mdq
  | _, _, _ => True
  end.
Definition lost_entry (e : DirEnt) : Prop :=
  (de_ino e ≠ 1 /\ de_ino e < next0)%N /\
  Forall (fun p => p ≠ rootfs -> base_number existing rootfs p ≠ Some (de_ino e)) all_paths.
Definition lost_once (d d' : Path) : Prop :=
  Forall (fun e => Forall (fun e' => de_ino e = de_ino e' -> d = d') (lost_of existing rootfs d')) (lost_of existing rootfs d).

#[local] Instance base_in_range_dec p : Decision (base_in_range p).
Proof. unfold base_in_range. destruct (base_number existing rootfs p); apply _. Defined.
#[local] Instance base_links_dec p q : Decision (base_links p q).
Proof.
  unfold base_links. destruct (base_number existing rootfs p); [|apply _].
  destruct (symlink_metadata p); [destruct (symlink_metadata q)|..]; apply _.
Defined.
#[local] Instance lost_entry_dec e : Decision (lost_entry e).
Proof. unfold lost_entry. apply _. Defined.
#[local] Instance lost_once_dec d d' : Decision (lost_once d d').
Proof. unfold lost_once. apply _. Defined.

Definition collision_check : bool :=
  bool_decide (2 <= next0)%N && bool_decide (Forall base_in_range all_paths) &&
  bool_decide (Forall (fun p => Forall (base_links p) all_paths) all_paths) &&
  bool_decide (Forall (fun d => Forall lost_entry (lost_of existing rootfs d) /\ NoDup (de_ino <$> lost_of existing rootfs d) /\
                                Forall (lost_once d) dirs) dirs).

Lemma table_no_collisions : collision_check = true -> no_collisions existing rootfs dirs next0.
Proof.
  unfold collision_check. rewrite !andb_true_iff, !bool_decide_eq_true, !Forall_forall.
  intros [[[Hnext Hbase] Hlinks] Hlost]. split; try done.
  - intros p n Hp Hr Hn. specialize (Hbase p (all_paths_elem p Hp) Hr). by rewrite Hn in Hbase.
  - intros p q n mdp mdq Hp Hq Hpr Hqr Hn Hm Hmdp Hmdq. specialize (Hlinks p (all_paths_elem p Hp)).
    rewrite Forall_forall in Hlinks. specialize (Hlinks q (all_paths_elem q Hq) Hpr Hqr). rewrite Hn, Hmdp, Hmdq in Hlinks. auto.
  - intros d e Hd He. destruct (Hlost d Hd) as (Hl & _). rewrite Forall_forall in Hl. by destruct (Hl e He).
  - intros d Hd. by destruct (Hlost d Hd) as (_ & ? & _).
  - intros d d' e e' Hd Hd' He He'. destruct (Hlost d Hd) as (_ & _ & Ho). unfold lost_once in Ho. rewrite !Forall_forall in Ho.
    specialize (Ho d' Hd'). rewrite Forall_forall in Ho. specialize (Ho e He). rewrite Forall_forall in Ho. by apply Ho.
  - intros d e p Hd He Hp Hr. destruct (Hlost d Hd) as (Hl & _). rewrite Forall_forall in Hl.
    destruct (Hl e He) as [_ Hb]. rewrite Forall_forall in Hb. by apply Hb; [apply all_paths_elem|].
Qed.

End table.

(** ** The delta of the second tree *)

#[local] Instance host2 : HostFs := host_of host_table2.
#[local] Instance walk2 : WalkDir := walk_of host_table2.
#[local] Instance cdc2 : StreamCDC := cdc_toy (H := host2).

Definition first2 : N := get_ok 0%N (first_number (Some (base_pfs messages))).
Definition scan2 : Build := get_ok no_build (scan_tree src (Some (base_pfs messages))).
Definition universe2 : list bytes :=
  remove_dups (delta_universe ++
    ((fun c => match c with Ok c => (stored_form Noop (cd_data c)).1 | _ => [] end) <$>
       stream_cdc (b_fs_stream scan2) MIN_CHUNK_SIZE AVG_CHUNK_SIZE MAX_CHUNK_SIZE)).

Lemma base_searchable : searchable base_rootfs.
Proof.
  split; [by apply rootfs_of_wf; left|]. apply Forall_singleton.
  exact (build_delta_initial_spec (F := host_toy) (WD := walkdir_toy) (CD := cdc_toy (H := host_toy)) Noop src image0 _ ∅ _ manifest0 _ _ entries_bounded (built_ok Noop (or_introl eq_refl))).
Qed.

Lemma next_build_ok :
  next_build Noop (fun b => b ∈ universe2) src (base_image messages) (base_empty messages).1 (delta_built messages).1.1.1
    (bstr "v2") latest (base_empty messages).2 (delta_built messages).2 (base_pfs messages) base_rootfs first2 scan2
    delta_layer (delta_built messages).1.2 delta_blob.
Proof.
  constructor.
  - by left.
  - apply table_consistent. repeat constructor; discriminate.
  - apply base_empty_ok.
  - apply base_pfs_ok.
  - apply base_represented.
  - apply base_searchable.
  - done.
  - apply ok_get. vm_compute. reflexivity.
  - apply ok_get. vm_compute. reflexivity.
  - vm_compute. reflexivity.
  - apply healthyb_ok. vm_compute. reflexivity.
  - apply Forall_forall. intros c Hc. destruct c as [c| | |]; try done.
    unfold universe2. rewrite elem_of_remove_dups, elem_of_app. right. apply list_elem_of_fmap. by exists (Ok c).
  - apply delta_built_ok.
  - apply (bool_decide_unpack _). vm_compute. exact I.
  - split; [|vm_compute; reflexivity]. apply (wf_in_limits _ _ 3), (bool_decide_unpack _). vm_compute. exact I.
  - apply delta_blob_ok.
  - split; [vm_compute; reflexivity|]. unfold universe2. rewrite elem_of_remove_dups, elem_of_app. left. apply delta_blob_in.
  - apply insert_succeeds.
Qed.

Lemma delta_open_tree_witness :
  exists desc img3 pfs', add_rootfs_delta Noop src (base_image messages) (bstr "v2") latest = Ok (desc, img3) /\
    PuzzleFS_open img3 (bstr "v2") None = Ok pfs' /\
    delta_of_tree (lost_of (Some (base_pfs messages)) src) src pfs' /\
    ((forall d, d ∈ src_dirs -> lost_of (Some (base_pfs messages)) src d = []) -> image_of_tree src pfs').
Proof.
  refine (delta_open_tree Noop (fun b => b ∈ universe2) src src_dirs (base_image messages) (base_empty messages).1
            (delta_built messages).1.1.1 (bstr "v2") latest (base_empty messages).2 (delta_built messages).2
            (base_pfs messages) base_rootfs first2 scan2 delta_layer (delta_built messages).1.2 delta_blob
            next_build_ok _ _).
  - apply table_tree. vm_compute. reflexivity.
  - apply (table_no_collisions host_table2). vm_compute. reflexivity.
Defined.

(** [b] is gone from the root directory. *)
Lemma delta_removed_names_witness :
  exists desc img3 pfs' inode, add_rootfs_delta Noop src (base_image messages) (bstr "v2") latest = Ok (desc, img3) /\
    PuzzleFS_open img3 (bstr "v2") None = Ok pfs' /\
    (forall fuel dir st, (extract_rootfs (T := memory_target false) fuel img3 (bstr "v2") dir st).2 ≠ Ok ()) /\
    PuzzleFS_lookup pfs' (image_path []) = Ok (Some inode) /\
    handle pfs' (Req_readdir (i_ino inode) 0) = Ok (ReplyError (errno_code ENOENT)).
Proof.
  refine (delta_removed_names (T := memory_target false) Noop (fun b => b ∈ universe2) src src_dirs (base_image messages) (base_empty messages).1
            (delta_built messages).1.1.1 (bstr "v2") latest (base_empty messages).2 (delta_built messages).2
            (base_pfs messages) base_rootfs first2 scan2 delta_layer (delta_built messages).1.2 delta_blob [] src
            next_build_ok _ _ eq_refl _ _).
  - apply table_tree. vm_compute. reflexivity.
  - apply (table_no_collisions host_table2). vm_compute. reflexivity.
  - by left.
  - vm_compute. discriminate.
Defined.

(** The delta is published, then the base image is sealed with a wrong root hash, then there is no
    space left and a build that would publish the tag again fails; the base image is what it was. *)
Definition base_opened : PuzzleFS := get_ok (no_pfs messages) (PuzzleFS_open (base_image messages) latest None).

#[local] Instance room : BlobWrite :=
  blob_write_quota (size (img_blobs (get_ok (blob_desc [], empty_image) (add_rootfs_delta Noop src (base_image messages) (bstr "v2") latest)).2)).
#[local] Instance room_ok : BlobWriteOk room := blob_write_quota_ok _.

Definition delta_published : Image oci_index * Result Descriptor :=
  add_rootfs_delta_kept Noop src (base_image messages) (bstr "v2") latest.
Definition sealed_wrongly : Image oci_index := (enable_fs_verity delta_published.1 latest (bstr "00")).1.
Definition rebuilt : Image oci_index * Result Descriptor :=
  build_initial_rootfs_kept (F := host_toy) (CD := cdc_toy (H := host_toy)) (WD := walkdir_toy) Zstd src sealed_wrongly latest.

Lemma rebuilt_fails : rebuilt.2 = Err (IOError (OsError 28)) /\ delta_published.2 = Ok (get_ok (blob_desc []) delta_published.2).
Proof. split; vm_compute; reflexivity. Qed.

Lemma history_witness : history (base_image messages) [bstr "v2"] rebuilt.1.
Proof.
  pose proof rebuilt_fails as [Hr Hd]. change [bstr "v2"] with ([bstr "v2"] ++ [] ++ [] ++ []).
  eapply (next_command _ [bstr "v2"] delta_published.1).
  { change [bstr "v2"] with (History.published (bstr "v2") (Ok (get_ok (blob_desc []) delta_published.2))). rewrite <-Hd.
    exact (cmd_delta host2 cdc2 walk2 _ Noop src _ _ _ _ _ (surjective_pairing _)). }
  eapply (next_command _ [] sealed_wrongly); [exact (cmd_enable_fs_verity delta_published.1 latest (bstr "00") _ _ (surjective_pairing _))|].
  eapply (next_command _ []); [|apply no_command].
  change [] with (History.published latest (Err (IOError (OsError 28)))). rewrite <-Hr.
  exact (cmd_build host_toy (cdc_toy (H := host_toy)) walkdir_toy _ Zstd src _ latest _ _ (surjective_pairing _)).
Qed.

Lemma published_images_stay_witness :
  exists pfs', PuzzleFS_open rebuilt.1 latest None = Ok pfs' /\
    (forall ino, PuzzleFS_find_inode pfs' ino = PuzzleFS_find_inode base_opened ino) /\
    (forall p, PuzzleFS_lookup pfs' p = PuzzleFS_lookup base_opened p) /\
    (forall inode offset data r, file_read (pfs_oci base_opened) inode offset data (pfs_verity_data base_opened) = Ok r ->
       file_read (pfs_oci pfs') inode offset data (pfs_verity_data pfs') = Ok r).
Proof.
  refine (published_images_stay latest (base_image messages) rebuilt.1 [bstr "v2"] base_opened history_witness _ _).
  - apply (bool_decide_unpack _). vm_compute. exact I.
  - unfold base_opened. apply ok_get. vm_compute. reflexivity.
Defined.

(** ** A base image without hard links *)

Section unlinked.

#[local] Instance host_one : HostFs := host_of host_table3.
#[local] Instance walk_one : WalkDir := walk_of host_table3.
#[local] Instance cdc_one : StreamCDC := cdc_toy (H := host_one).

Definition one_built (ms : list capnp_Rootfs) :=
  get_ok (empty_image, [], ∅, manifest0) (build_delta (W := wire_table ms) Noop src image0 None ∅ manifest0).
Definition one_rootfs (ms : list capnp_Rootfs) : Rootfs := mkRootfs [(one_built ms).1.1.2] (one_built ms).1.2 3.
Definition one_image (ms : list capnp_Rootfs) : Image oci_index :=
  (get_ok (empty_image, blob_desc []) (build_initial_rootfs (W := wire_table ms) Noop src empty_image latest)).1.
Definition one_empty (ms : list capnp_Rootfs) : Image oci_index * ImageManifest :=
  get_ok (empty_image, manifest0) (get_empty_manifest (one_image ms)).
Definition one_pfs (ms : list capnp_Rootfs) : PuzzleFS (W := wire_table ms) :=
  get_ok (no_pfs ms) (PuzzleFS_open (W := wire_table ms) (one_empty ms).1 latest None).

(** The delta of the second tree over it. *)
Definition two_built (ms : list capnp_Rootfs) : Image oci_index * list Inode * VerityData * ImageManifest :=
  get_ok (empty_image, [], ∅, manifest0)
    (build_delta (W := wire_table ms) (F := host2) (CD := cdc2) (WD := walk2) Noop src (one_empty ms).1 (Some (one_pfs ms)) ∅
       (one_empty ms).2).
Definition two_rootfs (ms : list capnp_Rootfs) : Rootfs :=
  stack_rootfs (one_rootfs ms) (two_built ms).1.1.2 (two_built ms).1.2.

Definition to_message (r : Rootfs) : capnp_Rootfs := get_ok default_Rootfs (Rootfs_fill_capnp r default_Rootfs).
Definition one_message : capnp_Rootfs := Eval vm_compute in to_message (one_rootfs []).
Definition one_messages : list capnp_Rootfs := Eval vm_compute in [one_message; to_message (two_rootfs [one_message])].

#[local] Instance wire_one : CapnpWire := wire_table one_messages.
#[local] Instance wire_one_ok : CapnpWireOk wire_one := wire_table_ok _.

Definition one_scan : Build := get_ok no_build (scan_tree src None).
Definition one_blob : bytes := get_ok [] (serialize_metadata (one_rootfs one_messages)).
Definition one_universe : list bytes :=
  remove_dups ([bstr "{}"; one_blob] ++
    ((fun c => match c with Ok c => (stored_form Noop (cd_data c)).1 | _ => [] end) <$>
       stream_cdc (b_fs_stream one_scan) MIN_CHUNK_SIZE AVG_CHUNK_SIZE MAX_CHUNK_SIZE)).

Lemma one_build_ok :
  first_build Noop (fun b => b ∈ one_universe) src empty_image image0 (one_built one_messages).1.1.1 latest manifest0
    (one_built one_messages).2 one_scan (one_built one_messages).1.1.2 (one_built one_messages).1.2 one_blob.
Proof.
  constructor.
  - by left.
  - apply table_consistent. repeat constructor; discriminate.
  - by exists (mkMetadata (S_IFDIR + 493) 100 0 0 4096 0).
  - apply ok_get. vm_compute. reflexivity.
  - vm_compute. reflexivity.
  - apply manifest0_ok.
  - apply healthyb_ok. vm_compute. reflexivity.
  - apply Forall_forall. intros c Hc. destruct c as [c| | |]; try done.
    unfold one_universe. rewrite elem_of_remove_dups, elem_of_app. right. apply list_elem_of_fmap. by exists (Ok c).
  - rewrite <-!surjective_pairing. unfold one_built. apply ok_get. vm_compute. reflexivity.
  - apply (wf_in_limits _ _ 3), (bool_decide_unpack _). vm_compute. exact I.
  - unfold one_blob. apply ok_get. vm_compute. reflexivity.
  - split; [vm_compute; reflexivity|]. unfold one_universe. rewrite elem_of_remove_dups, elem_of_app. left. right. by left.
  - apply insert_succeeds.
Qed.

Lemma one_tree : host_tree src src_dirs.
Proof. apply table_tree. vm_compute. reflexivity. Qed.

(** No file of the tree has two names. *)
Definition distinct_files (p q : Path) : Prop :=
  match symlink_metadata p, symlink_metadata q with Ok mdp, Ok mdq => md_ino mdp = md_ino mdq -> p = q | _, _ => True end.

#[local] Instance distinct_files_dec p q : Decision (distinct_files p q).
Proof. unfold distinct_files. destruct (symlink_metadata p); [destruct (symlink_metadata q)|..]; apply _. Defined.

Lemma one_unlinked names names' p q mdp mdq :
  host_lookup src names = Some p -> host_lookup src names' = Some q ->
  symlink_metadata p = Ok mdp -> symlink_metadata q = Ok mdq -> md_ino mdp = md_ino mdq -> names = names'.
Proof.
  intros (-> & Hp & _)%(host_lookup_tree src src_dirs one_tree) (-> & Hq & _)%(host_lookup_tree src src_dirs one_tree).
  apply (all_paths_elem host_table3) in Hp, Hq.
  assert (Forall (fun p => Forall (distinct_files p) (all_paths host_table3 src_dirs)) (all_paths host_table3 src_dirs)) as Hd
    by (apply (bool_decide_unpack _); vm_compute; exact I).
  rewrite Forall_forall in Hd. specialize (Hd _ Hp). rewrite Forall_forall in Hd. specialize (Hd _ Hq).
  unfold distinct_files in Hd. intros Hmdp Hmdq Hino. rewrite Hmdp, Hmdq in Hd.
  apply Normal_fmap_inj. by apply (inj (app src)), Hd.
Qed.

Lemma src_dirs_listed p :
  p ∈ src_dirs -> p ≠ src ->
  exists d names name, d ∈ src_dirs /\ sorted_dirents (F := host2) d = Ok names /\ name ∈ names /\ p = path_join d name.
Proof.
  intros Hp Hne. apply elem_of_cons in Hp as [->|Hp%list_elem_of_singleton]; [done|].
  exists src, (get_ok [] (sorted_dirents (F := host2) src)), (bstr "d"). subst p.
  split; [by left|]. split; [by vm_compute|]. split; [|done]. apply (bool_decide_unpack _). vm_compute. exact I.
Qed.

Definition two_first : N := get_ok 0%N (first_number (Some (one_pfs one_messages))).
Definition two_scan : Build := get_ok no_build (scan_tree (F := host2) (WD := walk2) src (Some (one_pfs one_messages))).
Definition two_blob : bytes := get_ok [] (serialize_metadata (two_rootfs one_messages)).
Definition two_universe : list bytes :=
  remove_dups ((two_blob :: ((fun nf => bf_data nf.2) <$> map_to_list (img_blobs (one_empty one_messages).1))) ++
    ((fun c => match c with Ok c => (stored_form Noop (cd_data c)).1 | _ => [] end) <$>
       stream_cdc (StreamCDC := cdc2) (b_fs_stream two_scan) MIN_CHUNK_SIZE AVG_CHUNK_SIZE MAX_CHUNK_SIZE)).

Lemma one_opened :
  represents (pfs_rootfs (one_pfs one_messages)) (one_rootfs one_messages) /\ searchable (one_rootfs one_messages) /\
  image_of_tree src (one_pfs one_messages).
Proof.
  destruct (first_build_image Noop _ src src_dirs _ _ _ _ _ _ _ _ _ _ one_build_ok one_tree)
    as (img3 & desc & pfs & Hb & Ho & _ & Hrep & Hs & HI).
  assert (img3 = (one_empty one_messages).1) as ->.
  { assert ((one_empty one_messages).1 = one_image one_messages) as -> by (vm_compute; reflexivity).
    unfold one_image. fold wire_one. by rewrite Hb. }
  assert (one_pfs one_messages = pfs) as -> by (unfold one_pfs; fold wire_one; by rewrite Ho). exact (conj Hrep (conj Hs HI)).
Qed.

Lemma two_build_ok :
  next_build (F := host2) (CD := cdc2) (WD := walk2) Noop (fun b => b ∈ two_universe) src (one_image one_messages)
    (one_empty one_messages).1 (two_built one_messages).1.1.1 (bstr "v2") latest (one_empty one_messages).2
    (two_built one_messages).2 (one_pfs one_messages) (one_rootfs one_messages) two_first two_scan
    (two_built one_messages).1.1.2 (two_built one_messages).1.2 two_blob.
Proof.
  constructor.
  - by left.
  - apply table_consistent. repeat constructor; discriminate.
  - rewrite <-surjective_pairing. unfold one_empty. apply ok_get. vm_compute. reflexivity.
  - unfold one_pfs. apply ok_get. vm_compute. reflexivity.
  - apply one_opened.
  - apply one_opened.
  - done.
  - unfold two_first. apply ok_get. vm_compute. reflexivity.
  - unfold two_scan. apply ok_get. vm_compute. reflexivity.
  - vm_compute. reflexivity.
  - apply healthyb_ok. vm_compute. reflexivity.
  - apply Forall_forall. intros c Hc. destruct c as [c| | |]; try done.
    unfold two_universe. rewrite elem_of_remove_dups, elem_of_app. right. apply list_elem_of_fmap. by exists (Ok c).
  - rewrite <-!surjective_pairing. unfold two_built. apply ok_get. vm_compute. reflexivity.
  - apply (bool_decide_unpack _). vm_compute. exact I.
  - split; [|vm_compute; reflexivity]. apply (wf_in_limits _ _ 3), (bool_decide_unpack _). vm_compute. exact I.
  - unfold two_blob. apply ok_get. vm_compute. reflexivity.
  - split; [vm_compute; reflexivity|]. unfold two_universe. rewrite elem_of_remove_dups, elem_of_app. left. left.
  - apply insert_succeeds.
Qed.

Lemma delta_over_unlinked_base_witness :
  exists desc img3 pfs',
    add_rootfs_delta (F := host2) (CD := cdc2) (WD := walk2) Noop src (one_image one_messages) (bstr "v2") latest = Ok (desc, img3) /\
    PuzzleFS_open img3 (bstr "v2") None = Ok pfs' /\
    delta_of_tree (F := host2) (lost_of (F := host2) (Some (one_pfs one_messages)) src) src pfs' /\
    ((forall d, d ∈ src_dirs -> lost_of (F := host2) (Some (one_pfs one_messages)) src d = []) -> image_of_tree (F := host2) src pfs').
Proof.
  refine (delta_over_unlinked_base (F0 := host_one) (W0 := walk_one) (F := host2) (CD := cdc2) (WD := walk2)
            Noop (fun b => b ∈ two_universe) src src src_dirs src_dirs (one_image one_messages)
            (one_empty one_messages).1 (two_built one_messages).1.1.1 (bstr "v2") latest (one_empty one_messages).2
            (two_built one_messages).2 (one_pfs one_messages) (one_rootfs one_messages) two_first
            (get_ok 0%N (PuzzleFS_max_inode (one_pfs one_messages))) two_scan
            (two_built one_messages).1.1.2 (two_built one_messages).1.2 two_blob
            one_tree (proj2 (proj2 one_opened)) one_unlinked two_build_ok _ src_dirs_listed _ _).
  - apply (table_tree host_table2). vm_compute. reflexivity.
  - apply ok_get. vm_compute. reflexivity.
  - vm_compute. reflexivity.
Defined.

End unlinked.
