(* ===== verification/ReproducibleWitnesses.v ===== *)
(** Reproducible builds at a concrete input: the small host tree of the builder's witnesses, and the
    same tree on a second host, elsewhere, with other inode numbers, other sizes of directories, other
    orders of listing and another order of the hash map. *)

From S2P Require Import Prelude Errors RustStd Capnp Format Digest InodeTable Wire Compression Oci Reader Walk Fuse Extractor FsStream Chunks Builder BuildFacts BuildEnd BuildTree Reproducible Concrete Witnesses BuildWitnesses.

(** ** Hosts given by the names below a root *)

Definition rooted (root : Path) (t : list (list bytes * HostNode)) : list (Path * HostNode) := (fun kv => (at_ root kv.1, kv.2)) <$> t.

Lemma at_inj root names names' : at_ root names = at_ root names' -> names = names'.
Proof. unfold at_. intros Heq%(app_inv_head root). apply list_fmap_eq_inj in Heq; [done|]. by intros ? ? [= ->]. Qed.

Lemma host_find_rooted root t names :
  host_find (rooted root t) (at_ root names)
  = ok_or (snd <$> List.find (fun kv => bool_decide (kv.1 = names)) t) (OsError (errno_code ENOENT)).
Proof.
  unfold host_find. f_equal. induction t as [|[k n] t IH]; [done|]. cbn.
  destruct (decide (k = names)) as [->|Hne]; [by rewrite !bool_decide_true by done|].
  rewrite !bool_decide_false; [done|done|]. by intros ?%at_inj.
Qed.

(** What differs between the hosts. *)
Definition move_md (md : Metadata) : Metadata :=
  mkMetadata (md_mode md) (3 * md_ino md + 5) (md_uid md) (md_gid md) (if md_is_file md then md_len md else 0) (md_rdev md).
Definition move_node (n : HostNode) : HostNode :=
  mkHostNode (move_md (hn_md n)) (hn_data n) (reverse (hn_names n)) (hn_link n) (hn_xattrs n).
Definition move_table (t : list (list bytes * HostNode)) : list (list bytes * HostNode) := (fun kv => (kv.1, move_node kv.2)) <$> t.

Lemma host_find_moved r1 r2 t names :
  host_find (rooted r2 (move_table t)) (at_ r2 names) = move_node <$> host_find (rooted r1 t) (at_ r1 names).
Proof.
  rewrite !host_find_rooted. unfold move_table. induction t as [|[k n] t IH]; [done|]. cbn.
  destruct (decide (k = names)) as [->|Hne]; [by rewrite !bool_decide_true by done|]. by rewrite !bool_decide_false by done.
Qed.

Lemma move_same_md md : same_md md (move_md md).
Proof. split; cbn; try done. by intros ->. Qed.

Lemma moved_same_contents r1 r2 t dirs :
  r1 ≠ [] -> r2 ≠ [] -> Forall (fun kv => Forall valid_name (hn_names kv.2)) t ->
  List.filter (keep_dirs (F := host_of (rooted r1 t))) (fst <$> rooted r1 t) = at_ r1 <$> dirs ->
  List.filter (keep_dirs (F := host_of (rooted r2 (move_table t)))) (fst <$> rooted r2 (move_table t)) = at_ r2 <$> dirs ->
  same_contents (F1 := host_of (rooted r1 t)) (WD1 := walk_of (rooted r1 t)) (F2 := host_of (rooted r2 (move_table t)))
    (WD2 := walk_of (rooted r2 (move_table t))) r1 r2 dirs.
Proof.
  intros Hr1 Hr2 Hnames Hw1 Hw2. split; try done; cbn.
  - unfold walkdir_filter_entry, walk_of. by rewrite Hw1, <-list_fmap_compose.
  - unfold walkdir_filter_entry, walk_of. by rewrite Hw2, <-list_fmap_compose.
  - intros names. rewrite (host_find_moved r1). destruct (host_find _ _); cbn; try done. apply move_same_md.
  - intros n n' md1 md1' md2 md2'. rewrite !(host_find_moved r1).
    destruct (host_find (rooted r1 t) (at_ r1 n)), (host_find (rooted r1 t) (at_ r1 n')); cbn; try done.
    intros [= <-] [= <-] [= <-] [= <-]. cbn. lia.
  - intros names. rewrite (host_find_moved r1). by destruct (host_find _ _).
  - intros names. rewrite (host_find_moved r1). by destruct (host_find _ _).
  - intros names. rewrite (host_find_moved r1). by destruct (host_find _ _).
  - intros names key. rewrite (host_find_moved r1). by destruct (host_find _ _).
  - intros names. rewrite (host_find_moved r1), host_find_rooted. destruct (List.find _ t) as [[k n]|] eqn:Hf; [|done].
    apply find_some in Hf as [Hin _]. cbn. exists (hn_names n), (reverse (hn_names n)). split_and!; [done|done|by rewrite reverse_Permutation|].
    rewrite List.Forall_forall in Hnames. by apply (Hnames (k, n)).
Qed.

(** ** The second host *)

Definition mirror : Path := [RootDir; Normal (bstr "mnt"); Normal (bstr "copy")].
Definition src_nodes : list (list bytes * HostNode) :=
  (fun kv => (omap (fun c => match c with Normal n => Some n | _ => None end) (drop 2 kv.1), kv.2)) <$> host_table.
Definition mirror_table : list (Path * HostNode) := rooted mirror (move_table src_nodes).

Definition host_mirror : HostFs := host_of mirror_table.
Definition walkdir_mirror : WalkDir := walk_of mirror_table.
Definition hash_order_reverse : HashOrder := fun m => reverse (map_to_list m).*2.
Lemma hash_order_reverse_ok : HashOrderOk hash_order_reverse.
Proof. intros m. unfold hash_into_values, hash_order_reverse. apply reverse_Permutation. Qed.

Lemma src_nodes_ok : rooted src src_nodes = host_table.
Proof. by vm_compute. Qed.

Lemma mirror_same_contents :
  same_contents (F1 := host_toy) (WD1 := walkdir_toy) (F2 := host_mirror) (WD2 := walkdir_mirror) src mirror [[]; [bstr "d"]].
Proof.
  unfold host_toy, walkdir_toy, host_mirror, walkdir_mirror, mirror_table. rewrite <-src_nodes_ok.
  apply moved_same_contents; [done|done| |by vm_compute|by vm_compute].
  apply (bool_decide_unpack _). by vm_compute.
Qed.

(** The chunker of the witnesses depends on the data only. *)
Lemma cdc_toy_same (F1 F2 : HostFs) : same_chunker (F1 := F1) (F2 := F2) (CD1 := cdc_toy (H := F1)) (CD2 := cdc_toy (H := F2)).
Proof.
  intros ps1 ps2 Hps. unfold stream_cdc, cdc_toy.
  assert (stream_pending (F := F1) (stream_of ps1) = stream_pending (F := F2) (stream_of ps2)) as ->; [|done].
  unfold stream_of, stream_pending. rewrite !stream_of_chain. cbn. induction Hps as [|p q ps1 ps2 Hpq _ IH]; [done|].
  cbn. rewrite Hpq. by rewrite IH.
Qed.

Lemma build_reproducible_witness :
  is_ok (build_initial_rootfs Zstd src empty_image latest) = true /\
  build_initial_rootfs Zstd src empty_image latest
  = build_initial_rootfs (F := host_mirror) (CD := cdc_toy (H := host_mirror)) (WD := walkdir_mirror) (HO := hash_order_reverse)
      Zstd mirror empty_image latest.
Proof.
  split; [by vm_compute|].
  exact (build_reproducible (F1 := host_toy) (WD1 := walkdir_toy) (HO1 := hash_order_toy) (HOL2 := hash_order_reverse_ok)
           (cdc_toy_same host_toy host_mirror) Zstd src mirror [[]; [bstr "d"]] empty_image latest
           mirror_same_contents ltac:(eexists; split; reflexivity) ltac:(vm_compute; reflexivity)).
Defined.
