(* ===== verification/PartialWitnesses.v ===== *)
(** Builds that run out of space, at concrete inputs. *)

From S2P Require Import Prelude Errors RustStd Capnp Format Digest InodeTable Wire Compression Oci Layout Reader Walk Fuse Extractor FsStream Chunks Verity Builder BuildFacts BuildEnd BuildType Delta BuildTree BuildImage Partial History Main Commands UnitTests Concrete Witnesses BuildWitnesses DeltaWitnesses ExtractWitnesses TreeWitnesses.

(** Twelve bytes of which six could be written: the blob cannot be stored again. *)
Definition half_written : Image oci_index * Result (ImageManifest * (Descriptor * bytes * bool)) :=
  put_blob_kept (BW := blob_write_quota 0) Noop empty_image (bstr "hello world!") manifest0 MT_Chunk.

Lemma truncated_blob_sticks_witness :
  half_written.2 = Err (IOError (OsError 28)) /\
  put_blob_kept (BW := blob_write_quota 0) Noop half_written.1 (bstr "hello world!") manifest0 MT_Chunk
  = (half_written.1, Err (IOError (CustomError AlreadyExists))).
Proof.
  refine (truncated_blob_sticks (BW := blob_write_quota 0) Noop empty_image _ (bstr "hello world!") (bstr "hello ") (OsError 28) []
            manifest0 manifest0 MT_Chunk MT_Chunk (or_introl eq_refl) _ _ _ _ (no_command _)).
  - vm_compute. reflexivity.
  - vm_compute. reflexivity.
  - vm_compute. reflexivity.
  - apply (bool_decide_unpack _). vm_compute. exact I.
Defined.

(** ** The command on a disk that is full *)

Definition full_disk : @disk _ store_toy := [(components (bstr "img"), base_image messages)].
Definition full : BlobWrite := blob_write_quota (size (img_blobs (base_image messages)) + 1).

(** The build of the tree with compression needs more than one new blob. *)
Lemma full_fails : (main_build_kept (H0 := full) zstd_args full_disk).2 = Err (CliWire (IOError (OsError 28))).
Proof. vm_compute. reflexivity. Qed.

Lemma build_command_keeps_images_witness :
  exists img', Image_open (main_build_kept (H0 := full) zstd_args full_disk).1 (components (bstr "img")) = Ok img' /\
    reads_later latest base_opened img'.
Proof.
  refine (build_command_keeps_images (BW := full) (STL := store_toy_ok) zstd_args (bstr "img") latest latest full_disk full_disk (base_image messages)
            base_opened _ _ _ _).
  - vm_compute. reflexivity.
  - reflexivity.
  - unfold base_opened. apply ok_get. vm_compute. reflexivity.
  - by rewrite full_fails.
Defined.

(** With more room the command does what the model without failing writes does. *)
Definition enough : BlobWrite := blob_write_quota 100.

Lemma build_command_agrees_witness :
  is_ok (main_build_kept (H0 := enough) zstd_args full_disk).2 = true /\
  command_agrees (BW := enough) (main_build_kept (H0 := enough) zstd_args full_disk) (main_build zstd_args full_disk).
Proof.
  split; [vm_compute; reflexivity|]. exact (build_command_agrees (BW := enough) (BlobWriteOk0 := blob_write_quota_ok 100) zstd_args full_disk).
Defined.

(** ** The reproducibility test *)

(** A current directory without [blobs/sha256], and two builds whose stores have different blobs: the
    test passes. *)
Definition walk_nowhere : WalkDir := fun _ _ => [Err (OsError (errno_code ENOENT))].

Definition first_of_two : Result (Image oci_index * Descriptor) := build_test_fs src empty_image latest.
Definition second_of_two : Result (Image oci_index * Descriptor) := build_test_fs src (base_image messages) latest.
Definition blob_count (r : Result (Image oci_index * Descriptor)) : nat :=
  match r with Ok (img, _) => size (img_blobs img) | _ => 0 end.

Lemma reproducibility_test_vacuous_witness :
  blob_count first_of_two ≠ blob_count second_of_two /\
  compare_builds (WD := walk_nowhere) [first_of_two; second_of_two] None = Ok true.
Proof.
  split; [vm_compute; discriminate|].
  refine (reproducibility_test_vacuous (WD := walk_nowhere) [first_of_two; second_of_two] (OsError (errno_code ENOENT)) eq_refl _).
  repeat constructor; (eexists; apply (ok_get (empty_image, blob_desc [])); vm_compute; reflexivity).
Defined.
