(* ===== verification/MountWitnesses.v ===== *)
(** The theorems on mounting, and on reading arbitrary images, at concrete inputs: the image built
    from the host tree is mounted in the background, writable and in the foreground. *)

From S2P Require Import Prelude Errors RustStd Capnp Format Digest InodeTable Wire Compression Oci Reader ReaderSafe Walk Fuse Extractor FsStream Chunks Verity Builder BuildFacts BuildEnd BuildType BuildTree BuildImage Main Mount MountFacts MountLive MountForeground Concrete Witnesses BuildWitnesses.
From stdpp Require Import relations.

(** ** Reading arbitrary images *)

Lemma hex_decode_pairs_returns s : returns (hex_decode_pairs s).
Proof.
  remember (length s) as n eqn:Hn. revert s Hn. induction (lt_wf n) as [n _ IH]. intros [|c [|d s]] ->; [done..|].
  cbn [hex_decode_pairs]. apply returns_bind.
  - unfold hex_pair. apply returns_bind; [apply returns_ok_or|]. intros hi _.
    apply returns_bind; [apply returns_ok_or|]. intros lo _. apply returns_ok_or.
  - intros x _. apply returns_bind; [|done]. eapply IH; [|done]. cbn. lia.
Qed.

#[export] Instance env_returns : EnvReturns hex_concrete oci_dir_toy wire_built.
Proof.
  split; try done.
  - intros b. apply returns_ok_or.
  - intros s n. cbn. destruct (N.odd _); [done|]. case_decide; [|done].
    apply returns_bind; [apply hex_decode_pairs_returns|]. intros b _. by case_decide.
Qed.

Lemma PuzzleFS_open_returns_witness : returns (PuzzleFS_open empty_image (bstr "no such tag") None).
Proof. exact (PuzzleFS_open_returns empty_image (bstr "no such tag") None). Defined.

Lemma toy_decompress_bound s n off out : sk_decompress s n off = Ok out -> (len out <= n)%N.
Proof. cbn. intros [= <-]. rewrite len_slice. lia. Qed.

(** The inode of [/a] in the image, read five bytes from offset 3. *)
Definition inode_a : Inode :=
  default (new_whiteout 0) (List.find (fun i => bool_decide (i_ino i = 2%N)) (built Zstd).1.1.2).

Lemma file_read_in_bounds_witness :
  exists written, bstr "lo, p" = splice 0 written (bstr "xxxxx") /\ len written = 5%N /\ (5 <= len (bstr "xxxxx"))%N.
Proof.
  exact (file_read_in_bounds toy_decompress_bound (built Zstd).1.1.1 inode_a 3 (bstr "xxxxx") (bstr "lo, p") 5 None
           ltac:(vm_compute; reflexivity) ltac:(vm_compute; reflexivity)).
Defined.

(** ** Mounting *)

Definition mount_args (foreground writable : bool) : MountArgs :=
  mkMountArgs (bstr "img:latest") (bstr "/mnt") foreground None None None writable None.

Definition published_pfs : PuzzleFS := get_ok (no_pfs messages) (PuzzleFS_open published latest None).

Lemma published_opens : PuzzleFS_open published latest None = Ok published_pfs.
Proof. apply ok_get. vm_compute. reflexivity. Qed.

Lemma mount_background_truthful_witness :
  exists s, rtc bany (bg_start (main_mount (mount_args false false))) s /\ bg_command s = Exited 0 /\
    w_ready (bg_world s) = true.
Proof.
  destruct (mount_daemon_succeeds (mount_args false false) (bstr "img") latest None published published_pfs
              eq_refl eq_refl eq_refl eq_refl eq_refl published_opens) as (s & Hrun & Hex & Hf).
  exists s. split; [exact Hrun|]. split; [exact Hex|].
  exact (mount_background_truthful (mount_args false false) s eq_refl Hrun Hex Hf).
Defined.


(** Both a daemon that is killed and one whose file system is unmounted before INIT hang the command. *)
Lemma mount_background_hangs_witness :
  let start := bg_start (main_mount (mount_args false false)) in
  (exists s, rtc bany start s /\ abandoned s /\ bg_daemon s = Some Killed /\
     forall s', rtc bany s s' -> w_pipe_failed (bg_world s') = false -> s' = s) /\
  (exists s, rtc bany start s /\ abandoned s /\ bg_daemon s = Some (Exited 0) /\ w_pipe_failed (bg_world s) = false /\
     forall s', rtc bany s s' -> w_pipe_failed (bg_world s') = false -> s' = s).
Proof.
  destruct (abandoned_reachable (mount_args false false) (bstr "img") latest None published published_pfs
              eq_refl eq_refl eq_refl eq_refl eq_refl published_opens) as [(s & Hrun & Ha & Hd) (t & Hrun' & Ha' & Hd' & Hf)].
  split.
  - exists s. repeat split; try assumption; try apply Ha. intros s'.
    exact (mount_background_hangs (mount_args false false) s s' eq_refl Hrun Ha).
  - exists t. repeat split; try assumption; try apply Ha'. intros s'.
    exact (mount_background_hangs (mount_args false false) t s' eq_refl Hrun' Ha').
Defined.

Lemma mount_writable_ignores_overlay_failure_witness :
  exists s upper, rtc bany (bg_start (main_mount (mount_args false true))) s /\ bg_command s = Exited 0 /\
    w_pipe_failed (bg_world s) = false /\
    last (w_log (bg_world s))
    = Some (SC_overlay_mount (components (bstr "/mnt/ro")) upper (components (bstr "/mnt/work")) (components (bstr "/mnt")),
            Err (OsError (errno_code ENOENT))).
Proof.
  exact (mount_writable_ignores_overlay_failure (mount_args false true) (bstr "img") latest None published published_pfs
           (components (bstr "/mnt")) (OsError (errno_code ENOENT)) eq_refl eq_refl eq_refl eq_refl published_opens).
Defined.

Lemma mount_foreground_ends_witness :
  exists s, rtc fstep (fg_start (main_mount (mount_args true false))) s /\ fg_main s = Exited 0 /\
    (fg_pressed s = true \/ w_ended (fg_world s) = true).
Proof.
  destruct (mount_foreground_interrupted (mount_args true false) (bstr "img") latest None published published_pfs
              eq_refl eq_refl eq_refl eq_refl published_opens) as (s & Hrun & Hex).
  exists s. split; [exact Hrun|]. split; [exact Hex|].
  exact (proj1 (mount_foreground_ends (mount_args true false) s eq_refl eq_refl Hrun) Hex).
Defined.

(** ** Unmounting *)

(** An overlay on [/mnt], listed after an entry that cannot be read. *)
Definition mnt : bytes := bstr "/mnt".
Definition overlay_info : MountInfo := mkMountInfo mnt (bstr "overlay").
Definition mountinfo : list (io_Result MountInfo) :=
  [Ok (mkMountInfo (bstr "/") (bstr "ext4")); Err (CustomError OtherKind); Ok overlay_info].

Definition quiet : World := new_world.
Definition unmounted : World :=
  log_call (log_call quiet (SC_umount (components mnt)) (Ok ())) (SC_umount (path_join (components mnt) (bstr "ro"))) (Ok ()).

Lemma umount_run : rtc solo (quiet, given_mountinfo (main_umount mnt) (Ok mountinfo)) (unmounted, Ret (Ok ())).
Proof.
  eapply solo_l; [exact (ts_euid _ false _ _ true)|].
  eapply solo_l; [exact (ts_sys _ false _ (SC_umount (components mnt)) _ (Ok ()) eq_refl I)|].
  eapply solo_l; [exact (ts_sys _ false _ (SC_umount (path_join (components mnt) (bstr "ro"))) _ (Ok ()) eq_refl I)|].
  apply rtc_refl.
Qed.

Lemma mountinfo_first : first_mount mountinfo mnt overlay_info.
Proof.
  exists [Ok (mkMountInfo (bstr "/") (bstr "ext4")); Err (CustomError OtherKind)], []. split; [done|]. split; [done|].
  intros mi. rewrite !elem_of_cons, elem_of_nil. intros [[= ->]|[?|[]]]; done.
Qed.

Lemma main_umount_order_witness :
  w_log unmounted = [(SC_umount (components mnt), Ok ()); (SC_umount (path_join (components mnt) (bstr "ro")), Ok ())] /\
  umount_outcome mnt (bstr "overlay") (w_log unmounted) 0.
Proof.
  split; [reflexivity|].
  exact (main_umount_order mnt overlay_info mountinfo quiet unmounted (Ret (Ok ())) 0 mountinfo_first eq_refl umount_run eq_refl).
Defined.
